(* ===== verification/_CoqProject ===== *)
-Q . S2P
Prelude.v
Effects.v
Threads.v
Misc.v
X509.v
Eku.v
TcpOwner.v
Capi.v
Desktop.v
Signers.v
CapiAgent.v
ConcurrentAgent.v
Agents.v
Stack.v
Conn.v
App.v
Cygwin.v
XShell.v
Wsl.v
Clipboard.v
Mmap.v
Pageant.v
PageantFlow.v
Pipe.v
ProcessNotify.v
Wsl2.v
VSock.v
Menus.v
Relay.v
MainProg.v
Applications.v
