(* ===== verification/Prelude.v ===== *)
(** * KeyBridge: a verification library

    KeyBridge (src/) is a Windows tray program that serves the certificates of
    the user's store and smart cards as an SSH agent, over six transports, and
    that can instead relay stdin and stdout to a named pipe.  This library is a
    shallow embedding of all of its Go code in Rocq, with theorems about it.

    ** How code is modelled

    Effects.v defines [prog E A], a free monad over an indexed family [E] of
    calls: the syscalls, the calls of third-party packages, channels, locks and
    the fields that several goroutines share.  A Go function is a [prog] whose
    tree is that of the source: early returns are [match] on the error, [defer]
    runs on return and on panic, [for] is [loop] or [for_range], and a run-time
    panic is [Panic].  [option error] is Go's [error]; integers are [Z] with
    [wrap] where Go wraps; bytes are [Byte.byte].

    Each file has an environment ([env E S]) for its calls: a ghost state, for
    each call a precondition [may] (what the caller owes: a handle is open, a
    client may be served), and a relation [does] (what the callee may answer).
    [wp] is total and [wlp] partial correctness against every answer the
    environment allows; [wp_exec] is their soundness with respect to the
    executions [exec], and [wlp_exec] lets a postcondition speak of the
    execution.  A ghost state may hold the calls made so far with their answers
    ([recorded]).  So "is closed on every path" and "is only called when"
    are both proved by one weakest precondition.  [wp] theorems include
    termination; [wlp] is used exactly for the loops that serve until the
    context is cancelled (accept loops, watcher, dispatcher, tray events) and
    for the dialling loop, which polls as long as the pipe is missing.  No
    definition uses fuel; [run] has a bound on loop iterations, and is used to
    evaluate concrete runs in examples only.

    ** Files

    - Prelude.v: integers, bytes, byte orders, errors, counting, tactics.
    - Effects.v: programs, environments, the program logic, embedding of one
      component's calls in another's ([translate], [wp_translate]).
    - Threads.v: pools of goroutines that run programs with small steps and
      share a state under a mutex.  The ghost history of a pool has the state at
      each lock and at the unlock after it, so a specification of a critical
      section relates the two; [thread_env] is what one goroutine sees of it.
      Safety, progress, termination, atomicity.
    - Misc.v: utils/misc.go.
    - X509.v, Eku.v: certificates; sshagent/eku.go.
    - TcpOwner.v: utils/tcpowner.go, and GetUserSID of utils/security.go.
    - Capi.v: capi/wincapi.go.
    - Desktop.v: utils/notification.go, scardsvr.go, uac.go, dpi.go,
      security.go, deadline.go.
    - Signers.v: sshagent/rsa.go, ecdsa.go.
    - CapiAgent.v: sshagent/capi_agent.go, certificate.go; the methods that lock
      are specified in [monitor_env], where other goroutines change the agent
      whenever the mutex is free.
    - ConcurrentAgent.v: any number of clients' requests to that agent at once.
    - Agents.v: Module KeyRing is sshagent/keyring_agent.go, Module Wrapped
      sshagent/wrapped_agent.go, Module HV sshagent/hyperv.go and
      utils/hyperv.go; sshagent/server.go.  The record [Agent] is the interface
      agent.Agent: the wrapped agent is verified against it.
    - Stack.v: the stack of agents main builds: wrapped(key ring, CAPI agent).
    - Conn.v: byte streams and io.ReadFull.
    - App.v: app/app.go, and what the accept loops share: the ghost state of
      connections that are owned, served or refused, the count of the wait
      group, listeners, files, windows, and the fields menus read.
    - Cygwin.v, Wsl.v, Pipe.v: the [Run] of app/cygwin.go, wsl.go, pipe.go.
    - XShell.v: app/xshell.go, utils/xagent.go, utils/window.go.
    - Mmap.v, Pageant.v: utils/mmap.go, utils/pageant.go, app/pageant.go.
    - PageantFlow.v: the window's thread, the accept loop and the handlers of
      Pageant as one transition system over the channels they share.
    - Clipboard.v: utils/clipboard.go.
    - ProcessNotify.v, Wsl2.v, VSock.v: utils/processnotify.go, utils/wsl2.go,
      app/vsock.go.
    - Menus.v: menu.go, the menus of app/pubkey.go, and the [Menu] and [onClick]
      methods of the applications.
    - Relay.v: relay.go.
    - MainProg.v: main.go.
    - Applications.v: the list of applications main starts, the goroutine it
      starts for each, and [Run] of app/pubkey.go.

    The parts meet as follows.  main (MainProg.v) chooses an agent: the one of a
    host (Module HV of Agents.v) or the stack of a key ring and the CAPI agent
    (Stack.v).  It registers the menus (Menus.v) and starts the applications
    (Applications.v); each [Run] authenticates a connection in its own way and
    hands it to [SSHAgentHandler] (Agents.v), which runs on a goroutine of its
    own and calls the agent concurrently with the others (ConcurrentAgent.v).
    The CAPI agent signs through Signers.v and Capi.v.  The relay (Relay.v) is a
    program of its own.

    Four interfaces carry the promises from one part to the next: the record
    [Agent] (agent.Agent, to the wrapped agent and the handler); the class
    [Mutex] (an agent's lock, to the pools of Threads.v); the class
    [RequestChannel] (the queue behind the Pageant window, to [wndProc], which
    PageantFlow.v discharges); and the class [Service] ([Run] of an application,
    to the goroutine main starts, with one instance for each application).

    ** What is shown

    - Keys and certificates: a signature is only made of the given data with
      the requested key and algorithm, and announced only if it succeeded
      ([SignWithFlags_spec]); listed keys are the keys held, and those are made of
      exactly the certificates of the store that may be used ([List_spec]);
      certificate references, stores, key handles are accounted for on every
      path ([Close_frees], [LoadUserCerts_accounts], [Sign_key_lifecycle]); the
      signers label and encode signatures as their algorithm asks; the filter
      on key usages equals a declarative condition.
    - Authentication of clients: who is served and who is refused, for each
      transport ([wndProc_trusts_owner], [Run_authenticates],
      [xshellHandshake_spec], [Run_serves_cookie], [Run_refuses_others],
      [SameUserTCPConn_sound]).
    - Accept loops: no connection is lost or served twice, listeners and files
      are released, windows are given to DestroyWindow, and handlers have
      finished when [Run] returns, each with the exceptions that its theorem
      names ([Run_authenticates], [Run_serves_cookie], [Run_pageant]).  WSL serves
      a connection over TCP only after the calls of the owner check, which the
      ghost state records for each connection.
    - Protocol adapters: XShell's frames ([Read_refines], [Write_reassembles]),
      Pageant's shared memory ([memoryMapConn_session]), the bounds of raw
      memory ([scan_rows_in_bounds]), the clipboard ([SetClipBoard_balanced]).
    - Concurrency: for any number of clients no request of the CAPI agent sees
      another's half-done work ([agent_pool_safe]), every interleaving ends
      where some serial order ends ([agent_pool_atomic]), and all of them are
      served ([agent_pool_live]).  A request of the Pageant window is answered
      with its own response ([flow_answers], [pageant_client]), can always be
      answered while the accept loop runs ([flow_can_answer]), and the first one
      after it has stopped always blocks the window ([flow_wedges]).
    - Composition: the stack of agents does what its two members do on disjoint
      states ([stack_refines]); each application keeps the contract of the
      goroutine that runs it ([applications_are_services]), which does one
      execution of [Run] and reports the error that execution returned
      ([app_goroutine_spec]).
    - Types: XShell's adapter stays well-formed under every operation that does
      not fail to write, and what a failed write leaves is described
      ([proxy_stays_wf]).
    - Virtual machines: the ids are found in the command lines as a declarative
      condition on the text says ([GetVMIDs_spec]); the watcher's listeners match
      the machines there are.
    - User interface: menu ids do not clash, and nothing gets on the clipboard
      without consent ([menu_entries], [menu_consent]).
    - Relay: the transition system of the two goroutines keeps the data, ends,
      and exits with code 0 only as documented ([relay_faithful],
      [relay_exit_zero], [relay_terminates]).
    - [main_lifecycle]: start and shutdown of the whole program.

    Some theorems are about what the code does where it fails, among them
    [xshellHandshake_panics], [with_view_size_wraps], [Write_keeps_stale_bytes],
    [wsl2Watcher_leaves_listeners], [wsl2Watcher_never_retries] and
    [RandomString_bias].

    ** What is assumed

    Third-party and system code is never defined.  Pure functions of it
    (filepath.Join and VolumeName, PKCS#7 and ASN.1 parsing, SSH marshalling,
    UTF-16 encoding, GUID parsing, base64) are section variables; calls are
    events.  An environment's [does] states documented behaviour: a new handle
    is not an open one, an address is bound once, a blocked read returns some
    of the bytes sent, a wait for a wait group returns when its count is zero.

    ** What is not modelled

    The wire protocol of ServeAgent and of the client (a third-party package),
    the contents of dialogs drawn by Windows, log messages of the relay,
    addresses of callbacks and dynamic library handles (the [NewLazySystemDLL]
    and [NewProc] variables, which only name the procedures).  main calls
    [runRelay] as one event, whose program is Relay.v, and goes on only if package
    flag does not exit.  What ends the whole process from outside the language
    (an access beyond a mapped view, for which [wnd_env] has no answer) has no
    continuation.  In the relay, what a pipe says after its first end of file is
    read by nobody and has no step, and a write that stays blocked for ever is not
    modelled.

    Three groups of goroutines run interleaved: the relay's two, the threads of
    Pageant, and the handlers that call the CAPI agent.  The last are pools of
    a fixed but arbitrary size: a handler that starts later is one of the pool
    that has not moved yet.  The other goroutines run as atomic events ([Go],
    [GoWorker], [GoApp]); their bodies are programs verified on their own, and
    their interference is in the environments: a listener may fail at any time,
    the context may be cancelled at any time, [SelectMain] may find the
    agent stored, and a text of an application may change between two reads.  The memory model of Go is not modelled: the fields that menus
    and [Run] share without a lock are read and written as single events.  *)
From Stdlib Require Export ZArith Lia.
From Stdlib Require Export Strings.Byte.
From stdpp Require Export base tactics option list strings gmap pretty.

Declare Scope go_scope.
Delimit Scope go_scope with go.
#[export] Set Default Goal Selector "!".

(** ** Fixed-width integers

    A Go [uintN] is a [Z] between 0 and 2^N; [wrap] is the reduction every
    unsigned operation of Go performs. *)
Definition wrap (w z : Z) : Z := z mod 2 ^ w.
Abbreviation u8 := (wrap 8).
Abbreviation u16 := (wrap 16).
Abbreviation u32 := (wrap 32).
Abbreviation u64 := (wrap 64).

Lemma wrap_range w z : (0 <= w)%Z -> (0 <= wrap w z < 2 ^ w)%Z.
Proof. intros. unfold wrap. apply Z.mod_pos_bound. lia. Qed.

Lemma wrap_small w z : (0 <= z < 2 ^ w)%Z -> wrap w z = z.
Proof. intros. unfold wrap. by apply Z.mod_small. Qed.

(** ** Bytes *)
Abbreviation byte := Byte.byte.

#[export] Instance byte_eq_dec : EqDecision byte := Byte.byte_eq_dec.

Definition byte_val (b : byte) : Z := Z.of_N (Byte.to_N b).
Definition to_byte (z : Z) : byte :=
  match Byte.of_N (Z.to_N (z mod 256)) with Some b => b | None => Byte.x00 end.

Lemma byte_val_range b : (0 <= byte_val b < 256)%Z.
Proof. unfold byte_val. pose proof (Byte.to_N_bounded b). lia. Qed.

Lemma byte_val_to_byte z : byte_val (to_byte z) = (z mod 256)%Z.
Proof.
  unfold byte_val, to_byte.
  pose proof (Z.mod_pos_bound z 256 ltac:(lia)).
  destruct (Byte.of_N _) as [b|] eqn:E.
  - apply Byte.to_of_N in E. rewrite E. lia.
  - apply Byte.of_N_None_iff in E. lia.
Qed.

Lemma byte_val_inj b c : byte_val b = byte_val c -> b = c.
Proof.
  unfold byte_val. intros H%N2Z.inj.
  pose proof (Byte.of_to_N b). pose proof (Byte.of_to_N c). congruence.
Qed.

Lemma to_byte_val b : to_byte (byte_val b) = b.
Proof.
  apply byte_val_inj. rewrite byte_val_to_byte.
  apply Z.mod_small, byte_val_range.
Qed.

#[export] Instance byte_val_Inj : Inj (=) (=) byte_val.
Proof. intros b c. apply byte_val_inj. Qed.

(** ** Byte orders

    [le_uint]/[le_bytes] are encoding/binary's LittleEndian, [be_uint]/
    [be_bytes] its BigEndian, at any width. *)
Fixpoint le_uint (bs : list byte) : Z :=
  match bs with [] => 0 | b :: bs => byte_val b + 256 * le_uint bs end%Z.
Fixpoint le_bytes (n : nat) (z : Z) : list byte :=
  match n with O => [] | S n => to_byte z :: le_bytes n (z / 256) end%Z.
Definition be_uint (bs : list byte) : Z := le_uint (rev bs).
Definition be_bytes (n : nat) (z : Z) : list byte := rev (le_bytes n z).

Create Rewrite HintDb len.

Lemma length_le_bytes n z : length (le_bytes n z) = n.
Proof. revert z. induction n; simpl; congruence. Qed.

Lemma length_be_bytes n z : length (be_bytes n z) = n.
Proof. unfold be_bytes. by rewrite length_rev, length_le_bytes. Qed.

#[export] Hint Rewrite length_le_bytes length_be_bytes @length_app @length_rev
  @length_take @length_drop @length_replicate @length_cons @length_nil
  @length_map @length_fmap : len.
Ltac len := autorewrite with len in *; simpl in *; try lia.

Lemma le_uint_bound bs : (0 <= le_uint bs < 256 ^ Z.of_nat (length bs))%Z.
Proof.
  induction bs as [|b bs IH]; cbn [le_uint length]; [lia|].
  pose proof (byte_val_range b).
  rewrite Nat2Z.inj_succ, Z.pow_succ_r by lia. lia.
Qed.

Lemma be_uint_bound bs : (0 <= be_uint bs < 256 ^ Z.of_nat (length bs))%Z.
Proof. unfold be_uint. rewrite <-length_rev. apply le_uint_bound. Qed.

Lemma le_uint_app bs cs :
  le_uint (bs ++ cs) = (le_uint bs + 256 ^ Z.of_nat (length bs) * le_uint cs)%Z.
Proof.
  induction bs as [|b bs IH]; cbn [le_uint length app]; [lia|].
  rewrite IH, Nat2Z.inj_succ, Z.pow_succ_r by lia. lia.
Qed.

Lemma le_uint_bytes n z : le_uint (le_bytes n z) = (z mod 256 ^ Z.of_nat n)%Z.
Proof.
  revert z. induction n as [|n IH]; intros z; cbn [le_uint le_bytes].
  - by rewrite Z.mod_1_r.
  - rewrite IH, byte_val_to_byte, Nat2Z.inj_succ, Z.pow_succ_r by lia.
    rewrite Z.rem_mul_r by lia. lia.
Qed.

Lemma le_bytes_uint bs : le_bytes (length bs) (le_uint bs) = bs.
Proof.
  induction bs as [|b bs IH]; cbn [le_uint le_bytes length]; [done|].
  pose proof (byte_val_range b). f_equal.
  - apply byte_val_inj. rewrite byte_val_to_byte.
    rewrite Z.mul_comm, Z.mod_add by lia. by apply Z.mod_small.
  - rewrite Z.mul_comm, Z.div_add, Z.div_small by lia. exact IH.
Qed.

Lemma be_uint_bytes n z : be_uint (be_bytes n z) = (z mod 256 ^ Z.of_nat n)%Z.
Proof. unfold be_uint, be_bytes. by rewrite rev_involutive, le_uint_bytes. Qed.

Lemma be_bytes_uint bs : be_bytes (length bs) (be_uint bs) = bs.
Proof.
  unfold be_uint, be_bytes. rewrite <-(length_rev bs), le_bytes_uint.
  apply rev_involutive.
Qed.

Lemma be_uint_inj bs cs :
  length bs = length cs -> be_uint bs = be_uint cs -> bs = cs.
Proof.
  intros Hl H. rewrite <-(be_bytes_uint bs), <-(be_bytes_uint cs). congruence.
Qed.

(** ** Errors

    A Go [error] is [option error], [None] being nil.  The constructors are
    the error values the sources create or compare with: a message, a Windows
    error number (an interface holding [syscall.Errno(0)] is not nil), the
    sentinels of package io, the sentinels of the packages the sources call,
    and a [*net.OpError] that is a timeout; [ErrLib] is any other error a package outside the repository
    returns. *)
Inductive error : Type :=
| ErrorString (s : string)
| Errno (n : Z)
| EOF
| ErrUnexpectedEOF
| ErrClosedPipe
| ErrNotExist
| ErrWinioTimeout
| ErrPipeListenerClosed
| ErrExtensionUnsupported
| ErrNetTimeout
| ErrLib (n : Z).

#[export] Instance error_eq_dec : EqDecision error.
Proof. solve_decision. Defined.

(** syscall.EINVAL, which the conversions to C strings answer to a NUL. *)
Definition EINVAL : error := ErrLib 22.

(** ** Strings and slices

    A Go string is a sequence of bytes, [String.string]; [[]byte(s)] and
    [string(b)] are the conversions of the Standard Library. *)
Abbreviation bytes_of := String.list_byte_of_string.
Abbreviation string_of := String.string_of_list_byte.

Lemma bytes_of_inj s t : bytes_of s = bytes_of t -> s = t.
Proof.
  intros H. rewrite <-(String.string_of_list_byte_of_string s).
  rewrite H. apply String.string_of_list_byte_of_string.
Qed.

Lemma bytes_of_string_of l : bytes_of (string_of l) = l.
Proof. apply String.list_byte_of_string_of_list_byte. Qed.

Lemma bytes_of_app s t : bytes_of (s +:+ t) = bytes_of s ++ bytes_of t.
Proof.
  induction s as [|c s IH]; [done|].
  change (bytes_of (String c s +:+ t)) with (Ascii.byte_of_ascii c :: bytes_of (s +:+ t)).
  by rewrite IH.
Qed.

(** [copy(dst, src)]: the destination afterwards and the number of elements
    copied. *)
Definition go_copy {A} (dst src : list A) : list A * nat :=
  let n := Nat.min (length dst) (length src) in
  (take n src ++ drop n dst, n).

Lemma length_go_copy {A} (dst src : list A) :
  length (go_copy dst src).1 = length dst.
Proof. unfold go_copy. cbn [fst]. rewrite length_app, length_take, length_drop. lia. Qed.

(** ** Counting

    [count P l] is the number of elements of [l] satisfying [P]; resource
    accounting is stated with it. *)
Definition count {A} (P : A -> bool) (l : list A) : Z :=
  Z.of_nat (length (List.filter P l)).

Lemma count_nil {A} (P : A -> bool) : count P [] = 0%Z.
Proof. done. Qed.

Lemma count_cons {A} (P : A -> bool) x l :
  count P (x :: l) = ((if P x then 1 else 0) + count P l)%Z.
Proof. unfold count. simpl. destruct (P x); simpl; lia. Qed.

Lemma count_app {A} (P : A -> bool) l k :
  count P (l ++ k) = (count P l + count P k)%Z.
Proof. unfold count. rewrite List.filter_app, length_app. lia. Qed.

Lemma count_nonneg {A} (P : A -> bool) l : (0 <= count P l)%Z.
Proof. unfold count. lia. Qed.

Lemma count_map {A B} (P : B -> bool) (f : A -> B) l :
  count P (map f l) = count (fun x => P (f x)) l.
Proof.
  induction l as [|x l IH]; simpl; [done|]. by rewrite !count_cons, IH.
Qed.

Create Rewrite HintDb count.
#[export] Hint Rewrite @count_nil @count_cons @count_app @count_map : count.
Ltac count := autorewrite with count in *; simpl in *; try lia.

Lemma elem_here {A} (x : A) l : x ∈ x :: l.
Proof. apply elem_of_cons. by left. Qed.
#[export] Hint Resolve elem_here : core.

(** Dropping the one handle just opened restores the list of handles. *)
Lemma filter_fresh {A B} `{!EqDecision B} (f : A -> B) (h : B) (x : A) l :
  f x = h -> h ∉ f <$> l -> filter (fun y => f y <> h) (x :: l) = l.
Proof.
  intros Hx Hh. rewrite filter_cons, decide_False by auto. clear Hx.
  induction l as [|y l IH]; [done|]. rewrite fmap_cons, not_elem_of_cons in Hh.
  destruct Hh. rewrite filter_cons, decide_True by auto. by rewrite IH.
Qed.

Lemma filter_self {B} `{!EqDecision B} (h : B) l :
  h ∉ l -> filter (fun y => y <> h) (h :: l) = l.
Proof. intros Hh. apply (filter_fresh id); [done|]. by rewrite list_fmap_id. Qed.

(** ** Case analysis *)
Ltac destruct_match :=
  match goal with
  | |- context [match ?x with _ => _ end] => destruct x eqn:?
  end.
Ltac destruct_match_hyp H :=
  match type of H with
  | context [match ?x with _ => _ end] => destruct x eqn:?
  end.
