(* ===== verification/Effects.v ===== *)
(** Effectful Go code as a free monad of calls to the world outside the
    repository (Windows, third-party packages, other goroutines), with panics,
    loops and deferred calls, and a demonic program logic over it, in a total
    and a partial version. *)
From S2P Require Import Prelude.

Declare Scope prog_scope.
Delimit Scope prog_scope with prog.

(** ** Programs *)

(** What one iteration of a Go loop does: go on with new loop variables,
    leave the loop, or return from the function. *)
Inductive ctl (S R : Type) : Type :=
| Next (s : S)
| Break (s : S)
| Return (r : R).
Arguments Next {S R} s.
Arguments Break {S R} s.
Arguments Return {S R} r.

(** A program returns, panics, makes a call [e] whose answer the environment
    chooses, or runs a loop [for { body }] and continues with the variables
    the loop was left with ([inl]) or the value returned from inside it
    ([inr]). *)
Inductive prog (E : Type -> Type) (A : Type) : Type :=
| Ret (a : A)
| Panic (msg : string)
| Vis (X : Type) (e : E X) (k : X -> prog E A)
| Loop (T R : Type) (body : T -> prog E (ctl T R)) (v : T) (k : T + R -> prog E A).
Arguments Ret {E A} a.
Arguments Panic {E A} msg.
Arguments Vis {E A X} e k.
Arguments Loop {E A T R} body v k.

Fixpoint bind {E A B} (m : prog E A) (f : A -> prog E B) : prog E B :=
  match m with
  | Ret a => f a
  | Panic s => Panic s
  | Vis e k => Vis e (fun x => bind (k x) f)
  | Loop body v k => Loop body v (fun x => bind (k x) f)
  end.

Definition call {E X} (e : E X) : prog E X := Vis e Ret.
Definition loop {E T R} (body : T -> prog E (ctl T R)) (v : T) : prog E (T + R) :=
  Loop body v Ret.

Notation "x <- m ;; k" := (bind m (fun x => k))
  (at level 100, m at next level, right associativity) : prog_scope.
Notation "'let*' p ':=' m 'in' k" := (bind m (fun x => match x with p => k end))
  (at level 10, p pattern, m at level 200, k at level 200) : prog_scope.
Notation "m ;; k" := (bind m (fun _ => k))
  (at level 100, right associativity) : prog_scope.
Open Scope prog_scope.

(** [d] runs if [m] panics. *)
Fixpoint on_panic {E A} (d : prog E unit) (m : prog E A) : prog E A :=
  match m with
  | Ret a => Ret a
  | Panic s => d ;; Panic s
  | Vis e k => Vis e (fun x => on_panic d (k x))
  | Loop body v k => Loop (fun w => on_panic d (body w)) v
                          (fun x => on_panic d (k x))
  end.

(** [defer d; m]: [d] runs when [m] returns and when it panics. *)
Definition defer {E A} (d : prog E unit) (m : prog E A) : prog E A :=
  a <- on_panic d m ;; d ;; Ret a.

(** [for _, x := range l], a loop over a slice. *)
Fixpoint for_range {E A T R} (l : list A) (v : T)
    (body : A -> T -> prog E (ctl T R)) : prog E (T + R) :=
  match l with
  | [] => Ret (inl v)
  | x :: l =>
      c <- body x v ;;
      match c with
      | Next v => for_range l v body
      | Break v => Ret (inl v)
      | Return r => Ret (inr r)
      end
  end.

(** Embedding the calls of one component in the calls of its client. *)
Fixpoint translate {E F A} (h : forall X, E X -> F X) (m : prog E A)
    : prog F A :=
  match m with
  | Ret a => Ret a
  | Panic s => Panic s
  | Vis e k => Vis (h _ e) (fun x => translate h (k x))
  | Loop body v k => Loop (fun w => translate h (body w)) v
                          (fun x => translate h (k x))
  end.

(** ** Environments and outcomes *)

Inductive outcome (A : Type) : Type :=
| Returns (a : A)
| Panics (msg : string).
Arguments Returns {A} a.
Arguments Panics {A} msg.

(** An environment has a (ghost) state.  [may e s] is what a caller owes
    before the call [e]; [does e s x t] says that the answer [x] and the new
    state [t] are possible. *)
Record env (E : Type -> Type) (S : Type) : Type := Env {
  may : forall X, E X -> S -> Prop;
  does : forall X, E X -> S -> X -> S -> Prop;
}.
Arguments may {E S} _ {X} _ _.
Arguments does {E S} _ {X} _ _ _ _.

(** Least and greatest fixpoints of predicate transformers: a loop that must
    end, and a loop that may run for ever. *)
Definition lfp {T} (F : (T -> Prop) -> T -> Prop) (x : T) : Prop :=
  forall P, (forall y, F P y -> P y) -> P x.
Definition gfp {T} (F : (T -> Prop) -> T -> Prop) (x : T) : Prop :=
  exists P, (forall y, P y -> F P y) /\ P x.

Inductive mode : Type := Total | Partial.
Definition fixpoint (d : mode) {T} (F : (T -> Prop) -> T -> Prop) : T -> Prop :=
  match d with Total => lfp F | Partial => gfp F end.

Section logic.
Context {E : Type -> Type} {S : Type} (V : env E S).

(** Weakest precondition: every call the program makes is allowed, and
    however the environment answers, the outcome and the final state satisfy
    [Q]; in [Total] mode the program also ends. *)
Fixpoint wpx (d : mode) {A} (m : prog E A) (s : S) (Q : outcome A -> S -> Prop)
    : Prop :=
  match m with
  | Ret a => Q (Returns a) s
  | Panic msg => Q (Panics msg) s
  | Vis e k =>
      may V e s /\ forall x t, does V e s x t -> wpx d (k x) t Q
  | @Loop _ _ T R body v k =>
      fixpoint d (fun P (vs : T * S) =>
        wpx d (body vs.1) vs.2 (fun o t =>
          match o with
          | Returns (Next w) => P (w, t)
          | Returns (Break w) => wpx d (k (inl w)) t Q
          | Returns (Return r) => wpx d (k (inr r)) t Q
          | Panics msg => Q (Panics msg) t
          end)) (v, s)
  end.

(** Postconditions that exclude panics. *)
Definition returns {A} (Q : A -> S -> Prop) : outcome A -> S -> Prop :=
  fun o s => match o with Returns a => Q a s | Panics _ => False end.

(** The executions of a program. *)
Inductive exec : forall A, prog E A -> S -> outcome A -> S -> Prop :=
| exec_ret A (a : A) s : exec A (Ret a) s (Returns a) s
| exec_panic A msg s : exec A (Panic msg) s (Panics msg) s
| exec_vis A X (e : E X) k s x t o u :
    does V e s x t -> exec A (k x) t o u -> exec A (Vis e k) s o u
| exec_next A T R (body : T -> prog E (ctl T R)) v k s w t o u :
    exec _ (body v) s (Returns (Next w)) t -> exec A (Loop body w k) t o u ->
    exec A (Loop body v k) s o u
| exec_break A T R (body : T -> prog E (ctl T R)) v k s w t o u :
    exec _ (body v) s (Returns (Break w)) t -> exec A (k (inl w)) t o u ->
    exec A (Loop body v k) s o u
| exec_return A T R (body : T -> prog E (ctl T R)) v k s r t o u :
    exec _ (body v) s (Returns (Return r)) t -> exec A (k (inr r)) t o u ->
    exec A (Loop body v k) s o u
| exec_loop_panic A T R (body : T -> prog E (ctl T R)) v k s msg t :
    exec _ (body v) s (Panics msg) t -> exec A (Loop body v k) s (Panics msg) t.

(** *** Fixpoints *)

Definition mono {T} (F : (T -> Prop) -> T -> Prop) : Prop :=
  forall P Q : T -> Prop, (forall y, P y -> Q y) -> forall x, F P x -> F Q x.

Lemma fixpoint_unfold d {T} (F : (T -> Prop) -> T -> Prop) x :
  mono F -> fixpoint d F x <-> F (fixpoint d F) x.
Proof.
  intros HF. destruct d; simpl; split.
  - intros H. apply H. intros y Hy. eapply HF; [|exact Hy].
    intros z Hz P HP. apply HP. eapply HF; [|exact Hz]. intros w Hw. by apply Hw.
  - intros H P HP. apply HP. eapply HF; [|exact H]. intros y Hy. by apply Hy.
  - intros (P & HP & Hx). eapply HF; [|apply HP, Hx]. intros y Hy. by exists P.
  - intros H. exists (F (gfp F)). split; [|done]. intros y Hy.
    eapply HF; [|exact Hy]. intros z (P & HP & Hz).
    eapply HF; [|apply HP, Hz]. intros w Hw. by exists P.
Qed.

Lemma fixpoint_mono d {T} (F G : (T -> Prop) -> T -> Prop) x :
  (forall P y, F P y -> G P y) -> fixpoint d F x -> fixpoint d G x.
Proof.
  intros HFG. destruct d; simpl.
  - intros H P HP. apply H. auto.
  - intros (P & HP & Hx). exists P. auto.
Qed.

(** *** Rules *)

Lemma wp_mono d {A} (m : prog E A) s (P Q : outcome A -> S -> Prop) :
  wpx d m s P -> (forall o t, P o t -> Q o t) -> wpx d m s Q.
Proof.
  revert s P Q. induction m as [A a|A msg|A X e k IH|A T R body IHb v k IHk];
    simpl; intros s P Q H HPQ; auto.
  - destruct H as [Hm Hd]. split; [done|]. intros x t Hx. eauto.
  - eapply fixpoint_mono; [|exact H]. intros I y Hy. eapply IHb; [exact Hy|].
    intros [[w|w|r]|msg] t; simpl; eauto.
Qed.

Lemma wp_loop_unfold d {A T R} (body : T -> prog E (ctl T R)) v
    (k : T + R -> prog E A) s Q :
  wpx d (Loop body v k) s Q <->
  wpx d (body v) s (fun o t =>
    match o with
    | Returns (Next w) => wpx d (Loop body w k) t Q
    | Returns (Break w) => wpx d (k (inl w)) t Q
    | Returns (Return r) => wpx d (k (inr r)) t Q
    | Panics msg => Q (Panics msg) t
    end).
Proof.
  cbn [wpx]. rewrite fixpoint_unfold; [done|].
  intros P P' HP [w t] H. eapply wp_mono; [exact H|].
  intros [[w'|w'|r]|msg] t'; simpl; auto.
Qed.

Lemma wp_bind d {A B} (m : prog E A) (f : A -> prog E B) s Q :
  wpx d m s (fun o t => match o with
                        | Returns a => wpx d (f a) t Q
                        | Panics msg => Q (Panics msg) t
                        end) ->
  wpx d (bind m f) s Q.
Proof.
  revert s. induction m as [A a|A msg|A X e k IH|A T R body _ v k IHk];
    simpl; intros s; [done..| |].
  - intros [Hm Hd]. split; [done|]. intros x t Hx. eauto.
  - apply fixpoint_mono. intros I y Hy. eapply wp_mono; [exact Hy|].
    intros [[w|w|r]|msg] t; simpl; auto.
Qed.

(** The rule used in proofs: a specification of the first part, then the
    rest from any state it allows. *)
Lemma wp_seq d {A B} (m : prog E A) (f : A -> prog E B) s
    (P : A -> S -> Prop) Q :
  wpx d m s (returns P) -> (forall a t, P a t -> wpx d (f a) t Q) ->
  wpx d (bind m f) s Q.
Proof.
  intros Hm Hf. apply wp_bind. eapply wp_mono; [exact Hm|].
  intros [a|msg] t; simpl; [apply Hf|done].
Qed.

Lemma wp_on_panic d {A} (c : prog E unit) (m : prog E A) s
    (P Q : outcome A -> S -> Prop) :
  wpx d m s P ->
  (forall a t, P (Returns a) t -> Q (Returns a) t) ->
  (forall msg t, P (Panics msg) t ->
     wpx d c t (returns (fun _ u => Q (Panics msg) u))) ->
  wpx d (on_panic c m) s Q.
Proof.
  intros H HR HP. revert s H.
  induction m as [A a|A msg|A X e k IH|A T R body IHb v k IHk]; simpl; intros s H.
  - auto.
  - eapply wp_seq; [apply HP, H|]. done.
  - destruct H as [Hm Hd]. split; [done|]. intros x t Hx. eauto.
  - eapply fixpoint_mono; [|exact H]. intros I y Hy.
    eapply IHb; [..|exact Hy].
    + intros [w|w|r] t; simpl; eauto.
    + intros msg t Ht. simpl. eapply wp_mono; [apply HP, Ht|].
      intros [u|msg'] t'; simpl; auto.
Qed.

Lemma wp_defer d {A} c (m : prog E A) s (P Q : outcome A -> S -> Prop) :
  wpx d m s P ->
  (forall o t, P o t -> wpx d c t (returns (fun _ u => Q o u))) ->
  wpx d (defer c m) s Q.
Proof.
  intros H HPQ. unfold defer. apply wp_bind.
  eapply (wp_on_panic _ _ _ _ P); [exact H| |].
  - intros a t Ht. eapply wp_seq; [apply HPQ, Ht|]. done.
  - intros msg t Ht. by apply HPQ.
Qed.

Lemma wp_for_range d {A T R} (l : list A) (v : T)
    (body : A -> T -> prog E (ctl T R)) s
    (Inv : list A -> T -> S -> Prop) (Q : outcome (T + R) -> S -> Prop) :
  Inv l v s ->
  (forall v t, Inv [] v t -> Q (Returns (inl v)) t) ->
  (forall x l v t, Inv (x :: l) v t ->
     wpx d (body x v) t (fun o u =>
       match o with
       | Returns (Next v) => Inv l v u
       | Returns (Break v) => Q (Returns (inl v)) u
       | Returns (Return r) => Q (Returns (inr r)) u
       | Panics msg => Q (Panics msg) u
       end)) ->
  wpx d (for_range l v body) s Q.
Proof.
  intros Hinv Hnil Hcons. revert v s Hinv.
  induction l as [|x l IH]; intros v s Hinv; simpl; [auto|].
  apply wp_bind. eapply wp_mono; [apply Hcons, Hinv|].
  intros [[v'|v'|r]|msg] t; simpl; auto.
Qed.

(** A loop that ends: an invariant and a decreasing measure. *)
Lemma wp_loop {A T R} (body : T -> prog E (ctl T R)) v (k : T + R -> prog E A) s
    (Inv : T -> S -> Prop) (size : T -> S -> nat) Q :
  Inv v s ->
  (forall v t, Inv v t ->
     wpx Total (body v) t (fun o u =>
       match o with
       | Returns (Next w) => Inv w u /\ (size w u < size v t)%nat
       | Returns (Break w) => wpx Total (k (inl w)) u Q
       | Returns (Return r) => wpx Total (k (inr r)) u Q
       | Panics msg => Q (Panics msg) u
       end)) ->
  wpx Total (Loop body v k) s Q.
Proof.
  intros Hinv Hbody. remember (size v s) as n eqn:Hn.
  assert (size v s <= n)%nat as Hle by lia. clear Hn.
  revert v s Hinv Hle. induction n as [n IH] using lt_wf_ind. intros v s Hinv Hle.
  apply wp_loop_unfold. eapply wp_mono; [apply Hbody, Hinv|].
  intros [[w|w|r]|msg] t; try done. intros [Hw Hlt].
  apply (IH (size w t)); [lia|done|lia].
Qed.

(** A loop that may go on for ever: an invariant. *)
Lemma wlp_loop {A T R} (body : T -> prog E (ctl T R)) v (k : T + R -> prog E A) s
    (Inv : T -> S -> Prop) Q :
  Inv v s ->
  (forall v t, Inv v t ->
     wpx Partial (body v) t (fun o u =>
       match o with
       | Returns (Next w) => Inv w u
       | Returns (Break w) => wpx Partial (k (inl w)) u Q
       | Returns (Return r) => wpx Partial (k (inr r)) u Q
       | Panics msg => Q (Panics msg) u
       end)) ->
  wpx Partial (Loop body v k) s Q.
Proof.
  intros Hinv Hbody. exists (fun '(v, s) => Inv v s). split; [|done].
  intros [w t] Hw. exact (Hbody w t Hw).
Qed.

(** Total correctness is the stronger claim. *)
Lemma wp_total d {A} (m : prog E A) s Q : wpx Total m s Q -> wpx d m s Q.
Proof.
  destruct d; [done|]. revert s Q.
  induction m as [A a|A msg|A X e k IH|A T R body IHb v k IHk]; intros s Q H; [done..| |].
  - destruct H as [Hm Hd]. split; [done|]. intros x t Hx. by apply IH, Hd.
  - exists (fun vs => wpx Total (Loop body vs.1 k) vs.2 Q). split; [|exact H].
    intros [w t] Hw. apply wp_loop_unfold in Hw. apply IHb. eapply wp_mono; [exact Hw|].
    intros [[w'|w'|r]|msg] u; cbn; auto.
Qed.

(** *** Soundness *)

Lemma wp_exec d {A} (m : prog E A) s Q o t :
  wpx d m s Q -> exec A m s o t -> Q o t.
Proof.
  intros Hwp Hex. revert Q Hwp.
  induction Hex as [A a s|A msg s|A X e k s x t o u Hd _ IH
    |A T R body v k s w t o u _ IHb _ IHl|A T R body v k s w t o u _ IHb _ IHk
    |A T R body v k s r t o u _ IHb _ IHk|A T R body v k s msg t _ IHb]; intros Q Hwp.
  - exact Hwp.
  - exact Hwp.
  - destruct Hwp as [_ Hwp]. apply IH, Hwp, Hd.
  - apply wp_loop_unfold in Hwp. apply IHl. exact (IHb _ Hwp).
  - apply wp_loop_unfold in Hwp. apply IHk. exact (IHb _ Hwp).
  - apply wp_loop_unfold in Hwp. apply IHk. exact (IHb _ Hwp).
  - apply wp_loop_unfold in Hwp. exact (IHb _ Hwp).
Qed.

(** What a verified program does is one of its executions. *)
Lemma wlp_exec {A} (m : prog E A) s Q :
  wpx Partial m s Q -> wpx Partial m s (fun o t => Q o t /\ exec A m s o t).
Proof.
  revert s Q. induction m as [A a|A msg|A X e k IH|A T R body IHb v k IHk]; intros s Q H.
  - split; [exact H|constructor].
  - split; [exact H|constructor].
  - destruct H as [Hm Hd]. split; [exact Hm|]. intros x t Ht.
    eapply wp_mono; [eapply IH, Hd, Ht|]. intros o u [HQ Hu]. split; [done|].
    by econstructor.
  - destruct H as (I & HI & Hv).
    exists (fun wt => I wt /\ forall o u, exec A (Loop body wt.1 k) wt.2 o u ->
                                       exec A (Loop body v k) s o u).
    split; [|done]. intros [w t] [Hw Hto]. cbn [fst snd] in Hto.
    eapply wp_mono; [apply IHb, (HI (w, t) Hw)|].
    intros [[w'|w'|r]|msg] u [Hu Hex]; cbn [fst snd] in *.
    + split; [done|]. intros o x Hx. apply Hto. by eapply exec_next.
    + eapply wp_mono; [apply IHk, Hu|]. intros o x [HQ Hx]. split; [done|].
      apply Hto. by eapply exec_break.
    + eapply wp_mono; [apply IHk, Hu|]. intros o x [HQ Hx]. split; [done|].
      apply Hto. by eapply exec_return.
    + split; [done|]. apply Hto. by apply exec_loop_panic.
Qed.
End logic.

Abbreviation wp V := (wpx V Total).
Abbreviation wlp V := (wpx V Partial).
Arguments returns {S A} Q o s /.

(** The answer of a call after which the state is known. *)
Ltac answer x :=
  let t := fresh "t" in let H := fresh "H" in intros x t H; hnf in H; subst t.

(** One step of symbolic execution. *)
Ltac prog :=
  cbn [wpx bind call loop translate for_range returns fst snd may does].
Arguments exec {E S} V {A} m s o t.

(** ** Running programs

    A handler answers every call from its own state; [run] executes a program
    against it, each loop for at most [n] iterations, so a witness can
    evaluate a concrete run. *)
Fixpoint run_loop {S T R A} (body : T -> S -> option (outcome (ctl T R) * S))
    (k : T + R -> S -> option (outcome A * S)) (i : nat) (v : T) (s : S)
    : option (outcome A * S) :=
  match i with
  | O => None
  | S i =>
      match body v s with
      | Some (Returns (Next w), t) => run_loop body k i w t
      | Some (Returns (Break w), t) => k (inl w) t
      | Some (Returns (Return r), t) => k (inr r) t
      | Some (Panics msg, t) => Some (Panics msg, t)
      | None => None
      end
  end.

Fixpoint run {E S} (h : forall X, E X -> S -> X * S) (n : nat) {A} (m : prog E A)
    (s : S) : option (outcome A * S) :=
  match m with
  | Ret a => Some (Returns a, s)
  | Panic msg => Some (Panics msg, s)
  | Vis e k => let '(x, t) := h _ e s in run h n (k x) t
  | Loop body v k =>
      run_loop (fun v s => run h n (body v) s) (fun x s => run h n (k x) s) n v s
  end.

(** The handler only does what the environment may do. *)
Definition handles {E S} (V : env E S) (h : forall X, E X -> S -> X * S) : Prop :=
  forall X (e : E X) s, may V e s -> does V e s (h X e s).1 (h X e s).2.

Section run.
Context {E : Type -> Type} {S : Type} (V : env E S) (h : forall X, E X -> S -> X * S).
Context (Hh : handles V h).

(** Enough fuel gives the result: a program verified in [Total] mode ends
    under every handler, in a state that satisfies the postcondition. *)
Theorem wp_run {A} (m : prog E A) s Q :
  wp V m s Q ->
  exists N o t, Q o t /\ forall n, (N <= n)%nat -> run h n m s = Some (o, t).
Proof.
  revert s Q. induction m as [A a|A msg|A X e k IH|A T R body IHb v k IHk];
    intros s Q Hwp; cbn [run].
  - exists 0%nat, (Returns a), s. auto.
  - exists 0%nat, (Panics msg), s. auto.
  - destruct Hwp as [Hm Hd]. pose proof (Hh X e s Hm) as Hx.
    destruct (h X e s) as [x t]. exact (IH x t Q (Hd x t Hx)).
  - enough (H : exists N o t, Q o t /\ forall n i, (N <= n)%nat -> (N <= i)%nat ->
      run_loop (fun v s => run h n (body v) s) (fun x s => run h n (k x) s) i v s
      = Some (o, t)).
    { destruct H as (N & o & t & HQ & H). exists N, o, t. auto. }
    apply (Hwp (fun '(v, s) => exists N o t, Q o t /\ forall n i, (N <= n)%nat ->
      (N <= i)%nat -> run_loop (fun v s => run h n (body v) s)
        (fun x s => run h n (k x) s) i v s = Some (o, t))).
    clear v s Hwp. intros [v s] Hwp. cbn [fst snd] in Hwp.
    destruct (IHb v s _ Hwp) as (N & o & t & Hpost & Hrun).
    assert (Hstep : exists N o' t', Q o' t' /\ forall n i, (N <= n)%nat -> (N <= i)%nat ->
      match o with
      | Returns (Next w) => run_loop (fun v s => run h n (body v) s)
                              (fun x s => run h n (k x) s) i w t
      | Returns (Break w) => run h n (k (inl w)) t
      | Returns (Return r) => run h n (k (inr r)) t
      | Panics msg => Some (Panics msg, t)
      end = Some (o', t')).
    { destruct o as [[w|w|r]|msg]; [exact Hpost| | |].
      - destruct (IHk _ _ _ Hpost) as (N' & o' & t' & HQ & Hr). exists N', o', t'. auto.
      - destruct (IHk _ _ _ Hpost) as (N' & o' & t' & HQ & Hr). exists N', o', t'. auto.
      - exists 0%nat, (Panics msg), t. auto. }
    destruct Hstep as (N' & o' & t' & HQ & Hstep).
    exists (Datatypes.S (N + N')), o', t'. split; [done|]. intros n [|i] Hn Hi; [lia|].
    cbn [run_loop]. rewrite Hrun by lia. specialize (Hstep n i ltac:(lia) ltac:(lia)).
    destruct o as [[w|w|r]|msg]; exact Hstep.
Qed.

(** What [run] computes is an execution. *)
Theorem run_exec d {A} n (m : prog E A) s Q o t :
  wpx V d m s Q -> run h n m s = Some (o, t) -> exec V m s o t.
Proof.
  revert s Q o t. induction m as [A a|A msg|A X e k IH|A T R body IHb v k IHk];
    intros s Q o t Hwp; cbn [run].
  - intros [= <- <-]. constructor.
  - intros [= <- <-]. constructor.
  - destruct Hwp as [Hm Hd]. pose proof (Hh X e s Hm) as Hx.
    destruct (h X e s) as [x u]. intros Hr. econstructor; [exact Hx|].
    eapply IH; [apply Hd, Hx|exact Hr].
  - generalize n at 3 as i. intros i. revert v s Hwp.
    induction i as [|i IHi]; intros v s Hwp; cbn [run_loop]; [done|].
    apply wp_loop_unfold in Hwp.
    destruct (run h n (body v) s) as [[o' u]|] eqn:Hb; [|done].
    pose proof (IHb _ _ _ _ _ Hwp Hb) as Hex.
    pose proof (wp_exec _ _ _ _ _ _ _ Hwp Hex) as Hpost.
    destruct o' as [[w|w|r]|msg]; intros Hr.
    + eapply exec_next; [exact Hex|]. by apply IHi.
    + eapply exec_break; [exact Hex|]. by eapply IHk.
    + eapply exec_return; [exact Hex|]. by eapply IHk.
    + injection Hr as <- <-. by apply exec_loop_panic.
Qed.
End run.

(** ** Tracing

    The environment that allows every call, lets every answer happen and
    remembers what happened. *)
Definition tracing {E L} (label : forall X, E X -> X -> L) : env E (list L) :=
  {| may _ _ _ := True;
     does X e s x t := t = s ++ [label X e x] |}.

(** Everything there is to remember: the calls with their answers. *)
Inductive event (E : Type -> Type) : Type :=
| Event X (e : E X) (x : X).
Arguments Event {E X} e x.
Definition history (E : Type -> Type) : Type := list (event E).
Definition recording {E} : env E (history E) := tracing (fun X e x => Event e x).

(** An environment with a history beside its state. *)
Definition recorded {E S} (V : env E S) : env E (S * history E) :=
  {| may X e s := may V e s.1;
     does X e s x t := does V e s.1 x t.1 /\ t.2 = s.2 ++ [Event e x] |}.

(** The history determines the run: what is added to it is an execution of the
    program with the answers it got. *)
Lemma wp_recorded {E S A} (V : env E S) (m : prog E A) s h Q :
  wp V m s Q ->
  wp (recorded V) m (s, h) (fun o u => Q o u.1 /\ exec recording m h o u.2).
Proof.
  revert s h Q. induction m as [A a|A msg|A X e k IH|A T R body IHb v k IHk]; intros s h Q H.
  - split; [exact H|constructor].
  - split; [exact H|constructor].
  - destruct H as [Hm Hd]. split; [exact Hm|]. intros x [t g] [Ht Hg]. cbn in Ht, Hg.
    eapply wp_mono; [eapply IH, Hd, Ht|]. intros o u [HQ Hu]. split; [done|].
    econstructor; [|exact Hu]. exact Hg.
  - revert h. apply (H (fun '(v, s) => forall h, wp (recorded V) (Loop body v k) (s, h)
      (fun o u => Q o u.1 /\ exec recording (Loop body v k) h o u.2))).
    clear v s H. intros [v s] H h. cbn [fst snd] in H. apply wp_loop_unfold.
    eapply wp_mono; [eapply IHb, H|].
    intros [[w|w|r]|msg] [t g]; cbn [fst snd]; intros [Hp Hex].
    + eapply wp_mono; [apply Hp|]. intros o u [HQ Hu]. split; [done|]. by eapply exec_next.
    + eapply wp_mono; [eapply IHk, Hp|]. intros o u [HQ Hu]. split; [done|]. by eapply exec_break.
    + eapply wp_mono; [eapply IHk, Hp|]. intros o u [HQ Hu]. split; [done|]. by eapply exec_return.
    + split; [done|]. by apply exec_loop_panic.
Qed.

(** The environment about which nothing is known. *)
Definition free {E} : env E unit := {| may _ _ _ := True; does _ _ _ _ _ := True |}.

(** ** Simulation

    [calls_ok P m]: whatever the answers, [m] only makes calls that satisfy
    [P]. *)
Fixpoint calls_ok {E} (P : forall X, E X -> Prop) {A} (m : prog E A) : Prop :=
  match m with
  | Ret _ | Panic _ => True
  | Vis e k => P _ e /\ forall x, calls_ok P (k x)
  | Loop body _ k => (forall w, calls_ok P (body w)) /\ forall x, calls_ok P (k x)
  end.

Lemma calls_ok_bind {E} (P : forall X, E X -> Prop) {A B} (m : prog E A)
    (f : A -> prog E B) :
  calls_ok P m -> (forall a, calls_ok P (f a)) -> calls_ok P (bind m f).
Proof. intros Hm Hf. induction m; cbn in *; intuition. Qed.

Lemma calls_ok_on_panic {E} (P : forall X, E X -> Prop) {A} (c : prog E unit)
    (m : prog E A) :
  calls_ok P c -> calls_ok P m -> calls_ok P (on_panic c m).
Proof.
  intros Hc Hm. induction m; cbn in *; intuition. by apply calls_ok_bind.
Qed.

Lemma calls_ok_defer {E} (P : forall X, E X -> Prop) {A} (c : prog E unit)
    (m : prog E A) :
  calls_ok P c -> calls_ok P m -> calls_ok P (defer c m).
Proof.
  intros Hc Hm. apply calls_ok_bind; [by apply calls_ok_on_panic|].
  intros a. by apply calls_ok_bind.
Qed.

Lemma calls_ok_for_range {E} (P : forall X, E X -> Prop) {A T R} (l : list A) (v : T)
    (body : A -> T -> prog E (ctl T R)) :
  (forall x v, calls_ok P (body x v)) -> calls_ok P (for_range l v body).
Proof.
  intros Hb. revert v. induction l as [|x l IH]; intros v; cbn; [done|].
  apply calls_ok_bind; [done|]. by intros [w|w|r].
Qed.

Lemma calls_ok_translate {E F} (P : forall X, F X -> Prop) (h : forall X, E X -> F X) {A}
    (m : prog E A) :
  (forall X e, P X (h X e)) -> calls_ok P (translate h m).
Proof. intros Hh. induction m; cbn; auto. Qed.

(** [W] simulates [V] through [R] on the calls that satisfy [P]: what is proved
    with [V] holds with [W]. *)
Section simulation.
Context {E F : Type -> Type} {S T : Type} (V : env E S) (W : env F T).
Context (P : forall X, E X -> Prop) (h : forall X, E X -> F X) (R : S -> T -> Prop).
Context (Hsim : forall X (e : E X) s t, P X e -> R s t -> may V e s ->
  may W (h X e) t /\
  forall x u, does W (h X e) t x u -> exists s', does V e s x s' /\ R s' u).

Lemma wp_simulation d {A} (m : prog E A) s t Q :
  calls_ok P m -> R s t -> wpx V d m s Q ->
  wpx W d (translate h m) t (fun o u => exists s', Q o s' /\ R s' u).
Proof using Hsim.
  revert s t Q. induction m as [A a|A msg|A X e k IH|A B C body IHb v k IHk];
    intros s t Q Hm Hr H; [by exists s|by exists s| |].
  - destruct Hm as [He Hm], H as [Hmay Hd]. cbn.
    destruct (Hsim X e s t He Hr Hmay) as [Hmay' Hd']. split; [done|].
    intros x u (s' & Hs & Hr')%Hd'. eapply IH; eauto.
  - destruct Hm as [Hmb Hmk].
    assert (Hstep : forall (I : B * S -> Prop) (J : B * T -> Prop) w s t,
      (forall w s t, I (w, s) -> R s t -> J (w, t)) -> R s t ->
      wpx V d (body w) s (fun o s => match o with
        | Returns (Next w) => I (w, s)
        | Returns (Break w) => wpx V d (k (inl w)) s Q
        | Returns (Return r) => wpx V d (k (inr r)) s Q
        | Panics msg => Q (Panics msg) s end) ->
      wpx W d (translate h (body w)) t (fun o t => match o with
        | Returns (Next w) => J (w, t)
        | Returns (Break w) => wpx W d (translate h (k (inl w))) t
                                 (fun o u => exists s', Q o s' /\ R s' u)
        | Returns (Return r) => wpx W d (translate h (k (inr r))) t
                                 (fun o u => exists s', Q o s' /\ R s' u)
        | Panics msg => exists s', Q (Panics msg) s' /\ R s' t end)).
    { intros I J w s0 t0 HIJ Hr0 Hb. eapply wp_mono; [by eapply IHb|].
      intros [[w'|w'|r]|msg] u (s' & Hu & Hr'); eauto. }
    destruct d.
    + intros J HJ. set (I := fun ws : B * S => forall t, R ws.2 t -> J (ws.1, t)).
      apply (H I); [|done]. intros [w s'] Hw u Hru. apply HJ.
      apply (Hstep I J w s'); [|exact Hru|exact Hw]. intros w' s'' u' HI. by apply HI.
    + destruct H as (I & HI & Hv).
      set (J := fun wt : B * T => exists s, I (wt.1, s) /\ R s wt.2).
      exists J. split; [|by exists s]. intros [w u] (s' & Hw & Hru).
      apply (Hstep I J w s'); [|exact Hru|apply (HI (w, s') Hw)].
      intros w' s'' u' Hi Hr'. by exists s''.
Qed.
End simulation.

Lemma calls_ok_all {E A} (m : prog E A) : calls_ok (fun _ _ => True) m.
Proof. induction m; cbn; auto. Qed.

Lemma wp_translate_id {E S} (V : env E S) d {A} (m : prog E A) s Q :
  wpx V d (translate (fun _ e => e) m) s Q -> wpx V d m s Q.
Proof.
  revert s Q. induction m as [A a|A msg|A X e k IH|A B R body IHb v k IHk]; intros s Q H;
    [done..| |].
  - destruct H as [Hm Hd]. split; [done|]. intros x t Hx. by apply IH, Hd.
  - cbn in *. eapply fixpoint_mono; [|exact H]. intros I y Hy. apply IHb.
    eapply wp_mono; [exact Hy|]. intros [[w|w|r]|msg] t; cbn; auto.
Qed.

(** A client's environment [W] simulates the component's [V] through [view],
    as long as [keep] holds, which every call of the component preserves. *)
Lemma wp_translate d {E F S T A} (V : env E S) (W : env F T)
    (h : forall X, E X -> F X) (view : T -> S) (keep : T -> Prop) :
  (forall X (e : E X) t, keep t -> may V e (view t) ->
     may W (h X e) t /\
     forall x u, does W (h X e) t x u -> does V e (view t) x (view u) /\ keep u) ->
  forall (m : prog E A) t Q,
  keep t ->
  wpx V d m (view t) Q ->
  wpx W d (translate h m) t (fun o u => Q o (view u) /\ keep u).
Proof.
  intros Hsim m t Q Hk H. eapply wp_mono.
  - apply (wp_simulation V W (fun _ _ => True) h (fun s t => s = view t /\ keep t))
      with (s := view t) (Q := Q); [|apply calls_ok_all|done|done].
    intros X e ? u _ [-> Hu] Hm. destruct (Hsim X e u Hu Hm) as [Hm' Hd].
    split; [done|]. intros x v Hv. destruct (Hd x v Hv). eauto.
  - intros o u (? & HQ & -> & Hu). done.
Qed.

(** ** Two components side by side

    The calls of either component, each with its own state. *)
Inductive sumE (E F : Type -> Type) (X : Type) : Type :=
| InL (e : E X)
| InR (e : F X).
Arguments InL {E F X} e.
Arguments InR {E F X} e.

Definition left_call {E F} X (e : E X) : sumE E F X := InL e.
Definition right_call {E F} X (e : F X) : sumE E F X := InR e.

Definition sum_env {E F S T} (V : env E S) (W : env F T) : env (sumE E F) (S * T) :=
  {| may X e st :=
       match e with InL e => may V e st.1 | InR e => may W e st.2 end;
     does X e st x uv :=
       match e with
       | InL e => does V e st.1 x uv.1 /\ uv.2 = st.2
       | InR e => does W e st.2 x uv.2 /\ uv.1 = st.1
       end |}.

Lemma wp_left d {E F S T A} (V : env E S) (W : env F T) (m : prog E A) s t Q :
  wpx V d m s Q ->
  wpx (sum_env V W) d (translate left_call m) (s, t) (fun o u => Q o u.1 /\ u.2 = t).
Proof.
  intros H. apply (wp_translate d V (sum_env V W) left_call fst (fun u => u.2 = t)); [|done|done].
  intros X e u <- Hm. split; [done|]. by intros x v [Hd ->].
Qed.

Lemma wp_right d {E F S T A} (V : env E S) (W : env F T) (m : prog F A) s t Q :
  wpx W d m t Q ->
  wpx (sum_env V W) d (translate right_call m) (s, t) (fun o u => Q o u.2 /\ u.1 = s).
Proof.
  intros H. apply (wp_translate d W (sum_env V W) right_call snd (fun u => u.1 = s)); [|done|done].
  intros X e u <- Hm. split; [done|]. by intros x v [Hd ->].
Qed.
