(* ===== verification/Threads.v ===== *)
(** Goroutines that share a state under a mutex: a small-step semantics of
    programs, pools of threads, and the rule that a pool is correct when each
    thread is correct alone.  A ghost history records every critical section
    with the state it was entered in and the state it was left in, so that what
    a thread is told can be tied to what it did.  The theorems say what
    sync.Mutex is used for: every access is made by the owner, the invariant
    holds whenever the mutex is free, no thread waits for itself, every schedule
    ends with all threads finished, the sections follow one another, each
    starting where the one before it ended, and every interleaving has the
    effect of running them one after the other. *)
From S2P Require Import Prelude Effects.

(** ** The interface

    What a call is to the mutex, and what taking and giving up the mutex does
    to the shared state. *)
Inductive role : Type := Acquire | Release | Access.
#[export] Instance role_eq_dec : EqDecision role.
Proof. solve_decision. Defined.

Class Mutex (E : Type -> Type) (S : Type) : Type := {
  role_of : forall X, E X -> role;
  enter : S -> S;
  leave : S -> S;
}.

(** Calls of a critical section. *)
Definition access_only {E S} `{!Mutex E S} : forall X, E X -> Prop :=
  fun X e => @role_of E S _ X e = Access.

Section threads.
Context {E : Type -> Type} {S : Type} (V : env E S) `{!Mutex E S}.
Context (inv : S -> Prop).
Local Abbreviation part e := (@role_of E S _ _ e).

(** A critical section: the shared state when it was entered and when it was
    left. *)
Abbreviation section := (S * S)%type.

(** ** One thread

    A thread sees the critical sections it has been through and, while it owns
    the mutex, the state in which it took it and the shared state. *)
Abbreviation view := (list section * option section)%type.

Definition thread_env : env E view :=
  {| may X e v :=
       match part e, v.2 with
       | Acquire, None => True
       | Release, Some (_, s) => inv (leave s)
       | Access, Some (_, s) => may V e s
       | _, _ => False
       end;
     does X e v x v' :=
       match part e, v.2 with
       | Acquire, None => exists s, inv s /\ v' = (v.1, Some (enter s, enter s))
       | Release, Some (t, s) => v' = (v.1 ++ [(t, leave s)], None)
       | Access, Some (t, s) => exists u, does V e s x u /\ v' = (v.1, Some (t, u))
       | _, _ => False
       end |}.

(** What was proved of the body of a critical section holds of it in a
    thread. *)
Lemma wp_access d {A} (m : prog E A) h t s Q :
  calls_ok access_only m -> wpx V d m s Q ->
  wpx thread_env d m (h, Some (t, s)) (fun o v => exists u, v = (h, Some (t, u)) /\ Q o u).
Proof.
  intros Hm H. apply wp_translate_id. eapply wp_mono.
  - eapply (wp_simulation V thread_env access_only (fun _ e => e)
      (fun s v => v = (h, Some (t, s)))); [|exact Hm|done|exact H].
    intros X e s' v He -> Hmay. unfold access_only in He. cbn.
    rewrite He.
    split; [done|]. intros x w (u & Hu & ->). eauto.
  - intros o v (u & HQ & ->). eauto.
Qed.

(** [mu.Lock(); defer mu.Unlock(); m]: one critical section that keeps the
    invariant and is related to the result by [P]. *)
Lemma wp_section {X A} (l : E X) (u : E unit) (m : prog E A) h (P : S -> A -> S -> Prop) :
  part l = Acquire -> part u = Release -> calls_ok access_only m ->
  (forall s, inv s -> wp V m (enter s) (returns (fun a t =>
     inv (leave t) /\ P (enter s) a (leave t)))) ->
  wp thread_env (call l ;; defer (call u) m) (h, None)
    (returns (fun a v => exists t u, v = (h ++ [(t, u)], None) /\ P t a u)).
Proof.
  intros Hl Hu Hm H. cbn. rewrite Hl. split; [done|]. intros _ ? (s & Hs & ->).
  eapply wp_defer.
  - apply wp_access; [done|]. by apply H.
  - intros [a|msg] o (t & -> & Ha); [|done]. destruct Ha as [Hi HP]. cbn. rewrite Hu.
    split; [done|]. intros _ ? ->. eauto.
Qed.

(** ** Small steps *)

(** The owner of the mutex with the state it took it in, the shared state, and
    the critical sections so far with the threads that ran them. *)
Record world : Type := World {
  owner : option (nat * S);
  shared : S;
  history : list (nat * section);
}.

Definition owns (w : world) (i : nat) : Prop := fst <$> owner w = Some i.

(** What a loop does next: its body, then what the body says. *)
Definition unroll {T R A} (body : T -> prog E (ctl T R)) (v : T) (k : T + R -> prog E A)
    : prog E A :=
  bind (body v) (fun c =>
    match c with
    | Next w => Loop body w k
    | Break w => k (inl w)
    | Return r => k (inr r)
    end).

(** A step of a thread.  A thread that wants the mutex waits until it is free;
    every other call is made whoever owns it, so that the discipline is a
    theorem and not part of the semantics. *)
Definition thread_step {A} (i : nat) (m : prog E A) (w : world) (m' : prog E A) (w' : world)
    : Prop :=
  match m with
  | Ret _ | Panic _ => False
  | Loop body v k => m' = unroll body v k /\ w' = w
  | Vis e k =>
      exists x, m' = k x /\
      match part e with
      | Acquire => owner w = None /\
          w' = World (Some (i, enter (shared w))) (enter (shared w)) (history w)
      | Release =>
          w' = World None (leave (shared w))
                 (history w ++ match owner w with
                               | Some (j, t) => [(j, (t, leave (shared w)))]
                               | None => []
                               end)
      | Access => exists s, does V e (shared w) x s /\ w' = World (owner w) s (history w)
      end
  end.

(** The steps as the thread itself sees them. *)
Definition local_step {A} (p q : prog E A * view) : Prop :=
  match p.1 with
  | Ret _ | Panic _ => False
  | Loop body v k => q = (unroll body v k, p.2)
  | Vis e k => exists x o, does thread_env e p.2 x o /\ q = (k x, o)
  end.

Lemma wp_unroll d {T R A} (body : T -> prog E (ctl T R)) v (k : T + R -> prog E A) o Q :
  wpx thread_env d (Loop body v k) o Q -> wpx thread_env d (unroll body v k) o Q.
Proof.
  intros H%wp_loop_unfold. apply wp_bind. eapply wp_mono; [exact H|].
  by intros [[w|w|r]|msg] t.
Qed.

(** Correctness is kept by every step. *)
Lemma wp_local d {A} (p q : prog E A * view) Q :
  local_step p q -> wpx thread_env d p.1 p.2 Q -> wpx thread_env d q.1 q.2 Q.
Proof.
  destruct p as [[a|msg|X e k|T R body v k] o]; cbn [local_step fst snd]; [done..| |].
  - intros (x & o' & Hd & ->) [_ H]. by apply H.
  - intros -> H. by apply wp_unroll.
Qed.

(** A thread that is totally correct makes finitely many steps. *)
Lemma sn_bind {A B} (m : prog E A) (f : A -> prog E B) o Q :
  wp thread_env m o Q ->
  (forall a t, Q (Returns a) t -> Acc (flip local_step) (f a, t)) ->
  Acc (flip local_step) (bind m f, o).
Proof.
  revert B f o Q. induction m as [A a|A msg|A X e k IH|A T R body IHb v k IHk];
    intros B f o Q H Hf; cbn [bind].
  - by apply Hf.
  - constructor. intros q [].
  - destruct H as [_ H]. constructor. intros q (x & t & Hd & ->). eauto.
  - apply (H (fun vs => Acc (flip local_step) (Loop body vs.1 (fun x => bind (k x) f), vs.2))).
    intros [w t] Hw. constructor. intros q ->. cbn [fst snd] in *. unfold unroll.
    eapply IHb; [exact Hw|]. intros [w'|w'|r] u Hu; [exact Hu|eauto..].
Qed.

Lemma wp_sn {A} (m : prog E A) o Q : wp thread_env m o Q -> Acc (flip local_step) (m, o).
Proof.
  revert o Q. induction m as [A a|A msg|A X e k IH|A T R body _ v k IHk]; intros o Q H.
  1-2: by constructor; intros q [].
  - destruct H as [_ H]. constructor. intros q (x & t & Hd & ->). eauto.
  - apply (H (fun vs => Acc (flip local_step) (Loop body vs.1 k, vs.2))).
    intros [w t] Hw. constructor. intros q ->. cbn [fst snd] in *.
    eapply sn_bind; [exact Hw|]. intros [w'|w'|r] u Hu; [exact Hu|eauto..].
Qed.

(** ** Pools of threads *)

Record pool (A : Type) : Type := Pool {
  threads : list (prog E A);
  world_of :> world;
}.
#[global] Arguments Pool {A}.
#[global] Arguments threads {A}.
#[global] Arguments world_of {A}.

(** Any thread may make the next step. *)
Definition pool_step {A} (p q : pool A) : Prop :=
  exists i m m' w, threads p !! i = Some m /\ thread_step i m p m' w /\
    q = Pool (<[i := m']> (threads p)) w.

(** The critical sections of thread [i]. *)
Definition sections (i : nat) (h : list (nat * section)) : list section :=
  omap (fun '(j, c) => if decide (j = i) then Some c else None) h.

(** What thread [i] sees. *)
Definition sees (w : world) (i : nat) : view :=
  (sections i (history w),
   match owner w with
   | Some (j, t) => if decide (j = i) then Some (t, shared w) else None
   | None => None
   end).

Lemma sections_app i h h' : sections i (h ++ h') = sections i h ++ sections i h'.
Proof. apply omap_app. Qed.

Lemma sections_own i h c : sections i (h ++ [(i, c)]) = sections i h ++ [c].
Proof. rewrite sections_app. cbn. by rewrite decide_True. Qed.

Lemma sections_other i j h c : i <> j -> sections j (h ++ [(i, c)]) = sections j h.
Proof. intros Hij. rewrite sections_app. cbn. rewrite decide_False by done. apply app_nil_r. Qed.

Lemma sees_free s h i : sees (World None s h) i = (sections i h, None).
Proof. done. Qed.

Lemma sees_owner i t s h : sees (World (Some (i, t)) s h) i = (sections i h, Some (t, s)).
Proof. unfold sees. cbn. by rewrite decide_True. Qed.

Lemma sees_other i j t s h :
  i <> j -> sees (World (Some (i, t)) s h) j = (sections j h, None).
Proof. intros Hij. unfold sees. cbn. by rewrite decide_False. Qed.

Lemma sees_Some w i t s : (sees w i).2 = Some (t, s) -> owner w = Some (i, t) /\ s = shared w.
Proof.
  cbn. destruct (owner w) as [[j u]|]; [|done]. case_decide; [|done].
  by intros [= -> ->]; subst.
Qed.

Lemma sees_None w i : (sees w i).2 = None -> ~ owns w i.
Proof.
  unfold owns. cbn. destruct (owner w) as [[j u]|]; [|done]. case_decide; [done|].
  by intros _ [= ->].
Qed.

(** The invariant of a pool: each thread is correct from what it sees, and the
    state satisfies [inv] when nobody owns it. *)
Definition pool_ok {A} (Q : nat -> A -> list section -> Prop) (p : pool A) : Prop :=
  (owner p = None -> inv (shared p)) /\
  (forall i, owns p i -> (i < length (threads p))%nat) /\
  forall i m, threads p !! i = Some m ->
    wp thread_env m (sees p i) (returns (fun a v => v.2 = None /\ Q i a v.1)).

Lemma pool_init {A} (Q : nat -> A -> list section -> Prop) (ms : list (prog E A)) s :
  inv s ->
  (forall i m, ms !! i = Some m ->
     wp thread_env m ([], None) (returns (fun a v => v.2 = None /\ Q i a v.1))) ->
  pool_ok Q (Pool ms (World None s [])).
Proof.
  intros Hs Hm. split; [done|]. split; [done|]. intros i m Hi. by apply Hm.
Qed.

(** A step of a correct thread is a step of what it sees, and does not change
    what others see. *)
Lemma step_local {A} i (m m' : prog E A) w w' Q :
  (owner w = None -> inv (shared w)) -> wp thread_env m (sees w i) Q ->
  thread_step i m w m' w' ->
  local_step (m, sees w i) (m', sees w' i) /\
  (owner w' = None -> inv (shared w')) /\
  (forall j, owns w' j -> owns w j \/ j = i) /\
  forall j, i <> j -> sees w' j = sees w j.
Proof.
  intros Hinv Hwp. destruct m as [a|msg|X e k|T R body v k]; cbn [thread_step]; [done..| |].
  2: { intros (-> & ->). split; [done|]. auto. }
  intros (x & -> & H). destruct Hwp as [Hmay _]. unfold local_step.
  destruct w as [o s h]. cbn [may thread_env owner shared history does fst] in *.
  destruct (role_of X e).
  - destruct H as (-> & ->). rewrite sees_owner. split_and!; [|done|intros j [= ->]; auto|].
    + exists x. eexists. split; [|done]. exists s. auto.
    + intros j Hj. by rewrite sees_other.
  - subst w'. destruct o as [[j t]|]; [|done]. destruct (decide (j = i)) as [->|Hj].
    2: { by rewrite sees_other in Hmay. }
    rewrite sees_owner in Hmay |- *. rewrite sees_free, sections_own.
    split_and!; [by exists x; eexists|done|done|].
    intros j Hj. by rewrite sees_free, sections_other, sees_other.
  - destruct H as (u & Hd & ->). destruct o as [[j t]|]; [|done].
    destruct (decide (j = i)) as [->|Hj]; [|by rewrite sees_other in Hmay].
    rewrite !sees_owner. split_and!; [|done|by auto|].
    + exists x. eexists. split; [|done]. by exists u.
    + intros j Hj. by rewrite !sees_other.
Qed.

Lemma pool_ok_step {A} (Q : nat -> A -> list section -> Prop) p q :
  pool_ok Q p -> pool_step p q -> pool_ok Q q.
Proof.
  intros (Hinv & Hown & Hwp) (i & m & m' & w & Hi & Hs & ->).
  unfold pool_ok. cbn [world_of threads].
  pose proof (Hwp i m Hi) as Hm.
  destruct (step_local i m m' _ w _ Hinv Hm Hs) as (Hl & Hinv' & Ho & Hsees).
  split; [done|]. split.
  - intros j Hj. rewrite length_insert. destruct (Ho j Hj) as [| ->]; [by apply Hown|].
    by eapply lookup_lt_Some.
  - intros j m2 Hj. apply list_lookup_insert_Some in Hj as [(<- & <- & _)|[Hij Hj]].
    + exact (wp_local _ _ _ _ Hl Hm).
    + rewrite Hsees by done. by apply Hwp.
Qed.

Lemma pool_ok_steps {A} (Q : nat -> A -> list section -> Prop) p q :
  pool_ok Q p -> rtc pool_step p q -> pool_ok Q q.
Proof. intros Hp Hs. induction Hs; eauto using pool_ok_step. Qed.

(** *** Safety *)

(** What a thread of a correct pool is about to do: nobody panics or waits for
    itself, only the owner touches the shared state or gives up the mutex,
    every call is one its environment allows, and a thread that has finished
    has been through the critical sections [Q] asks for. *)
Definition safe {A} (Q : nat -> A -> list section -> Prop) (w : world) (i : nat)
    (m : prog E A) : Prop :=
  match m with
  | Ret a => ~ owns w i /\ Q i a (sections i (history w))
  | Panic _ => False
  | Loop _ _ _ => True
  | Vis e _ =>
      match part e with
      | Acquire => ~ owns w i
      | Release => owns w i /\ inv (leave (shared w))
      | Access => owns w i /\ may V e (shared w)
      end
  end.

Lemma pool_safe {A} (Q : nat -> A -> list section -> Prop) (p : pool A) i m :
  pool_ok Q p -> threads p !! i = Some m -> safe Q p i m.
Proof.
  intros (_ & _ & Hwp) Hi. specialize (Hwp i m Hi).
  destruct (sees p i).2 as [[t s]|] eqn:Ht.
  - apply sees_Some in Ht as Hs. destruct Hs as [Ho ->].
    assert (Hown : owns p i) by (unfold owns; by rewrite Ho).
    destruct m as [a|msg|X e k|T R body v k]; [by destruct Hwp; congruence|done| |done].
    destruct Hwp as [H _]. cbn [may thread_env] in H. rewrite Ht in H. cbn. by destruct (role_of X e).
  - apply sees_None in Ht as Ho.
    destruct m as [a|msg|X e k|T R body v k]; [by destruct Hwp|done| |done].
    destruct Hwp as [H _]. cbn [may thread_env] in H. rewrite Ht in H. cbn. by destruct (role_of X e).
Qed.

(** *** The order of the critical sections *)

(** From [s], critical sections one after the other: each is entered in the
    state the one before it left. *)
Fixpoint serial (s : S) (h : list (nat * section)) (s' : S) : Prop :=
  match h with
  | [] => s' = s
  | (_, (t, u)) :: h => t = enter s /\ serial u h s'
  end.

Lemma serial_snoc s h s1 i u :
  serial s h s1 -> serial s (h ++ [(i, (enter s1, u))]) u.
Proof.
  revert s. induction h as [|[j [t v]] h IH]; intros s; cbn; [by intros ->|].
  intros [-> H]. split; [done|]. by apply IH.
Qed.

(** The history of a world that started in [s]: the sections so far in a
    row, up to the shared state or to where the owner came in. *)
Definition chained (s : S) (w : world) : Prop :=
  exists s', serial s (history w) s' /\
    match owner w with
    | None => shared w = s'
    | Some (_, t) => t = enter s'
    end.

Lemma chained_step {A} (Q : nat -> A -> list section -> Prop) s (p q : pool A) :
  pool_ok Q p -> chained s p -> pool_step p q -> chained s q.
Proof.
  intros Hp (s' & Hh & Ho) (i & m & m' & w & Hi & Hs & ->).
  pose proof (pool_safe Q p i m Hp Hi) as Hsafe. unfold chained. cbn [world_of].
  destruct m as [a|msg|X e k|T R body v k]; cbn in Hsafe, Hs; [done..| |].
  2: { destruct Hs as [_ ->]. eauto. }
  destruct Hs as (x & _ & Hs). unfold owns in Hsafe. destruct (role_of X e).
  - destruct Hs as (Hn & ->). rewrite Hn in Ho. exists s'. cbn. by rewrite Ho.
  - subst w. destruct (owner p) as [[j t]|]; [|by destruct Hsafe]. subst t.
    eexists. cbn. split; [by apply serial_snoc|done].
  - destruct Hs as (u & _ & ->). exists s'. cbn.
    destruct (owner p) as [[j t]|]; [done|by destruct Hsafe].
Qed.

Lemma pool_serial {A} (Q : nat -> A -> list section -> Prop) (ms : list (prog E A)) s q :
  let p := Pool ms (World None s []) in
  pool_ok Q p -> rtc pool_step p q -> chained s q.
Proof.
  intros p Hp Hs.
  assert (H : pool_ok Q q /\ chained s q); [|by destruct H].
  revert q Hs. apply rtc_ind_r; [split; [done|by exists s]|].
  intros q r _ Hr [Hq Hc]. split; [by eapply pool_ok_step|by eapply chained_step].
Qed.

(** *** Progress *)

Definition finished {A} (m : prog E A) : Prop := match m with Ret _ => True | _ => False end.
#[global] Instance finished_dec {A} (m : prog E A) : Decision (finished m).
Proof. destruct m; cbn; apply _. Defined.
Definition all_finished {A} (p : pool A) : Prop := Forall finished (threads p).

(** Every allowed call is answered. *)
Definition answers : Prop :=
  forall X (e : E X),
    match part e with
    | Access => forall s, may V e s -> exists x t, does V e s x t
    | _ => inhabited X
    end.

Lemma safe_steps {A} (Q : nat -> A -> list section -> Prop) w i (m : prog E A) :
  answers -> safe Q w i m -> (owner w = None \/ owns w i) ->
  finished m \/ exists m' w', thread_step i m w m' w'.
Proof.
  intros Hans Hm Ho. destruct m as [a|msg|X e k|T R body v k]; cbn in *; [by left|done| |].
  - right. specialize (Hans X e). destruct (role_of X e).
    + destruct Hans as [x]. destruct Ho as [Ho|]; [|done]. by exists (k x); eexists; exists x.
    + destruct Hans as [x]. by exists (k x); eexists; exists x.
    + destruct Hm as [_ Hm]. destruct (Hans _ Hm) as (x & t & Hd).
      exists (k x). eexists. exists x. eauto.
  - right. by exists (unroll body v k), w.
Qed.

(** No deadlock: if some thread has not finished, some thread can move. *)
Lemma pool_progress {A} (Q : nat -> A -> list section -> Prop) (p : pool A) :
  answers -> pool_ok Q p -> all_finished p \/ exists q, pool_step p q.
Proof.
  intros Hans Hp.
  assert (Hmove : forall i m, threads p !! i = Some m -> owner p = None \/ owns p i ->
    finished m \/ exists q, pool_step p q).
  { intros i m Hm Ho. destruct (safe_steps _ _ _ _ Hans (pool_safe Q p i m Hp Hm) Ho)
      as [|(m' & w & Hst)]; [by left|right].
    exists (Pool (<[i := m']> (threads p)) w), i, m, m', w. auto. }
  destruct (owner p) as [[i t]|] eqn:Ho.
  - assert (Hown : owns p i) by (unfold owns; by rewrite Ho).
    destruct (lookup_lt_is_Some_2 _ _ (proj1 (proj2 Hp) i Hown)) as [m Hm].
    destruct (Hmove i m Hm (or_intror Hown)) as [Hf|]; [|by right].
    pose proof (pool_safe Q p i m Hp Hm) as Hs. destruct m; try done. by destruct Hs.
  - destruct (decide (all_finished p)) as [|Hn]; [by left|]. right.
    apply not_Forall_Exists, Exists_exists in Hn as (m & Hin & Hm); [|apply _].
    apply list_elem_of_lookup in Hin as [i Hi].
    by destruct (Hmove i m Hi (or_introl eq_refl)).
Qed.

(** *** Termination *)

(** One component of a list moves. *)
Definition moves {X} (R : X -> X -> Prop) (l l' : list X) : Prop :=
  exists i x y, l !! i = Some x /\ R x y /\ l' = <[i := y]> l.

Lemma moves_cons_sn {X} (R : X -> X -> Prop) x l :
  Acc (flip R) x -> Acc (flip (moves R)) l -> Acc (flip (moves R)) (x :: l).
Proof.
  intros Hx. revert l. induction Hx as [x Hx IHx]. intros l Hl.
  induction Hl as [l Hl IHl]. constructor. intros l' ([|i] & y & z & Hi & Hr & ->).
  - injection Hi as ->. apply IHx; [done|]. by constructor.
  - apply IHl. by exists i, y, z.
Qed.

Lemma moves_sn {X} (R : X -> X -> Prop) l :
  Forall (Acc (flip R)) l -> Acc (flip (moves R)) l.
Proof.
  induction 1 as [|x l Hx _ IH]; [|by apply moves_cons_sn].
  constructor. intros l' (i & y & z & Hi & _). done.
Qed.

(** The threads of a pool with what each of them sees. *)
Definition views {A} (p : pool A) : list (prog E A * view) :=
  imap (fun i m => (m, sees p i)) (threads p).

Lemma pool_step_moves {A} (Q : nat -> A -> list section -> Prop) (p q : pool A) :
  pool_ok Q p -> pool_step p q -> moves local_step (views p) (views q).
Proof.
  intros (Hinv & Hown & Hwp) (i & m & m' & w & Hi & Hs & ->).
  destruct (step_local i m m' _ w _ Hinv (Hwp i m Hi) Hs) as (Hl & _ & _ & Hsees).
  exists i, (m, sees p i), (m', sees w i).
  unfold views. rewrite list_lookup_imap, Hi. split; [done|]. split; [done|].
  apply list_eq. intros j. destruct (decide (i = j)) as [<-|Hij].
  - rewrite list_lookup_insert_eq by (rewrite length_imap; by eapply lookup_lt_Some).
    rewrite list_lookup_imap. cbn [threads].
    by rewrite list_lookup_insert_eq by by eapply lookup_lt_Some.
  - rewrite list_lookup_insert_ne by done. rewrite !list_lookup_imap. cbn [threads world_of].
    rewrite list_lookup_insert_ne by done. destruct (threads p !! j); cbn; [|done].
    by rewrite Hsees.
Qed.

Lemma pool_sn {A} (Q : nat -> A -> list section -> Prop) (p : pool A) : pool_ok Q p -> Acc (flip pool_step) p.
Proof.
  intros Hp. assert (Hv : Acc (flip (moves local_step)) (views p)).
  { apply moves_sn, Forall_lookup. intros i x Hx. unfold views in Hx.
    rewrite list_lookup_imap in Hx. destruct (threads p !! i) as [m|] eqn:Hm; [|done].
    injection Hx as <-. destruct Hp as (_ & _ & Hwp). by eapply wp_sn, Hwp. }
  remember (views p) as l eqn:Hl. revert p Hp Hl.
  induction Hv as [l _ IH]. intros p Hp ->. constructor. intros q Hq.
  eapply IH; [by eapply pool_step_moves|by eapply pool_ok_step|done].
Qed.

(** What every schedule brings about. *)
Inductive inevitably {A} (P : pool A -> Prop) (p : pool A) : Prop :=
| now : P p -> inevitably P p
| later : (exists q, pool_step p q) -> (forall q, pool_step p q -> inevitably P q) ->
          inevitably P p.

(** Every schedule, fair or not, ends with all threads finished. *)
Lemma pool_live {A} (Q : nat -> A -> list section -> Prop) (p : pool A) :
  answers -> pool_ok Q p -> inevitably all_finished p.
Proof.
  intros Hans Hp. pose proof (pool_sn Q p Hp) as Hsn. revert Hp.
  induction Hsn as [p _ IH]. intros Hp.
  destruct (pool_progress Q p Hans Hp) as [Hf|Hex]; [by apply now|].
  apply later; [done|]. intros q Hq. apply IH; [done|]. by eapply pool_ok_step.
Qed.

(** *** Atomicity *)

(** Thread [i] running on its own inside its critical section. *)
Definition solo {A} (i : nat) (c c' : prog E A * world) : Prop :=
  thread_step i c.1 c.2 c'.1 c'.2 /\ owns c.2 i /\ owns c'.2 i.

(** The pool in which a critical section is one step. *)
Inductive atomic_step {A} (p : pool A) : pool A -> Prop :=
| atomic_local i m m' :
    owner p = None -> threads p !! i = Some m ->
    thread_step i m p m' p ->
    atomic_step p (Pool (<[i := m']> (threads p)) p)
| atomic_section i m m1 w1 m2 w2 m3 w3 :
    owner p = None -> threads p !! i = Some m ->
    thread_step i m p m1 w1 -> owns w1 i ->
    rtc (solo i) (m1, w1) (m2, w2) ->
    thread_step i m2 w2 m3 w3 -> owner w3 = None ->
    atomic_step p (Pool (<[i := m3]> (threads p)) w3).

(** [p] is [p'] or the owner of [p] is inside a critical section it entered
    from [p']. *)
Definition behind {A} (p' p : pool A) : Prop :=
  owner p' = None /\
  match owner p with
  | None => p' = p
  | Some (i, _) => exists m m1 w1 m2,
      threads p' !! i = Some m /\ thread_step i m p' m1 w1 /\ owns w1 i /\
      rtc (solo i) (m1, w1) (m2, world_of p) /\ threads p = <[i := m2]> (threads p')
  end.

(** A step of a correct pool is local, enters the free mutex, is made by the
    owner inside its section, or leaves it. *)
Lemma step_cases {A} (Q : nat -> A -> list section -> Prop) (p : pool A) i m m' w :
  pool_ok Q p -> threads p !! i = Some m -> thread_step i m p m' w ->
  (w = p /\ forall w, thread_step i m w m' w) \/
  (owner p = None /\ exists t, owner w = Some (i, t)) \/
  (owns p i /\ (owner w = owner p \/ owner w = None)).
Proof.
  intros Hp Hm Hs. pose proof (pool_safe Q p i m Hp Hm) as Hsafe.
  destruct m as [a|msg|X e k|T R body v k]; cbn in *; [done..| |].
  - right. destruct Hs as (x & -> & Hs). destruct (role_of X e).
    + left. destruct Hs as (? & ->). eauto.
    + right. subst w. destruct Hsafe. auto.
    + right. destruct Hs as (s & _ & ->), Hsafe. auto.
  - left. by destruct Hs as (-> & ->).
Qed.

Lemma behind_step {A} (Q : nat -> A -> list section -> Prop) (p' p q : pool A) :
  pool_ok Q p -> behind p' p -> pool_step p q ->
  exists q', rtc atomic_step p' q' /\ behind q' q.
Proof.
  intros Hp [Ho' Hb] (j & m & m' & w & Hm & Hs & ->).
  pose proof (step_cases Q p j m m' w Hp Hm Hs) as Hcases.
  unfold behind. cbn [world_of threads].
  destruct (owner p) as [[i t]|] eqn:Ho.
  - destruct Hb as (m0 & m1 & w1 & m2 & Hm0 & He & Hw1 & Hsolo & Hth).
    assert (Hi : owns p i) by (unfold owns; by rewrite Ho).
    rewrite Hth in *. destruct Hcases as [(-> & Hl)|[[? _]|(Hj & Hout)]]; [|done|].
    + rewrite Ho. destruct (decide (i = j)) as [<-|Hij].
      * rewrite list_lookup_insert_eq in Hm by by eapply lookup_lt_Some.
        injection Hm as ->. exists p'. split; [done|]. split; [done|].
        exists m0, m1, w1, m'. split_and!; [done..| |by rewrite list_insert_insert_eq].
        eapply rtc_r; [exact Hsolo|]. split; [apply Hl|done].
      * rewrite list_lookup_insert_ne in Hm by done.
        exists (Pool (<[j := m']> (threads p')) p').
        split; [apply rtc_once; by eapply atomic_local|]. split; [done|].
        exists m0, m1, w1, m2. cbn. rewrite list_lookup_insert_ne by done.
        split_and!; [done..|]. by apply list_insert_insert_ne.
    + assert (j = i) as -> by (unfold owns in *; congruence).
      rewrite list_lookup_insert_eq in Hm by by eapply lookup_lt_Some.
      injection Hm as ->. rewrite list_insert_insert_eq. destruct Hout as [Hw|Hw]; rewrite Hw.
      * exists p'. split; [done|]. split; [done|]. exists m0, m1, w1, m'.
        split_and!; [done..| |done]. eapply rtc_r; [exact Hsolo|]. split; [exact Hs|].
        split; [done|]. cbn. unfold owns. by rewrite Hw.
      * eexists. split; [apply rtc_once; by eapply atomic_section|]. done.
  - subst p'. destruct Hcases as [(-> & Hl)|[(_ & t & Hw)|[Hi _]]].
    + rewrite Ho. eexists. split; [apply rtc_once; by eapply (atomic_local p j m m')|]. done.
    + rewrite Hw. exists p. split; [done|]. split; [done|]. exists m, m', w, m'.
      unfold owns. by rewrite Hw.
    + unfold owns in Hi. by rewrite Ho in Hi.
Qed.

(** Every interleaving of correct threads has the effect of running their
    critical sections one after the other. *)
Lemma pool_atomic {A} (Q : nat -> A -> list section -> Prop) (p q : pool A) :
  pool_ok Q p -> owner p = None -> rtc pool_step p q ->
  exists q', rtc atomic_step p q' /\ behind q' q.
Proof.
  intros Hp Ho Hs. revert q Hs. apply rtc_ind_r; [|intros q r Hq Hr IH].
  - exists p. split; [done|]. split; [done|]. by rewrite Ho.
  - destruct IH as (q' & Hq' & Hb).
    destruct (behind_step Q q' q r) as (r' & Hr' & Hb'); [by eapply pool_ok_steps|done|done|].
    exists r'. split; [by etransitivity|done].
Qed.
End threads.
