(* ===== verification/Misc.v ===== *)
(** utils/misc.go: the textual form of the Cygwin socket cookie and the random
    XShell cookie. *)
From S2P Require Import Prelude Effects.

(** ** encoding/hex *)

Definition hextable : list byte := bytes_of "0123456789abcdef".

(** [hex.Encode]: two lower-case digits per byte. *)
Fixpoint hexEncode (src : list byte) : list byte :=
  match src with
  | [] => []
  | b :: src =>
      nth (Z.to_nat (Z.shiftr (byte_val b) 4)) hextable x00
      :: nth (Z.to_nat (Z.land (byte_val b) 15)) hextable x00
      :: hexEncode src
  end.

(** [dst[off:]] overwritten with [src]. *)
Definition splice (dst : list byte) (off : nat) (src : list byte) : list byte :=
  take off dst ++ src ++ drop (off + length src) dst.

(** ** UUIDToString *)

(** One iteration of the loop. *)
Definition uuid_step (uuid : list byte) (dst : list byte) (i : nat) : list byte :=
  let b := take 4 (drop (i * 4) uuid) in
  let at_ k := nth k b x00 in
  let dst := splice dst (i * 9) (hexEncode [at_ 3; at_ 2; at_ 1; at_ 0]) in
  if (i =? 3)%nat then dst else splice dst (9 * i + 8) ["-"%byte].

Definition UUIDToString (uuid : list byte) : string :=
  string_of (fold_left (uuid_step uuid) [0; 1; 2; 3]%nat (replicate 35 x00)).

(** ** RandomString *)

(** The calls into crypto/rand and math/rand.  [CryptoRead n] answers with
    the buffer of [n] bytes as [Read] left it and [Read]'s results. *)
Inductive RandE : Type -> Type :=
| CryptoRead (n : nat) : RandE (list byte * Z * option error)
| RandSeed : RandE unit
| RandIntn (n : Z) : RandE Z.

Definition alphanum : list byte :=
  bytes_of "0123456789ABCDEFGHIJKLMNOPQRSTUVWXYZabcdefghijklmnopqrstuvwxyz".

(** [alphanum[i]], which panics out of range. *)
Definition alphanum_at (i : Z) : prog RandE byte :=
  match alphanum !! Z.to_nat i with
  | Some c => Ret c
  | None => Panic "index out of range"
  end.

Definition RandomString_step (randby : bool) (ib : nat * byte) (bytes : list byte)
    : prog RandE (ctl (list byte) Empty_set) :=
  let '(i, b) := ib in
  if randby then
    k <- call (RandIntn (Z.of_nat (length alphanum))) ;;
    c <- alphanum_at k ;;
    Ret (Next (<[i := c]> bytes))
  else
    c <- alphanum_at (byte_val b mod Z.of_nat (length alphanum)) ;;
    Ret (Next (<[i := c]> bytes)).

Definition RandomString (n : nat) : prog RandE string :=
  let* (bytes, num, err) := call (CryptoRead n) in
  randby <- (if negb (num =? Z.of_nat n)%Z || bool_decide (err <> None)
             then call RandSeed ;; Ret true
             else Ret false) ;;
  r <- for_range (zip (seq 0 n) bytes) bytes (RandomString_step randby) ;;
  match r with
  | inl bytes => Ret (string_of bytes)
  | inr e => match e with end
  end.

(** Documented behaviour: [Read] fills at most the buffer, [Intn n] is below
    [n] (and panics unless [n] is positive). *)
Definition rand_env : env RandE unit :=
  {| may _ e _ := match e with RandIntn n => (0 < n)%Z | _ => True end;
     does X e _ :=
       match e in RandE X return X -> unit -> Prop with
       | CryptoRead n => fun x _ => length x.1.1 = n
       | RandSeed => fun _ _ => True
       | RandIntn n => fun k _ => (0 <= k < n)%Z
       end |}.

(** What Cygwin makes of the text: four 32-bit words in hexadecimal, each in
    host (little-endian) order in memory. *)
Definition hexDigit (b : byte) : option Z :=
  match list_find (fun c => b = c) hextable with
  | Some (i, _) => Some (Z.of_nat i)
  | None => None
  end.

Fixpoint hexValue (acc : Z) (l : list byte) : option Z :=
  match l with
  | [] => Some acc
  | b :: l => d ← hexDigit b; hexValue (16 * acc + d) l
  end.

Definition cygwinWord (l : list byte) : option (list byte) :=
  w ← hexValue 0 l; Some (le_bytes 4 w).

Definition cygwinScan (s : string) : option (list byte) :=
  let l := bytes_of s in
  if decide (length l = 35%nat /\ nth 8 l x00 = "-"%byte /\
             nth 17 l x00 = "-"%byte /\ nth 26 l x00 = "-"%byte)
  then
    a ← cygwinWord (take 8 l);
    b ← cygwinWord (take 8 (drop 9 l));
    c ← cygwinWord (take 8 (drop 18 l));
    d ← cygwinWord (take 8 (drop 27 l));
    Some (a ++ b ++ c ++ d)
  else None.

(** The text in closed form: four groups of eight digits. *)
Definition uuid_text (uuid : list byte) : list byte :=
  let word i := hexEncode (rev (take 4 (drop (i * 4) uuid))) in
  word 0 ++ "-"%byte :: word 1 ++ "-"%byte :: word 2 ++ "-"%byte :: word 3.

Lemma length_hexEncode bs : length (hexEncode bs) = (2 * length bs)%nat.
Proof. induction bs; simpl; lia. Qed.

Lemma hexValue_hexEncode bs acc :
  hexValue acc (hexEncode bs) =
  Some (acc * 256 ^ Z.of_nat (length bs) + be_uint bs)%Z.
Proof.
  revert acc. induction bs as [|b bs IH]; intros acc; cbn [hexEncode].
  - simpl. f_equal. unfold be_uint. simpl. lia.
  - transitivity (hexValue (256 * acc + byte_val b) (hexEncode bs)).
    { destruct b; cbn [hexValue]; unfold hexDigit; vm_compute list_find; 
      cbn [mbind option_bind]; f_equal; vm_compute byte_val; lia. }
    rewrite IH. f_equal. unfold be_uint. cbn [rev length].
    rewrite le_uint_app. cbn [le_uint]. rewrite length_rev, Nat2Z.inj_succ, Z.pow_succ_r by lia. lia.
Qed.

(** A slice of sixteen bytes is sixteen bytes. *)
Ltac explode16 l H :=
  do 16 (destruct l as [|? l]; [discriminate H|]);
  destruct l; [clear H|discriminate H].

Lemma UUIDToString_text uuid :
  length uuid = 16%nat -> UUIDToString uuid = string_of (uuid_text uuid).
Proof. intros H. explode16 uuid H. reflexivity. Qed.

Lemma cygwinWord_hexEncode w :
  length w = 4%nat -> cygwinWord (hexEncode (rev w)) = Some w.
Proof.
  intros H. unfold cygwinWord. rewrite hexValue_hexEncode.
  cbn [mbind option_bind]. f_equal. unfold be_uint.
  rewrite rev_involutive, Z.mul_0_l, Z.add_0_l, <-H. apply le_bytes_uint.
Qed.

(** (C40) The name of a Cygwin socket file identifies its cookie: scanning the
    text [UUIDToString] writes, as four little-endian words, gives the sixteen
    bytes back, and the text always has 35 characters. *)
Theorem UUIDToString_roundtrip uuid :
  length uuid = 16%nat ->
  cygwinScan (UUIDToString uuid) = Some uuid /\
  length (bytes_of (UUIDToString uuid)) = 35%nat.
Proof.
  intros H. rewrite UUIDToString_text, bytes_of_string_of by done.
  unfold cygwinScan. rewrite bytes_of_string_of. explode16 uuid H.
  split; [|reflexivity].
  unfold uuid_text. cbn [Nat.mul Nat.add take drop].
  rewrite decide_True by (repeat split; reflexivity).
  lazymatch goal with
  | |- context [hexEncode (rev ?a) ++ _ :: hexEncode (rev ?b) ++ _ ::
                hexEncode (rev ?c) ++ _ :: hexEncode (rev ?d)] =>
      trans (x ← cygwinWord (hexEncode (rev a));
             y ← cygwinWord (hexEncode (rev b));
             z ← cygwinWord (hexEncode (rev c));
             t ← cygwinWord (hexEncode (rev d)); Some (x ++ y ++ z ++ t));
      [reflexivity|]
  end.
  by rewrite !cygwinWord_hexEncode.
Qed.

(** ** RandomString *)

Lemma take_S_insert {A} k (c : A) l :
  (k < length l)%nat -> take (S k) (<[k := c]> l) = take k l ++ [c].
Proof.
  intros. erewrite take_S_r by (by apply list_lookup_insert_eq).
  by rewrite take_insert, decide_False by lia.
Qed.

Lemma alphanum_at_ok k s (Q : byte -> unit -> Prop) :
  (0 <= k < 62)%Z -> (forall c, c ∈ alphanum -> Q c s) ->
  wp rand_env (alphanum_at k) s (returns Q).
Proof.
  intros Hk HQ. unfold alphanum_at.
  destruct (alphanum !! Z.to_nat k) as [c|] eqn:E; simpl.
  - eapply HQ, list_elem_of_lookup_2, E.
  - apply lookup_ge_None in E. vm_compute (length alphanum) in E. lia.
Qed.

Lemma RandomString_ok n :
  wp rand_env (RandomString n) tt (returns (fun s _ =>
    length (bytes_of s) = n /\ forall c, c ∈ bytes_of s -> c ∈ alphanum)).
Proof.
  unfold RandomString. cbn [wpx bind call]. split; [done|].
  intros [[bytes num] err] [] Hlen. cbn in Hlen.
  eapply wp_seq with (P := fun _ _ => True).
  { case_match; simpl; auto. }
  intros randby [] _. apply wp_bind.
  eapply (wp_for_range _ _ _ _ _ _ (fun l out _ => length out = n /\
    exists k, l = drop k (zip (seq 0 n) bytes) /\ (k <= n)%nat /\
      forall c, c ∈ take k out -> c ∈ alphanum)).
  - split; [done|]. exists 0%nat. split; [done|]. split; [lia|]. simpl. set_solver.
  - intros out [] (Hout & k & Hk & Hle & Hall). simpl.
    rewrite bytes_of_string_of. split; [done|].
    apply (f_equal length) in Hk.
    rewrite length_drop, length_zip_with, length_seq in Hk. simpl in Hk.
    intros c Hc. apply Hall. rewrite take_ge by lia. done.
  - intros [i b] l out [] (Hout & k & Hk & Hle & Hall).
    assert (Hi : zip (seq 0 n) bytes !! k = Some (i, b)).
    { rewrite <-(Nat.add_0_r k), <-lookup_drop, <-Hk. done. }
    assert (Hl : l = drop (S k) (zip (seq 0 n) bytes)).
    { erewrite drop_S in Hk by exact Hi. congruence. }
    apply lookup_zip_Some in Hi as [Hi _]. apply lookup_seq in Hi as [-> Hkn].
    assert (Hnext : forall c, c ∈ alphanum ->
      length (<[k := c]> out) = n /\ exists k', l = drop k' (zip (seq 0 n) bytes) /\
      (k' <= n)%nat /\ forall c', c' ∈ take k' (<[k := c]> out) -> c' ∈ alphanum).
    { intros c Hc. split; [by rewrite length_insert|]. exists (S k).
      split; [done|]. split; [lia|]. intros c'.
      rewrite take_S_insert, elem_of_app, list_elem_of_singleton by lia.
      intros [H| ->]; auto. }
    simpl. destruct randby; simpl.
    + split; [done|]. intros j [] Hj. vm_compute (Z.of_nat _) in Hj.
      eapply wp_seq; [apply (alphanum_at_ok j tt (fun c _ => c ∈ alphanum)); [lia|done]|].
      intros c [] Hc. simpl. auto.
    + eapply wp_seq; [apply (alphanum_at_ok _ tt (fun c _ => c ∈ alphanum));
        [apply Z.mod_pos_bound; lia|done]|].
      intros c [] Hc. simpl. auto.
Qed.

(** Every random cookie is well formed: whatever the two generators
    answer, and also when the system generator fails, [RandomString n]
    returns without panicking, and its result has [n] characters, all of them
    letters or digits. *)
Theorem RandomString_alphanumeric n h :
  handles rand_env h ->
  exists N s, (forall k, (N <= k)%nat -> run h k (RandomString n) tt = Some (Returns s, tt)) /\
    length (bytes_of s) = n /\ forall c, c ∈ bytes_of s -> c ∈ alphanum.
Proof.
  intros Hh. destruct (wp_run rand_env h Hh _ _ _ (RandomString_ok n))
    as (N & [s|msg] & [] & Hpost & Hrun); [|done]. exists N, s. auto.
Qed.

(** The 256 values of a random byte, and a generator that delivers one. *)
Definition all_bytes : list byte := map (fun n => to_byte (Z.of_nat n)) (seq 0 256).

Definition rand_fixed (b : byte) (X : Type) (e : RandE X) (s : unit) : X * unit :=
  match e in RandE X return X * unit with
  | CryptoRead n => ((replicate n b, Z.of_nat n, None), s)
  | RandSeed => (tt, s)
  | RandIntn n => (0%Z, s)
  end.

Definition random_char (b : byte) : option byte :=
  match run (rand_fixed b) 0 (RandomString 1) tt with
  | Some (Returns t, _) => head (bytes_of t)
  | _ => None
  end.

(** The reduction modulo 62 is nearly uniform: of the 256 values of a
    random byte, exactly five produce each of the first eight characters of
    the alphabet, and exactly four each of the others. *)
Theorem RandomString_bias :
  forall i c, alphanum !! i = Some c ->
  count (fun b => bool_decide (random_char b = Some c)) all_bytes =
  (if (i <? 8)%nat then 5 else 4)%Z.
Proof.
  intros i c Hc.
  assert (H : forallb (fun i => match alphanum !! i with
      | Some c => (count (fun b => bool_decide (random_char b = Some c)) all_bytes
                   =? if (i <? 8)%nat then 5 else 4)%Z
      | None => false end) (seq 0 62) = true) by (vm_compute; done).
  rewrite forallb_forall in H. specialize (H i). rewrite Hc in H.
  apply Z.eqb_eq, H, in_seq. apply lookup_lt_Some in Hc.
  vm_compute (length alphanum) in Hc. lia.
Qed.

(** ** Instances *)

Lemma UUIDToString_roundtrip_witness :
  cygwinScan (UUIDToString (replicate 15 x01 ++ [xab])) = Some (replicate 15 x01 ++ [xab]) /\
  length (bytes_of (UUIDToString (replicate 15 x01 ++ [xab]))) = 35%nat.
Proof. apply (UUIDToString_roundtrip (replicate 15 x01 ++ [xab])). reflexivity. Defined.

Lemma rand_fixed_handles b : handles rand_env (rand_fixed b).
Proof.
  intros X e s Hm. destruct e; cbn in *; [by rewrite length_replicate|done|lia].
Qed.

Lemma RandomString_alphanumeric_witness :
  exists N s, (forall k, (N <= k)%nat ->
      run (rand_fixed x0a) k (RandomString 7) tt = Some (Returns s, tt)) /\
    length (bytes_of s) = 7%nat /\ forall c, c ∈ bytes_of s -> c ∈ alphanum.
Proof. apply (RandomString_alphanumeric 7 (rand_fixed x0a)), rand_fixed_handles. Defined.

Lemma RandomString_bias_witness :
  count (fun b => bool_decide (random_char b = Some "7"%byte)) all_bytes = 5%Z.
Proof. apply (RandomString_bias 7 "7"%byte). reflexivity. Defined.
