(* ===== verification/X509.v ===== *)
(** The certificate data the sources use: crypto/x509's certificate with the
    fields KeyBridge reads, and capi.Certificate. *)
From S2P Require Import Prelude.

(** [x509.Certificate.PublicKey] is an interface value: an RSA key, an ECDSA
    key with the bit size of its curve, or a key of another kind.  [material]
    stands for the key itself. *)
Inductive public_key : Type :=
| RSAPublicKey (material : list byte)
| ECDSAPublicKey (BitSize : Z) (material : list byte)
| OtherPublicKey (material : list byte).

Record x509_Certificate : Type := {
  SerialNumber : Z;
  CommonName : string;
  PublicKey : public_key;
  ExtKeyUsage : list Z;
  UnknownExtKeyUsage : list (list Z);
}.

(** capi.Certificate: a handle of crypt32 with the certificate parsed from
    it. *)
Record Certificate : Type := {
  certContext : Z;
  x509 : x509_Certificate;
}.

(** x509.ExtKeyUsage constants. *)
Definition ExtKeyUsageAny : Z := 0.
Definition ExtKeyUsageServerAuth : Z := 1.
Definition ExtKeyUsageClientAuth : Z := 2.

#[export] Instance public_key_eq_dec : EqDecision public_key.
Proof. solve_decision. Defined.
#[export] Instance x509_Certificate_eq_dec : EqDecision x509_Certificate.
Proof. solve_decision. Defined.
#[export] Instance Certificate_eq_dec : EqDecision Certificate.
Proof. solve_decision. Defined.
