(* ===== verification/Eku.v ===== *)
(** sshagent/eku.go: which certificates become SSH identities. *)
From S2P Require Import Prelude X509.
Local Open Scope Z_scope.

Definition oidExtKeyUsageSmartCardLogon : list Z :=
  [1; 3; 6; 1; 4; 1; 311; 20; 2; 2].
Definition oidExtKeyUsageBitLockerDriveEncryption : list Z :=
  [1; 3; 6; 1; 4; 1; 311; 67; 1; 1].
Definition oidExtKeyUsageEncryptingFileSystem : list Z :=
  [1; 3; 6; 1; 4; 1; 311; 10; 3; 4].

(** The four flags of the function. *)
Record eku_flags : Type := {
  flagAny : bool;
  flagBitLocker : bool;
  flagAuth : bool;
  flagServerAuth : bool;
}.

Definition no_flags : eku_flags :=
  {| flagAny := false; flagBitLocker := false;
     flagAuth := false; flagServerAuth := false |}.

(** The bodies of the two loops. *)
Definition eku_known (f : eku_flags) (u : Z) : eku_flags :=
  if u =? ExtKeyUsageAny then
    {| flagAny := true; flagBitLocker := flagBitLocker f;
       flagAuth := flagAuth f; flagServerAuth := flagServerAuth f |}
  else if u =? ExtKeyUsageClientAuth then
    {| flagAny := flagAny f; flagBitLocker := flagBitLocker f;
       flagAuth := true; flagServerAuth := flagServerAuth f |}
  else if u =? ExtKeyUsageServerAuth then
    {| flagAny := flagAny f; flagBitLocker := flagBitLocker f;
       flagAuth := flagAuth f; flagServerAuth := true |}
  else f.

Definition eku_unknown (f : eku_flags) (oid : list Z) : eku_flags :=
  if bool_decide (oid = oidExtKeyUsageSmartCardLogon) then
    {| flagAny := flagAny f; flagBitLocker := flagBitLocker f;
       flagAuth := true; flagServerAuth := flagServerAuth f |}
  else if bool_decide (oid = oidExtKeyUsageBitLockerDriveEncryption) then
    {| flagAny := flagAny f; flagBitLocker := true;
       flagAuth := flagAuth f; flagServerAuth := flagServerAuth f |}
  else if bool_decide (oid = oidExtKeyUsageEncryptingFileSystem) then
    {| flagAny := flagAny f; flagBitLocker := true;
       flagAuth := flagAuth f; flagServerAuth := flagServerAuth f |}
  else f.

Definition FilterCertificateEKU (cert : Certificate) : bool :=
  let f := fold_left eku_known (ExtKeyUsage (x509 cert)) no_flags in
  let f := fold_left eku_unknown (UnknownExtKeyUsage (x509 cert)) f in
  if flagAny f || flagAuth f then true
  else if flagBitLocker f || flagServerAuth f then false
  else true.

(** ** What the flags mean *)

Lemma eku_known_flags l f :
  fold_left eku_known l f =
  {| flagAny := flagAny f || existsb (Z.eqb ExtKeyUsageAny) l;
     flagBitLocker := flagBitLocker f;
     flagAuth := flagAuth f || existsb (Z.eqb ExtKeyUsageClientAuth) l;
     flagServerAuth := flagServerAuth f || existsb (Z.eqb ExtKeyUsageServerAuth) l |}.
Proof.
  revert f. induction l as [|u l IH]; intros f; cbn [fold_left existsb].
  { destruct f; simpl. by rewrite !orb_false_r. }
  rewrite IH, !(Z.eqb_sym _ u). unfold eku_known.
  destruct (Z.eqb_spec u ExtKeyUsageAny) as [->|];
  [|destruct (Z.eqb_spec u ExtKeyUsageClientAuth) as [->|];
  [|destruct (Z.eqb_spec u ExtKeyUsageServerAuth) as [->|]]]; simpl;
    by rewrite ?orb_true_r.
Qed.

Lemma eku_unknown_flags l f :
  let has o := existsb (fun x => bool_decide (x = o)) l in
  fold_left eku_unknown l f =
  {| flagAny := flagAny f;
     flagBitLocker := flagBitLocker f
       || (has oidExtKeyUsageBitLockerDriveEncryption
           || has oidExtKeyUsageEncryptingFileSystem);
     flagAuth := flagAuth f || has oidExtKeyUsageSmartCardLogon;
     flagServerAuth := flagServerAuth f |}.
Proof.
  cbn zeta. revert f. induction l as [|u l IH]; intros f; cbn [fold_left existsb].
  { destruct f; simpl. by rewrite !orb_false_r. }
  rewrite IH. unfold eku_unknown.
  repeat case_bool_decide; subst; try discriminate; simpl;
    by rewrite ?orb_true_r, ?orb_assoc.
Qed.

Lemma existsb_Zeqb x l : existsb (Z.eqb x) l <-> x ∈ l.
Proof.
  rewrite list_elem_of_In. unfold Is_true.
  destruct (existsb _ l) eqn:E.
  - apply existsb_exists in E as (y & Hy & ->%Z.eqb_eq). done.
  - split; [done|]. intros Hx.
    enough (existsb (Z.eqb x) l = true) by congruence.
    apply existsb_exists. exists x. by rewrite Z.eqb_refl.
Qed.

Lemma existsb_eq `{EqDecision A} (x : A) l :
  existsb (fun y => bool_decide (y = x)) l <-> x ∈ l.
Proof.
  rewrite list_elem_of_In. unfold Is_true.
  destruct (existsb _ l) eqn:E.
  - apply existsb_exists in E as (y & Hy & ->%bool_decide_eq_true). done.
  - split; [done|]. intros Hx.
    enough (existsb (fun y => bool_decide (y = x)) l = true) by congruence.
    apply existsb_exists. exists x. by rewrite bool_decide_eq_true_2.
Qed.

(** (C37) The EKU filter decides exactly this: a certificate is accepted when
    it allows any usage, client authentication or smart-card logon, and
    otherwise only if it carries none of the server-authentication, BitLocker
    and encrypting-file-system usages; in particular a certificate without the
    extension is accepted. *)
Theorem FilterCertificateEKU_spec cert :
  let eku := ExtKeyUsage (x509 cert) in
  let oids := UnknownExtKeyUsage (x509 cert) in
  FilterCertificateEKU cert <->
  ((ExtKeyUsageAny ∈ eku \/ ExtKeyUsageClientAuth ∈ eku \/
    oidExtKeyUsageSmartCardLogon ∈ oids) \/
   ((ExtKeyUsageServerAuth ∉ eku) /\
    (oidExtKeyUsageBitLockerDriveEncryption ∉ oids) /\
    (oidExtKeyUsageEncryptingFileSystem ∉ oids))).
Proof.
  cbn zeta. unfold FilterCertificateEKU.
  rewrite eku_known_flags, eku_unknown_flags.
  cbn [flagAny flagAuth flagServerAuth flagBitLocker no_flags orb].
  rewrite <-!existsb_Zeqb, <-!existsb_eq.
  repeat match goal with |- context [existsb ?f ?l] =>
    let b := fresh "b" in set (b := existsb f l); clearbody b; destruct b end;
    simpl; tauto.
Qed.
