(* ===== verification/TcpOwner.v ===== *)
(** utils/tcpowner.go and GetUserSID of utils/security.go: who owns the other
    end of a loopback TCP connection. *)
From S2P Require Import Prelude Effects.
Local Open Scope Z_scope.

(** ** The TCP table *)

(** mibTcpRowOwnerPid. *)
Record mibTcpRowOwnerPid : Type := {
  State : Z; LocalAddr : Z; LocalPort : Z;
  RemoteAddr : Z; RemotePort : Z; OwningPid : Z;
}.

Definition rowSize : Z := 24.

(** The 32-bit little-endian field at offset [off] of the memory [m]. *)
Definition field32 (m : list byte) (off : nat) : Z := le_uint (take 4 (drop off m)).

(** [( *mibTcpRowOwnerPid)(unsafe.Pointer(&buf[off]))]: [None] is a read
    outside [buf]. *)
Definition read_row (buf : list byte) (off : Z) : option mibTcpRowOwnerPid :=
  if (off + rowSize <=? Z.of_nat (length buf))%Z then
    let m := drop (Z.to_nat off) buf in
    Some {| State := field32 m 0; LocalAddr := field32 m 4; LocalPort := field32 m 8;
            RemoteAddr := field32 m 12; RemotePort := field32 m 16;
            OwningPid := field32 m 20 |}
  else None.

Definition swapPort (p : Z) : Z :=
  u16 (Z.lor (Z.land (Z.shiftr p 8) 0xff) (Z.land (u32 (Z.shiftl p 8)) 0xff00)).

(** What a pass of the loop over the rows does. *)
Inductive scan_result : Type :=
| Found (pid : Z)
| NotFound
| OutOfBounds.

(** [for i := uint32(0); i < numEntries; i++], from [i] on, with [fuel] rows
    left. *)
Fixpoint scan_rows (buf : list byte) (localPort : Z) (fuel : nat) (i : Z) : scan_result :=
  match fuel with
  | O => NotFound
  | S fuel =>
      let off := u32 (4 + u32 (i * rowSize)) in
      if (u32 (Z.of_nat (length buf)) <? u32 (off + rowSize))%Z then NotFound
      else match read_row buf off with
           | None => OutOfBounds
           | Some row =>
               if swapPort (LocalPort row) =? localPort then Found (OwningPid row)
               else scan_rows buf localPort fuel (u32 (i + 1))
           end
  end.

(** ** Calls into Windows *)

(** SIDs are byte strings; a process handle, a token handle and a process id
    are numbers. *)
Inductive TcpE : Type -> Type :=
| GetExtendedTcpTable (size : Z) (room : nat) : TcpE (Z * Z * list byte)
    (** [size] is the value of the size variable, [room] the length of the
        buffer (0 for a nil buffer); the answer is the return value, the size
        variable and the bytes written at the start of the buffer. *)
| RemoteTCPPort : TcpE (option Z)
    (** [conn.RemoteAddr().( *net.TCPAddr)] and its port. *)
| OpenProcess (pid : Z) : TcpE (Z * option error)
| OpenProcessToken (proc : Z) : TcpE (Z * option error)
| GetTokenUser (token : Z) : TcpE (list byte * option error)
| GetCurrentProcessToken : TcpE Z
| CloseHandle (h : Z) : TcpE unit
| TokenClose (t : Z) : TcpE unit
| EqualSid (a b : list byte) : TcpE bool.

Definition errInsufficientBuffer : Z := 122.

(** One iteration of the retry loop, whose variables are [succeeded], [size]
    and [buf]. *)
Definition tcpTable_attempt (attempt : nat) (v : bool * Z * list byte)
    : prog TcpE (ctl (bool * Z * list byte) error) :=
  let '(succeeded, size, _) := v in
  if succeeded : bool then Ret (Break v) else
  if size =? 0 then Panic "index out of range" else
  let buf := replicate (Z.to_nat size) x00 in
  let* (r0, size, data) := call (GetExtendedTcpTable size (length buf)) in
  let buf := (go_copy buf data).1 in
  if r0 =? 0 then Ret (Next (true, size, buf))
  else if r0 =? errInsufficientBuffer then Ret (Next (false, size, buf))
  else Ret (Return (ErrorString ("GetExtendedTcpTable failed: " +:+ pretty r0))).

(** After the retry loop. *)
Definition tcpConnOwnerPID_scan (localPort : Z) (v : bool * Z * list byte)
    : prog TcpE (Z * option error) :=
  let '(succeeded, _, buf) := v in
  if negb succeeded then
    Ret (0, Some (ErrorString "GetExtendedTcpTable: table kept growing, giving up"))
  else if Z.of_nat (length buf) <? 4 then
    Ret (0, Some (ErrorString "GetExtendedTcpTable: short buffer"))
  else
  let numEntries := field32 buf 0 in
  match scan_rows buf localPort (Z.to_nat numEntries) 0 with
  | Found pid => Ret (pid, None)
  | OutOfBounds => Panic "read outside the buffer"
  | NotFound =>
      Ret (0, Some (ErrorString ("no TCP table entry for local port " +:+ pretty localPort)))
  end.

Definition tcpConnOwnerPID (localPort : Z) : prog TcpE (Z * option error) :=
  let* (_, size, _) := call (GetExtendedTcpTable 0 0) in
  if size =? 0 then
    Ret (0, Some (ErrorString "GetExtendedTcpTable: could not determine buffer size"))
  else
  r <- for_range [0; 1; 2]%nat (false, size, []) tcpTable_attempt ;;
  match r with
  | inr err => Ret (0, Some err)
  | inl v => tcpConnOwnerPID_scan localPort v
  end.

(** utils.GetUserSID. *)
Definition GetUserSID : prog TcpE (list byte * option error) :=
  token <- call GetCurrentProcessToken ;;
  let* (user, err) := call (GetTokenUser token) in
  match err with
  | Some e => Ret ([], Some e)
  | None => Ret (user, None)
  end.

(** The comparison of users, with the process handle open. *)
Definition same_user_token (proc : Z) : prog TcpE (bool * option error) :=
  let* (token, err) := call (OpenProcessToken proc) in
  match err with Some e => Ret (false, Some e) | None =>
  defer (call (TokenClose token)) (
    let* (tokenUser, err) := call (GetTokenUser token) in
    match err with Some e => Ret (false, Some e) | None =>
    let* (ourSID, err) := GetUserSID in
    match err with Some e => Ret (false, Some e) | None =>
    same <- call (EqualSid tokenUser ourSID) ;;
    Ret (same, None)
    end end)
  end.

Definition SameUserTCPConn : prog TcpE (bool * option error) :=
  remote <- call RemoteTCPPort ;;
  match remote with
  | None => Ret (false, Some (ErrorString "SameUserTCPConn: not a TCP connection"))
  | Some port =>
      let* (pid, err) := tcpConnOwnerPID (u16 port) in
      match err with Some e => Ret (false, Some e) | None =>
      let* (proc, err) := call (OpenProcess pid) in
      match err with Some e => Ret (false, Some e) | None =>
      defer (call (CloseHandle proc)) (same_user_token proc)
      end end
  end.

(** ** What Windows promises *)

(** A table in memory: the number of rows, then the rows. *)
Definition row_bytes (r : mibTcpRowOwnerPid) : list byte :=
  le_bytes 4 (State r) ++ le_bytes 4 (LocalAddr r) ++ le_bytes 4 (LocalPort r) ++
  le_bytes 4 (RemoteAddr r) ++ le_bytes 4 (RemotePort r) ++ le_bytes 4 (OwningPid r).

Definition table_bytes (t : list mibTcpRowOwnerPid) : list byte :=
  le_bytes 4 (Z.of_nat (length t)) ++ concat (map row_bytes t).

Definition row_ok (r : mibTcpRowOwnerPid) : Prop :=
  0 <= State r < 2 ^ 32 /\ 0 <= LocalAddr r < 2 ^ 32 /\ 0 <= LocalPort r < 2 ^ 32 /\
  0 <= RemoteAddr r < 2 ^ 32 /\ 0 <= RemotePort r < 2 ^ 32 /\ 0 <= OwningPid r < 2 ^ 32.

(** The last table Windows returned, the open process handles with their
    process, and the open tokens with their user. *)
Record tcp_state : Type := {
  table : option (list mibTcpRowOwnerPid);
  procs : list (Z * Z);
  tokens : list (Z * list byte);
}.

Section tcp_env.
(** The TCP port of the peer ([None] when the connection is not TCP), the user
    of each process, our own user, and the pseudo handle of our own token. *)
Context (peer : option Z) (pid_sid : Z -> list byte) (own_sid : list byte)
        (own_token : Z).

Definition with_table t s := {| table := Some t; procs := procs s; tokens := tokens s |}.
Definition with_procs p s := {| table := table s; procs := p; tokens := tokens s |}.
Definition with_tokens t s := {| table := table s; procs := procs s; tokens := t |}.

Definition tcp_env : env TcpE tcp_state :=
  {| may X e s :=
       match e with
       | GetExtendedTcpTable size room => size = Z.of_nat room
       | OpenProcessToken p => exists pid, (p, pid) ∈ procs s
       | GetTokenUser t => t = own_token \/ exists sid, (t, sid) ∈ tokens s
       | CloseHandle p => exists pid, (p, pid) ∈ procs s
       | TokenClose t => exists sid, (t, sid) ∈ tokens s
       | _ => True
       end;
     does X e s :=
       match e in TcpE X return X -> tcp_state -> Prop with
       | GetExtendedTcpTable size room => fun '(r0, size', data) s' =>
           0 <= size' < 2 ^ 32 /\
           (r0 = 0 /\ (exists t, data = table_bytes t /\ Forall row_ok t /\
                      (length data <= room)%nat /\ s' = with_table t s)
            \/ r0 <> 0 /\ (r0 = errInsufficientBuffer -> 0 < size') /\ s' = s)
       | RemoteTCPPort => fun r s' => r = peer /\ s' = s
       | OpenProcess pid => fun '(h, err) s' =>
           match err with
           | Some _ => s' = s
           | None => (h ∉ (procs s).*1) /\ s' = with_procs ((h, pid) :: procs s) s
           end
       | OpenProcessToken p => fun '(t, err) s' =>
           match err with
           | Some _ => s' = s
           | None => exists pid, (p, pid) ∈ procs s /\
                       t <> own_token /\ (t ∉ (tokens s).*1) /\
                       s' = with_tokens ((t, pid_sid pid) :: tokens s) s
           end
       | GetTokenUser t => fun '(sid, err) s' =>
           s' = s /\ (err = None ->
             (t = own_token /\ sid = own_sid) \/ (t <> own_token /\ (t, sid) ∈ tokens s))
       | GetCurrentProcessToken => fun t s' => t = own_token /\ s' = s
       | CloseHandle p => fun _ s' =>
           s' = with_procs (filter (fun x => x.1 <> p) (procs s)) s
       | TokenClose t => fun _ s' =>
           s' = with_tokens (filter (fun x => x.1 <> t) (tokens s)) s
       | EqualSid a b => fun r s' => r = bool_decide (a = b) /\ s' = s
       end |}.
End tcp_env.

(** ** The scan *)

Lemma length_row_bytes r : length (row_bytes r) = 24%nat.
Proof. unfold row_bytes. by rewrite !length_app, !length_le_bytes. Qed.

Lemma drop_table_bytes t pad i r :
  t !! i = Some r ->
  exists rest, drop (4 + 24 * i) (table_bytes t ++ pad) = row_bytes r ++ rest /\
    (4 + 24 * i + 24 <= length (table_bytes t ++ pad))%nat.
Proof.
  intros Hi. unfold table_bytes.
  rewrite <-drop_drop, <-app_assoc, drop_app_length' by (by rewrite length_le_bytes).
  enough (exists rest, drop (24 * i) (concat (map row_bytes t) ++ pad) = row_bytes r ++ rest /\
    (24 * i + 24 <= length (concat (map row_bytes t) ++ pad))%nat) as (rest & Hr & Hl).
  { exists rest. split; [done|]. rewrite !length_app, length_le_bytes in *. lia. }
  revert i Hi. induction t as [|r' t IH]; intros i Hi; [done|]. cbn [map concat].
  destruct i as [|i]; cbn in Hi.
  - injection Hi as ->. exists (concat (map row_bytes t) ++ pad).
    rewrite <-app_assoc, length_app, length_row_bytes. split; [done|lia].
  - destruct (IH i Hi) as (rest & Hr & Hl). exists rest.
    replace (24 * S i)%nat with (24 + 24 * i)%nat by lia.
    rewrite <-app_assoc, <-drop_drop, drop_app_length' by (by rewrite length_row_bytes).
    split; [done|]. rewrite length_app, length_row_bytes. lia.
Qed.

Lemma le_uint_field v : 0 <= v < 2 ^ 32 -> le_uint (le_bytes 4 v) = v.
Proof. intros. rewrite le_uint_bytes. by apply Z.mod_small. Qed.

Lemma read_row_table t pad i r :
  t !! i = Some r -> row_ok r ->
  read_row (table_bytes t ++ pad) (4 + rowSize * Z.of_nat i) = Some r.
Proof.
  intros Hi (? & ? & ? & ? & ? & ?).
  destruct (drop_table_bytes t pad i r Hi) as (rest & Hr & Hl).
  unfold read_row, rowSize.
  replace (Z.to_nat (4 + 24 * Z.of_nat i)) with (4 + 24 * i)%nat by lia.
  rewrite Hr. case_match eqn:E; [|apply Z.leb_gt in E; lia].
  f_equal. destruct r; cbn in *. unfold field32, row_bytes. cbn [drop take app].
  f_equal; by apply le_uint_field.
Qed.

(** The first row with the port, the specification of the scan. *)
Definition owner_in (t : list mibTcpRowOwnerPid) (localPort : Z) : option Z :=
  snd <$> head (filter (fun x => x.1 = localPort)
                  ((fun r => (swapPort (LocalPort r), OwningPid r)) <$> t)).

Lemma row_offset i :
  0 <= i -> 4 + i * rowSize < 2 ^ 32 -> u32 (4 + u32 (i * rowSize)) = 4 + rowSize * i.
Proof. unfold rowSize. intros. rewrite (wrap_small _ (i * 24)), wrap_small; lia. Qed.

Lemma scan_rows_spec t pad port k i :
  Forall row_ok t -> Z.of_nat (length (table_bytes t ++ pad)) < 2 ^ 32 ->
  (k + i = length t)%nat ->
  scan_rows (table_bytes t ++ pad) port k (Z.of_nat i) =
  match owner_in (drop i t) port with Some pid => Found pid | None => NotFound end.
Proof.
  intros Hok Hlen. revert i. induction k as [|k IH]; intros i Hk; cbn [scan_rows].
  { rewrite drop_ge by lia. done. }
  destruct (lookup_lt_is_Some_2 t i) as [r Hr]; [lia|].
  pose proof (Forall_lookup_1 _ _ _ _ Hok Hr) as Hrok.
  destruct (drop_table_bytes t pad i r Hr) as (_ & _ & Hl).
  rewrite row_offset by (unfold rowSize; lia).
  rewrite !(wrap_small 32) by (unfold rowSize; lia).
  case_match eqn:E; [apply Z.ltb_lt in E; unfold rowSize in E; lia|]. clear E.
  rewrite (read_row_table t pad i r Hr Hrok).
  erewrite (drop_S _ _ i) by exact Hr.
  unfold owner_in. cbn [fmap list_fmap]. rewrite filter_cons. cbn [fst].
  destruct (Z.eqb_spec (swapPort (LocalPort r)) port) as [Hp|Hp].
  - rewrite decide_True by done. done.
  - rewrite decide_False by done.
    replace (Z.of_nat i + 1) with (Z.of_nat (S i)) by lia. by rewrite IH by lia.
Qed.

(** (C38) No address computation of the scan overflows or leaves the buffer:
    for any contents of a buffer of less than 2^32 - 24 bytes, the row count in
    it included, every row the loop dereferences lies inside the buffer. *)
Theorem scan_rows_in_bounds buf port fuel :
  Z.of_nat (length buf) + rowSize < 2 ^ 32 -> 4 <= Z.of_nat (length buf) ->
  scan_rows buf port fuel 0 <> OutOfBounds.
Proof.
  intros Hlen H4.
  assert (H : forall i, 0 <= i -> 4 + i * rowSize <= Z.of_nat (length buf) ->
              scan_rows buf port fuel i <> OutOfBounds); [|apply H; unfold rowSize; lia].
  induction fuel as [|fuel IH]; intros i Hi Hoff; cbn [scan_rows]; [done|].
  rewrite row_offset by (unfold rowSize in *; lia). unfold rowSize in *.
  rewrite !(wrap_small 32) by lia.
  destruct (Z.ltb_spec (Z.of_nat (length buf)) (4 + 24 * i + 24)); [done|].
  unfold read_row, rowSize. rewrite (proj2 (Z.leb_le _ _)) by lia.
  case_match; [done|]. apply IH; lia.
Qed.

(** ** The port *)

Lemma land_0xff00 p : Z.land (u32 (Z.shiftl p 8)) 0xff00 = (p mod 256) * 256.
Proof.
  unfold wrap. rewrite <-Z.land_ones, <-Z.land_assoc by lia.
  change (Z.land (Z.ones 32) 0xff00) with (Z.shiftl (Z.ones 8) 8).
  rewrite <-Z.shiftl_land, Z.land_ones, Z.shiftl_mul_pow2 by lia. done.
Qed.

Lemma swapPort_digits p :
  swapPort p = (p / 256) mod 256 + 256 * (p mod 256).
Proof.
  unfold swapPort. rewrite land_0xff00.
  change 0xff with (Z.ones 8). rewrite Z.land_ones, Z.shiftr_div_pow2 by lia.
  change (2 ^ 8) with 256.
  pose proof (Z.mod_pos_bound (p / 256) 256 ltac:(lia)).
  pose proof (Z.mod_pos_bound p 256 ltac:(lia)).
  assert (Hd : Z.land ((p / 256) mod 256) (p mod 256 * 256) = 0).
  { change 256 with (2 ^ 8) at 2 4. rewrite <-Z.land_ones, <-Z.shiftl_mul_pow2 by lia.
    rewrite <-Z.land_assoc. apply Z.bits_inj'. intros n Hn.
    rewrite !Z.land_spec, Z.shiftl_spec, Z.bits_0 by lia.
    destruct (Z.ltb_spec n 8).
    - rewrite (Z.testbit_neg_r _ (n - 8)) by lia. by rewrite !andb_false_r.
    - rewrite Z.ones_spec_high by lia. by rewrite andb_false_r. }
  pose proof (Z.add_lor_land ((p / 256) mod 256) (p mod 256 * 256)) as Hs.
  rewrite Hd, Z.add_0_r in Hs. rewrite Hs, wrap_small; lia.
Qed.

(** [swapPort] undoes the network byte order of the table: a field whose
    first two bytes in memory are the port, most significant byte first, gives
    the port, whatever the other two bytes hold. *)
Theorem swapPort_network_order port junk :
  0 <= port < 65536 -> length junk = 2%nat ->
  swapPort (le_uint (be_bytes 2 port ++ junk)) = port.
Proof.
  intros Hp Hj. rewrite swapPort_digits.
  pose proof (le_uint_bound junk). 
  change (be_bytes 2 port) with [to_byte (port / 256); to_byte port].
  cbn [app le_uint]. rewrite !byte_val_to_byte.
  generalize dependent (le_uint junk). intros x [Hx _]. clear Hj.
  Z.to_euclidean_division_equations. lia.
Qed.

(** ** The lookup *)

Section lookup.
Context (peer : option Z) (pid_sid : Z -> list byte) (own_sid : list byte)
        (own_token : Z).
Local Abbreviation V := (tcp_env peer pid_sid own_sid own_token).

(** What the lookup returns for a table. *)
Definition lookup_result (t : list mibTcpRowOwnerPid) (localPort : Z) : Z * option error :=
  match owner_in t localPort with
  | Some pid => (pid, None)
  | None => (0, Some (ErrorString ("no TCP table entry for local port " +:+ pretty localPort)))
  end.

(** The buffer holds a table, if the retry loop succeeded. *)
Definition attempt_inv (s : tcp_state) (v : bool * Z * list byte) (s' : tcp_state) : Prop :=
  let '(succeeded, size, buf) := v in
  if succeeded then
    exists t pad, buf = table_bytes t ++ pad /\ Forall row_ok t /\
      Z.of_nat (length buf) < 2 ^ 32 /\ s' = with_table t s
  else 0 < size < 2 ^ 32 /\ s' = s.

Lemma go_copy_prefix {A} (dst src : list A) :
  (length src <= length dst)%nat ->
  exists pad, (go_copy dst src).1 = src ++ pad.
Proof.
  intros H. unfold go_copy. cbn [fst]. rewrite Nat.min_r by done.
  rewrite firstn_all. eauto.
Qed.

Lemma tcpTable_attempt_ok a v s s' :
  attempt_inv s v s' ->
  wp V (tcpTable_attempt a v) s' (returns (fun c s'' =>
    match c with
    | Next v | Break v => attempt_inv s v s''
    | Return _ => s'' = s
    end)).
Proof.
  destruct v as [[succeeded size] buf]. unfold attempt_inv.
  destruct succeeded; intros H; [exact H|]. destruct H as [Hsz ->].
  unfold tcpTable_attempt. case_match eqn:E; [apply Z.eqb_eq in E; lia|]. clear E.
  cbn [wpx bind call]. rewrite length_replicate. split; [cbn; lia|].
  intros [[r0 size'] data] u (Hs' & [(-> & t & -> & Hok & Hroom & ->)|(Hr0 & Hgrow & ->)]).
  - rewrite Z.eqb_refl. destruct (go_copy_prefix (replicate (Z.to_nat size) x00) (table_bytes t))
      as [pad Hpad]; [by rewrite length_replicate|].
    exists t, pad. split; [done|]. split; [done|]. split; [|done].
    rewrite length_go_copy, length_replicate. lia.
  - rewrite (proj2 (Z.eqb_neq _ _) Hr0). destruct (Z.eqb_spec r0 errInsufficientBuffer).
    + split; [|done]. lia.
    + done.
Qed.

(** What follows the retry loop. *)
Lemma tcpConnOwnerPID_exit localPort s v u :
  attempt_inv s v u ->
  wp V (tcpConnOwnerPID_scan localPort v) u (returns (fun r s' =>
    (r.2 <> None /\ s' = s) \/
    exists t, s' = with_table t s /\ r = lookup_result t localPort)).
Proof.
  destruct v as [[[|] size] buf]; intros H; [|by left; destruct H as [_ ->]].
  destruct H as (t & pad & -> & Hok & Hlen & ->). cbn [tcpConnOwnerPID_scan].
  assert (Hn : (length (concat (map row_bytes t)) = 24 * length t)%nat).
  { clear. induction t as [|r t IH]; [done|].
    cbn [map concat length]. rewrite length_app, length_row_bytes, IH. lia. }
  assert (Hl : length (table_bytes t ++ pad) = (4 + 24 * length t + length pad)%nat).
  { unfold table_bytes. rewrite !length_app, length_le_bytes, Hn. lia. }
  rewrite (proj2 (Z.ltb_ge _ _)) by lia.
  assert (Hnum : field32 (table_bytes t ++ pad) 0 = Z.of_nat (length t)).
  { unfold field32, table_bytes. rewrite <-app_assoc, drop_0.
    rewrite take_app_length' by (by rewrite length_le_bytes). apply le_uint_field. lia. }
  pose proof (scan_rows_spec t pad localPort (length t) 0 Hok Hlen ltac:(lia)) as Hscan.
  change (Z.of_nat 0) with 0 in Hscan. cbn zeta.
  rewrite Hnum, Nat2Z.id, Hscan, drop_0.
  destruct (owner_in t localPort) as [pid|] eqn:Ho; right; exists t;
    unfold lookup_result; by rewrite Ho.
Qed.

(** The outcome of the lookup: either an error, or the specified result for a
    table Windows returned. *)
Lemma tcpConnOwnerPID_ok localPort s :
  wp V (tcpConnOwnerPID localPort) s (returns (fun r s' =>
    (r.2 <> None /\ s' = s) \/
    exists t, s' = with_table t s /\ r = lookup_result t localPort)).
Proof.
  unfold tcpConnOwnerPID. cbn [wpx bind call]. split; [done|].
  intros [[r0 size] data] u (Hs & Hu).
  assert (u = s) as ->.
  { destruct Hu as [(-> & t & -> & _ & Hroom & _)|(_ & _ & ->)]; [|done].
    unfold table_bytes in Hroom. rewrite length_app, length_le_bytes in Hroom. lia. }
  clear Hu. destruct (Z.eqb_spec size 0); [by left|].
  apply wp_bind. apply (wp_for_range _ _ _ _ _ _ (fun _ v s' => attempt_inv s v s')).
  - split; [lia|done].
  - intros v u Hv. by apply tcpConnOwnerPID_exit.
  - intros a l v u Hv. eapply wp_mono; [by apply tcpTable_attempt_ok|].
    intros [[v'|v'|err]|msg] u'; cbn; auto using tcpConnOwnerPID_exit.
Qed.

Ltac tcp_cbn :=
  cbn [wpx bind call table procs tokens with_table with_procs with_tokens returns fst snd] in *.

(** The part of the check that runs with the process open. *)
Lemma same_user_token_ok pid h s :
  (h, pid) ∈ procs s ->
  wp V (same_user_token h) s (returns (fun r s' =>
    procs s' = procs s /\ tokens s' = tokens s /\ table s' = table s /\
    (r.1 = true -> r.2 = None) /\
    (r.2 = None -> exists pid, (h, pid) ∈ procs s /\ (r.1 = true <-> pid_sid pid = own_sid)))).
Proof.
  intros Hh. unfold same_user_token, GetUserSID.
  cbn [wpx bind call defer on_panic]. split; [by exists pid|].
  intros [t [e|]] s1; [intros ->; done|]. intros (pid' & Hp' & Hown & Hfresh & ->).
  cbn [wpx bind call defer tokens procs with_tokens]. split; [right; eexists; apply elem_here|].
  intros [sid [e|]] s2 [-> Hsid]; cbn [wpx bind call defer on_panic].
  { split; [eexists; apply elem_here|]. intros ? u Hu. hnf in Hu. subst u. tcp_cbn. by rewrite (filter_fresh fst). }
  split; [done|]. intros t' ? [-> ->].
  split; [by left|]. intros [osid [e|]] ? [-> Hosid]; cbn [wpx bind call defer on_panic].
  { split; [eexists; apply elem_here|]. intros ? u Hu. hnf in Hu. subst u. tcp_cbn. by rewrite (filter_fresh fst). }
  split; [done|]. intros r ? [-> ->]. split; [eexists; apply elem_here|]. intros _ ? ->.
  tcp_cbn. rewrite (filter_fresh fst) by done.
  split_and!; [done..|]. intros _. exists pid'. split; [done|].
  destruct (Hosid eq_refl) as [[_ ->]|[]]; [|done].
  destruct (Hsid eq_refl) as [[-> _]|[_ Hin]]; [done|].
  enough (sid = pid_sid pid') as -> by apply bool_decide_eq_true.
  cbn in Hin. apply elem_of_cons in Hin as [Heq|Hin]; [by injection Heq|].
  destruct Hfresh. apply list_elem_of_fmap. by exists (t, sid).
Qed.

(** What the ownership check found out. *)
Definition owner_checked (same : bool) (s : tcp_state) : Prop :=
  exists t port pid, peer = Some port /\ table s = Some t /\
    owner_in t (u16 port) = Some pid /\ (same = true <-> pid_sid pid = own_sid).

Lemma SameUserTCPConn_ok s :
  wp V SameUserTCPConn s (returns (fun r s' =>
    procs s' = procs s /\ tokens s' = tokens s /\
    (r.1 = true -> r.2 = None) /\ (r.2 = None -> owner_checked r.1 s'))).
Proof.
  unfold SameUserTCPConn. cbn [wpx bind call]. split; [done|].
  intros [port|] ? [Hpeer ->]; [|done].
  eapply wp_seq; [apply tcpConnOwnerPID_ok|].
  intros [pid [e|]] t H; [by destruct H as [[_ ->]|(tb & -> & _)]|].
  destruct H as [[Hne _]|(tb & -> & Hr)]; [done|].
  unfold lookup_result in Hr. destruct (owner_in tb (u16 port)) eqn:Ho; [|done].
  injection Hr as ->. cbn [wpx bind call]. split; [done|].
  intros [h [e|]] s1; [intros ->; done|]. intros [Hfresh ->].
  eapply wp_defer; [apply (same_user_token_ok z); cbn; apply elem_here|].
  intros [[r err]|msg] s2; [|done]. intros (Hp & Ht & Htb & Htrue & Hr). tcp_cbn.
  split; [exists z; rewrite Hp; apply elem_here|]. answer x. tcp_cbn.
  rewrite Hp, Ht, (filter_fresh fst) by done.
  split_and!; [done..|]. intros Herr. destruct (Hr Herr) as (pid & Hin & Hsid).
  exists tb, port, z.
  enough (pid = z) as -> by (split_and!; [done|exact Htb|exact Ho|exact Hsid]).
  apply elem_of_cons in Hin as [Heq|Hin]; [by injection Heq as <-|].
  destruct Hfresh. apply list_elem_of_fmap. by exists (h, pid).
Qed.

(** (C18) The ownership check is exact where it answers, and does not leak:
    without an error, [SameUserTCPConn] answers [true] exactly when the first
    row with the peer's port, in a table Windows returned, belongs to a process
    of our own user; with an error it answers [false]; and on every path the
    process handle and the token it opened are closed again. *)
Theorem SameUserTCPConn_sound s :
  wp V SameUserTCPConn s (returns (fun r s' =>
    procs s' = procs s /\ tokens s' = tokens s /\
    (r.2 <> None -> r.1 = false) /\ (r.2 = None -> owner_checked r.1 s'))).
Proof.
  eapply wp_mono; [apply SameUserTCPConn_ok|]. intros [[[|] err]|msg] s'; prog; [| |done];
    intros (Hp & Ht & Htrue & Hr); (split; [done|]; split; [done|]; split; [|done]); [|done].
  intros Hne. by destruct (Hne (Htrue eq_refl)).
Qed.
End lookup.

(** ** Instances *)

Lemma scan_rows_in_bounds_witness :
  scan_rows (replicate 30 xff) 22 7 0 <> OutOfBounds.
Proof. apply (scan_rows_in_bounds (replicate 30 xff) 22 7); cbn; unfold rowSize; lia. Defined.

Lemma swapPort_network_order_witness :
  swapPort (le_uint (be_bytes 2 8080 ++ [xff; x01])) = 8080.
Proof. apply (swapPort_network_order 8080 [xff; x01]); [lia|reflexivity]. Defined.
