(* ===== verification/Capi.v ===== *)
(** capi/wincapi.go: certificates and signatures through crypt32 and
    ncrypt. *)
From S2P Require Import Prelude Effects X509.
Local Open Scope Z_scope.

(** ** Constants *)

Definition ALG_RSA_SHA1RSA : string := "1.2.840.113549.1.1.5".
Definition ALG_RSA_SHA256RSA : string := "1.2.840.113549.1.1.11".
Definition ALG_RSA_SHA384RSA : string := "1.2.840.113549.1.1.12".
Definition ALG_RSA_SHA512RSA : string := "1.2.840.113549.1.1.13".
Definition ALG_ECDSA_SHA1 : string := "1.2.840.10045.4.1".
Definition ALG_ECDSA_SPECIFIED : string := "1.2.840.10045.4.3".
Definition ALG_ECDSA_SHA256 : string := "1.2.840.10045.4.3.2".
Definition ALG_ECDSA_SHA384 : string := "1.2.840.10045.4.3.3".
Definition ALG_ECDSA_SHA512 : string := "1.2.840.10045.4.3.4".
Definition NCRYPT_PIN_PROPERTY : string := "SmartCardPin".

Definition X509_ASN_ENCODING : Z := 0x1.
Definition PKCS_7_ASN_ENCODING : Z := 0x10000.
Definition CRYPT_ACQUIRE_CACHE_FLAG : Z := 0x00000001.
Definition CRYPT_ACQUIRE_ONLY_NCRYPT_KEY_FLAG : Z := 0x00040000.
Definition CRYPT_E_NOT_FOUND : Z := 0x80092004.
Definition CERT_STORE_PROV_SYSTEM_A : Z := 9.
Definition CERT_SYSTEM_STORE_CURRENT_USER : Z := 0x00010000.
Definition CERT_STORE_READONLY_FLAG : Z := 0x00008000.
Definition CERT_KEY_SPEC_PROP_ID : Z := 6.

(** ** cryptSignMessagePara

    The fields the code sets; every other field is zero.  [CbSize] is
    [unsafe.Sizeof] of the struct on amd64. *)
Record cryptSignMessagePara : Type := {
  CbSize : Z;
  MsgEncodingType : Z;
  SigningCert : Z;
  HashAlgorithm_ObjId : string;
  HashEncryptionAlgorithm_ObjId : string;
}.

(** The sizes of the seventeen fields: each is aligned to its size or, for
    the two algorithm identifiers, to 8. *)
Definition para_fields : list (Z * Z) :=
  [(4, 4); (4, 4); (8, 8); (24, 8); (8, 8); (4, 4); (8, 8); (4, 4); (8, 8);
   (4, 4); (8, 8); (4, 4); (8, 8); (4, 4); (4, 4); (24, 8); (8, 8)].

Definition sizeof_fields (fs : list (Z * Z)) : Z :=
  let align off a := (off + a - 1) / a * a in
  align (fold_left (fun off '(size, a) => align off a + size) fs 0) 8.

Definition sizeof_cryptSignMessagePara : Z := sizeof_fields para_fields.

(** ** Calls into Windows

    A [Syscall] answers with its return value [r0] and the last error
    [e1]. *)
Inductive CapiE : Type -> Type :=
| CertOpenStore (provider flags : Z) (name : string) : CapiE (Z * option error)
| CertCloseStore (store : Z) : CapiE unit
| CertEnumCertificatesInStore (store prev : Z) : CapiE (Z * option error)
| CertGetCertificateContextProperty (context propId : Z) : CapiE Z
| EncodedCert (context : Z) : CapiE (list byte)
    (** the [cert.Length] bytes at [cert.EncodedCert] *)
| CertDuplicateCertificateContext (context : Z) : CapiE (Z * Z)
| CertFreeCertificateContext (context : Z) : CapiE (option error)
| CryptAcquireCertificatePrivateKey (context flags : Z) : CapiE (Z * Z * Z * Z)
    (** [r0], [e1], the key handle and the BOOL that says who frees it *)
| NCryptSetProperty (hObject : Z) (property : string) (dwFlags : Z) : CapiE (Z * Z)
    (** with an empty value *)
| NCryptFreeObject (hObject : Z) : CapiE (Z * Z)
| CryptSignMessage (para : cryptSignMessagePara) (data : list byte) (room : Z)
    : CapiE (Z * Z * list byte * Z)
    (** [r0], [e1], the bytes written at the start of the [room] bytes of
        output, and the size variable *)
| Printf (format : string) (err : error) : CapiE unit.

(** syscall.BytePtrFromString: fails on a NUL byte. *)
Definition BytePtrFromString (s : string) : option error :=
  if decide (x00 ∈ bytes_of s) then Some EINVAL else None.

(** ** The wrappers *)

Definition resultSize : Z := 0x2000.

Definition cryptSignMessage (para : cryptSignMessagePara) (data : list byte)
    : prog CapiE (list byte * option error) :=
  if (length data =? 0)%nat then
    Ret ([], Some (ErrorString "cryptSignMessage: empty data"))
  else
  let* (r0, e1, written, size) := call (CryptSignMessage para data resultSize) in
  let result := (go_copy (replicate (Z.to_nat resultSize) x00) written).1 in
  if negb (e1 =? 0) then Ret ([], Some (Errno e1))
  else if r0 =? 0 then Ret ([], Some (ErrorString "failed to sign"))
  else if resultSize <? size then Panic "slice bounds out of range"
  else Ret (take (Z.to_nat size) result, None).

Definition certDuplicateCertificateContext (context : Z) : prog CapiE (Z * option error) :=
  let* (r0, e1) := call (CertDuplicateCertificateContext context) in
  if negb (e1 =? 0) then Ret (0, Some (Errno e1)) else Ret (r0, None).

Definition certGetCertificateContextProperty (context dwPropId : Z) : prog CapiE Z :=
  call (CertGetCertificateContextProperty context dwPropId).

(** nCryptSetPropertyString with an empty value, the only way it is
    called. *)
Definition nCryptSetPropertyString (hObject : Z) (pszProperty : string) (dwFlags : Z)
    : prog CapiE (option error) :=
  let* (r0, e1) := call (NCryptSetProperty hObject pszProperty dwFlags) in
  if negb (r0 =? 0) then Ret (Some (Errno e1))
  else if negb (e1 =? 0) then Ret (Some (Errno e1))
  else Ret None.

Definition cryptAcquireCertificatePrivateKey (context flags : Z)
    : prog CapiE (Z * bool * option error) :=
  let* (r0, e1, key, pfCallerFree) := call (CryptAcquireCertificatePrivateKey context flags) in
  if r0 =? 0 then Ret (0, false, Some (ErrorString "r0 was 0"))
  else if negb (e1 =? 0) then Ret (0, false, Some (Errno e1))
  else Ret (key, negb (pfCallerFree =? 0), None).

Definition nCryptFreeObject (hObject : Z) : prog CapiE (option error) :=
  let* (r0, e1) := call (NCryptFreeObject hObject) in
  if negb (r0 =? 0) then Ret (Some (Errno e1)) else Ret None.

Definition Certificate_Free (s : Certificate) : prog CapiE (option error) :=
  call (CertFreeCertificateContext (certContext s)).

Definition Certificate_Copy (s : Certificate)
    : prog CapiE (option Certificate * option error) :=
  let* (context, err) := certDuplicateCertificateContext (certContext s) in
  match err with
  | Some e => Ret (None, Some e)
  | None => Ret (Some {| certContext := context; x509 := x509 s |}, None)
  end.

(** The copy of the encoded certificate: at most 2^20 bytes of it, in a
    buffer of its length. *)
Definition copy_encoded (enc : list byte) : list byte :=
  if Z.of_nat (length enc) <=? 2 ^ 20 then enc
  else (go_copy (replicate (length enc) x00) (take (Z.to_nat (2 ^ 20)) enc)).1.

Section capi.
(** crypto/x509's parser and the pkcs7 parser (its result holds the
    [EncryptedDigest] of every signer, and is nil on some errors). *)
Context (ParseCertificate : list byte -> x509_Certificate + error).
Context (pkcs7_Parse : list byte -> option (list (list byte)) * option error).

(** One iteration of the enumeration; the loop variables are [cert] and
    [certs]. *)
Definition LoadUserCerts_step (store : Z) (v : Z * list Certificate)
    : prog CapiE (ctl (Z * list Certificate) (option (list Certificate) * option error)) :=
  let '(cert, certs) := v in
  let* (cert, err) := call (CertEnumCertificatesInStore store cert) in
  match err with
  | Some e =>
      if bool_decide (e = Errno CRYPT_E_NOT_FOUND) then Ret (Break (cert, certs))
      else Ret (Return (None, Some e))
  | None =>
  if cert =? 0 then Ret (Break (cert, certs)) else
  propID <- certGetCertificateContextProperty cert CERT_KEY_SPEC_PROP_ID ;;
  if propID =? 0 then Ret (Next (cert, certs)) else
  enc <- call (EncodedCert cert) ;;
  match ParseCertificate (copy_encoded enc) with
  | inr _ => Ret (Next (cert, certs))
  | inl c =>
      let* (cc, err) := certDuplicateCertificateContext cert in
      match err with
      | Some _ => Ret (Next (cert, certs))
      | None => Ret (Next (cert, certs ++ [{| certContext := cc; x509 := c |}]))
      end
  end
  end.

Definition LoadUserCerts : prog CapiE (option (list Certificate) * option error) :=
  let* (store, err) := call (CertOpenStore CERT_STORE_PROV_SYSTEM_A
      (Z.lor CERT_SYSTEM_STORE_CURRENT_USER CERT_STORE_READONLY_FLAG) "My") in
  match err with
  | Some e => Ret (None, Some e)
  | None =>
  defer (call (CertCloseStore store)) (
    r <- loop (LoadUserCerts_step store) (0, []) ;;
    match r with
    | inl (_, certs) => Ret (Some certs, None)
    | inr result => Ret result
    end)
  end.

(** The deferred part of [Sign]. *)
Definition Sign_cleanup (nCryptHandle : Z) (freeHandle : bool) : prog CapiE unit :=
  resetErr <- nCryptSetPropertyString nCryptHandle NCRYPT_PIN_PROPERTY 0 ;;
  (match resetErr with
   | Some e => call (Printf "Could not reset NCRYPT_PIN_PROPERTY: %v\n" e)
   | None => Ret tt
   end) ;;
  if freeHandle then
    freeErr <- nCryptFreeObject nCryptHandle ;;
    match freeErr with
    | Some e => call (Printf "Could not free NCrypt key handle: %v\n" e)
    | None => Ret tt
    end
  else Ret tt.

Definition Sign_message (alg : string) (cert : Certificate) (data : list byte)
    : prog CapiE (option (list (list byte)) * option error) :=
  match BytePtrFromString alg with
  | Some e => Ret (None, Some e)
  | None =>
  let* (sign, err) := cryptSignMessage
    {| CbSize := u32 sizeof_cryptSignMessagePara;
       MsgEncodingType := Z.lor X509_ASN_ENCODING PKCS_7_ASN_ENCODING;
       SigningCert := certContext cert;
       HashAlgorithm_ObjId := alg;
       HashEncryptionAlgorithm_ObjId := alg |} data in
  match err with
  | Some e => Ret (None, Some e)
  | None => Ret (pkcs7_Parse sign)
  end
  end.

Definition Sign (disablePINCache : bool) (alg : string) (cert : Certificate)
    (data : list byte) : prog CapiE (option (list (list byte)) * option error) :=
  let* (nCryptHandle, freeHandle, err) :=
    (if disablePINCache then
       cryptAcquireCertificatePrivateKey (certContext cert)
         (Z.lor CRYPT_ACQUIRE_CACHE_FLAG CRYPT_ACQUIRE_ONLY_NCRYPT_KEY_FLAG)
     else Ret (0, false, None)) in
  match err with
  | Some e => Ret (None, Some e)
  | None =>
      if disablePINCache && negb (nCryptHandle =? 0) then
        defer (Sign_cleanup nCryptHandle freeHandle) (Sign_message alg cert data)
      else Sign_message alg cert data
  end.

End capi.

(** The package variable [disablePINCache] and its setter. *)
Definition initial_disablePINCache : bool := true.
Definition SetDisablePINCache (b disablePINCache : bool) : bool := b.

(** ** What Windows promises

    The state holds the reference count of every certificate context, the
    open stores, the contexts the open store still has to enumerate, the
    history of the key operations (what was asked for and what came of it), and
    the contexts Windows would not duplicate. *)
Inductive key_call : Type :=
| KNoKey (context : Z)
    (** the key of [context] was asked for and there is no handle *)
| KAcquire (context key : Z) (callerFree : bool) (e1 : Z)
    (** a handle was returned, with the last error [e1] *)
| KSign (context : Z) (alg : string) (data : list byte) (made : option (list byte))
    (** a signature was asked for; the message, if it was made *)
| KResetPIN (key : Z)
| KFree (key : Z).

Record capi_state : Type := CapiState {
  refs : Z -> Z;
  stores : list Z;
  todo : list Z;
  keylog : list key_call;
  denied : list Z;
}.

Definition at_ (h k : Z) : Z := if h =? k then 1 else 0.

Definition retain (c : Z) (s : capi_state) : capi_state :=
  CapiState (fun h => refs s h + at_ h c) (stores s) (todo s) (keylog s) (denied s).
Definition release (c : Z) (s : capi_state) : capi_state :=
  CapiState (fun h => refs s h - at_ h c) (stores s) (todo s) (keylog s) (denied s).
Definition with_stores (l : list Z) (s : capi_state) : capi_state :=
  CapiState (refs s) l (todo s) (keylog s) (denied s).
Definition with_todo (l : list Z) (s : capi_state) : capi_state :=
  CapiState (refs s) (stores s) l (keylog s) (denied s).
Definition log (c : key_call) (s : capi_state) : capi_state :=
  CapiState (refs s) (stores s) (todo s) (keylog s ++ [c]) (denied s).
Definition deny (c : Z) (s : capi_state) : capi_state :=
  CapiState (refs s) (stores s) (todo s) (keylog s) (denied s ++ [c]).

(** [CertEnumCertificatesInStore] always releases the context it is given. *)
Definition release_prev (prev : Z) (s : capi_state) : capi_state :=
  if prev =? 0 then s else release prev s.

(** The message CryptSignMessage leaves in [room] bytes of output, if it
    reports that it made one. *)
Definition message_made (room : Z) (r : Z * Z * list byte * Z) : option (list byte) :=
  let '(r0, e1, written, size) := r in
  if (e1 =? 0) && negb (r0 =? 0) then
    Some (take (Z.to_nat size) (go_copy (replicate (Z.to_nat room) x00) written).1)
  else None.

Section capi_env.
(** The contexts of the store, and the key-spec property and the encoding of
    each context. *)
Context (contents : list Z) (key_spec : Z -> Z) (encoding : Z -> list byte).

(** [CertEnumCertificatesInStore] hands out the next context with a reference,
    or nil with CRYPT_E_NOT_FOUND at the end;
    [CertDuplicateCertificateContext] adds a reference to its argument and
    returns it, unless it reports an error. *)
Definition capi_env : env CapiE capi_state :=
  {| may X e s :=
       match e with
       | CertCloseStore h => h ∈ stores s
       | CertEnumCertificatesInStore h prev =>
           h ∈ stores s /\ (prev = 0 \/ 0 < refs s prev)
       | CertGetCertificateContextProperty c _ | EncodedCert c
       | CertDuplicateCertificateContext c | CertFreeCertificateContext c => 0 < refs s c
       | CryptAcquireCertificatePrivateKey c flags =>
           0 < refs s c /\
           Z.land flags CRYPT_ACQUIRE_ONLY_NCRYPT_KEY_FLAG = CRYPT_ACQUIRE_ONLY_NCRYPT_KEY_FLAG
       | CryptSignMessage para data room =>
           0 < refs s (SigningCert para) /\ data <> [] /\ room = resultSize
       | NCryptSetProperty k _ _ => exists c own e1, KAcquire c k own e1 ∈ keylog s
       | NCryptFreeObject k => exists c e1, KAcquire c k true e1 ∈ keylog s
       | _ => True
       end;
     does X e s :=
       match e in CapiE X return X -> capi_state -> Prop with
       | CertOpenStore _ _ _ => fun '(h, err) s' =>
           match err with
           | Some _ => s' = s
           | None => (h ∉ stores s) /\
                     s' = with_stores (h :: stores s) (with_todo contents s)
           end
       | CertCloseStore h => fun _ s' =>
           s' = with_stores (filter (fun k => k <> h) (stores s)) s
       | CertEnumCertificatesInStore _ prev => fun '(c, err) s' =>
           match err with
           | Some e =>
               (e = Errno CRYPT_E_NOT_FOUND -> todo s = []) /\
               c = 0 /\ s' = release_prev prev s
           | None =>
               exists l, c <> 0 /\ todo s = c :: l /\
                 s' = with_todo l (retain c (release_prev prev s))
           end
       | CertGetCertificateContextProperty c _ => fun r s' => r = key_spec c /\ s' = s
       | EncodedCert c => fun enc s' => enc = encoding c /\ s' = s
       | CertDuplicateCertificateContext c => fun '(r0, e1) s' =>
           if e1 =? 0 then r0 = c /\ s' = retain c s else s' = deny c s
       | CertFreeCertificateContext c => fun _ s' => s' = release c s
       | CryptAcquireCertificatePrivateKey c _ => fun '(r0, e1, key, free) s' =>
           s' = log (if r0 =? 0 then KNoKey c else KAcquire c key (negb (free =? 0)) e1) s
       | NCryptSetProperty k p _ => fun _ s' =>
           s' = (if bool_decide (p = NCRYPT_PIN_PROPERTY)
                 then log (KResetPIN k) s else s)
       | NCryptFreeObject k => fun _ s' => s' = log (KFree k) s
       | CryptSignMessage para data room => fun '(r0, e1, written, size) s' =>
           (r0 <> 0 -> 0 <= size <= room) /\
           s' = log (KSign (SigningCert para) (HashAlgorithm_ObjId para) data
                       (message_made room (r0, e1, written, size))) s
       | Printf _ _ => fun _ s' => s' = s
       end |}.
End capi_env.

Ltac capi_cbn :=
  cbn [wpx bind call defer on_panic returns fst snd refs stores todo keylog denied
       retain release with_stores with_todo log deny may does capi_env
       certDuplicateCertificateContext certGetCertificateContextProperty] in *.

(** ** The theorems *)

(** An error and no result. *)
Definition failed {A} (r : option A * option error) : Prop := r.1 = None /\ r.2 <> None.

Section theorems.
Context (ParseCertificate : list byte -> x509_Certificate + error).
Context (pkcs7_Parse : list byte -> option (list (list byte)) * option error).
Context (contents : list Z) (key_spec : Z -> Z) (encoding : Z -> list byte).
Local Abbreviation V := (capi_env contents key_spec encoding).

(** The references a list of certificates holds on a context. *)
Definition holds (certs : list Certificate) (h : Z) : Z :=
  count (fun c => certContext c =? h) certs.

Lemma holds_snoc certs c h : holds (certs ++ [c]) h = holds certs h + at_ h (certContext c).
Proof.
  unfold holds, at_. count. rewrite (Z.eqb_sym (certContext c)).
  destruct (h =? certContext c); lia.
Qed.

(** What the enumeration keeps of a context: it needs a key and a certificate
    that parses. *)
Definition usable (c : Z) : option Certificate :=
  if key_spec c =? 0 then None else
  match ParseCertificate (copy_encoded (encoding c)) with
  | inl x => Some {| certContext := c; x509 := x |}
  | inr _ => None
  end.

(** [taken d seen certs]: from the contexts [seen], the certificates of the
    usable ones that could be duplicated, in their order; [d] are those that
    could not be. *)
Inductive taken : list Z -> list Z -> list Certificate -> Prop :=
| taken_nil : taken [] [] []
| taken_skip d seen certs c : usable c = None ->
    taken d seen certs -> taken d (c :: seen) certs
| taken_deny d seen certs c x : usable c = Some x ->
    taken d seen certs -> taken (c :: d) (c :: seen) certs
| taken_keep d seen certs c x : usable c = Some x ->
    taken d seen certs -> taken d (c :: seen) (x :: certs).

Lemma taken_app d d' seen seen' certs certs' :
  taken d seen certs -> taken d' seen' certs' ->
  taken (d ++ d') (seen ++ seen') (certs ++ certs').
Proof. intros H H'. induction H; cbn; eauto using taken. Qed.

(** Nothing usable is passed over when nothing was denied. *)
Lemma taken_all seen certs : taken [] seen certs -> certs = omap usable seen.
Proof.
  intros H. remember [] as d eqn:Hd. induction H as [|d seen certs c Hc _ IH| |d seen certs c x Hc _ IH];
    [done|..|done|]; cbn; rewrite Hc; [by apply IH|f_equal; by apply IH].
Qed.

Lemma taken_usable d seen certs : taken d seen certs -> Forall (fun x => x ∈ omap usable seen) certs.
Proof.
  intros H. apply Forall_forall. intros x Hx. apply list_elem_of_omap.
  induction H as [|d seen certs c Hc _ IH|d seen certs c y Hc _ IH|d seen certs c y Hc _ IH];
    [by inversion Hx|..|apply elem_of_cons in Hx as [->|Hx]; [exists c; split; [apply elem_here|done]|]];
    destruct (IH Hx) as (c' & ? & ?); exists c'; (split; [by apply elem_of_cons; right|done]).
Qed.

(** The invariant of the enumeration: the context last handed out holds one
    reference, every certificate kept holds one, and what was kept is what
    could be taken of the contexts seen so far. *)
Definition enum_inv (s : capi_state) (v : Z * list Certificate) (u : capi_state) : Prop :=
  let '(cert, certs) := v in
  (forall h, refs u h = refs s h + holds certs h + (if cert =? 0 then 0 else at_ h cert)) /\
  stores u = stores s /\ keylog u = keylog s /\
  exists seen d, contents = seen ++ todo u /\ denied u = denied s ++ d /\ taken d seen certs.

Lemma at_same h : at_ h h = 1.
Proof. unfold at_. by rewrite Z.eqb_refl. Qed.

Lemma refs_release_prev prev s h :
  refs (release_prev prev s) h = refs s h - (if prev =? 0 then 0 else at_ h prev).
Proof. unfold release_prev. destruct (prev =? 0); cbn; lia. Qed.

Lemma release_prev_same prev s :
  stores (release_prev prev s) = stores s /\ todo (release_prev prev s) = todo s /\
  keylog (release_prev prev s) = keylog s /\ denied (release_prev prev s) = denied s.
Proof. unfold release_prev. by destruct (prev =? 0). Qed.

Lemma holds_nonneg certs h : 0 <= holds certs h.
Proof. apply count_nonneg. Qed.

(** The context just handed out, before it is known what becomes of it. *)
Definition enum_at (s : capi_state) (c : Z) (certs : list Certificate) (u : capi_state) : Prop :=
  (forall h, refs u h = refs s h + holds certs h + at_ h c) /\
  stores u = stores s /\ keylog u = keylog s /\
  exists seen d, contents = seen ++ c :: todo u /\ denied u = denied s ++ d /\ taken d seen certs.

Lemma enum_next s cert certs u c l :
  enum_inv s (cert, certs) u -> todo u = c :: l ->
  enum_at s c certs (with_todo l (retain c (release_prev cert u))).
Proof.
  intros (Hr & Hst & Hk & seen & d & Hc & Hd & Ht) Hl.
  destruct (release_prev_same cert u) as (Hst' & _ & Hk' & Hd').
  unfold enum_at. cbn [refs stores keylog todo denied with_todo retain].
  rewrite Hst', Hk', Hd'. split_and!; [|done..|].
  - intros h. rewrite refs_release_prev, Hr. lia.
  - exists seen, d. by rewrite Hc, Hl.
Qed.

Lemma enum_pos s c certs u :
  enum_at s c certs u -> (forall h, 0 <= refs s h) -> 0 < refs u c.
Proof.
  intros (Hr & _) Hs. rewrite Hr, at_same.
  pose proof (holds_nonneg certs c). specialize (Hs c). lia.
Qed.

(** What may become of it. *)
Lemma enum_skip s c certs u :
  c <> 0 -> enum_at s c certs u -> usable c = None -> enum_inv s (c, certs) u.
Proof.
  intros Hc (Hr & Hst & Hk & seen & d & Hseen & Hd & Ht) Hu.
  unfold enum_inv. rewrite (proj2 (Z.eqb_neq _ _) Hc). split_and!; [done..|].
  exists (seen ++ [c]), d. rewrite <-app_assoc. split_and!; [done..|].
  rewrite <-(app_nil_r d), <-(app_nil_r certs). apply taken_app; [done|]. by repeat constructor.
Qed.

Lemma enum_deny s c certs u x :
  c <> 0 -> enum_at s c certs u -> usable c = Some x -> enum_inv s (c, certs) (deny c u).
Proof.
  intros Hc (Hr & Hst & Hk & seen & d & Hseen & Hd & Ht) Hu.
  unfold enum_inv. rewrite (proj2 (Z.eqb_neq _ _) Hc). split_and!; [done..|].
  exists (seen ++ [c]), (d ++ [c]). cbn. rewrite Hd, <-!app_assoc. split_and!; [done..|].
  rewrite <-(app_nil_r certs). apply taken_app; [done|]. repeat econstructor; done.
Qed.

Lemma enum_keep s c certs u x :
  c <> 0 -> enum_at s c certs u -> usable c = Some x ->
  enum_inv s (c, certs ++ [x]) (retain c u).
Proof.
  intros Hc (Hr & Hst & Hk & seen & d & Hseen & Hd & Ht) Hu.
  assert (Hx : certContext x = c).
  { revert Hu. unfold usable. destruct (key_spec c =? 0); [done|].
    destruct (ParseCertificate _); [|done]. by intros [= <-]. }
  unfold enum_inv. rewrite (proj2 (Z.eqb_neq _ _) Hc). split_and!; [|done..|].
  - intros h. cbn. rewrite Hr, holds_snoc, Hx. lia.
  - exists (seen ++ [c]), d. cbn. rewrite <-app_assoc. split_and!; [done..|].
    rewrite <-(app_nil_r d). apply taken_app; [done|]. repeat econstructor; done.
Qed.

(** An enumeration that failed: it had taken [certs] from the contexts before
    the failure. *)
Definition enum_failed (s : capi_state) (certs : list Certificate) (u : capi_state) : Prop :=
  stores u = stores s /\ keylog u = keylog s /\
  (forall h, refs u h = refs s h + holds certs h) /\
  exists seen rest d, contents = seen ++ rest /\ denied u = denied s ++ d /\ taken d seen certs.

Lemma enum_step s store cert certs u :
  (forall h, 0 <= refs s h) -> store ∈ stores s ->
  enum_inv s (cert, certs) u ->
  wp V (LoadUserCerts_step ParseCertificate store (cert, certs)) u (returns (fun c t =>
    match c with
    | Next w => enum_inv s w t /\ (length (todo t) < length (todo u))%nat
    | Break w => w.1 = 0 /\ enum_inv s w t /\ todo t = []
    | Return r => failed r /\ enum_failed s certs t
    end)).
Proof.
  intros Hs Hstore Hinv. pose proof Hinv as (Hr & Hst & Hk & seen & d & Hc & Hd & Hsub).
  capi_cbn. split.
  { split; [by rewrite Hst|]. destruct (Z.eqb_spec cert 0) as [|Hn]; [by left|right].
    rewrite Hr, at_same. pose proof (holds_nonneg certs cert). specialize (Hs cert). lia. }
  intros [c [e|]] t.
  { destruct (release_prev_same cert u) as (Hst' & Htd & Hk' & Hd').
    assert (Hr' : forall h, refs (release_prev cert u) h = refs s h + holds certs h).
    { intros h. rewrite refs_release_prev, Hr. lia. }
    intros (Hend & -> & ->). cbn [bind].
    destruct (bool_decide_reflect (e = Errno CRYPT_E_NOT_FOUND)) as [He|He];
      cbn [wpx returns fst snd].
    - rewrite Htd. split; [done|]. split; [|auto]. unfold enum_inv.
      rewrite Hst', Hk', Htd, Hd'. split_and!; [|done..|by exists seen, d].
      intros h. rewrite Hr'. cbn. lia.
    - unfold enum_failed. rewrite Hst', Hk', Hd'. split_and!; [done..|].
      by exists seen, (todo u), d. }
  intros (l & Hc0 & Ht & ->). cbn [bind]. rewrite (proj2 (Z.eqb_neq _ _) Hc0).
  pose proof (enum_next _ _ _ _ _ _ Hinv Ht) as Hat.
  pose proof (enum_pos _ _ _ _ Hat Hs) as Hpos.
  assert (Hlen : (length l < length (todo u))%nat) by (rewrite Ht; cbn; lia).
  set (t := with_todo l (retain c (release_prev cert u))) in *.
  change l with (todo t) in Hlen. clearbody t.
  pose proof (enum_skip s c certs t Hc0 Hat) as Hskip.
  pose proof (fun x => enum_deny s c certs t x Hc0 Hat) as Hdeny.
  pose proof (fun x => enum_keep s c certs t x Hc0 Hat) as Hkeep.
  capi_cbn. split; [done|]. intros r ? [-> ->]. cbn [bind].
  unfold usable in Hskip, Hdeny, Hkeep.
  destruct (Z.eqb_spec (key_spec c) 0); [split; [by apply Hskip|done]|]. capi_cbn.
  split; [done|]. intros enc ? [-> ->]. cbn [bind].
  destruct (ParseCertificate (copy_encoded (encoding c))) as [x|] eqn:Hx;
    [|split; [by apply Hskip|done]].
  capi_cbn. split; [done|]. intros [r0 e1] t'. cbn [bind].
  destruct (Z.eqb_spec e1 0).
  - intros [-> ->]. cbn [negb wpx bind]. split; [|done]. by apply Hkeep.
  - intros ->. cbn [negb wpx bind]. split; [|done]. by eapply Hdeny.
Qed.

Definition loaded (s : capi_state) (r : option (list Certificate) * option error)
    (s' : capi_state) : Prop :=
  match r with
  | (Some certs, err) =>
      err = None /\ stores s' = stores s /\ keylog s' = keylog s /\
      (forall h, refs s' h = refs s h + holds certs h) /\
      exists d, denied s' = denied s ++ d /\ taken d contents certs
  | (None, err) => err <> None /\ exists leaked, enum_failed s leaked s'
  end.

Lemma LoadUserCerts_ok s :
  (forall h, 0 <= refs s h) ->
  wp V (LoadUserCerts ParseCertificate) s (returns (loaded s)).
Proof.
  intros Hs. unfold LoadUserCerts. cbn [wpx bind call]. split; [done|].
  intros [store [e|]] ?.
  { intros ->. cbn. split; [done|]. exists []. split_and!; [done..| |].
    - intros h. unfold holds. count.
    - exists [], contents, []. rewrite app_nil_r. split_and!; [done..|constructor]. }
  intros [Hfresh ->]. set (s1 := with_stores (store :: stores s) (with_todo contents s)).
  eapply (wp_defer _ _ _ _ _ (returns (fun r u => loaded s1 r u))).
  - cbn [bind loop].
    apply (wp_loop _ _ _ _ _ (enum_inv s1) (fun _ u => length (todo u))).
    { split_and!; [|done..|]; cbn; [intros h; unfold holds; count|].
      exists [], []. rewrite app_nil_r. split_and!; [done..|constructor]. }
    intros [cert certs] u Hinv. eapply wp_mono.
    { apply (enum_step s1); [exact Hs|cbn; apply elem_here|exact Hinv]. }
    intros [[w|w|[o err]]|msg] t; cbn [returns]; [done| |..|done].
    + destruct w as [cert' certs']. cbn [fst].
      intros (-> & (Hr & Hst & Hk & seen & d & Hc & Hd & Ht) & Htodo).
      split_and!; [done..| |].
      * intros h. rewrite Hr. cbn. lia.
      * exists d. split; [done|]. by rewrite Hc, Htodo, app_nil_r.
    + intros ((Ho & He) & Hf). cbn in Ho, He. rewrite Ho. split; [done|by exists certs].
  - intros [r|msg] u; [|done].
    assert (Hclose : stores u = stores s1 ->
      stores (with_stores (filter (fun k => k <> store) (stores u)) u) = stores s).
    { intros Hu. cbn. rewrite Hu. by apply filter_self. }
    cbn. intros Hpost. assert (Hst : stores u = stores s1).
    { destruct r as [[certs|] err]; [apply Hpost|].
      destruct Hpost as (_ & leaked & Hl). apply Hl. }
    split; [rewrite Hst; apply elem_here|]. intros _ ? ->. specialize (Hclose Hst).
    destruct r as [[certs|] err].
    + destruct Hpost as (He & _ & Hrest). exact (conj He (conj Hclose Hrest)).
    + destruct Hpost as (He & leaked & _ & Hrest). split; [exact He|]. exists leaked.
      split; [exact Hclose|exact Hrest].
Qed.

(** (C9) [LoadUserCerts] ends, closes the store it opened, and accounts for
    every certificate reference, whatever Windows answers.  When it succeeds,
    it has gone through the whole store, the certificates it returns are, in
    the store's order, exactly those with a private key that parse and that
    Windows would duplicate, and exactly the references they hold were added:
    the context of the enumeration and every skipped context are released.
    When it fails it returns no certificate, and what it leaves behind are the
    references of the contexts it had taken before the failure. *)
Theorem LoadUserCerts_accounts h s :
  handles V h -> (forall c, 0 <= refs s c) ->
  exists N r s',
    (forall n, (N <= n)%nat ->
       run h n (LoadUserCerts ParseCertificate) s = Some (Returns r, s')) /\
    loaded s r s'.
Proof.
  intros Hh Hs. destruct (wp_run V h Hh _ _ _ (LoadUserCerts_ok s Hs))
    as (N & [r|msg] & s' & Hpost & Hrun); [|done].
  exists N, r, s'. auto.
Qed.

(** *** Signing *)

(** The deferred clean-up of a key. *)
Definition cleanup_events (key : Z) (own : bool) : list key_call :=
  KResetPIN key :: (if own then [KFree key] else []).

Definition log_all (l : list key_call) (s : capi_state) : capi_state :=
  CapiState (refs s) (stores s) (todo s) (keylog s ++ l) (denied s).

Lemma log_all_nil s : log_all [] s = s.
Proof. destruct s. unfold log_all. cbn. by rewrite app_nil_r. Qed.

Lemma log_all_app l k s : log_all k (log_all l s) = log_all (l ++ k) s.
Proof. unfold log_all. cbn. by rewrite app_assoc. Qed.

(** Asking for a signature: it is refused before Windows is called if the
    algorithm's name or the data is unusable; else Windows is asked once, for
    this certificate, algorithm and data, and the result is an error if it
    made no message and what the parser says of the message if it did. *)
Inductive signing (alg : string) (ctx : Z) (data : list byte)
    (r : option (list (list byte)) * option error) : list key_call -> Prop :=
| signing_refused : BytePtrFromString alg <> None \/ data = [] -> failed r ->
    signing alg ctx data r []
| signing_failed : BytePtrFromString alg = None -> data <> [] -> failed r ->
    signing alg ctx data r [KSign ctx alg data None]
| signing_made sign : BytePtrFromString alg = None -> data <> [] ->
    Z.of_nat (length sign) <= resultSize -> r = pkcs7_Parse sign ->
    signing alg ctx data r [KSign ctx alg data (Some sign)].

Lemma Sign_message_ok alg cert data s :
  0 < refs s (certContext cert) ->
  wp V (Sign_message pkcs7_Parse alg cert data) s (returns (fun r s' =>
    exists l, s' = log_all l s /\ signing alg (certContext cert) data r l)).
Proof.
  intros Hr. unfold Sign_message, cryptSignMessage.
  destruct (BytePtrFromString alg) eqn:Halg.
  { prog. exists []. rewrite log_all_nil. split; [done|]. apply signing_refused; [left; by rewrite Halg|done]. }
  destruct data as [|b data].
  { prog. exists []. rewrite log_all_nil. split; [done|]. apply signing_refused; [by right|done]. }
  cbn [length Nat.eqb]. prog. split; [done|].
  intros [[[r0 e1] w] size] t [Hsize ->].
  change (log ?c s) with (log_all [c] s). unfold message_made. prog.
  assert (Hfail : forall e, exists l, log_all [KSign (certContext cert) alg (b :: data) None] s
      = log_all l s /\ signing alg (certContext cert) (b :: data) (None, Some e) l).
  { intros e. eexists. split; [done|]. by constructor. }
  destruct (Z.eqb_spec e1 0); prog; [|apply Hfail].
  destruct (Z.eqb_spec r0 0); prog; [apply Hfail|]. cbn [negb andb].
  specialize (Hsize ltac:(done)). destruct (Z.ltb_spec resultSize size); [lia|].
  prog. eexists. split; [done|]. constructor; [done..| |done].
  rewrite length_take. unfold resultSize in *. lia.
Qed.

Lemma Sign_cleanup_ok ctx key own s :
  KAcquire ctx key own 0 ∈ keylog s ->
  wp V (Sign_cleanup key own) s (returns (fun _ s' =>
    s' = log_all (cleanup_events key own) s)).
Proof.
  intros Hk. unfold Sign_cleanup, cleanup_events, nCryptSetPropertyString.
  prog. split; [by exists ctx, own, 0|]. intros [r0 e1] t.
  intros ->. rewrite bool_decide_true by done.
  change (log ?c s) with (log_all [c] s).
  assert (Hfree : wp V (if own then
      freeErr <- nCryptFreeObject key ;;
      match freeErr with
      | Some e => call (Printf "Could not free NCrypt key handle: %v\n" e)
      | None => Ret tt
      end else Ret tt) (log_all [KResetPIN key] s) (returns (fun _ s' =>
        s' = log_all (KResetPIN key :: (if own then [KFree key] else [])) s))).
  { destruct own; [|done]. unfold nCryptFreeObject. prog. split.
    { exists ctx, 0. cbn. apply elem_of_app. by left. }
    intros [r e] ? ->. change (log (KFree key) ?s) with (log_all [KFree key] s).
    rewrite log_all_app. prog. destruct (negb (r =? 0)); prog; [|done].
    split; [done|]. by intros ? ? ->. }
  prog. destruct (negb (r0 =? 0)); [|destruct (negb (e1 =? 0))]; prog; try done.
  - split; [done|]. by intros ? ? ->.
  - split; [done|]. by intros ? ? ->.
Qed.

(** The key operations of [Sign] when the PIN cache is disabled.  There is no
    handle, and the call fails; Windows returned a handle and set an error, and
    the call fails with that error (the handle is then neither reset nor
    freed); Windows returned the null handle, which is signed with and never
    cleaned up; or the key was acquired, used, its PIN reset once after the
    use, and the handle freed exactly if Windows said that the caller owns
    it. *)
Inductive key_trace (alg : string) (ctx : Z) (data : list byte)
    (r : option (list (list byte)) * option error) : list key_call -> Prop :=
| trace_no_key : failed r -> key_trace alg ctx data r [KNoKey ctx]
| trace_acquire_error key own e1 : e1 <> 0 -> r = (None, Some (Errno e1)) ->
    key_trace alg ctx data r [KAcquire ctx key own e1]
| trace_null_key own l : signing alg ctx data r l ->
    key_trace alg ctx data r (KAcquire ctx 0 own 0 :: l)
| trace_key key own l : key <> 0 -> signing alg ctx data r l ->
    key_trace alg ctx data r (KAcquire ctx key own 0 :: l ++ cleanup_events key own).

(** With the PIN cache enabled, the key is left to Windows. *)
Definition sign_trace (b : bool) (alg : string) (ctx : Z) (data : list byte)
    (r : option (list (list byte)) * option error) (l : list key_call) : Prop :=
  if b then key_trace alg ctx data r l else signing alg ctx data r l.

Lemma Sign_traced alg cert data s :
  0 < refs s (certContext cert) ->
  wp V (Sign pkcs7_Parse true alg cert data) s (returns (fun r s' =>
    exists l, s' = log_all l s /\ key_trace alg (certContext cert) data r l)).
Proof.
  intros Hr. unfold Sign, cryptAcquireCertificatePrivateKey. capi_cbn. split; [done|].
  intros [[[r0 e1] key] free] t. destruct (Z.eqb_spec r0 0); prog; intros ->;
    change (log ?c s) with (log_all [c] s).
  { eexists. split; [done|by constructor]. }
  set (own := negb (free =? 0)).
  destruct (Z.eqb_spec e1 0) as [->|He]; cbn [negb]; prog.
  2: { eexists. split; [done|by constructor]. }
  destruct (Z.eqb_spec key 0) as [->|Hk]; cbn [andb negb].
  - eapply wp_mono; [by apply Sign_message_ok|]. intros [r|msg] t; prog; [|done].
    intros (l & -> & Hl). eexists. rewrite log_all_app. split; [done|by constructor].
  - eapply wp_defer; [by apply Sign_message_ok|]. intros [r|msg] t; prog; [|done].
    intros (l & -> & Hl). rewrite log_all_app. eapply wp_mono.
    { apply (Sign_cleanup_ok (certContext cert) key own). cbn.
      apply elem_of_app. right. apply elem_here. }
    intros [[]|msg] u; prog; [|done]. intros ->. eexists.
    rewrite log_all_app, <-app_assoc. split; [done|by constructor].
Qed.

Lemma Sign_ok b alg cert data s :
  0 < refs s (certContext cert) ->
  wp V (Sign pkcs7_Parse b alg cert data) s (returns (fun r s' =>
    exists l, s' = log_all l s /\ sign_trace b alg (certContext cert) data r l)).
Proof.
  intros Hr. destruct b; [by apply Sign_traced|].
  unfold Sign. prog. cbn [andb]. by apply Sign_message_ok.
Qed.

(** (C7) The private key's life in [Sign].  With the PIN cache disabled, a
    handle for the key of this certificate is asked for once.  If there is none
    or Windows sets an error, the call fails and nothing is signed.  Otherwise
    the signature is made between the acquisition of the handle and one reset
    of the PIN, whether or not signing succeeds, and the handle is freed after
    that exactly when Windows said the caller owns it; only the null handle is
    not cleaned up.  With the cache enabled no handle is touched.  In both
    modes Windows is asked for at most one signature, over this data with this
    certificate and algorithm, the result is what the parser says of the
    message it made, or an error if it made none, and nothing else changes. *)
Theorem Sign_key_lifecycle b alg cert data s :
  0 < refs s (certContext cert) ->
  wp V (Sign pkcs7_Parse b alg cert data) s (returns (fun r s' =>
    exists l, s' = log_all l s /\ sign_trace b alg (certContext cert) data r l)).
Proof. apply Sign_ok. Qed.

Lemma Certificate_Copy_ok cert s :
  0 < refs s (certContext cert) ->
  wp V (Certificate_Copy cert) s (returns (fun r s' =>
    (failed r /\ s' = deny (certContext cert) s) \/
    (r = (Some cert, None) /\ s' = retain (certContext cert) s))).
Proof.
  intros Hr. unfold Certificate_Copy, certDuplicateCertificateContext. capi_cbn.
  split; [done|]. intros [r0 e1] t. destruct (Z.eqb_spec e1 0); cbn [negb]; prog.
  - intros [-> ->]. right. by destruct cert.
  - intros ->. left. split; [by split|done].
Qed.

Lemma Certificate_Free_ok cert s :
  0 < refs s (certContext cert) ->
  wp V (Certificate_Free cert) s (returns (fun _ s' => s' = release (certContext cert) s)).
Proof. intros Hr. unfold Certificate_Free. prog. split; [done|]. by intros ? ? ->. Qed.
End theorems.

(** ** Instances *)

Definition demo_cert (c : Z) : Certificate :=
  {| certContext := c;
     x509 := {| SerialNumber := 7; CommonName := "user"; PublicKey := RSAPublicKey [];
                ExtKeyUsage := []; UnknownExtKeyUsage := [] |} |}.
Definition demo_parse (_ : list byte) : x509_Certificate + error := inl (x509 (demo_cert 0)).
Definition demo_p7 (sign : list byte) : option (list (list byte)) * option error :=
  (Some [sign], None).
Definition demo_capi : capi_state := CapiState (fun _ => 1) [] [] [] [].

(** A Windows where every call succeeds, with the contexts [contents] in the
    store; every context has a key, except [5]. *)
Definition demo_key_spec (c : Z) : Z := c - 5.

Definition demo_windows (contents : list Z) X (e : CapiE X) : capi_state -> X * capi_state :=
  match e in CapiE X return capi_state -> X * capi_state with
  | CertOpenStore _ _ _ => fun s =>
      let h := 1 + foldr Z.max 0 (stores s) in
      ((h, None), with_stores (h :: stores s) (with_todo contents s))
  | CertCloseStore h => fun s => (tt, with_stores (filter (fun k => k <> h) (stores s)) s)
  | CertEnumCertificatesInStore _ prev => fun s =>
      match todo s with
      | c :: l =>
          if c =? 0 then ((0, Some (ErrLib 0)), release_prev prev s)
          else ((c, None), with_todo l (retain c (release_prev prev s)))
      | [] => ((0, Some (Errno CRYPT_E_NOT_FOUND)), release_prev prev s)
      end
  | CertGetCertificateContextProperty c _ => fun s => (demo_key_spec c, s)
  | EncodedCert c => fun s => ([], s)
  | CertDuplicateCertificateContext c => fun s => ((c, 0), retain c s)
  | CertFreeCertificateContext c => fun s => (None, release c s)
  | CryptAcquireCertificatePrivateKey c _ => fun s => ((1, 0, 9, 1), log (KAcquire c 9 true 0) s)
  | NCryptSetProperty k p _ => fun s =>
      ((0, 0), if bool_decide (p = NCRYPT_PIN_PROPERTY) then log (KResetPIN k) s else s)
  | NCryptFreeObject k => fun s => ((0, 0), log (KFree k) s)
  | CryptSignMessage para data room => fun s =>
      ((1, 0, [x01], 1), log (KSign (SigningCert para) (HashAlgorithm_ObjId para) data
                                (message_made room (1, 0, [x01], 1))) s)
  | Printf _ _ => fun s => (tt, s)
  end.

Lemma fresh_store l : 1 + foldr Z.max 0 l ∉ l.
Proof.
  assert (H : forall x, x ∈ l -> x <= foldr Z.max 0 l).
  { induction l as [|y l IH]; intros x Hx; [inversion Hx|].
    apply elem_of_cons in Hx as [->|Hx]; cbn; [lia|]. specialize (IH x Hx). lia. }
  intros Hin. specialize (H _ Hin). lia.
Qed.

Lemma demo_windows_handles contents :
  handles (capi_env contents demo_key_spec (fun _ => [])) (demo_windows contents).
Proof.
  intros X e s Hm. destruct e; cbn in *; try done.
  - split; [apply fresh_store|done].
  - destruct (todo s) as [|c l] eqn:Ht; cbn; [done|].
    destruct (Z.eqb_spec c 0); cbn; [done|]. exists l. auto.
  - split; [|done]. destruct Hm as (_ & _ & ->). unfold resultSize. lia.
Qed.

Lemma LoadUserCerts_accounts_witness :
  exists N r s',
    (forall n, (N <= n)%nat ->
       run (demo_windows [5; 6]) n (LoadUserCerts demo_parse) demo_capi = Some (Returns r, s')) /\
    loaded demo_parse [5; 6] demo_key_spec (fun _ => []) demo_capi r s'.
Proof.
  apply (LoadUserCerts_accounts demo_parse [5; 6] demo_key_spec (fun _ => [])).
  - apply demo_windows_handles.
  - intros c. cbn. lia.
Defined.

(** The run itself: the certificate without a key is passed over. *)
Example LoadUserCerts_run :
  (r ← run (demo_windows [5; 6]) 5 (LoadUserCerts demo_parse) demo_capi;
   Some (r.1, refs r.2 5, refs r.2 6, stores r.2)) =
  Some (Returns (Some [demo_cert 6], None), 1, 2, []).
Proof. reflexivity. Qed.

Lemma Sign_key_lifecycle_witness :
  wp (capi_env [] (fun _ => 1) (fun _ => [])) (Sign demo_p7 true ALG_RSA_SHA1RSA (demo_cert 5) [x01])
    demo_capi (returns (fun r s' =>
      exists l, s' = log_all l demo_capi /\
        sign_trace demo_p7 true ALG_RSA_SHA1RSA 5 [x01] r l)).
Proof.
  apply (Sign_key_lifecycle demo_p7 [] (fun _ => 1) (fun _ => []) true
           ALG_RSA_SHA1RSA (demo_cert 5) [x01] demo_capi).
  reflexivity.
Defined.
