(* ===== verification/Desktop.v ===== *)
(** utils/notification.go, utils/scardsvr.go, utils/uac.go, utils/dpi.go,
    utils/security.go and utils/deadline.go: the dialogs and the small wrappers
    around Windows. *)
From S2P Require Import Prelude Effects.
Local Open Scope Z_scope.

(** ** Constants *)

Definition MB_OKCANCEL : Z := 0x00000001.
Definition MB_ICONERROR : Z := 0x00000010.
Definition MB_ICONWARNING : Z := 0x00000030.
Definition MB_ICONINFORMATION : Z := 0x00000040.
Definition IDOK : Z := 1.

(** ** Calls *)

Inductive DesktopE : Type -> Type :=
| MessageBoxW (text title : string) (style : Z) : DesktopE Z
| GetNotifier : DesktopE (option Z)
    (** the package variable [notifier] *)
| SetNotifier (n : option Z) : DesktopE unit
| NotifierNotify (n : Z) (event title message : string) : DesktopE unit
| QueryServices (where_ : string) : DesktopE (list string * option error)
    (** the [State] of every service found *)
| Executable : DesktopE (string * option error)
| Getwd : DesktopE (string * option error)
| Args : DesktopE (list string)
    (** [os.Args] *)
| ShellExecute (verb exe args cwd : option string) (showCmd : Z) : DesktopE (option error)
    (** [None] is a nil pointer *)
| FindProc (dll proc : string) : DesktopE (option error)
| CallProc (proc : string) (args : list Z) : DesktopE (Z * error)
    (** the error of [Proc.Call] is never nil *)
| AllocateAdminSid : DesktopE (Z * option error)
| TokenCloseZero : DesktopE unit
| TokenIsMember (sid : Z) : DesktopE (bool * option error)
| GetSecurityInfo (h : Z) : DesktopE (Z * option error)
| SDOwner (sd : Z) : DesktopE (list byte * option error)
| CurrentProcess : DesktopE Z
| SetFileAttributesW (path : string) (attr : Z) : DesktopE (option error)
| SetDeadline (l t : Z) : DesktopE (option error).

(** syscall.UTF16PtrFromString: nil and EINVAL on a NUL. *)
Definition UTF16Ptr (s : string) : option string :=
  if decide (x00 ∈ bytes_of s) then None else Some s.

(** ** notification.go *)

Definition MessageBox (title text : string) (style : Z) : prog DesktopE Z :=
  match UTF16Ptr text with
  | None => Ret (-1)
  | Some pText =>
  match UTF16Ptr title with
  | None => Ret (-1)
  | Some pTitle => call (MessageBoxW pText pTitle style)
  end
  end.

Definition Notify (title message : string) : prog DesktopE unit :=
  notifier <- call GetNotifier ;;
  match notifier with
  | None => Ret tt
  | Some n => call (NotifierNotify n "info" title message)
  end.

Definition RegisterNotifier (n : option Z) : prog DesktopE unit := call (SetNotifier n).

(** ** scardsvr.go *)

Definition CheckSCardSvrStatus : prog DesktopE (bool * option error) :=
  let* (services, err) := call (QueryServices "WHERE Name='SCardSvr'") in
  match err with
  | Some e => Ret (false, Some e)
  | None =>
      match services with
      | state :: _ => if String.eqb state "Running" then Ret (true, None) else Ret (false, None)
      | [] => Ret (false, None)
      end
  end.

Definition StartSCardSvr : prog DesktopE (option error) :=
  let* (cwd, _) := call Getwd in
  call (ShellExecute (UTF16Ptr "runas") (UTF16Ptr "net") (UTF16Ptr "start scardsvr")
          (UTF16Ptr cwd) 0).

(** ** uac.go *)

Definition IsAdmin : prog DesktopE bool :=
  let* (adminSID, err) := call AllocateAdminSid in
  match err with
  | Some _ => Ret false
  | None =>
      defer (call TokenCloseZero) (
        let* (member, err) := call (TokenIsMember adminSID) in
        match err with Some _ => Ret false | None => Ret member end)
  end.

Definition RunMeElevatedWithArgs (args : string) : prog DesktopE (option error) :=
  let* (exe, _) := call Executable in
  let* (cwd, _) := call Getwd in
  call (ShellExecute (UTF16Ptr "runas") (UTF16Ptr exe) (UTF16Ptr args) (UTF16Ptr cwd) 1).

Definition RunMeElevated : prog DesktopE (option error) :=
  let* (exe, _) := call Executable in
  let* (cwd, _) := call Getwd in
  argv <- call Args ;;
  let args := String.concat " " (tail argv) in
  call (ShellExecute (UTF16Ptr "runas") (UTF16Ptr exe) (UTF16Ptr args) (UTF16Ptr cwd) 1).

(** ** dpi.go *)

Definition SetProcessSystemDpiAware : prog DesktopE (option error) :=
  found <- call (FindProc "user32" "SetProcessDpiAwarenessContext") ;;
  r0 <- (match found with
         | None =>
             let* (r0, _) := call (CallProc "SetProcessDpiAwarenessContext" [u64 (0 - 4)]) in
             Ret r0
         | Some _ => Ret 0
         end) ;;
  if r0 =? 1 then Ret None else
  found <- call (FindProc "Shcore.dll" "SetProcessDpiAwareness") ;;
  match found with
  | None =>
      let* (r0, err) := call (CallProc "SetProcessDpiAwareness" [1]) in
      if r0 =? 1 then Ret None else Ret (Some err)
  | Some _ =>
  found <- call (FindProc "user32" "SetProcessDPIAware") ;;
  match found with
  | None =>
      let* (r0, err) := call (CallProc "SetProcessDPIAware" []) in
      if r0 =? 1 then Ret None else Ret (Some err)
  | Some _ => Ret None
  end
  end.

(** ** security.go ([GetUserSID] is in TcpOwner.v) *)

Definition GetHandleSID (h : Z) : prog DesktopE (list byte * option error) :=
  let* (sd, err) := call (GetSecurityInfo h) in
  match err with
  | Some e => Ret ([], Some e)
  | None =>
      let* (sid, err) := call (SDOwner sd) in
      match err with
      | Some e => Ret ([], Some e)
      | None => Ret (sid, None)
      end
  end.

Definition GetDefaultSID : prog DesktopE (list byte * option error) :=
  proc <- call CurrentProcess ;;
  GetHandleSID proc.

Definition SetFileAttributes (path : string) (attr : Z) : prog DesktopE (option error) :=
  match UTF16Ptr path with
  | None => Ret (Some EINVAL)
  | Some cpath => call (SetFileAttributesW cpath attr)
  end.

(** ** deadline.go: the dynamic type of the listener decides. *)
Inductive listener_kind : Type := TCPListener | UnixListener | OtherListener.

Definition SetListenerDeadline (kind : listener_kind) (l t : Z) : prog DesktopE (option error) :=
  match kind with
  | TCPListener | UnixListener => call (SetDeadline l t)
  | OtherListener => Ret None
  end.

(** ** The smart card prompt of an agent

    An environment in which the service's state is fixed, the user answers
    every dialog with [answer], and what is shown and started is recorded. *)
Inductive shown : Type :=
| Dialog (text : string)
| Toast (title message : string)
| Launched (exe args : option string).

(** The state is what was shown; everything else is arbitrary. *)
Definition desktop_env : env DesktopE (list shown) :=
  {| may X e s := True;
     does X e s :=
       match e in DesktopE X return X -> list shown -> Prop with
       | MessageBoxW text _ _ => fun _ t => t = s ++ [Dialog text]
       | NotifierNotify _ _ title message => fun _ t => t = s ++ [Toast title message]
       | ShellExecute _ exe args _ _ => fun _ t => t = s ++ [Launched exe args]
       | _ => fun _ t => t = s
       end |}.

Lemma Notify_ok title message s :
  wp desktop_env (Notify title message) s (returns (fun _ t =>
    t = s \/ t = s ++ [Toast title message])).
Proof.
  unfold Notify. prog. split; [done|]. intros [n|] ? ->; prog; [|by left].
  split; [done|]. intros _ ? ->. by right.
Qed.

(** A text or a title with a NUL byte cannot be shown. *)
Lemma MessageBox_exact title text style s :
  wp desktop_env (MessageBox title text style) s (returns (fun r t =>
    if decide (x00 ∈ bytes_of text \/ x00 ∈ bytes_of title)
    then r = -1 /\ t = s else t = s ++ [Dialog text])).
Proof.
  unfold MessageBox, UTF16Ptr. destruct (decide (x00 ∈ bytes_of text)).
  { prog. by rewrite decide_True by auto. }
  destruct (decide (x00 ∈ bytes_of title)); prog; [by rewrite decide_True by auto|].
  split; [done|]. intros r ? ->. by rewrite decide_False by tauto.
Qed.

Lemma MessageBox_ok title text style s :
  wp desktop_env (MessageBox title text style) s (returns (fun r t =>
    (r = -1 /\ t = s) \/ t = s ++ [Dialog text])).
Proof.
  eapply wp_mono; [apply MessageBox_exact|]. intros [r|msg] t; [|done]. cbn.
  destruct (decide _); auto.
Qed.

Lemma CheckSCardSvrStatus_ok s :
  wp desktop_env CheckSCardSvrStatus s (returns (fun _ t => t = s)).
Proof.
  unfold CheckSCardSvrStatus. prog. split; [done|]. intros [[|st l] [e|]] ? ->; prog; try done.
  by destruct (String.eqb st "Running").
Qed.

Lemma StartSCardSvr_ok s :
  wp desktop_env StartSCardSvr s (returns (fun _ t =>
    t = s ++ [Launched (Some "net") (Some "start scardsvr")])).
Proof.
  unfold StartSCardSvr. prog. split; [done|]. intros [cwd e] ? ->. prog.
  split; [done|]. by intros r ? ->.
Qed.
