(* ===== verification/Signers.v ===== *)
(** sshagent/rsa.go and sshagent/ecdsa.go: ssh signers whose private key is
    reached through crypt32. *)
From S2P Require Import Prelude Effects X509 Capi.
Local Open Scope Z_scope.

(** ** Data of golang.org/x/crypto/ssh *)

(** The public key interface: [Type()] and [Marshal()]. *)
Record ssh_PublicKey : Type := {
  Type_ : string;
  Marshal : list byte;
}.

Record Signature : Type := {
  Format : string;
  Blob : list byte;
}.

#[export] Instance ssh_PublicKey_eq_dec : EqDecision ssh_PublicKey.
Proof. solve_decision. Defined.

(** The names of RFC 4253, RFC 8332 and RFC 5656. *)
Definition SigAlgoRSA : string := "ssh-rsa".
Definition SigAlgoRSASHA2256 : string := "rsa-sha2-256".
Definition SigAlgoRSASHA2512 : string := "rsa-sha2-512".
Definition KeyAlgoRSA : string := "ssh-rsa".
Definition KeyAlgoECDSA256 : string := "ecdsa-sha2-nistp256".
Definition KeyAlgoECDSA384 : string := "ecdsa-sha2-nistp384".
Definition KeyAlgoECDSA521 : string := "ecdsa-sha2-nistp521".

(** A pair [(sig, err)] of the Go code; both may be nil. *)
Definition sign_reply : Type := option Signature * option error.

(** The dynamic types of an [ssh.Signer] value: the two of this package, and
    the signer ssh.NewCertSigner makes, which offers a certificate as its
    public key, signs with the signer it was made from, and may offer
    [SignWithAlgorithm] too. *)
Inductive Signer : Type :=
| rsaSigner (pub : ssh_PublicKey) (cert : Certificate)
| ecdsaSigner (pub : ssh_PublicKey) (cert : Certificate)
| certSigner (pub : ssh_PublicKey) (algorithms : bool) (k : Signer).

Definition PublicKey (k : Signer) : ssh_PublicKey :=
  match k with
  | rsaSigner pub _ | ecdsaSigner pub _ | certSigner pub _ _ => pub
  end.

Section signers.
Context (pkcs7_Parse : list byte -> option (list (list byte)) * option error).
(** encoding/asn1 on a pair of integers, and ssh.Marshal of that pair. *)
Context (asn1_Unmarshal : list byte -> (Z * Z) + error).
Context (ssh_Marshal : Z * Z -> list byte).
(** The package variable of capi, set once at start-up. *)
Context (disablePINCache : bool).

(** The common test [err != nil || len(p7.Signers) < 1]: the digest of the
    first signer, or what the function returns at once.  [p7] is dereferenced
    when [err] is nil. *)
Definition first_digest (r : option (list (list byte)) * option error)
    : prog CapiE (list byte + sign_reply) :=
  match r with
  | (_, Some e) => Ret (inr (None, Some e))
  | (None, None) => Panic "nil pointer dereference"
  | (Some [], None) => Ret (inr (None, None))
  | (Some (d :: _), None) => Ret (inl d)
  end.

(** *** RSA *)

Definition rsaSigner_SignWithAlgorithm (cert : Certificate) (data : list byte)
    (algorithm : string) : prog CapiE sign_reply :=
  let alg :=
    if String.eqb algorithm "" || String.eqb algorithm SigAlgoRSA then
      inl (SigAlgoRSA, ALG_RSA_SHA1RSA)
    else if String.eqb algorithm SigAlgoRSASHA2256 then inl (algorithm, ALG_RSA_SHA256RSA)
    else if String.eqb algorithm SigAlgoRSASHA2512 then inl (algorithm, ALG_RSA_SHA512RSA)
    else inr (ErrorString ("ssh: unsupported signature algorithm " +:+ algorithm)) in
  match alg with
  | inr e => Ret (None, Some e)
  | inl (algorithm, capiAlg) =>
      p7 <- Sign pkcs7_Parse disablePINCache capiAlg cert data ;;
      d <- first_digest p7 ;;
      match d with
      | inr r => Ret r
      | inl digest => Ret (Some {| Format := algorithm; Blob := digest |}, None)
      end
  end.

Definition rsaSigner_Sign (cert : Certificate) (data : list byte) : prog CapiE sign_reply :=
  rsaSigner_SignWithAlgorithm cert data "".

(** *** ECDSA *)

Definition ecAlg (bitSize : Z) : string :=
  if bitSize <=? 256 then ALG_ECDSA_SHA256
  else if bitSize <=? 384 then ALG_ECDSA_SHA384
  else ALG_ECDSA_SHA512.

Definition ecdsaSigner_Sign (pub : ssh_PublicKey) (cert : Certificate) (data : list byte)
    : prog CapiE sign_reply :=
  match X509.PublicKey (x509 cert) with
  | ECDSAPublicKey bitSize _ =>
      p7 <- Sign pkcs7_Parse disablePINCache (ecAlg bitSize) cert data ;;
      d <- first_digest p7 ;;
      match d with
      | inr r => Ret r
      | inl digest =>
          match asn1_Unmarshal digest with
          | inr e => Ret (None, Some e)
          | inl rs => Ret (Some {| Format := Type_ pub; Blob := ssh_Marshal rs |}, None)
          end
      end
  | _ => Panic "interface conversion"
  end.

(** *** The interfaces *)

Fixpoint Signer_Sign (k : Signer) (data : list byte) : prog CapiE sign_reply :=
  match k with
  | rsaSigner _ cert => rsaSigner_Sign cert data
  | ecdsaSigner pub cert => ecdsaSigner_Sign pub cert data
  | certSigner _ _ k => Signer_Sign k data
  end.

(** The type assertion [k.(ssh.AlgorithmSigner)] and its method. *)
Fixpoint SignWithAlgorithm (k : Signer)
    : option (list byte -> string -> prog CapiE sign_reply) :=
  match k with
  | rsaSigner _ cert => Some (rsaSigner_SignWithAlgorithm cert)
  | ecdsaSigner _ _ => None
  | certSigner _ algorithms k => if algorithms then SignWithAlgorithm k else None
  end.

(** ** Specifications *)

Context (contents : list Z) (key_spec : Z -> Z) (encoding : Z -> list byte).
Local Abbreviation V := (capi_env contents key_spec encoding).

(** The parser never answers nil without an error. *)
Context (pkcs7_total : forall bs, pkcs7_Parse bs <> (None, None)).

(** The reply made by [f] from the first signer of the message [capi.Sign]
    returned: its error; nil without an error when the message has no
    signers. *)
Definition reply_of (f : list byte -> sign_reply)
    (p7 : option (list (list byte)) * option error) : sign_reply :=
  match p7 with
  | (_, Some e) => (None, Some e)
  | (Some (d :: _), None) => f d
  | (_, None) => (None, None)
  end.

(** Signing with the key of a certificate that is held: one use of
    [capi.Sign] with the Windows algorithm [oid] on [data], the reply made from
    its message, and nothing changes but the history of the key operations. *)
Definition signs_with (oid : string) (ctx : Z) (data : list byte)
    (f : list byte -> sign_reply) (s : capi_state) (r : sign_reply) (s' : capi_state) : Prop :=
  exists p7 l, s' = log_all l s /\
    sign_trace pkcs7_Parse disablePINCache oid ctx data p7 l /\ r = reply_of f p7.

(** The signatures a history asks Windows for. *)
Definition signs_only (oid : string) (ctx : Z) (data : list byte) (l : list key_call) : Prop :=
  forall c a d m, KSign c a d m ∈ l -> c = ctx /\ a = oid /\ d = data.

Lemma signing_only oid ctx data p7 l :
  signing pkcs7_Parse oid ctx data p7 l -> signs_only oid ctx data l.
Proof.
  intros Hs c a d m Hin. destruct Hs; [inversion Hin|..];
    apply list_elem_of_singleton in Hin; by injection Hin as -> -> -> ->.
Qed.

Lemma sign_trace_only b oid ctx data p7 l :
  sign_trace pkcs7_Parse b oid ctx data p7 l -> signs_only oid ctx data l.
Proof.
  destruct b; [|apply signing_only].
  destruct 1 as [|key own e1|own l Hl|key own l _ Hl]; intros c a d m Hin.
  - by apply list_elem_of_singleton in Hin.
  - by apply list_elem_of_singleton in Hin.
  - apply elem_of_cons in Hin as [|Hin]; [done|]. by eapply signing_only.
  - apply elem_of_cons in Hin as [|Hin]; [done|].
    apply elem_of_app in Hin as [Hin|Hin]; [by eapply signing_only|].
    apply elem_of_cons in Hin as [|Hin]; [done|].
    destruct own; [by apply list_elem_of_singleton in Hin|inversion Hin].
Qed.

Lemma sign_trace_parsed b oid ctx data l :
  ~ sign_trace pkcs7_Parse b oid ctx data (None, None) l.
Proof.
  assert (Hs : forall l, ~ signing pkcs7_Parse oid ctx data (None, None) l).
  { intros k H. inversion H as [? [_ ?]|? ? [_ ?]|sign ? ? ? Hp]; [done|done|].
    by destruct (pkcs7_total sign). }
  destruct b; [|apply Hs]. intros H. inversion H as [[_ ?]| |own k Hk|key own k ? Hk]; try done.
  - by apply Hs in Hk.
  - by apply Hs in Hk.
Qed.

(** [capi.Sign], the test on its result, and the reply. *)
Lemma sign_first oid cert data (f : list byte -> prog CapiE sign_reply) g s :
  0 < refs s (certContext cert) -> (forall d, f d = Ret (g d)) ->
  wp V (p7 <- Sign pkcs7_Parse disablePINCache oid cert data ;;
        d <- first_digest p7 ;;
        match d with inr r => Ret r | inl d => f d end) s
    (returns (signs_with oid (certContext cert) data g s)).
Proof.
  intros Hr Hf. eapply wp_seq; [by apply Sign_ok|].
  intros p7 t (l & -> & Hl). unfold first_digest.
  assert (Hg : forall r, r = reply_of g p7 ->
    signs_with oid (certContext cert) data g s r (log_all l s)) by (intros r ->; by exists p7, l).
  destruct p7 as [[[|d ds]|] [e|]]; prog; try by apply Hg.
  - rewrite Hf. prog. by apply Hg.
  - by apply sign_trace_parsed in Hl.
Qed.

(** The signature format and the Windows algorithm of an algorithm name. *)
Definition rsa_algorithm (algorithm : string) : option (string * string) :=
  if decide (algorithm = "" \/ algorithm = SigAlgoRSA) then Some (SigAlgoRSA, ALG_RSA_SHA1RSA)
  else if decide (algorithm = SigAlgoRSASHA2256) then Some (algorithm, ALG_RSA_SHA256RSA)
  else if decide (algorithm = SigAlgoRSASHA2512) then Some (algorithm, ALG_RSA_SHA512RSA)
  else None.

Definition rsa_reply (fmt : string) (d : list byte) : sign_reply :=
  (Some {| Format := fmt; Blob := d |}, None).

Lemma rsa_ok cert data algorithm s :
  0 < refs s (certContext cert) ->
  wp V (rsaSigner_SignWithAlgorithm cert data algorithm) s (returns (fun r s' =>
    match rsa_algorithm algorithm with
    | None => failed r /\ s' = s
    | Some (fmt, oid) => signs_with oid (certContext cert) data (rsa_reply fmt) s r s'
    end)).
Proof.
  intros Hr. unfold rsaSigner_SignWithAlgorithm, rsa_algorithm.
  destruct (String.eqb_spec algorithm "");
    [rewrite decide_True by auto; by apply sign_first|].
  destruct (String.eqb_spec algorithm SigAlgoRSA);
    [rewrite decide_True by auto; by apply sign_first|].
  rewrite decide_False by (by intros [|]). cbn [orb].
  destruct (String.eqb_spec algorithm SigAlgoRSASHA2256);
    [rewrite decide_True by auto; by apply sign_first|].
  rewrite decide_False by auto.
  destruct (String.eqb_spec algorithm SigAlgoRSASHA2512);
    [rewrite decide_True by auto; by apply sign_first|].
  by rewrite decide_False by auto.
Qed.

(** (C35) [SignWithAlgorithm] of an RSA key signs the data it was given, once,
    with the certificate's own key and the digest algorithm the name asks for,
    and labels the signature with that name ([ssh-rsa] for the empty name); an
    algorithm name it does not know is refused before the key is touched.  The
    signature is the digest of the first signer of the message Windows made; a
    message without signers gives nil without an error; an error of the
    signing is returned. *)
Theorem rsaSigner_SignWithAlgorithm_spec cert data algorithm s :
  0 < refs s (certContext cert) ->
  wp V (rsaSigner_SignWithAlgorithm cert data algorithm) s (returns (fun r s' =>
    match rsa_algorithm algorithm with
    | None => failed r /\ s' = s
    | Some (fmt, oid) => signs_with oid (certContext cert) data (rsa_reply fmt) s r s'
    end)).
Proof. apply rsa_ok. Qed.

Definition ecdsa_reply (pub : ssh_PublicKey) (d : list byte) : sign_reply :=
  match asn1_Unmarshal d with
  | inr e => (None, Some e)
  | inl rs => (Some {| Format := Type_ pub; Blob := ssh_Marshal rs |}, None)
  end.

Lemma ecdsa_ok pub cert data bits m s :
  X509.PublicKey (x509 cert) = ECDSAPublicKey bits m ->
  0 < refs s (certContext cert) ->
  wp V (ecdsaSigner_Sign pub cert data) s
    (returns (signs_with (ecAlg bits) (certContext cert) data (ecdsa_reply pub) s)).
Proof.
  intros Hp Hr. unfold ecdsaSigner_Sign. rewrite Hp. apply sign_first; [done|].
  intros d. unfold ecdsa_reply. by destruct (asn1_Unmarshal d).
Qed.

(** The digest RFC 5656, section 6.2.1, prescribes for a curve of [bits]
    bits. *)
Definition rfc5656_digest (bits : Z) (oid : string) : Prop :=
  (bits <= 256 /\ oid = ALG_ECDSA_SHA256) \/
  (256 < bits <= 384 /\ oid = ALG_ECDSA_SHA384) \/
  (384 < bits /\ oid = ALG_ECDSA_SHA512).

(** (C36) An ECDSA key signs with the digest algorithm RFC 5656 prescribes for
    its curve and with its own certificate's key, and the two integers of the
    DER signature of the first signer become the SSH signature, labelled with
    the type of the public key; a DER error is returned. *)
Theorem ecdsaSigner_Sign_spec pub cert data bits m s :
  X509.PublicKey (x509 cert) = ECDSAPublicKey bits m ->
  0 < refs s (certContext cert) ->
  wp V (ecdsaSigner_Sign pub cert data) s (returns (fun r s' =>
    exists oid, rfc5656_digest bits oid /\
      signs_with oid (certContext cert) data (ecdsa_reply pub) s r s')).
Proof.
  intros Hp Hr. eapply wp_mono; [by eapply ecdsa_ok|].
  intros [r|msg] t; prog; [|done]. intros H. exists (ecAlg bits). split; [|exact H].
  unfold ecAlg, rfc5656_digest.
  destruct (Z.leb_spec bits 256); [by left|right].
  destruct (Z.leb_spec bits 384); [left|right]; split; try done; lia.
Qed.

(** ** What an agent needs of a signer

    What a signer does with an algorithm name ([""] for its default): the
    Windows algorithm it asks for and the reply it makes of a signer's digest;
    [None] if it refuses the name. *)
Fixpoint method (k : Signer) (algorithm : string)
    : option (string * (list byte -> sign_reply)) :=
  match k with
  | rsaSigner _ _ =>
      match rsa_algorithm algorithm with
      | Some (fmt, oid) => Some (oid, rsa_reply fmt)
      | None => None
      end
  | ecdsaSigner pub cert =>
      match X509.PublicKey (x509 cert) with
      | ECDSAPublicKey bits _ => Some (ecAlg bits, ecdsa_reply pub)
      | _ => None
      end
  | certSigner _ _ k => method k algorithm
  end.

(** A signer for the certificate context [ctx]. *)
Fixpoint signer_for (ctx : Z) (k : Signer) : Prop :=
  match k with
  | rsaSigner _ cert => certContext cert = ctx
  | ecdsaSigner _ cert => certContext cert = ctx /\
      exists bits m, X509.PublicKey (x509 cert) = ECDSAPublicKey bits m
  | certSigner _ _ k => signer_for ctx k
  end.

(** [m] signs as [method] says. *)
Definition signs_for (m : prog CapiE sign_reply) (ctx : Z) (data : list byte)
    (how : option (string * (list byte -> sign_reply))) : Prop :=
  forall s, 0 < refs s ctx -> exists oid f, how = Some (oid, f) /\
    wp V m s (returns (signs_with oid ctx data f s)).

Lemma Signer_Sign_signs ctx k data :
  signer_for ctx k -> signs_for (Signer_Sign k data) ctx data (method k "").
Proof.
  induction k as [pub cert|pub cert|pub b k IH]; cbn.
  - intros <- s Hr. do 2 eexists. split; [done|]. by apply (rsa_ok cert data "").
  - intros (<- & bits & m & Hp) s Hr. rewrite Hp. do 2 eexists. split; [done|].
    by eapply ecdsa_ok.
  - exact IH.
Qed.

Lemma SignWithAlgorithm_signs ctx k f data alg :
  signer_for ctx k -> SignWithAlgorithm k = Some f ->
  alg = SigAlgoRSASHA2256 \/ alg = SigAlgoRSASHA2512 ->
  signs_for (f data alg) ctx data (method k alg).
Proof.
  intros Hk Hf Halg. revert f Hk Hf.
  induction k as [pub cert|pub cert|pub b k IH]; intros f; cbn.
  - intros <- [= <-] s Hr. pose proof (rsa_ok cert data alg s Hr) as H.
    by destruct Halg as [-> | ->]; do 2 eexists.
  - done.
  - destruct b; [|done]. by apply IH.
Qed.
End signers.

(** ** Instances *)

Definition demo_ecdsa : Certificate :=
  {| certContext := 5;
     x509 := {| SerialNumber := 7; CommonName := "user"; X509.PublicKey := ECDSAPublicKey 384 [];
                ExtKeyUsage := []; UnknownExtKeyUsage := [] |} |}.
Definition demo_asn1 (bs : list byte) : (Z * Z) + error :=
  match bs with [r; t] => inl (byte_val r, byte_val t) | _ => inr (ErrLib 1) end.
Definition demo_pub : ssh_PublicKey := {| Type_ := KeyAlgoECDSA384; Marshal := [x01] |}.

Lemma demo_p7_total bs : demo_p7 bs <> (None, None).
Proof. done. Qed.

Lemma rsaSigner_SignWithAlgorithm_spec_witness :
  wp (capi_env [] (fun _ => 1) (fun _ => []))
    (rsaSigner_SignWithAlgorithm demo_p7 true (demo_cert 5) [x01] SigAlgoRSASHA2512)
    demo_capi (returns
      (signs_with demo_p7 true ALG_RSA_SHA512RSA 5 [x01] (rsa_reply SigAlgoRSASHA2512) demo_capi)).
Proof.
  apply (rsaSigner_SignWithAlgorithm_spec demo_p7 true [] (fun _ => 1) (fun _ => [])
           demo_p7_total (demo_cert 5) [x01] SigAlgoRSASHA2512 demo_capi).
  reflexivity.
Defined.

Lemma ecdsaSigner_Sign_spec_witness :
  wp (capi_env [] (fun _ => 1) (fun _ => []))
    (ecdsaSigner_Sign demo_p7 demo_asn1 (fun _ => []) true demo_pub demo_ecdsa [x01])
    demo_capi (returns (fun r s' =>
      exists oid, rfc5656_digest 384 oid /\
        signs_with demo_p7 true oid 5 [x01] (ecdsa_reply demo_asn1 (fun _ => []) demo_pub)
          demo_capi r s')).
Proof.
  apply (ecdsaSigner_Sign_spec demo_p7 demo_asn1 (fun _ => []) true [] (fun _ => 1)
           (fun _ => []) demo_p7_total demo_pub demo_ecdsa [x01] 384 [] demo_capi);
    reflexivity.
Defined.
