(* ===== verification/CapiAgent.v ===== *)
(** sshagent/capi_agent.go and sshagent/certificate.go: the agent whose keys
    are the certificates of the user's store. *)
From S2P Require Import Prelude Effects Threads X509 Eku Capi Desktop Signers.
Local Open Scope Z_scope.

(** ** Data *)

(** ssh.Certificate, with the field the code reads. *)
Record ssh_Certificate : Type := {
  KeyId : string;
  cert_wire : list byte;
}.

(** What ssh.ParseAuthorizedKey found. *)
Inductive authorized_key : Type :=
| AuthCertificate (c : ssh_Certificate)
| AuthPublicKey (k : ssh_PublicKey).

Record sshKey : Type := {
  cert : Certificate;
  signer : Signer;
  comment : string;
}.

(** agent.Key *)
Record agent_Key : Type := {
  key_Format : string;
  key_Blob : list byte;
  key_Comment : string;
}.

Definition SignatureFlagRsaSha256 : Z := 2.
Definition SignatureFlagRsaSha512 : Z := 4.

(** The packages the agent calls, and what it relies on: an ECDSA key type is
    only given to an ECDSA key, a certificate signer signs with the signer it
    was made from, and the PKCS7 parser does not answer nil without an
    error. *)
Class Libraries : Type := {
  ParseCertificate : list byte -> x509_Certificate + error;
  pkcs7_Parse : list byte -> option (list (list byte)) * option error;
  asn1_Unmarshal : list byte -> (Z * Z) + error;
  ssh_Marshal : Z * Z -> list byte;
  NewPublicKey : public_key -> ssh_PublicKey + error;
  NewCertSigner : ssh_Certificate -> Signer -> Signer + error;
  ParseAuthorizedKey : list byte -> authorized_key + error;
  filepath_Join : string -> string -> string;
}.

Class LibraryLaws (L : Libraries) : Prop := {
  pkcs7_total bs : pkcs7_Parse bs <> (None, None);
  NewPublicKey_ecdsa k pub :
    NewPublicKey k = inl pub ->
    Type_ pub ∈ [KeyAlgoECDSA256; KeyAlgoECDSA384; KeyAlgoECDSA521] ->
    exists bits m, k = ECDSAPublicKey bits m;
  NewCertSigner_signs c k k' :
    NewCertSigner c k = inl k' ->
    exists pub algorithms, k' = certSigner pub algorithms k;
}.

(** ** Calls *)

Inductive AgentE : Type -> Type :=
| Capi X (e : CapiE X) : AgentE X
| Desktop X (e : DesktopE X) : AgentE X
| MuLock : AgentE unit
| MuUnlock : AgentE unit
| GetKeys : AgentE (option (list sshKey))
    (** the field [s.keys], which may be nil *)
| SetKeys (keys : option (list sshKey)) : AgentE unit
| UserHomeDir : AgentE (string * option error)
| OpenFile (path : string) : AgentE (Z * option error)
| ReadAll (file : Z) : AgentE (list byte * option error)
| CloseFile (file : Z) : AgentE unit
| Getenv (name : string) : AgentE string.

Abbreviation capi m := (translate Capi m).
Abbreviation desktop m := (translate Desktop m).

Section agent.
Context `{L : Libraries} (disablePINCache : bool).

(** ** certificate.go *)

Definition loadCertFile (filename : string)
    : prog AgentE (option ssh_Certificate * option error) :=
  let* (home, err) := call UserHomeDir in
  match err with Some e => Ret (None, Some e) | None =>
  let path := filepath_Join home filename in
  let* (file, err) := call (OpenFile path) in
  match err with Some e => Ret (None, Some e) | None =>
  defer (call (CloseFile file)) (
    let* (data, err) := call (ReadAll file) in
    match err with Some e => Ret (None, Some e) | None =>
    match ParseAuthorizedKey data with
    | inr e => Ret (None, Some e)
    | inl (AuthCertificate c) => Ret (Some c, None)
    | inl (AuthPublicKey _) => Ret (None, Some (ErrorString "invalid openssh certificate"))
    end end)
  end end.

Definition loadSSHCertificate (key : sshKey) : prog AgentE (option sshKey * option error) :=
  r <- loadCertFile (pretty (SerialNumber (x509 (cert key))) +:+ "-cert.pub") ;;
  r <- (match r with
        | (_, Some _) => loadCertFile (comment key +:+ "-cert.pub")
        | _ => Ret r
        end) ;;
  match r with
  | (_, Some e) => Ret (None, Some e)
  | (None, None) => Panic "nil pointer dereference"
  | (Some c, None) =>
      match NewCertSigner c (signer key) with
      | inr e => Ret (None, Some e)
      | inl k =>
          let* (newX509Cert, err) := capi (Certificate_Copy (cert key)) in
          match err, newX509Cert with
          | Some e, _ => Ret (None, Some e)
          | None, None => Panic "nil pointer dereference"
          | None, Some c' => Ret (Some {| cert := c'; signer := k; comment := KeyId c |}, None)
          end
      end
  end.

(** ** capi_agent.go *)

Definition close : prog AgentE (option error) :=
  keys <- call GetKeys ;;
  r <- for_range (default [] keys) None (fun key _ =>
         err <- capi (Certificate_Free (cert key)) ;; Ret (Next err)) ;;
  call (SetKeys None) ;;
  Ret (match r with inl err => err | inr err => err end).

Definition Close : prog AgentE (option error) :=
  call MuLock ;; defer (call MuUnlock) close.

(** [s.keys = append(s.keys, key)] *)
Definition append_key (key : sshKey) : prog AgentE unit :=
  keys <- call GetKeys ;;
  call (SetKeys (Some (default [] keys ++ [key]))).

(** [cert.Free()] with its result ignored, then [continue]. *)
Definition discard (c : Certificate) : prog AgentE (ctl unit (option error)) :=
  capi (Certificate_Free c) ;; Ret (Next tt).

(** The end of the loop's body: the key with the signer chosen for it, and, if
    there is an OpenSSH certificate for it, the same key with that. *)
Definition add_key (c : Certificate) (k : Signer) : prog AgentE (ctl unit (option error)) :=
  let key := {| cert := c; signer := k; comment := CommonName (x509 c) |} in
  append_key key ;;
  r <- loadSSHCertificate key ;;
  match r with
  | (Some keyWithCert, None) => append_key keyWithCert ;; Ret (Next tt)
  | _ => Ret (Next tt)
  end.

(** The body of the loop of [loadCerts]. *)
Definition loadCerts_step (c : Certificate) (_ : unit)
    : prog AgentE (ctl unit (option error)) :=
  if negb (FilterCertificateEKU c) then discard c else
  match NewPublicKey (X509.PublicKey (x509 c)) with
  | inr _ => discard c
  | inl pub =>
      if String.eqb (Type_ pub) KeyAlgoRSA then add_key c (rsaSigner pub c)
      else if String.eqb (Type_ pub) KeyAlgoECDSA256 || String.eqb (Type_ pub) KeyAlgoECDSA384
              || String.eqb (Type_ pub) KeyAlgoECDSA521 then
        add_key c (ecdsaSigner pub c)
      else discard c
  end.

Definition loadCerts : prog AgentE (option error) :=
  let* (certs, err) := capi (LoadUserCerts ParseCertificate) in
  match err with
  | Some e => Ret (Some e)
  | None =>
      call (SetKeys (Some [])) ;;
      r <- for_range (default [] certs) tt loadCerts_step ;;
      match r with inl _ => Ret None | inr err => Ret err end
  end.

Definition agent_key (k : sshKey) : agent_Key :=
  {| key_Format := Type_ (PublicKey (signer k));
     key_Blob := Marshal (PublicKey (signer k));
     key_Comment := comment k |}.

Definition List_locked : prog AgentE (list agent_Key * option error) :=
  keys <- call GetKeys ;;
  (match keys with Some _ => close ;; Ret tt | None => Ret tt end) ;;
  err <- loadCerts ;;
  match err with
  | Some e => Ret ([], Some e)
  | None =>
      keys <- call GetKeys ;;
      Ret (map agent_key (default [] keys), None)
  end.

Definition List : prog AgentE (list agent_Key * option error) :=
  call MuLock ;; defer (call MuUnlock) List_locked.

Definition signed (comment : string) : prog AgentE unit :=
  desktop (Notify "Authenticated"
             ("Authentication Success by Certificate <" +:+ comment +:+ ">")).

(** The smart card service prompt. *)
Definition check_service : prog AgentE unit :=
  v <- call (Getenv "KB_CHECKSVR") ;;
  if String.eqb v "1" then
    let* (ok, err) := desktop CheckSCardSvrStatus in
    match err with
    | None =>
        if ok then Ret tt else
        r <- desktop (MessageBox "Warning:"
               "Smart Card Service is stopped! Do you want to restart it?" MB_OKCANCEL) ;;
        if r =? IDOK then desktop StartSCardSvr ;; Ret tt else Ret tt
    | Some _ => Ret tt
    end
  else Ret tt.

(** Signing with the key that was found. *)
Definition sign_reported (k : sshKey) (m : prog CapiE sign_reply) : prog AgentE sign_reply :=
  let* (sign, err) := capi m in
  (match err with None => signed (comment k) | Some _ => Ret tt end) ;;
  Ret (sign, err).

Definition sign_with_key (k : sshKey) (data : list byte) (flags : Z) : prog AgentE sign_reply :=
  if flags =? 0 then 
    sign_reported k (Signer_Sign pkcs7_Parse asn1_Unmarshal ssh_Marshal disablePINCache
                       (signer k) data)
  else
    match SignWithAlgorithm pkcs7_Parse disablePINCache (signer k) with
    | None => Ret (None, Some (ErrorString
        "agent: signature does not support non-default signature algorithm"))
    | Some f =>
        if flags =? SignatureFlagRsaSha256 then sign_reported k (f data SigAlgoRSASHA2256)
        else if flags =? SignatureFlagRsaSha512 then sign_reported k (f data SigAlgoRSASHA2512)
        else Ret (None, Some (ErrorString
          ("agent: unsupported signature flags: " +:+ pretty flags)))
    end.

Definition SignWithFlags_locked (key : ssh_PublicKey) (data : list byte) (flags : Z)
    : prog AgentE sign_reply :=
  check_service ;;
  keys <- call GetKeys ;;
  err <- (match keys with None => loadCerts | Some _ => Ret None end) ;;
  match err with
  | Some e => Ret (None, Some e)
  | None =>
      keys <- call GetKeys ;;
      r <- for_range (default [] keys) tt (fun k _ =>
             if bool_decide (Marshal (PublicKey (signer k)) = Marshal key) then
               r <- sign_with_key k data flags ;; Ret (Return r)
             else Ret (Next tt)) ;;
      match r with
      | inl _ => Ret (None, Some (ErrorString "not found"))
      | inr r => Ret r
      end
  end.

Definition SignWithFlags (key : ssh_PublicKey) (data : list byte) (flags : Z)
    : prog AgentE sign_reply :=
  call MuLock ;; defer (call MuUnlock) (SignWithFlags_locked key data flags).

Definition Sign (key : ssh_PublicKey) (data : list byte) : prog AgentE sign_reply :=
  SignWithFlags key data 0.

(** [Add], [Remove], [RemoveAll], [Lock], [Unlock] and [Signers], and
    [Extension]. *)
Definition implement_me : option error := Some (ErrorString "implement me").
Definition Extension : option error := Some ErrExtensionUnsupported.
End agent.

(** ** The environment

    [agent_env] answers the calls a goroutine makes while it owns the mutex;
    taking and giving up the mutex is the matter of [thread_env] (Threads.v),
    which keeps the history of the critical sections.  The keys, crypt32, the
    files and what is shown are what the mutex guards, and [monitor_inv] is what
    holds of them whenever it is free. *)
Record agent_state : Type := AgentState {
  windows : capi_state;
  keys : option (list sshKey);
  files : list Z;
  screen : list shown;
}.

Definition with_windows (c : capi_state) (s : agent_state) : agent_state :=
  AgentState c (keys s) (files s) (screen s).
Definition with_keys (k : option (list sshKey)) (s : agent_state) : agent_state :=
  AgentState (windows s) k (files s) (screen s).
Definition with_files (l : list Z) (s : agent_state) : agent_state :=
  AgentState (windows s) (keys s) l (screen s).
Definition with_screen (l : list shown) (s : agent_state) : agent_state :=
  AgentState (windows s) (keys s) (files s) l.

#[export] Instance agent_mutex : Mutex AgentE agent_state :=
  {| role_of X e :=
       match e with MuLock => Acquire | MuUnlock => Release | _ => Access end;
     enter s := s;
     leave s := s |}.

(** The references a list of keys holds. *)
Definition key_refs (ks : list sshKey) (h : Z) : Z := holds (map cert ks) h.

Definition key_ok (k : sshKey) : Prop := signer_for (certContext (cert k)) (signer k).

(** Every key owns a reference of its certificate, and its signer signs with
    that certificate. *)
Definition agent_inv (s : agent_state) : Prop :=
  Forall key_ok (default [] (keys s)) /\
  forall h, key_refs (default [] (keys s)) h <= refs (windows s) h.

(** What holds whenever the mutex is free. *)
Definition monitor_inv (s : agent_state) : Prop := agent_inv s /\ files s = [].

(** A run through one critical section, whose result and effect are related by
    [post], for a goroutine that has been through the sections [h]. *)
Definition one_section {A} (post : agent_state -> A -> agent_state -> Prop)
    (h : list (agent_state * agent_state)) (r : A)
    (v : list (agent_state * agent_state) * option (agent_state * agent_state)) : Prop :=
  exists t u, v = (h ++ [(t, u)], None) /\ monitor_inv t /\ monitor_inv u /\ post t r u.

Section env.
Context (contents : list Z) (key_spec : Z -> Z) (encoding : Z -> list byte).
Local Abbreviation W := (capi_env contents key_spec encoding).

Definition agent_env : env AgentE agent_state :=
  {| may X e s :=
       match e with
       | Capi _ e => may W e (windows s)
       | Desktop _ e => may desktop_env e (screen s)
       | MuLock | MuUnlock => False
       | ReadAll f | CloseFile f => f ∈ files s
       | _ => True
       end;
     does X e s :=
       match e in AgentE X return X -> agent_state -> Prop with
       | Capi _ e => fun x t => exists c, does W e (windows s) x c /\ t = with_windows c s
       | Desktop _ e => fun x t => exists l, does desktop_env e (screen s) x l /\
                                             t = with_screen l s
       | MuLock | MuUnlock => fun _ _ => False
       | GetKeys => fun ks t => ks = keys s /\ t = s
       | SetKeys ks => fun _ t => t = with_keys ks s
       | OpenFile _ => fun '(f, err) t =>
           match err with
           | None => (f ∉ files s) /\ t = with_files (f :: files s) s
           | Some _ => t = s
           end
       | CloseFile f => fun _ t => t = with_files (filter (fun g => g <> f) (files s)) s
       | _ => fun _ t => t = s
       end |}.

(** The agent as one of its clients' goroutines calls it. *)
Definition monitor_env := thread_env agent_env monitor_inv.
End env.

(** *** The bodies of the critical sections only touch what the mutex guards. *)
Create HintDb access discriminated.

Ltac access :=
  repeat match goal with
  | |- calls_ok _ (bind _ _) => apply calls_ok_bind; [|intros]
  | |- calls_ok _ (defer _ _) => apply calls_ok_defer
  | |- calls_ok _ (for_range _ _ _) => apply calls_ok_for_range; intros
  | |- calls_ok _ (translate _ _) => by apply calls_ok_translate
  | |- calls_ok _ (Ret _) => exact I
  | |- calls_ok _ (Panic _) => exact I
  | |- calls_ok _ (call _) => by split
  | |- calls_ok _ (match ?x with _ => _ end) => destruct x
  | |- calls_ok _ _ => solve [auto with access]
  end.

Section access.
Context `{L : Libraries} (disablePINCache : bool).
Local Abbreviation inside := (calls_ok (@access_only AgentE agent_state _)).

Lemma close_access : inside close.
Proof. unfold close. access. Qed.

Lemma loadCertFile_access name : inside (loadCertFile name).
Proof. unfold loadCertFile. access. Qed.
Hint Resolve close_access loadCertFile_access : access.

Lemma loadSSHCertificate_access key : inside (loadSSHCertificate key).
Proof. unfold loadSSHCertificate. access. Qed.
Hint Resolve loadSSHCertificate_access : access.

Lemma loadCerts_access : inside loadCerts.
Proof. unfold loadCerts, loadCerts_step, add_key, append_key, discard. access. Qed.
Hint Resolve loadCerts_access : access.

Lemma List_locked_access : inside List_locked.
Proof. unfold List_locked. access. Qed.

Lemma check_service_access : inside check_service.
Proof. unfold check_service. access. Qed.
Hint Resolve check_service_access : access.

Lemma sign_with_key_access k data flags : inside (sign_with_key disablePINCache k data flags).
Proof. unfold sign_with_key, sign_reported, signed. access. Qed.
Hint Resolve sign_with_key_access : access.

Lemma SignWithFlags_locked_access key data flags :
  inside (SignWithFlags_locked disablePINCache key data flags).
Proof. unfold SignWithFlags_locked. access. Qed.
End access.

Section proofs.
Context `{L : Libraries, !LibraryLaws L} (disablePINCache : bool).
Context (contents : list Z) (key_spec : Z -> Z) (encoding : Z -> list byte).
Local Abbreviation W := (capi_env contents key_spec encoding).
Local Abbreviation V := (agent_env contents key_spec encoding).
Local Abbreviation M := (monitor_env contents key_spec encoding).
Local Abbreviation take_certs := (taken ParseCertificate key_spec encoding).

(** *** Calls of the other components *)

Lemma capi_ok {A} (m : prog CapiE A) t Q :
  wp W m (windows t) Q ->
  wp V (capi m) t (fun o u => Q o (windows u) /\ u = with_windows (windows u) t).
Proof.
  intros H. apply (wp_translate _ W V Capi windows (fun u => u = with_windows (windows u) t)).
  - intros X e a Hk Ha. split; [exact Ha|]. intros x u (c & Hc & ->). split; [exact Hc|].
    by rewrite Hk.
  - by destruct t.
  - done.
Qed.

Lemma desktop_ok {A} (m : prog DesktopE A) t Q :
  wp desktop_env m (screen t) Q ->
  wp V (desktop m) t (fun o u => Q o (screen u) /\ u = with_screen (screen u) t).
Proof.
  intros H. apply (wp_translate _ desktop_env V Desktop screen
    (fun u => u = with_screen (screen u) t)).
  - intros X e a Hk Ha. split; [exact Ha|]. intros x u (c & Hc & ->). split; [exact Hc|].
    by rewrite Hk.
  - by destruct t.
  - done.
Qed.

(** The forms used below: the called function returns. *)
Lemma capi_seq {A B} (m : prog CapiE A) (f : A -> prog AgentE B) t P Q :
  wp W m (windows t) (returns P) ->
  (forall a c, P a c -> wp V (f a) (with_windows c t) Q) ->
  wp V (bind (capi m) f) t Q.
Proof.
  intros Hm Hf. apply wp_bind. eapply wp_mono; [by apply capi_ok|].
  intros [a|msg] u [HP Hu]; [|done]. rewrite Hu. by apply Hf.
Qed.

Lemma desktop_seq {A B} (m : prog DesktopE A) (f : A -> prog AgentE B) t P Q :
  wp desktop_env m (screen t) (returns P) ->
  (forall a l, P a l -> wp V (f a) (with_screen l t) Q) ->
  wp V (bind (desktop m) f) t Q.
Proof.
  intros Hm Hf. apply wp_bind. eapply wp_mono; [by apply desktop_ok|].
  intros [a|msg] u [HP Hu]; [|done]. rewrite Hu. by apply Hf.
Qed.

(** *** Certificate files *)

Definition deny_all (d : list Z) (s : capi_state) : capi_state :=
  CapiState (refs s) (stores s) (todo s) (keylog s) (denied s ++ d).

Lemma deny_all_nil s : deny_all [] s = s.
Proof. destruct s. unfold deny_all. cbn. by rewrite app_nil_r. Qed.

Lemma loadCertFile_ok filename t :
  wp V (loadCertFile filename) t (returns (fun r u =>
    u = t /\ (r.2 = None -> exists c, r.1 = Some c))).
Proof.
  unfold loadCertFile. prog. split; [done|]. intros [home [e|]] ? ->; prog; [done|].
  split; [done|]. intros [f [e|]] ?; prog; [by intros ->|]. intros [Hf ->].
  eapply (wp_defer _ _ _ _ _ (returns (fun r u =>
    u = with_files (f :: files t) t /\ (r.2 = None -> exists c, r.1 = Some c)))).
  - prog. split; [apply elem_here|]. intros [data [e|]] ? ->; prog; [done|].
    destruct (ParseAuthorizedKey data) as [[c|k]|e]; prog; [|done|done]. eauto.
  - intros [r|msg] u; prog; [|done]. intros [-> Hr]. split; [apply elem_here|].
    intros _ ? ->. split; [|done]. destruct t as [w k fs sc]. unfold with_files. cbn. f_equal.
    by apply filter_self.
Qed.

Lemma loadSSHCertificate_ok key t :
  0 < refs (windows t) (certContext (cert key)) ->
  wp V (loadSSHCertificate key) t (returns (fun r u =>
    (exists d, r.2 <> None /\ u = with_windows (deny_all d (windows t)) t) \/
    exists c k, r = (Some k, None) /\ NewCertSigner c (signer key) = inl (signer k) /\
      cert k = cert key /\ comment k = KeyId c /\
      u = with_windows (retain (certContext (cert key)) (windows t)) t)).
Proof.
  intros Hr. unfold loadSSHCertificate.
  assert (Hsame : exists d, t = with_windows (deny_all d (windows t)) t).
  { exists []. by rewrite deny_all_nil; destruct t. }
  eapply wp_seq; [apply loadCertFile_ok|]. intros r ? [-> Hc].
  eapply (wp_seq _ _ _ _ _ (fun r u => u = t /\ (r.2 = None -> exists c, r.1 = Some c))).
  { destruct r as [c [e|]]; [apply loadCertFile_ok|by prog]. }
  destruct Hsame as [d0 Hsame].
  clear r Hc. intros [c [e|]] ? [-> Hc]; prog; [destruct c; prog; left; by exists d0|].
  destruct (Hc eq_refl) as [c' Heq]. cbn in Heq. subst c.
  destruct (NewCertSigner c' (signer key)) as [k|e] eqn:Hn; prog; [|left; by exists d0].
  eapply capi_seq; [by apply Certificate_Copy_ok|].
  intros [x err] w [[[Hx He] ->]|[[= -> ->] ->]]; cbn [fst snd] in *.
  - subst x. destruct err; prog; [|done]. left. by exists [certContext (cert key)].
  - right. by exists c'; eexists.
Qed.

(** *** The key list *)

(** What the operations on the key list leave alone. *)
Definition frame (t u : agent_state) : Prop :=
  files u = files t /\ screen u = screen t /\
  keylog (windows u) = keylog (windows t) /\ stores (windows u) = stores (windows t).

Lemma frame_trans t u v : frame t u -> frame u v -> frame t v.
Proof. unfold frame. intuition congruence. Qed.

Lemma key_refs_cons k ks h : key_refs (k :: ks) h = at_ h (certContext (cert k)) + key_refs ks h.
Proof.
  unfold key_refs, holds, at_. cbn [map]. rewrite count_cons, (Z.eqb_sym h). done.
Qed.

Lemma key_refs_app ks ks' h : key_refs (ks ++ ks') h = key_refs ks h + key_refs ks' h.
Proof. unfold key_refs, holds. by rewrite map_app, count_app. Qed.

Lemma key_refs_nil h : key_refs [] h = 0.
Proof. done. Qed.

Lemma holds_nil h : holds [] h = 0.
Proof. done. Qed.

Lemma key_refs_nonneg ks h : 0 <= key_refs ks h.
Proof. apply count_nonneg. Qed.

Lemma holds_cons c l h : holds (c :: l) h = at_ h (certContext c) + holds l h.
Proof. unfold holds, at_. rewrite count_cons, (Z.eqb_sym h). done. Qed.

(** The keys are given up: every reference they hold is freed, once. *)
Definition keys_freed (t u : agent_state) : Prop :=
  frame t u /\ keys u = None /\ denied (windows u) = denied (windows t) /\
  forall h, refs (windows u) h = refs (windows t) h - key_refs (default [] (keys t)) h.

Lemma close_ok t :
  agent_inv t -> wp V close t (returns (fun _ u => keys_freed t u)).
Proof.
  intros [_ Hrefs]. unfold close. prog. split; [done|]. intros ks ? [-> ->].
  apply wp_bind. apply (wp_for_range _ _ _ _ _ _ (fun l _ u =>
    frame t u /\ denied (windows u) = denied (windows t) /\
    forall h, refs (windows u) h - key_refs l h =
              refs (windows t) h - key_refs (default [] (keys t)) h)).
  - done.
  - intros v u (Hf & Hd & Hr). prog. split; [done|]. answer x. split; [done|].
    split; [done|]. split; [done|].
    intros h. specialize (Hr h). rewrite key_refs_nil in Hr. cbn. lia.
  - intros k l v u (Hf & Hd & Hr).
    assert (Hpos : 0 < refs (windows u) (certContext (cert k))).
    { specialize (Hr (certContext (cert k))). rewrite key_refs_cons, at_same in Hr.
      specialize (Hrefs (certContext (cert k))).
      pose proof (key_refs_nonneg l (certContext (cert k))). lia. }
    eapply capi_seq; [by apply Certificate_Free_ok|]. intros err c ->. prog.
    split; [done|]. split; [done|]. intros h. specialize (Hr h). rewrite key_refs_cons in Hr.
    cbn. lia.
Qed.

Lemma freed_inv t u : agent_inv t -> keys_freed t u -> agent_inv u.
Proof.
  intros [_ Hi] (_ & Hk & _ & Hr). unfold agent_inv. rewrite Hk. split; [by constructor|].
  intros h. cbn. rewrite key_refs_nil, Hr. specialize (Hi h). lia.
Qed.

(** The signer of a certificate that may be used: its extended key usage
    allows it, and its key is an RSA or an ECDSA key. *)
Definition signer_of (c : Certificate) : option Signer :=
  if FilterCertificateEKU c then
    match NewPublicKey (X509.PublicKey (x509 c)) with
    | inl pub =>
        if decide (Type_ pub = KeyAlgoRSA) then Some (rsaSigner pub c)
        else if decide (Type_ pub ∈ [KeyAlgoECDSA256; KeyAlgoECDSA384; KeyAlgoECDSA521])
        then Some (ecdsaSigner pub c) else None
    | inr _ => None
    end
  else None.

(** The keys made of certificates, in their order: for each that may be used a
    key with its common name, followed, where there is an OpenSSH certificate
    for it, by a key that offers that. *)
Definition plain_key (c : Certificate) (k : Signer) : sshKey :=
  {| cert := c; signer := k; comment := CommonName (x509 c) |}.

Inductive keys_for : list Certificate -> list sshKey -> Prop :=
| keys_nil : keys_for [] []
| keys_skip c cs ks : signer_of c = None -> keys_for cs ks -> keys_for (c :: cs) ks
| keys_plain c cs k ks : signer_of c = Some k ->
    keys_for cs ks -> keys_for (c :: cs) (plain_key c k :: ks)
| keys_both c cs k ks ssh k' : signer_of c = Some k -> NewCertSigner ssh k = inl k' ->
    keys_for cs ks ->
    keys_for (c :: cs)
      (plain_key c k :: {| cert := c; signer := k'; comment := KeyId ssh |} :: ks).

Lemma keys_for_app cs cs' ks ks' :
  keys_for cs ks -> keys_for cs' ks' -> keys_for (cs ++ cs') (ks ++ ks').
Proof. intros H H'. induction H; cbn; eauto using keys_for. Qed.

Lemma signer_of_ok c k : signer_of c = Some k -> signer_for (certContext c) k.
Proof.
  unfold signer_of. destruct (FilterCertificateEKU c); [|done].
  destruct (NewPublicKey _) as [pub|] eqn:Hp; [|done].
  case_decide; [by intros [= <-]|]. case_decide; [|done]. intros [= <-]. split; [done|].
  by eapply NewPublicKey_ecdsa.
Qed.

Lemma keys_for_ok cs ks : keys_for cs ks -> Forall key_ok ks.
Proof.
  induction 1 as [|c cs ks _ _ IH|c cs k ks Hk _ IH|c cs k ks crt k' Hk Hn _ IH]; [done|done|..].
  - constructor; [by apply signer_of_ok|done].
  - constructor; [by apply signer_of_ok|]. constructor; [|done].
    destruct (NewCertSigner_signs _ _ _ Hn) as (pub & b & ->). exact (signer_of_ok _ _ Hk).
Qed.

(** In the middle of [loadCerts]: the certificates [old] have become keys, the
    references of [rest] are still held. *)
Definition loading (base : Z -> Z) (den : list Z) (old rest : list Certificate)
    (u : agent_state) : Prop :=
  exists ks d, keys u = Some ks /\ keys_for old ks /\ denied (windows u) = den ++ d /\
  forall h, refs (windows u) h = base h + key_refs ks h + holds rest h.

Lemma append_key_ok key ks u :
  keys u = Some ks ->
  wp V (append_key key) u (returns (fun _ v => v = with_keys (Some (ks ++ [key])) u)).
Proof.
  intros Hk. unfold append_key. prog. split; [done|]. intros ? ? [-> ->].
  rewrite Hk. split; [done|]. by intros _ ? ->.
Qed.

(** The certificate at hand, and any further reference on it, is alive. *)
Lemma loading_pos base den old c rest u :
  (forall h, 0 <= base h) -> loading base den old (c :: rest) u ->
  0 < refs (windows u) (certContext c).
Proof.
  intros Hb (ks & d & _ & _ & _ & Hr). rewrite Hr, holds_cons, at_same.
  specialize (Hb (certContext c)). pose proof (key_refs_nonneg ks (certContext c)).
  pose proof (holds_nonneg rest (certContext c)). lia.
Qed.

Lemma discard_ok base den old c rest u :
  (forall h, 0 <= base h) -> loading base den old (c :: rest) u -> signer_of c = None ->
  wp V (discard c) u (returns (fun r v =>
    r = Next tt /\ frame u v /\ loading base den (old ++ [c]) rest v)).
Proof.
  intros Hb Hl Hc. eapply capi_seq.
  { apply Certificate_Free_ok. by eapply loading_pos. }
  intros r w ->. prog. split; [done|]. split; [done|].
  destruct Hl as (ks & d & Hks & Hfor & Hd & Hr). exists ks, d. split_and!; [done| |done|].
  - rewrite <-(app_nil_r ks). apply keys_for_app; [done|]. by repeat constructor.
  - intros h. cbn. rewrite Hr, holds_cons. lia.
Qed.

Lemma add_key_ok base den old c k rest u :
  (forall h, 0 <= base h) -> loading base den old (c :: rest) u -> signer_of c = Some k ->
  wp V (add_key c k) u (returns (fun r v =>
    r = Next tt /\ frame u v /\ loading base den (old ++ [c]) rest v)).
Proof.
  intros Hb Hl Hk. pose proof (loading_pos _ _ _ _ _ _ Hb Hl) as Hpos.
  destruct Hl as (ks & d & Hks & Hfor & Hd & Hr). unfold add_key. fold (plain_key c k).
  eapply wp_seq; [by apply append_key_ok|]. intros [] ? ->.
  eapply wp_seq; [by apply (loadSSHCertificate_ok (plain_key c k))|].
  intros [r err] w [(d' & He & ->)|(crt & k' & [= -> ->] & Hn & Hc & Hcom & ->)].
  { assert (H : frame u (with_windows (deny_all d' (windows u)) (with_keys (Some (ks ++ [plain_key c k])) u)) /\
      loading base den (old ++ [c]) rest
        (with_windows (deny_all d' (windows u)) (with_keys (Some (ks ++ [plain_key c k])) u))).
    { split; [done|]. exists (ks ++ [plain_key c k]), (d ++ d').
      split_and!; [done| |by cbn; rewrite Hd, app_assoc|].
      - apply keys_for_app; [done|]. by repeat constructor.
      - intros h. cbn. rewrite Hr, key_refs_app, holds_cons, key_refs_cons, key_refs_nil. cbn. lia. }
    destruct err; [|done]. destruct r; by prog. }
  eapply wp_seq; [by apply append_key_ok|]. intros [] ? ->. prog. split; [done|]. split; [done|].
  destruct k' as [c' k' com]. cbn in Hn, Hc, Hcom. subst c' com.
  do 2 eexists. split_and!; [done| |exact Hd|].
  - rewrite <-app_assoc. apply keys_for_app; [done|]. by repeat econstructor.
  - intros h. cbn.
    rewrite Hr, !key_refs_app, holds_cons, !key_refs_cons, key_refs_nil. cbn. lia.
Qed.

Lemma loadCerts_step_ok base den old c rest u :
  (forall h, 0 <= base h) -> loading base den old (c :: rest) u ->
  wp V (loadCerts_step c tt) u (returns (fun r v =>
    r = Next tt /\ frame u v /\ loading base den (old ++ [c]) rest v)).
Proof.
  intros Hb Hl. pose proof (discard_ok base den old c rest u Hb Hl) as Hdiscard.
  pose proof (fun k => add_key_ok base den old c k rest u Hb Hl) as Hadd.
  unfold loadCerts_step. unfold signer_of in Hdiscard, Hadd.
  destruct (FilterCertificateEKU c); [|by apply Hdiscard].
  cbn [negb]. destruct (NewPublicKey _) as [pub|]; [|by apply Hdiscard].
  destruct (String.eqb_spec (Type_ pub) KeyAlgoRSA) as [He|He].
  { rewrite decide_True in Hadd by done. by apply Hadd. }
  rewrite decide_False in Hadd, Hdiscard by done.
  assert (Hcurve : Type_ pub ∈ [KeyAlgoECDSA256; KeyAlgoECDSA384; KeyAlgoECDSA521] <->
    String.eqb (Type_ pub) KeyAlgoECDSA256 || String.eqb (Type_ pub) KeyAlgoECDSA384
      || String.eqb (Type_ pub) KeyAlgoECDSA521 = true).
  { rewrite !orb_true_iff, !String.eqb_eq. set_solver. }
  destruct (_ || _ || _).
  - rewrite decide_True in Hadd by by apply Hcurve. by apply Hadd.
  - rewrite decide_False in Hdiscard by (by rewrite Hcurve). by apply Hdiscard.
Qed.

(** The agent got fresh keys, from what Windows would hand out of the store;
    exactly the references they hold were added to [base]. *)
Definition fresh_keys (base : Z -> Z) (t u : agent_state) (ks : list sshKey) : Prop :=
  exists certs d d', take_certs d contents certs /\ keys_for certs ks /\
  denied (windows u) = denied (windows t) ++ d ++ d' /\
  forall h, refs (windows u) h = base h + key_refs ks h.

(** The store could not be read to its end: the references of the certificates
    taken before that are left behind. *)
Definition not_loaded (base : Z -> Z) (t u : agent_state) : Prop :=
  exists seen rest d leaked, contents = seen ++ rest /\ take_certs d seen leaked /\
  denied (windows u) = denied (windows t) ++ d /\
  forall h, refs (windows u) h = base h + holds leaked h.

Lemma loadCerts_ok t :
  (forall h, 0 <= refs (windows t) h) ->
  wp V loadCerts t (returns (fun err u =>
    frame t u /\
    match err with
    | None => exists ks, keys u = Some ks /\ fresh_keys (refs (windows t)) t u ks
    | Some _ => keys u = keys t /\ not_loaded (refs (windows t)) t u
    end)).
Proof.
  intros Hr. unfold loadCerts. eapply capi_seq; [by apply LoadUserCerts_ok|].
  intros [[certs|] err] w Hl.
  2: { destruct Hl as (He & leaked & Hst & Hk & Hw & seen & rest & d & Hc & Hd & Ht).
       destruct err; [|done]. prog. split; [done|]. split; [done|]. by exists seen, rest, d, leaked. }
  destruct Hl as (-> & Hst & Hk & Hw & d & Hd & Ht). prog. split; [done|]. answer x. cbn [default].
  set (u := with_keys (Some []) (with_windows w t)).
  apply wp_bind. apply (wp_for_range _ _ _ _ _ _ (fun l _ v => frame t v /\
    exists old, certs = old ++ l /\ loading (refs (windows t)) (denied w) old l v)).
  - split; [done|]. exists []. split; [done|]. exists [], []. rewrite app_nil_r.
    split_and!; [done|constructor|done|].
    intros h. cbn. rewrite Hw, key_refs_nil. lia.
  - intros [] v (Hf & old & Hc & ks & d' & Hks & Hfor & Hdv & Hrv). prog. split; [done|].
    exists ks. split; [done|]. exists old, d, d'. rewrite app_nil_r in Hc. subst certs.
    split_and!; [done..| |].
    + by rewrite Hdv, Hd, app_assoc.
    + intros h. rewrite Hrv, holds_nil. lia.
  - intros c l [] v (Hf & old & Hc & Hv). eapply wp_mono; [by apply loadCerts_step_ok|].
    intros [r|msg] z; prog; [|done]. intros (-> & Hz & Hzl).
    split; [by eapply frame_trans|]. exists (old ++ [c]). split; [by rewrite <-app_assoc|done].
Qed.

Lemma inv_nonneg t h : agent_inv t -> 0 <= refs (windows t) h.
Proof.
  intros [_ Hr]. specialize (Hr h).
  pose proof (key_refs_nonneg (default [] (keys t)) h). lia.
Qed.

Lemma fresh_inv base t u ks :
  (forall h, 0 <= base h) -> keys u = Some ks -> fresh_keys base t u ks -> agent_inv u.
Proof.
  intros Hb Hks (certs & d & d' & _ & Hfor & _ & Hr). unfold agent_inv. rewrite Hks.
  split; [by eapply keys_for_ok|]. intros h. cbn. rewrite Hr. specialize (Hb h). lia.
Qed.

(** A failed load leaves the agent without keys, as it was. *)
Lemma not_loaded_inv base t u :
  (forall h, 0 <= base h) -> keys u = None -> not_loaded base t u -> agent_inv u.
Proof.
  intros Hb Hk (seen & rest & d & leaked & _ & _ & _ & Hr). unfold agent_inv. rewrite Hk.
  split; [by constructor|]. intros h. cbn. rewrite key_refs_nil, Hr.
  pose proof (holds_nonneg leaked h). specialize (Hb h). lia.
Qed.

(** *** One critical section *)
Lemma section_ok {A} (m : prog AgentE A) (post : agent_state -> A -> agent_state -> Prop) h :
  calls_ok access_only m ->
  (forall t, agent_inv t -> wp V m t (returns (fun a u =>
     agent_inv u /\ files u = files t /\ post t a u))) ->
  wp M (call MuLock ;; defer (call MuUnlock) m) (h, None) (returns (one_section post h)).
Proof.
  intros Hm H. eapply wp_mono.
  - apply (wp_section V monitor_inv MuLock MuUnlock m h (fun t a u =>
      monitor_inv t /\ monitor_inv u /\ post t a u)); [done..|].
    intros s [Hs Hf]. eapply wp_mono; [by apply H|]. intros [a|msg] u; [|done].
    cbn. intros (Hu & Hfu & HP). rewrite Hf in Hfu. done.
  - intros [a|msg] v; [|done]. intros (t & u & -> & Ht & Hu & HP). by exists t, u.
Qed.

(** *** Close and List *)

Lemma Close_ok h :
  wp M Close (h, None) (returns (one_section (fun t _ u => keys_freed t u) h)).
Proof.
  apply section_ok; [apply close_access|]. intros t Hi.
  eapply wp_mono; [by apply close_ok|]. intros [r|msg] u; [|done]. intros Hu.
  split; [by eapply freed_inv|]. split; [apply Hu|done].
Qed.

(** (C8) [Close] is one critical section.  From the state [t] in which it
    takes the mutex to the state [u] in which it gives it up, it frees every
    certificate reference the agent's keys held in [t], each exactly once, and
    forgets the keys; no other reference, store, file or key operation is
    affected, nothing is shown, and the invariant of the agent holds again. *)
Theorem Close_frees h :
  wp M Close (h, None) (returns (fun _ v =>
    exists t u, v = (h ++ [(t, u)], None) /\ monitor_inv t /\ monitor_inv u /\
      frame t u /\ keys u = None /\ denied (windows u) = denied (windows t) /\
      forall c, refs (windows u) c = refs (windows t) c - key_refs (default [] (keys t)) c)).
Proof. apply Close_ok. Qed.

(** The critical section of [List]. *)
Definition list_post (t : agent_state) (r : list agent_Key * option error) (u : agent_state)
    : Prop :=
  let base h := refs (windows t) h - key_refs (default [] (keys t)) h in
  frame t u /\
  match r with
  | (ids, None) => exists ks, keys u = Some ks /\ ids = map agent_key ks /\ fresh_keys base t u ks
  | (ids, Some _) => ids = [] /\ keys u = None /\ not_loaded base t u
  end.

Lemma List_locked_ok t :
  agent_inv t ->
  wp V List_locked t (returns (fun r u => agent_inv u /\ files u = files t /\ list_post t r u)).
Proof.
  intros Hi. unfold List_locked. prog. split; [done|]. intros ? ? [-> ->].
  eapply (wp_seq _ _ _ _ _ (fun _ u => keys_freed t u)).
  { destruct (keys t) eqn:Hk.
    - eapply wp_seq; [by apply close_ok|]. intros ? u Hu. by prog.
    - prog. split; [done|]. split; [done|]. split; [done|].
      intros h. rewrite Hk. cbn. rewrite key_refs_nil. lia. }
  intros _ u Hfree. pose proof (freed_inv _ _ Hi Hfree) as Hiu.
  destruct Hfree as (Hf & Hk & Hd & Hr).
  assert (Hb : forall h, 0 <= refs (windows u) h) by (intros h; by apply inv_nonneg).
  eapply wp_seq; [by apply loadCerts_ok|]. intros [e|] v [Hf' Hv]; prog.
  - destruct Hv as (Hkv & Hl). rewrite Hk in Hkv. split; [by eapply not_loaded_inv|].
    pose proof (frame_trans _ _ _ Hf Hf') as Hfv. split; [apply Hfv|]. split; [done|].
    split; [done|]. split; [done|].
    destruct Hl as (seen & rest & d & leaked & Hc & Ht & Hdv & Hrv).
    exists seen, rest, d, leaked. split_and!; [done..|by rewrite Hdv, Hd|].
    intros h. by rewrite Hrv, Hr.
  - destruct Hv as (ks & Hks & Hv). split; [done|]. intros ? ? [-> ->].
    split; [by eapply fresh_inv|].
    pose proof (frame_trans _ _ _ Hf Hf') as Hfv. split; [apply Hfv|]. split; [done|].
    exists ks. rewrite Hks. split; [done|]. split; [done|].
    destruct Hv as (certs & d & d' & Hc & Hfor & Hdv & Hrv).
    exists certs, d, d'. split_and!; [done..|by rewrite Hdv, Hd|].
    intros h. by rewrite Hrv, Hr.
Qed.

Lemma List_ok h : wp M List (h, None) (returns (one_section list_post h)).
Proof. apply section_ok; [apply List_locked_access|exact List_locked_ok]. Qed.

(** (C6) [List] is one critical section, from the state [t] in which it takes
    the mutex to the state [u] in which it gives it up: the references of the
    keys the agent had in [t] are freed and a fresh list is loaded.  What it
    returns describes exactly the keys the agent has in [u], and these are, in
    order, the keys made of the certificates Windows hands out of the store:
    those with a private key, an extended key usage that allows it and a
    supported key type.  Reference counts move by exactly the references of
    the old and the new keys.  On an error nothing is listed and no key is
    left; only the references taken before the failure stay behind.  No store
    or file stays open, no key operation happens, nothing is shown, and the
    invariant of the agent holds when the mutex is released. *)
Theorem List_spec h :
  wp M List (h, None) (returns (fun r v =>
    exists t u, v = (h ++ [(t, u)], None) /\ monitor_inv t /\ monitor_inv u /\
      list_post t r u)).
Proof. apply List_ok. Qed.

(** *** Signing *)

(** The first key with the wanted public key. *)
Definition first_key (ks : list sshKey) (wanted : list byte) : option sshKey :=
  head (filter (fun k => Marshal (PublicKey (signer k)) = wanted) ks).

(** Which signers offer a choice of algorithms. *)
Fixpoint offers_algorithms (k : Signer) : bool :=
  match k with
  | rsaSigner _ _ => true
  | ecdsaSigner _ _ => false
  | certSigner _ b k => b && offers_algorithms k
  end.

Lemma SignWithAlgorithm_offers k :
  if offers_algorithms k then exists f, SignWithAlgorithm pkcs7_Parse disablePINCache k = Some f
  else SignWithAlgorithm pkcs7_Parse disablePINCache k = None.
Proof.
  induction k as [pub c|pub c|pub b k IH]; cbn; [by eexists|done|]. by destruct b.
Qed.

(** The algorithm the flags of a request ask a key for, if it has it. *)
Definition algorithm_for (k : sshKey) (flags : Z) : option string :=
  if flags =? 0 then Some ""
  else if negb (offers_algorithms (signer k)) then None
  else if flags =? SignatureFlagRsaSha256 then Some SigAlgoRSASHA2256
  else if flags =? SignatureFlagRsaSha512 then Some SigAlgoRSASHA2512
  else None.

(** How the key is to be used: the Windows algorithm, and what is made of the
    digest. *)
Definition how (k : sshKey) (flags : Z) : option (string * (list byte -> sign_reply)) :=
  match algorithm_for k flags with
  | Some alg => method asn1_Unmarshal ssh_Marshal (signer k) alg
  | None => None
  end.

Definition success_message (k : sshKey) : string :=
  "Authentication Success by Certificate <" +:+ comment k +:+ ">".

(** What is shown about a signature: nothing, or, without an error, that it
    was made with this key. *)
Definition announced (k : sshKey) (r : sign_reply) (new : list shown) : Prop :=
  new = [] \/ r.2 = None /\ new = [Toast "Authenticated" (success_message k)].

(** What is shown about the smart card service. *)
Definition service_prompt (new : list shown) : Prop :=
  let ask := Dialog "Smart Card Service is stopped! Do you want to restart it?" in
  new = [] \/ new = [ask] \/ new = [ask; Launched (Some "net") (Some "start scardsvr")].

Lemma with_screen_nil t : with_screen (screen t ++ []) t = t.
Proof. destruct t. unfold with_screen. cbn. by rewrite app_nil_r. Qed.

Lemma check_service_ok t :
  wp V check_service t (returns (fun _ u =>
    exists new, u = with_screen (screen t ++ new) t /\ service_prompt new)).
Proof.
  assert (Hsame : exists new, t = with_screen (screen t ++ new) t /\ service_prompt new).
  { exists []. rewrite with_screen_nil. split; [done|by left]. }
  assert (Hs : with_screen (screen t) t = t) by (by destruct t).
  unfold check_service. prog. split; [done|]. intros v ? ->.
  destruct (String.eqb v "1"); prog; [|done].
  eapply desktop_seq; [apply CheckSCardSvrStatus_ok|].
  intros [ok [e|]] ? ->; rewrite Hs; prog; [done|].
  destruct ok; prog; [done|].
  eapply desktop_seq; [apply MessageBox_ok|]. intros r l Hr.
  destruct (Z.eqb_spec r IDOK) as [->|Hno]; prog.
  - destruct Hr as [[? _]| ->]; [done|].
    eapply desktop_seq; [apply StartSCardSvr_ok|]. intros err k ->. prog.
    eexists. cbn [screen with_screen]. rewrite <-app_assoc. split; [done|]. by right; right.
  - destruct Hr as [[_ ->]| ->]; [by rewrite Hs|]. eexists. split; [done|]. by right; left.
Qed.

(** Signing with a key the agent has. *)
Definition key_signed (k : sshKey) (data : list byte) (oid : string)
    (f : list byte -> sign_reply) (t : agent_state) (r : sign_reply) (u : agent_state) : Prop :=
  exists p7 l new, u = with_screen (screen t ++ new) (with_windows (log_all l (windows t)) t) /\
    sign_trace pkcs7_Parse disablePINCache oid (certContext (cert k)) data p7 l /\
    r = reply_of f p7 /\ announced k r new.

Lemma sign_reported_ok k m data t w :
  signs_for pkcs7_Parse disablePINCache contents key_spec encoding m (certContext (cert k)) data w ->
  0 < refs (windows t) (certContext (cert k)) ->
  exists oid f, w = Some (oid, f) /\
    wp V (sign_reported k m) t (returns (key_signed k data oid f t)).
Proof.
  intros Hm Hr. destruct (Hm _ Hr) as (oid & f & -> & Hwp). exists oid, f. split; [done|].
  unfold sign_reported. eapply capi_seq; [exact Hwp|].
  assert (Hnone : forall l, with_windows (log_all l (windows t)) t =
    with_screen (screen t ++ []) (with_windows (log_all l (windows t)) t)).
  { intros l. exact (eq_sym (with_screen_nil (with_windows (log_all l (windows t)) t))). }
  intros [sig [e|]] ? (p7 & l & -> & Hl & Heq); prog.
  - exists p7, l, []. split_and!; [apply Hnone|done..|by left].
  - unfold signed. eapply desktop_seq; [apply Notify_ok|]. intros [] sc Hsc. prog.
    cbn [screen with_windows] in Hsc. exists p7, l. destruct Hsc as [->| ->].
    + exists []. split_and!; [by rewrite <-Hnone|done..|by left].
    + eexists. split_and!; [done..|]. by right.
Qed.

Lemma sign_with_key_ok k data flags t :
  key_ok k -> 0 < refs (windows t) (certContext (cert k)) ->
  wp V (sign_with_key disablePINCache k data flags) t (returns (fun r u =>
    match how k flags with
    | None => u = t /\ failed r
    | Some (oid, f) => key_signed k data oid f t r u
    end)).
Proof.
  intros Hk Hr. unfold sign_with_key, how, algorithm_for.
  assert (Hrep : forall m alg,
    signs_for pkcs7_Parse disablePINCache contents key_spec encoding m (certContext (cert k)) data
      (method asn1_Unmarshal ssh_Marshal (signer k) alg) ->
    wp V (sign_reported k m) t (returns (fun r u =>
      match method asn1_Unmarshal ssh_Marshal (signer k) alg with
      | None => u = t /\ failed r
      | Some (oid, f) => key_signed k data oid f t r u
      end))).
  { intros m alg Hm. destruct (sign_reported_ok k m data t _ Hm Hr) as (oid & f & -> & H). exact H. }
  destruct (flags =? 0).
  { apply Hrep, Signer_Sign_signs; [apply pkcs7_total|exact Hk]. }
  pose proof (SignWithAlgorithm_offers (signer k)) as Ho.
  destruct (offers_algorithms (signer k)); cbn [negb]; [|by rewrite Ho; prog].
  destruct Ho as [f Hf]. rewrite Hf.
  destruct (flags =? SignatureFlagRsaSha256);
    [|destruct (flags =? SignatureFlagRsaSha512); [|by prog]];
    (apply Hrep; eapply SignWithAlgorithm_signs; [apply pkcs7_total|exact Hk|exact Hf|by auto]).
Qed.

Lemma key_alive t ks k :
  agent_inv t -> keys t = Some ks -> k ∈ ks ->
  key_ok k /\ 0 < refs (windows t) (certContext (cert k)).
Proof.
  intros [Hok Hr] Hks Hk. rewrite Hks in Hok, Hr. cbn in Hok, Hr.
  split; [rewrite Forall_forall in Hok; by apply Hok|].
  specialize (Hr (certContext (cert k))). apply list_elem_of_split in Hk as (l1 & l2 & ->).
  rewrite key_refs_app, key_refs_cons, at_same in Hr.
  pose proof (key_refs_nonneg l1 (certContext (cert k))).
  pose proof (key_refs_nonneg l2 (certContext (cert k))). lia.
Qed.

(** The search for the key, and what is done with it. *)
Definition searched (ks : list sshKey) (wanted data : list byte) (flags : Z) (t : agent_state)
    (r : sign_reply) (u : agent_state) : Prop :=
  match first_key ks wanted with
  | None => u = t /\ r = (None, Some (ErrorString "not found"))
  | Some k =>
      match how k flags with
      | None => u = t /\ failed r
      | Some (oid, f) => key_signed k data oid f t r u
      end
  end.

Lemma search_ok ks key data flags t :
  agent_inv t -> keys t = Some ks ->
  wp V (r <- for_range ks tt (fun k _ =>
          if bool_decide (Marshal (PublicKey (signer k)) = Marshal key) then
            r <- sign_with_key disablePINCache k data flags ;; Ret (Return r)
          else Ret (Next tt)) ;;
        match r with
        | inl _ => Ret (None, Some (ErrorString "not found"))
        | inr r => Ret r
        end) t (returns (searched ks (Marshal key) data flags t)).
Proof.
  intros Hi Hks. apply wp_bind.
  apply (wp_for_range _ _ _ _ _ _ (fun l _ u => u = t /\ (forall k, k ∈ l -> k ∈ ks) /\
    first_key ks (Marshal key) = first_key l (Marshal key))).
  - done.
  - intros [] u (-> & _ & Hf). prog. unfold searched. by rewrite Hf.
  - intros k l [] u (-> & Hin & Hf). unfold first_key in Hf. rewrite filter_cons in Hf.
    destruct (bool_decide_reflect (Marshal (PublicKey (signer k)) = Marshal key)) as [He|He].
    + rewrite decide_True in Hf by done. cbn [head] in Hf.
      destruct (key_alive t ks k Hi Hks (Hin k (elem_here _ _))) as [Hk Hr].
      eapply wp_seq; [by apply sign_with_key_ok|]. intros r u Hu. prog.
      unfold searched, first_key. by rewrite Hf.
    + rewrite decide_False in Hf by done. prog. split; [done|]. split; [|done].
      intros k' Hk'. apply Hin, elem_of_cons. by right.
Qed.

(** The keys a request finds: those there were, or a fresh list if there were
    none. *)
Definition keys_found (t u : agent_state) (ks : list sshKey) : Prop :=
  (keys t = Some ks /\ denied (windows u) = denied (windows t) /\
   forall h, refs (windows u) h = refs (windows t) h) \/
  (keys t = None /\ fresh_keys (refs (windows t)) t u ks).

(** The critical section of [SignWithFlags]. *)
Definition sign_post (key : ssh_PublicKey) (data : list byte) (flags : Z) (t : agent_state)
    (r : sign_reply) (u : agent_state) : Prop :=
  files u = files t /\ stores (windows u) = stores (windows t) /\
  exists ask l new, service_prompt ask /\ screen u = screen t ++ ask ++ new /\
  keylog (windows u) = keylog (windows t) ++ l /\
  match keys u with
  | None => keys t = None /\ not_loaded (refs (windows t)) t u /\
            failed r /\ l = [] /\ new = []
  | Some ks =>
      keys_found t u ks /\
      match first_key ks (Marshal key) with
      | None => r = (None, Some (ErrorString "not found")) /\ l = [] /\ new = []
      | Some k =>
          match how k flags with
          | None => failed r /\ l = [] /\ new = []
          | Some (oid, f) => exists p7,
              sign_trace pkcs7_Parse disablePINCache oid (certContext (cert k)) data p7 l /\
              r = reply_of f p7 /\ announced k r new
          end
      end
  end.

(** Loading the keys, if there are none yet. *)
Lemma load_if_nil_ok t :
  agent_inv t ->
  wp V (match keys t with None => loadCerts | Some _ => Ret None end) t (returns (fun err u =>
    frame t u /\ agent_inv u /\
    match err with
    | None => exists ks, keys u = Some ks /\ keys_found t u ks
    | Some _ => keys t = None /\ keys u = None /\ not_loaded (refs (windows t)) t u
    end)).
Proof.
  intros Hi. pose proof (fun h => inv_nonneg t h Hi) as Hb.
  unfold keys_found. destruct (keys t) as [ks|] eqn:Hk; prog.
  { split; [done|]. split; [done|]. exists ks. split; [done|]. by left. }
  eapply wp_mono; [by apply loadCerts_ok|].
  intros [[e|]|msg] u; prog; [| |done]; intros [Hf Hu]; (split; [done|]).
  - destruct Hu as (Hku & Hl). rewrite Hk in Hku. split; [by eapply not_loaded_inv|done].
  - destruct Hu as (ks & Hku & Hl). split; [by eapply fresh_inv|].
    exists ks. split; [done|]. by right.
Qed.

(** The steps of the critical section put together. *)
Lemma searched_post ks key data flags t t1 u r ask :
  frame (with_screen (screen t ++ ask) t) t1 -> agent_inv t1 -> keys t1 = Some ks ->
  service_prompt ask -> keys_found t t1 ks ->
  searched ks (Marshal key) data flags t1 r u ->
  agent_inv u /\ files u = files t /\ sign_post key data flags t r u.
Proof.
  intros (Hf & Hs & Hl & Hst) Hi Hks Hask Hfound Hsearch. cbn in Hf, Hs, Hl, Hst.
  assert (Hstep : exists l new,
    u = with_screen (screen t1 ++ new) (with_windows (log_all l (windows t1)) t1) /\
    match first_key ks (Marshal key) with
    | None => r = (None, Some (ErrorString "not found")) /\ l = [] /\ new = []
    | Some k =>
        match how k flags with
        | None => failed r /\ l = [] /\ new = []
        | Some (oid, f) => exists p7,
            sign_trace pkcs7_Parse disablePINCache oid (certContext (cert k)) data p7 l /\
            r = reply_of f p7 /\ announced k r new
        end
    end).
  { assert (Hsame : u = t1 ->
      u = with_screen (screen t1 ++ []) (with_windows (log_all [] (windows t1)) t1)).
    { intros ->. rewrite log_all_nil. destruct t1. unfold with_screen, with_windows. cbn.
      by rewrite app_nil_r. }
    unfold searched in Hsearch. destruct (first_key ks (Marshal key)) as [k|].
    - destruct (how k flags) as [[oid f]|].
      + destruct Hsearch as (p7 & l & new & -> & ? & ? & ?). eauto 8.
      + destruct Hsearch as [Hu ?]. exists [], []. auto.
    - destruct Hsearch as [Hu ?]. exists [], []. auto. }
  destruct Hstep as (l & new & -> & Hpost).
  split; [exact Hi|]. split; [exact Hf|]. split; [exact Hf|]. split; [exact Hst|].
  exists ask, l, new. cbn. rewrite Hl, Hs, Hks, app_assoc. done.
Qed.

Lemma SignWithFlags_locked_ok key data flags t :
  agent_inv t ->
  wp V (SignWithFlags_locked disablePINCache key data flags) t (returns (fun r u =>
    agent_inv u /\ files u = files t /\ sign_post key data flags t r u)).
Proof.
  intros Hi. unfold SignWithFlags_locked.
  eapply wp_seq; [apply check_service_ok|]. intros [] ? (ask & -> & Hask).
  set (t0 := with_screen (screen t ++ ask) t). prog. split; [done|]. intros ? ? [-> ->].
  eapply wp_seq; [by apply (load_if_nil_ok t0)|]. intros [e|] t1 (Hf & Hi1 & Hk1); prog.
  - destruct Hk1 as (Hkt & Hk1 & Hl1). destruct Hf as (Hfi & Hs & Hl & Hst).
    split; [done|]. split; [done|]. split; [done|]. split; [done|].
    exists ask, [], []. rewrite Hl, Hs, Hk1, !app_nil_r. done.
  - destruct Hk1 as (ks & Hks & Hfound). split; [done|].
    intros ? ? [-> ->]. rewrite Hks. cbn [default].
    eapply wp_mono; [by apply search_ok|]. intros [r|msg] u; prog; [|done]. intros Hu.
    by eapply searched_post.
Qed.

Lemma SignWithFlags_ok key data flags h :
  wp M (SignWithFlags disablePINCache key data flags) (h, None)
    (returns (one_section (sign_post key data flags) h)).
Proof.
  apply section_ok; [apply SignWithFlags_locked_access|].
  intros t Hi. by apply SignWithFlags_locked_ok.
Qed.

(** (C1) [SignWithFlags] is one critical section, from the state [t] in which
    it takes the mutex to the state [u] in which it gives it up.  It looks the
    key up by its wire form among the agent's keys (loading them first if there
    are none), and the first match decides.  If the flags ask for an algorithm
    the key does not have, it is refused without touching any private key;
    otherwise Windows is asked for at most one signature, over [data], with the
    certificate of that key and the algorithm the flags select, and the answer
    is made from the message Windows produced, or is its error.  Nothing is
    signed for an unknown key or when the keys cannot be loaded.  Besides the
    question about the smart card service, all that is shown is one message,
    only if the call returns no error, and then for the key that was used.  No
    certificate reference changes except by loading the keys, no store or file
    stays open, and the invariant of the agent holds when the mutex is
    released. *)
Theorem SignWithFlags_spec key data flags h :
  wp M (SignWithFlags disablePINCache key data flags) (h, None) (returns (fun r v =>
    exists t u, v = (h ++ [(t, u)], None) /\ monitor_inv t /\ monitor_inv u /\
      sign_post key data flags t r u)).
Proof. apply SignWithFlags_ok. Qed.
End proofs.

(** ** Instances *)

Definition demo_libs : Libraries :=
  {| ParseCertificate := demo_parse;
     pkcs7_Parse := demo_p7;
     asn1_Unmarshal := demo_asn1;
     ssh_Marshal := fun _ => [];
     NewPublicKey := fun k =>
       match k with
       | RSAPublicKey m => inl {| Type_ := KeyAlgoRSA; Marshal := m |}
       | ECDSAPublicKey _ m => inl {| Type_ := KeyAlgoECDSA256; Marshal := m |}
       | OtherPublicKey _ => inr (ErrLib 2)
       end;
     NewCertSigner := fun c k =>
       inl (certSigner {| Type_ := "cert"; Marshal := cert_wire c |} true k);
     ParseAuthorizedKey := fun _ => inr (ErrLib 3);
     filepath_Join := fun a b => a +:+ "\" +:+ b |}.

Lemma demo_laws : @LibraryLaws demo_libs.
Proof.
  split; [done| |].
  - intros [m|bits m|m] pub [= <-]; [|by eauto]. rewrite !elem_of_cons. intros H.
    decompose [or] H; try done. by match goal with H : _ ∈ [] |- _ => inversion H end.
  - intros c k k' [= <-]. eauto.
Qed.

(** An agent with one key, whose certificate it holds. *)
Definition demo_key : sshKey :=
  {| cert := demo_cert 5; signer := rsaSigner demo_pub (demo_cert 5); comment := "user" |}.
Definition demo_agent : agent_state := AgentState demo_capi (Some [demo_key]) [] [].

Local Abbreviation demo_env := (monitor_env [5; 6] demo_key_spec (fun _ => [])).

Lemma List_spec_witness :
  wp demo_env (@List demo_libs) ([], None) (returns (fun r v =>
    exists t u, v = ([] ++ [(t, u)], None) /\ monitor_inv t /\ monitor_inv u /\
      @list_post demo_libs [5; 6] demo_key_spec (fun _ => []) t r u)).
Proof. apply (@List_spec demo_libs demo_laws [5; 6] demo_key_spec (fun _ => []) []). Defined.

Lemma SignWithFlags_spec_witness :
  wp demo_env (@SignWithFlags demo_libs true demo_pub [x01] SignatureFlagRsaSha256) ([], None)
    (returns (fun r v =>
      exists t u, v = ([] ++ [(t, u)], None) /\ monitor_inv t /\ monitor_inv u /\
        @sign_post demo_libs true [5; 6] demo_key_spec (fun _ => []) demo_pub [x01]
          SignatureFlagRsaSha256 t r u)).
Proof.
  apply (@SignWithFlags_spec demo_libs demo_laws true [5; 6] demo_key_spec (fun _ => [])
           demo_pub [x01] SignatureFlagRsaSha256 []).
Defined.
