(* ===== verification/ConcurrentAgent.v ===== *)
(** The certificate agent under concurrency: every accepted connection is
    served by a goroutine of its own, and main closes the agent while handlers
    may still run.  Any number of goroutines that make any requests of one
    [CAPIAgent] form a pool (Threads.v) over the agent's mutex. *)
From S2P Require Import Prelude Effects Threads X509 Eku Capi Desktop Signers CapiAgent.
Local Open Scope Z_scope.

(** ** Requests *)

(** A call of one of the agent's methods, and its result. *)
Inductive request : Type :=
| RList
| RSign (key : ssh_PublicKey) (data : list byte) (flags : Z)
| RClose.

Inductive reply : Type :=
| AList (ids : list agent_Key) (err : option error)
| ASign (r : sign_reply)
| AClose (err : option error).

Section requests.
Context `{L : Libraries} (disablePINCache : bool).

Definition serve (q : request) : prog AgentE reply :=
  match q with
  | RList => let* (ids, err) := CapiAgent.List in Ret (AList ids err)
  | RSign key data flags =>
      r <- SignWithFlags disablePINCache key data flags ;; Ret (ASign r)
  | RClose => err <- Close ;; Ret (AClose err)
  end.

(** A goroutine that makes the requests of a client one after the other. *)
Fixpoint serve_all (qs : list request) : prog AgentE (list reply) :=
  match qs with
  | [] => Ret []
  | q :: qs => r <- serve q ;; rs <- serve_all qs ;; Ret (r :: rs)
  end.
End requests.

(** ** Correctness of a goroutine *)

Section answers.
Context (contents : list Z) (key_spec : Z -> Z) (encoding : Z -> list byte).

#[local] Instance error_inhabited : Inhabited error := populate EOF.

Lemma capi_answers X (e : CapiE X) s :
  exists x t, does (capi_env contents key_spec encoding) e s x t.
Proof.
  destruct e as [p sp n|h|h prev|c p|c|c|c|c fl|k p fl|k|para data room|f err]; cbn.
  - by exists (0, Some EOF), s.
  - by exists inhabitant; eexists.
  - exists (0, Some EOF), (release_prev prev s). done.
  - by exists (key_spec c), s.
  - by exists (encoding c), s.
  - by exists (0, 1), (deny c s).
  - by exists inhabitant; eexists.
  - by exists (0, 0, 0, 0); eexists.
  - by exists inhabitant; eexists.
  - by exists inhabitant; eexists.
  - eexists (0, 0, [], 0), _. split; [|reflexivity]. lia.
  - by exists inhabitant; eexists.
Qed.

Lemma desktop_answers X (e : DesktopE X) s : exists x t, does desktop_env e s x t.
Proof. destruct e; cbn; by exists inhabitant; eexists. Qed.

(** Windows and Go answer every call the agent makes with the mutex held. *)
Lemma agent_answers : answers (agent_env contents key_spec encoding).
Proof.
  intros X e. destruct e as [X e|X e| | | |ks| |path|f|f|name]; cbn; try exact (inhabits tt);
    intros s _.
  - destruct (capi_answers X e (windows s)) as (x & c & Hc). exists x, (with_windows c s), c. done.
  - destruct (desktop_answers X e (screen s)) as (x & l & Hl). exists x, (with_screen l s), l. done.
  - by exists (keys s), s.
  - by exists tt; eexists.
  - by exists inhabitant; eexists.
  - by exists (0, Some EOF), s.
  - by exists inhabitant; eexists.
  - by exists inhabitant; eexists.
  - by exists inhabitant; eexists.
Qed.
End answers.

Section proofs.
Context `{L : Libraries, !LibraryLaws L} (disablePINCache : bool).
Context (contents : list Z) (key_spec : Z -> Z) (encoding : Z -> list byte).
Local Abbreviation V := (agent_env contents key_spec encoding).
Local Abbreviation M := (monitor_env contents key_spec encoding).

(** The reply to a request and the critical section it was served in are what
    the specification of the method says. *)
Definition answered (q : request) (r : reply) (c : agent_state * agent_state) : Prop :=
  match q, r with
  | RList, AList ids err => list_post contents key_spec encoding c.1 (ids, err) c.2
  | RSign key data flags, ASign r =>
      sign_post disablePINCache contents key_spec encoding key data flags c.1 r c.2
  | RClose, AClose _ => keys_freed c.1 c.2
  | _, _ => False
  end.

Lemma request_ok q h :
  wp M (serve disablePINCache q) (h, None) (returns (fun r v =>
    exists c, v = (h ++ [c], None) /\ answered q r c)).
Proof.
  destruct q as [|key data flags|]; cbn [serve].
  - eapply wp_seq; [apply List_ok|]. intros [ids err] v (t & u & -> & _ & _ & HP).
    by exists (t, u).
  - eapply wp_seq; [apply SignWithFlags_ok|]. intros r v (t & u & -> & _ & _ & HP).
    by exists (t, u).
  - eapply wp_seq; [apply Close_ok|]. intros r v (t & u & -> & _ & _ & HP).
    by exists (t, u).
Qed.

Lemma serve_all_ok qs h :
  wp M (serve_all disablePINCache qs) (h, None) (returns (fun rs v =>
    exists cs, v = (h ++ cs, None) /\ Forall3 answered qs rs cs)).
Proof.
  revert h. induction qs as [|q qs IH]; intros h; cbn [serve_all].
  { exists []. rewrite app_nil_r. split; [done|constructor]. }
  eapply wp_seq; [apply request_ok|]. intros r ? (c & -> & Hr).
  eapply wp_seq; [apply IH|]. intros rs ? (cs & -> & Hrs). exists (c :: cs).
  rewrite <-app_assoc. split; [done|]. by constructor.
Qed.

(** ** The pool *)

(** The goroutines that make the requests [clients], the agent's mutex free. *)
Definition handlers (clients : list (list request)) (s : agent_state) : pool (list reply) :=
  Pool (map (serve_all disablePINCache) clients) (World None s []).

(** Goroutine [i] has answered the requests of its client, each in one of its
    critical sections [cs], in order, and has been through no other. *)
Definition answers_client (clients : list (list request)) (i : nat) (rs : list reply)
    (cs : list (agent_state * agent_state)) : Prop :=
  exists qs, clients !! i = Some qs /\ Forall3 answered qs rs cs.

Lemma handlers_ok clients s :
  monitor_inv s -> pool_ok V monitor_inv (answers_client clients) (handlers clients s).
Proof.
  intros Hs. apply pool_init; [done|]. intros i m Hi. rewrite list_lookup_fmap in Hi.
  destruct (clients !! i) as [qs|] eqn:Hq; [|done]. injection Hi as <-.
  eapply wp_mono; [apply (serve_all_ok qs [])|]. intros [rs|msg] o; [|done].
  intros (cs & -> & Hr). split; [done|]. by exists qs.
Qed.

(** ** The theorems *)

(** (C2) Whatever the goroutines ask for and however they are scheduled: the
    key list, the certificate references and the files of the agent are only
    touched by the goroutine that owns the mutex, every call made there is
    allowed (no certificate is used or freed without a reference), nobody
    panics, locks the mutex twice or unlocks it for another, and the invariant
    holds whenever the mutex is free.  The critical sections that were run form
    one series from the first state on: each is entered in the state the one
    before it left, so nothing happens between them.  A goroutine that has
    finished has run exactly one of them for each request of its client, in
    order, and the reply it gave is what the method's specification says of
    the two states of that section. *)
Theorem agent_pool_safe clients s p :
  monitor_inv s -> rtc (pool_step V) (handlers clients s) p ->
  (owner p = None -> monitor_inv (shared p)) /\
  chained s p /\
  forall i m, threads p !! i = Some m -> safe V monitor_inv (answers_client clients) p i m.
Proof.
  intros Hs Hp. pose proof (handlers_ok clients s Hs) as Hok.
  pose proof (pool_serial V monitor_inv _ _ _ p Hok Hp) as Hc.
  eapply pool_ok_steps in Hok; [|exact Hp].
  split; [apply Hok|]. split; [exact Hc|]. intros i m Hm. by eapply pool_safe.
Qed.

(** (C4) Every request is answered: whatever the other goroutines do and
    whichever of them is scheduled, the handlers cannot deadlock and cannot run
    for ever, and they end with every request answered. *)
Theorem agent_pool_live clients s :
  monitor_inv s -> inevitably V all_finished (handlers clients s).
Proof.
  intros Hs. eapply pool_live; [exact (agent_answers contents key_spec encoding)|].
  by apply (handlers_ok clients).
Qed.

(** (C3) Requests are atomic: every interleaving of the goroutines that leaves
    the mutex free has the effect of running whole critical sections one after
    the other, so what [List], [Sign] and [Close] do when they run alone is
    what they do under concurrency. *)
Theorem agent_pool_atomic clients s p :
  monitor_inv s -> rtc (pool_step V) (handlers clients s) p -> owner p = None ->
  rtc (atomic_step V) (handlers clients s) p.
Proof.
  intros Hs Hp Ho.
  destruct (pool_atomic V monitor_inv (answers_client clients) (handlers clients s) p)
    as (p' & Hp' & _ & Hb); [by apply handlers_ok|done|done|].
  rewrite Ho in Hb. by subst p'.
Qed.
End proofs.

(** ** Instances *)

(** Two connections and main's deferred [Close]. *)
Definition demo_clients : list (list request) :=
  [[RList; RSign demo_pub [x01] SignatureFlagRsaSha256]; [RSign demo_pub [x02] 0]; [RClose]].

Lemma demo_monitor : monitor_inv demo_agent.
Proof.
  split; [|done]. split.
  - by constructor.
  - intros h. cbn. rewrite key_refs_cons, key_refs_nil. unfold at_. destruct (h =? _); lia.
Qed.

(** One step of goroutine [i], the call answered with [x]. *)
Ltac run_thread i x :=
  eapply rtc_l;
    [exists i; do 3 eexists; split; [reflexivity|]; split; [|reflexivity];
     exists x; split; [reflexivity|]; cbn; try by eauto|]; cbn.

Local Abbreviation demo_env := (agent_env [5; 6] demo_key_spec (fun _ => [])).
Local Abbreviation demo_pool := (@handlers demo_libs true demo_clients demo_agent).

(** The closing goroutine runs while the others wait for the mutex. *)
Lemma agent_pool_atomic_witness :
  exists p : pool (list reply), owner p = None /\ keys (shared p) = None /\ rtc (atomic_step demo_env) demo_pool p.
Proof.
  eexists. split; [|split]; cycle 2.
  - apply (@agent_pool_atomic demo_libs demo_laws true [5; 6] demo_key_spec (fun _ => [])
             demo_clients demo_agent); [exact demo_monitor| |].
    + run_thread 2%nat tt. run_thread 2%nat (Some [demo_key]). run_thread 2%nat (@None error).
      run_thread 2%nat tt. run_thread 2%nat tt. apply rtc_refl.
    + reflexivity.
  - reflexivity.
  - reflexivity.
Defined.

(** The first goroutine has the mutex and the third has closed the agent. *)
Lemma agent_pool_safe_witness :
  exists p : pool (list reply), owns p 0 /\ length (history p) = 1%nat /\
    (owner p = None -> monitor_inv (shared p)) /\
    chained demo_agent p /\
    forall i m, threads p !! i = Some m ->
      safe demo_env monitor_inv
        (@answers_client demo_libs true [5; 6] demo_key_spec (fun _ => []) demo_clients) p i m.
Proof.
  eexists. split; [|split]; cycle 2.
  - apply (@agent_pool_safe demo_libs demo_laws true [5; 6] demo_key_spec (fun _ => [])
             demo_clients demo_agent); [exact demo_monitor|].
    run_thread 2%nat tt. run_thread 2%nat (Some [demo_key]). run_thread 2%nat (@None error).
    run_thread 2%nat tt. run_thread 2%nat tt.
    run_thread 0%nat tt. run_thread 0%nat (@None (list sshKey)). apply rtc_refl.
  - reflexivity.
  - reflexivity.
Defined.

Lemma agent_pool_live_witness : inevitably demo_env all_finished demo_pool.
Proof.
  apply (@agent_pool_live demo_libs demo_laws true [5; 6] demo_key_spec (fun _ => [])
           demo_clients demo_agent).
  exact demo_monitor.
Defined.
