(* ===== verification/Agents.v ===== *)
(** sshagent/keyring_agent.go, sshagent/wrapped_agent.go, sshagent/hyperv.go,
    sshagent/server.go and utils/hyperv.go: the other agents, their
    combination, and the connection handler. *)
From S2P Require Import Prelude Effects Desktop Signers CapiAgent.
Local Open Scope Z_scope.

(** ** The interfaces agent.Agent and agent.ExtendedAgent *)

(** agent.AddedKey: the key material and its comment. *)
Record AddedKey : Type := {
  PrivateKey : list byte;
  Comment : string;
}.

(** The methods; [SignWithFlags] is there for an ExtendedAgent. *)
Record Agent (E : Type -> Type) : Type := {
  ag_List : prog E (list agent_Key * option error);
  ag_Sign : ssh_PublicKey -> list byte -> prog E sign_reply;
  ag_SignWithFlags : option (ssh_PublicKey -> list byte -> Z -> prog E sign_reply);
  ag_Add : AddedKey -> prog E (option error);
  ag_Remove : ssh_PublicKey -> prog E (option error);
  ag_RemoveAll : prog E (option error);
  ag_Lock : list byte -> prog E (option error);
  ag_Unlock : list byte -> prog E (option error);
  ag_Signers : prog E (list Z * option error);
}.
Arguments ag_List {E} _.
Arguments ag_Sign {E} _ _ _.
Arguments ag_SignWithFlags {E} _.
Arguments ag_Add {E} _ _.
Arguments ag_Remove {E} _ _.
Arguments ag_RemoveAll {E} _.
Arguments ag_Lock {E} _ _.
Arguments ag_Unlock {E} _ _.
Arguments ag_Signers {E} _.

(** An agent seen by a client that makes other calls too. *)
Definition embed {E F} (h : forall X, E X -> F X) (a : Agent E) : Agent F :=
  {| ag_List := translate h (ag_List a);
     ag_Sign := fun key data => translate h (ag_Sign a key data);
     ag_SignWithFlags :=
       match ag_SignWithFlags a with
       | Some f => Some (fun key data flags => translate h (f key data flags))
       | None => None
       end;
     ag_Add := fun key => translate h (ag_Add a key);
     ag_Remove := fun key => translate h (ag_Remove a key);
     ag_RemoveAll := translate h (ag_RemoveAll a);
     ag_Lock := fun p => translate h (ag_Lock a p);
     ag_Unlock := fun p => translate h (ag_Unlock a p);
     ag_Signers := translate h (ag_Signers a) |}.

(** capi_agent.go: the certificate agent as an agent. *)
Definition CAPIAgent `{L : Libraries} (disablePINCache : bool) : Agent AgentE :=
  {| ag_List := CapiAgent.List;
     ag_Sign := CapiAgent.Sign disablePINCache;
     ag_SignWithFlags := Some (CapiAgent.SignWithFlags disablePINCache);
     ag_Add := fun _ => Ret implement_me; ag_Remove := fun _ => Ret implement_me;
     ag_RemoveAll := Ret implement_me; ag_Lock := fun _ => Ret implement_me;
     ag_Unlock := fun _ => Ret implement_me; ag_Signers := Ret ([], implement_me) |}.

(** ** keyring_agent.go

    [ag] is the keyring of golang.org/x/crypto/ssh/agent, an extended agent;
    [notify] embeds the calls of the notifier. *)
Module KeyRing.
Section keyring.
Context {E : Type -> Type} (ag : Agent E)
        (SignWithFlags_ag : ssh_PublicKey -> list byte -> Z -> prog E sign_reply)
        (notify : forall X, DesktopE X -> E X) (EncodeToString : list byte -> string).

Definition List : prog E (list agent_Key * option error) := ag_List ag.

Definition findKeyComment (pubkey : ssh_PublicKey) : prog E string :=
  let wanted := Marshal pubkey in
  let* (keys, err) := List in
  match err with
  | Some _ => Ret (EncodeToString wanted)
  | None =>
      r <- for_range keys tt (fun k _ =>
             if bool_decide (key_Blob k = wanted) then Ret (Return (key_Comment k))
             else Ret (Next tt)) ;;
      match r with
      | inr comment => Ret comment
      | inl _ => Ret (EncodeToString wanted)
      end
  end.

Definition signed (comment : string) : prog E unit :=
  translate notify (Notify "Authenticated (Keyring)"
                      ("Authentication Success by Key <" +:+ comment +:+ ">")).

Definition SignWithFlags (key : ssh_PublicKey) (data : list byte) (flags : Z)
    : prog E sign_reply :=
  comment <- findKeyComment key ;;
  let* (sig, err) := SignWithFlags_ag key data flags in
  (match err with None => signed comment | Some _ => Ret tt end) ;;
  Ret (sig, err).

Definition Sign (key : ssh_PublicKey) (data : list byte) : prog E sign_reply :=
  SignWithFlags key data 0.

(** A deferred notification after a change that succeeded. *)
Definition notified (err : option error) (title message : string) : prog E (option error) :=
  match err with
  | None => defer (translate notify (Notify title message)) (Ret err)
  | Some _ => Ret err
  end.

Definition Add (key : AddedKey) : prog E (option error) :=
  err <- ag_Add ag key ;;
  notified err "Key Added" ("Key <" +:+ Comment key +:+ "> has been added to keyring").

Definition Remove (key : ssh_PublicKey) : prog E (option error) :=
  comment <- findKeyComment key ;;
  err <- ag_Remove ag key ;;
  notified err "Key Removed" ("Key <" +:+ comment +:+ "> has been removed from keyring").

Definition RemoveAll : prog E (option error) :=
  err <- ag_RemoveAll ag ;;
  notified err "Key Removed" "All Keys have been removed from keyring".

Definition Lock (passphrase : list byte) : prog E (option error) := ag_Lock ag passphrase.
Definition Unlock (passphrase : list byte) : prog E (option error) := ag_Unlock ag passphrase.
Definition Signers : prog E (list Z * option error) := ag_Signers ag.
Definition Extension : option error := Some ErrExtensionUnsupported.

(** The keyring agent as an agent. *)
Definition KeyRingAgent : Agent E :=
  {| ag_List := List; ag_Sign := Sign; ag_SignWithFlags := Some SignWithFlags;
     ag_Add := Add; ag_Remove := Remove; ag_RemoveAll := RemoveAll;
     ag_Lock := Lock; ag_Unlock := Unlock; ag_Signers := Signers |}.
End keyring.
End KeyRing.

(** ** wrapped_agent.go *)
Module Wrapped.
Section wrapped.
Context {E : Type -> Type}.

Definition NewWrappedAgent (defaultAgent : Agent E) (others : list (Agent E))
    : list (Agent E) := [defaultAgent] ++ others.

Context (agents : list (Agent E)).

Definition List : prog E (list agent_Key * option error) :=
  r <- for_range agents [] (fun ag allKeys =>
         let* (keys, err) := ag_List ag in
         match err with
         | Some e => Ret (Return ([], Some e))
         | None => Ret (Next (allKeys ++ keys))
         end) ;;
  match r with
  | inl allKeys => Ret (allKeys, None)
  | inr r => Ret r
  end.

Definition SignWithFlags (key : ssh_PublicKey) (data : list byte) (flags : Z)
    : prog E sign_reply :=
  r <- for_range agents None (fun ag firstError =>
         let* (sign, err) :=
           match ag_SignWithFlags ag with
           | Some f => f key data flags
           | None => ag_Sign ag key data
           end in
         match err with
         | None => Ret (Return (sign, None))
         | Some e =>
             Ret (Next (match firstError with None => Some e | Some _ => firstError end))
         end) ;;
  match r with
  | inl firstError => Ret (None, firstError)
  | inr r => Ret r
  end.

Definition Sign (key : ssh_PublicKey) (data : list byte) : prog E sign_reply :=
  SignWithFlags key data 0.

(** [a.agents[0]] *)
Definition first {A} (f : Agent E -> prog E A) : prog E A :=
  match agents with
  | ag :: _ => f ag
  | [] => Panic "index out of range"
  end.

Definition Add (key : AddedKey) := first (fun ag => ag_Add ag key).
Definition Remove (key : ssh_PublicKey) := first (fun ag => ag_Remove ag key).
Definition RemoveAll := first ag_RemoveAll.
Definition Lock (passphrase : list byte) := first (fun ag => ag_Lock ag passphrase).
Definition Unlock (passphrase : list byte) := first (fun ag => ag_Unlock ag passphrase).
Definition Signers := first ag_Signers.
Definition Extension : option error := Some ErrExtensionUnsupported.

Definition WrappedAgent : Agent E :=
  {| ag_List := List; ag_Sign := Sign; ag_SignWithFlags := Some SignWithFlags;
     ag_Add := Add; ag_Remove := Remove; ag_RemoveAll := RemoveAll;
     ag_Lock := Lock; ag_Unlock := Unlock; ag_Signers := Signers |}.
End wrapped.
End Wrapped.

(** ** hyperv.go: an agent at the other end of a Hyper-V socket *)

Definition servicePort : Z := 0x22223333.

Inductive HvE : Type -> Type :=
| GUIDFromString (s : string) : HvE (list byte * option error)
| Dial (svcid : list byte) : HvE (Z * option error)
| ClientList (conn : Z) : HvE (list agent_Key * option error)
| ClientSign (conn : Z) (key : ssh_PublicKey) (data : list byte) : HvE sign_reply
| ConnClose (conn : Z) : HvE unit.

Module HV.
Section hv.
(** winio.VsockServiceID(servicePort).String() *)
Context (HyperVServiceGUID : string).

Definition ConnectHyperV : prog HvE (Z * option error) :=
  let* (svcid, err) := call (GUIDFromString HyperVServiceGUID) in
  match err with
  | Some e => Ret (0, Some e)
  | None =>
      let* (conn, err) := call (Dial svcid) in
      match err with
      | Some e => Ret (0, Some e)
      | None => Ret (conn, None)
      end
  end.

Definition List : prog HvE (list agent_Key * option error) :=
  let* (conn, err) := ConnectHyperV in
  match err with
  | Some e => Ret ([], Some e)
  | None => defer (call (ConnClose conn)) (call (ClientList conn))
  end.

Definition Sign (key : ssh_PublicKey) (data : list byte) : prog HvE sign_reply :=
  let* (conn, err) := ConnectHyperV in
  match err with
  | Some e => Ret (None, Some e)
  | None => defer (call (ConnClose conn)) (call (ClientSign conn key data))
  end.

(** It has no [SignWithFlags]; what it does not support is an error. *)
Definition HVAgent : Agent HvE :=
  {| ag_List := List; ag_Sign := Sign; ag_SignWithFlags := None;
     ag_Add := fun _ => Ret implement_me; ag_Remove := fun _ => Ret implement_me;
     ag_RemoveAll := Ret implement_me; ag_Lock := fun _ => Ret implement_me;
     ag_Unlock := fun _ => Ret implement_me; ag_Signers := Ret ([], implement_me) |}.
End hv.
End HV.

(** ** server.go *)

Inductive ServerE : Type -> Type :=
| ServerAgent : ServerE bool
    (** [s.Agent != nil] *)
| ServeAgent (conn : Z) : ServerE (option error)
| ServerClose (conn : Z) : ServerE unit
| Println (err : error) : ServerE unit.

Definition SSHAgentHandler_body (conn : Z) : prog ServerE unit :=
  present <- call ServerAgent ;;
  if present : bool then
    err <- call (ServeAgent conn) ;;
    match err with
    | Some e => if bool_decide (e = EOF) then Ret tt else call (Println e)
    | None => Ret tt
    end
  else Ret tt.

Definition SSHAgentHandler (conn : Z) : prog ServerE unit :=
  defer (call (ServerClose conn)) (SSHAgentHandler_body conn).

(** ** The theorems *)

(** *** The keyring *)

(** The calls of a keyring, with the notifications. *)
Inductive RingE : Type -> Type :=
| RingList : RingE (list agent_Key * option error)
| RingSign (key : ssh_PublicKey) (data : list byte) (flags : Z) : RingE sign_reply
| RingAdd (key : AddedKey) : RingE (option error)
| RingRemove (key : ssh_PublicKey) : RingE (option error)
| RingRemoveAll : RingE (option error)
| RingLock (passphrase : list byte) : RingE (option error)
| RingUnlock (passphrase : list byte) : RingE (option error)
| RingSigners : RingE (list Z * option error)
| RingDesktop X (e : DesktopE X) : RingE X.

Definition ring_SignWithFlags key data flags : prog RingE sign_reply :=
  call (RingSign key data flags).
Definition ring : Agent RingE :=
  {| ag_List := call RingList; ag_Sign := fun key data => call (RingSign key data 0);
     ag_SignWithFlags := Some ring_SignWithFlags;
     ag_Add := fun key => call (RingAdd key); ag_Remove := fun key => call (RingRemove key);
     ag_RemoveAll := call RingRemoveAll; ag_Lock := fun p => call (RingLock p);
     ag_Unlock := fun p => call (RingUnlock p); ag_Signers := call RingSigners |}.

(** What happened: the changes the keyring was asked for with its answers, and
    what was shown; the answers are arbitrary, the list is [listed]. *)
Inductive ring_call : Type :=
| DidSign (key : ssh_PublicKey) (data : list byte) (flags : Z) (r : sign_reply)
| DidAdd (key : AddedKey) (err : option error)
| DidRemove (key : ssh_PublicKey) (err : option error)
| DidRemoveAll (err : option error)
| DidShow (s : shown).

Definition ring_env (listed : list agent_Key * option error) : env RingE (list ring_call) :=
  {| may X e s := True;
     does X e s :=
       match e in RingE X return X -> list ring_call -> Prop with
       | RingList => fun r t => r = listed /\ t = s
       | RingSign key data flags => fun r t => t = s ++ [DidSign key data flags r]
       | RingAdd key => fun r t => t = s ++ [DidAdd key r]
       | RingRemove key => fun r t => t = s ++ [DidRemove key r]
       | RingRemoveAll => fun r t => t = s ++ [DidRemoveAll r]
       | RingDesktop _ e => fun r t => exists l, does desktop_env e [] r l /\ t = s ++ map DidShow l
       | _ => fun _ t => t = s
       end |}.

Section keyring.
Context (listed : list agent_Key * option error) (EncodeToString : list byte -> string).
Local Abbreviation V := (ring_env listed).

(** The comment of the first listed key with the wanted blob, or its base64. *)
Definition comment_of (wanted : list byte) : string :=
  match listed with
  | (keys, None) =>
      match head (filter (fun k => key_Blob k = wanted) keys) with
      | Some k => key_Comment k
      | None => EncodeToString wanted
      end
  | (_, Some _) => EncodeToString wanted
  end.

Lemma findKeyComment_ok key s :
  wp V (KeyRing.findKeyComment ring EncodeToString key) s (returns (fun c t =>
    t = s /\ c = comment_of (Marshal key))).
Proof.
  unfold KeyRing.findKeyComment, comment_of. prog. split; [done|]. intros r t [-> ->].
  destruct listed as [ks [e|]]; prog; [done|]. apply wp_bind.
  apply (wp_for_range _ _ _ _ _ _ (fun l _ t => t = s /\
    head (filter (fun k => key_Blob k = Marshal key) ks) =
    head (filter (fun k => key_Blob k = Marshal key) l))).
  - done.
  - intros [] t [-> ->]. done.
  - intros k l [] t [-> Hf]. rewrite filter_cons in Hf.
    destruct (bool_decide_reflect (key_Blob k = Marshal key)) as [He|He]; prog.
    + rewrite decide_True in Hf by done. by rewrite Hf.
    + rewrite decide_False in Hf by done. done.
Qed.

(** What a notification adds. *)
Definition toast (title message : string) (l : list ring_call) : Prop :=
  l = [] \/ l = [DidShow (Toast title message)].

Lemma ring_notify_ok title message s :
  wp V (translate RingDesktop (Notify title message)) s (returns (fun _ t =>
    exists l, t = s ++ l /\ toast title message l)).
Proof.
  unfold Notify. prog. split; [done|]. intros [n|] t (l & Hl & ->); hnf in Hl; subst l; prog.
  - split; [done|]. intros [] t (l & Hl & ->). hnf in Hl. subst l. cbn [map app].
    rewrite app_nil_r. eexists. split; [done|by right].
  - exists []. split; [done|by left].
Qed.

Lemma notified_ok err title message s :
  wp V (KeyRing.notified RingDesktop err title message) s (returns (fun r t =>
    r = err /\ exists l, t = s ++ l /\
      match err with None => toast title message l | Some _ => l = [] end)).
Proof.
  unfold KeyRing.notified. destruct err; prog.
  { split; [done|]. exists []. by rewrite app_nil_r. }
  eapply (wp_defer _ _ _ _ _ (returns (fun r t => r = None /\ t = s))); [done|].
  intros [r|msg] t; prog; [|done]. intros [-> ->]. eapply wp_mono; [apply ring_notify_ok|].
  intros [[]|msg] t; prog; [|done]. intros (l & -> & Hl). eauto.
Qed.

(** A change of the keyring, then its notification. *)
Lemma ring_notified_ok err title message (d : option error -> ring_call) s :
  wp V (KeyRing.notified RingDesktop err title message) (s ++ [d err])
    (returns (fun r t => exists l, t = s ++ d r :: l /\
      match r with None => toast title message l | Some _ => l = [] end)).
Proof.
  eapply wp_mono; [apply notified_ok|]. intros [r|msg] t; prog; [|done].
  intros (-> & l & -> & Hl). exists l. by rewrite <-app_assoc.
Qed.

(** What a signature by the keyring leaves behind. *)
Definition ring_signed (key : ssh_PublicKey) (data : list byte) (flags : Z) (s : list ring_call)
    (r : sign_reply) (t : list ring_call) : Prop :=
  exists l, t = s ++ DidSign key data flags r :: l /\
    match r.2 with
    | None => toast "Authenticated (Keyring)"
        ("Authentication Success by Key <" +:+ comment_of (Marshal key) +:+ ">") l
    | Some _ => l = []
    end.

Lemma KeyRing_SignWithFlags_ok key data flags s :
  wp V (KeyRing.SignWithFlags ring ring_SignWithFlags RingDesktop EncodeToString key data flags) s
    (returns (ring_signed key data flags s)).
Proof.
  eapply wp_seq; [apply findKeyComment_ok|]. intros c ? [-> ->]. prog.
  split; [done|]. intros [sig [e|]] t Ht; hnf in Ht; subst t; prog; [by exists []|].
  eapply wp_seq; [apply ring_notify_ok|]. intros [] ? (l & -> & Hl). prog.
  exists l. by rewrite <-app_assoc.
Qed.

(** A change of the keyring leaves behind what it was, and the notification
    after a success. *)
Definition ring_changed (d : option error -> ring_call) (title message : string)
    (s : list ring_call) (r : option error) (t : list ring_call) : Prop :=
  exists l, t = s ++ d r :: l /\
    match r with None => toast title message l | Some _ => l = [] end.

Lemma KeyRing_Add_ok added s :
  wp V (KeyRing.Add ring RingDesktop added) s (returns (ring_changed (DidAdd added) "Key Added"
    ("Key <" +:+ Comment added +:+ "> has been added to keyring") s)).
Proof.
  unfold KeyRing.Add. prog. split; [done|]. answer err.
  apply (ring_notified_ok err _ _ (DidAdd added)).
Qed.

Lemma KeyRing_Remove_ok key s :
  wp V (KeyRing.Remove ring RingDesktop EncodeToString key) s
    (returns (ring_changed (DidRemove key) "Key Removed"
      ("Key <" +:+ comment_of (Marshal key) +:+ "> has been removed from keyring") s)).
Proof.
  eapply wp_seq; [apply findKeyComment_ok|]. intros c ? [-> ->]. prog.
  split; [done|]. answer err. apply (ring_notified_ok err _ _ (DidRemove key)).
Qed.

Lemma KeyRing_RemoveAll_ok s :
  wp V (KeyRing.RemoveAll ring RingDesktop) s (returns (ring_changed DidRemoveAll "Key Removed"
    "All Keys have been removed from keyring" s)).
Proof.
  unfold KeyRing.RemoveAll. prog. split; [done|]. answer err.
  apply (ring_notified_ok err _ _ DidRemoveAll).
Qed.

(** (C26) The keyring agent passes every request to the keyring exactly once
    and returns its answer unchanged; only after a success does it notify, and
    then with the comment the key had in the keyring before the request (its
    base64 form if it is not listed). *)
Theorem KeyRing_notifies key added data flags s :
  wp V (KeyRing.SignWithFlags ring ring_SignWithFlags RingDesktop EncodeToString key data flags) s
    (returns (fun r t => exists l, t = s ++ DidSign key data flags r :: l /\
      match r.2 with
      | None => toast "Authenticated (Keyring)"
          ("Authentication Success by Key <" +:+ comment_of (Marshal key) +:+ ">") l
      | Some _ => l = []
      end)) /\
  wp V (KeyRing.Add ring RingDesktop added) s
    (returns (fun r t => exists l, t = s ++ DidAdd added r :: l /\
      match r with
      | None => toast "Key Added" ("Key <" +:+ Comment added +:+ "> has been added to keyring") l
      | Some _ => l = []
      end)) /\
  wp V (KeyRing.Remove ring RingDesktop EncodeToString key) s
    (returns (fun r t => exists l, t = s ++ DidRemove key r :: l /\
      match r with
      | None => toast "Key Removed"
          ("Key <" +:+ comment_of (Marshal key) +:+ "> has been removed from keyring") l
      | Some _ => l = []
      end)) /\
  wp V (KeyRing.RemoveAll ring RingDesktop) s
    (returns (fun r t => exists l, t = s ++ DidRemoveAll r :: l /\
      match r with
      | None => toast "Key Removed" "All Keys have been removed from keyring" l
      | Some _ => l = []
      end)).
Proof.
  split_and!; [apply KeyRing_SignWithFlags_ok|apply KeyRing_Add_ok|apply KeyRing_Remove_ok|
               apply KeyRing_RemoveAll_ok].
Qed.
End keyring.

(** *** The combination *)

(** Members that answer in a fixed way, some of them extended agents. *)
Inductive MemberE : Type -> Type :=
| AskList (i : nat) : MemberE (list agent_Key * option error)
| AskSign (i : nat) (key : ssh_PublicKey) (data : list byte) (flags : option Z)
    : MemberE sign_reply
| AskOther (i : nat) : MemberE (option error).

Section wrapped.
Context (extended : nat -> bool) (lists : nat -> list agent_Key * option error)
        (signs : nat -> sign_reply).

Definition member (i : nat) : Agent MemberE :=
  {| ag_List := call (AskList i);
     ag_Sign := fun key data => call (AskSign i key data None);
     ag_SignWithFlags :=
       if extended i then Some (fun key data flags => call (AskSign i key data (Some flags)))
       else None;
     ag_Add := fun _ => call (AskOther i); ag_Remove := fun _ => call (AskOther i);
     ag_RemoveAll := call (AskOther i); ag_Lock := fun _ => call (AskOther i);
     ag_Unlock := fun _ => call (AskOther i); ag_Signers := Ret ([], None) |}.

Inductive asked : Type :=
| AskedList (i : nat)
| AskedSign (i : nat) (key : ssh_PublicKey) (data : list byte) (flags : option Z).

Definition member_env : env MemberE (list asked) :=
  {| may X e s := True;
     does X e s :=
       match e in MemberE X return X -> list asked -> Prop with
       | AskList i => fun r t => r = lists i /\ t = s ++ [AskedList i]
       | AskSign i key data flags => fun r t => r = signs i /\ t = s ++ [AskedSign i key data flags]
       | AskOther _ => fun _ t => t = s
       end |}.

Definition ask (key : ssh_PublicKey) (data : list byte) (flags : Z) (i : nat) : asked :=
  AskedSign i key data (if extended i then Some flags else None).

(** The wrapped agent asks its members in order, with the flags where
    the member takes flags: the first that succeeds answers and no later one is
    asked; if all fail, the error is the first member's. *)
Theorem Wrapped_SignWithFlags_spec ms key data flags s :
  wp member_env (Wrapped.SignWithFlags (map member ms) key data flags) s (returns (fun r t =>
    (exists pre i post, ms = pre ++ i :: post /\
       Forall (fun j => (signs j).2 <> None) pre /\ (signs i).2 = None /\
       r = ((signs i).1, None) /\ t = s ++ map (ask key data flags) (pre ++ [i])) \/
    (Forall (fun j => (signs j).2 <> None) ms /\
     r = (None, head ms ≫= fun i => (signs i).2) /\ t = s ++ map (ask key data flags) ms))).
Proof.
  unfold Wrapped.SignWithFlags. apply wp_bind.
  apply (wp_for_range _ _ _ _ _ _ (fun l firstError t => exists pre post,
    l = map member post /\ ms = pre ++ post /\ Forall (fun j => (signs j).2 <> None) pre /\
    firstError = (head pre ≫= fun i => (signs i).2) /\
    t = s ++ map (ask key data flags) pre)).
  - exists [], ms. split_and!; try done. by rewrite app_nil_r.
  - intros fe t (pre & post & Hp & -> & Hf & -> & ->). destruct post; [|done].
    rewrite app_nil_r. prog. right. done.
  - intros ag l fe t (pre & [|i post] & Hp & -> & Hf & -> & ->); [done|].
    injection Hp as -> ->. apply wp_bind.
    assert (Hask : wp member_env (match ag_SignWithFlags (member i) with
        | Some f => f key data flags | None => ag_Sign (member i) key data end)
        (s ++ map (ask key data flags) pre) (returns (fun r t => r = signs i /\
          t = s ++ map (ask key data flags) (pre ++ [i])))).
    { rewrite map_app, app_assoc. unfold ask at 3. cbn. destruct (extended i); prog;
        (split; [done|]); intros r t [-> ->]; done. }
    eapply wp_mono; [exact Hask|]. intros [[sig [e|]]|msg] t; prog; [| |done]; intros [Hs ->].
    + exists (pre ++ [i]), post. split_and!; [done|by rewrite <-app_assoc| | |done].
      * apply Forall_app. split; [done|]. constructor; [by rewrite <-Hs|done].
      * destruct pre as [|j pre]; cbn; [by rewrite <-Hs|].
        inversion Hf as [|?? Hj]; subst. by destruct (signs j).2.
    + left. exists pre, i, post. rewrite <-Hs. done.
Qed.

(** The wrapped agent lists the keys of all its members, in their order,
    and any member's error is the error of the list. *)
Theorem Wrapped_List_spec ms s :
  wp member_env (Wrapped.List (map member ms)) s (returns (fun r t =>
    (Forall (fun i => (lists i).2 = None) ms /\
     r = (concat (map (fun i => (lists i).1) ms), None)) \/
    (exists pre i post, ms = pre ++ i :: post /\ Forall (fun j => (lists j).2 = None) pre /\
       (lists i).2 <> None /\ r = ([], (lists i).2)))).
Proof.
  unfold Wrapped.List. apply wp_bind.
  apply (wp_for_range _ _ _ _ _ _ (fun l all t => exists pre post,
    l = map member post /\ ms = pre ++ post /\ Forall (fun j => (lists j).2 = None) pre /\
    all = concat (map (fun i => (lists i).1) pre))).
  - by exists [], ms.
  - intros all t (pre & post & Hp & -> & Hf & ->). destruct post; [|done].
    rewrite app_nil_r. prog. by left.
  - intros ag l all t (pre & [|i post] & Hp & -> & Hf & ->); [done|]. injection Hp as -> ->.
    prog. split; [done|]. intros [ks [e|]] u [Hl ->]; prog.
    + right. exists pre, i, post. by rewrite <-Hl.
    + exists (pre ++ [i]), post. split_and!; [done|by rewrite <-app_assoc| |].
      * apply Forall_app. split; [done|]. constructor; [by rewrite <-Hl|done].
      * rewrite map_app, concat_app. cbn. by rewrite <-Hl, app_nil_r.
Qed.
End wrapped.

(** *** Connections *)

(** The open connections; a client only uses an open one. *)
Definition hv_env : env HvE (list Z) :=
  {| may X e s :=
       match e with
       | ClientList c | ClientSign c _ _ | ConnClose c => c ∈ s
       | _ => True
       end;
     does X e s :=
       match e in HvE X return X -> list Z -> Prop with
       | Dial _ => fun '(c, err) t =>
           match err with None => (c ∉ s) /\ t = c :: s | Some _ => t = s end
       | ConnClose c => fun _ t => t = filter (fun d => d <> c) s
       | _ => fun _ t => t = s
       end |}.

Lemma ConnectHyperV_ok guid s :
  wp hv_env (HV.ConnectHyperV guid) s (returns (fun r t =>
    match r with
    | (c, None) => (c ∉ s) /\ t = c :: s
    | (_, Some _) => t = s
    end)).
Proof.
  unfold HV.ConnectHyperV. prog. split; [done|]. intros [svc [e|]] t Ht; hnf in Ht; subst t; prog; [done|].
  split; [done|]. intros [c [e|]] t Ht; prog; exact Ht.
Qed.

Lemma hv_closed {A} c (m : prog HvE A) s :
  (c ∉ s) -> wp hv_env m (c :: s) (returns (fun _ t => t = c :: s)) ->
  wp hv_env (defer (call (ConnClose c)) m) (c :: s) (returns (fun _ t => t = s)).
Proof.
  intros Hc Hm. eapply wp_defer; [exact Hm|]. intros [r|msg] t; prog; [|done]. intros ->.
  split; [apply elem_here|]. answer x. by apply filter_self.
Qed.

(** The Hyper-V agent leaves no connection open: each request dials one
    connection, uses only that one, and closes it on every path; a failed dial
    is returned as the error. *)
Theorem HVAgent_closes guid key data s :
  wp hv_env (HV.List guid) s (returns (fun _ t => t = s)) /\
  wp hv_env (HV.Sign guid key data) s (returns (fun _ t => t = s)).
Proof.
  split; (eapply wp_seq; [apply ConnectHyperV_ok|]); intros [c [e|]] t Ht; cbn in Ht.
  - by subst.
  - destruct Ht as [Hc ->]. apply hv_closed; [done|]. prog. split; [apply elem_here|].
    by answer x.
  - by subst.
  - destruct Ht as [Hc ->]. apply hv_closed; [done|]. prog. split; [apply elem_here|].
    by answer x.
Qed.

(** The connections a handler may use and those it has closed. *)
Definition server_env : env ServerE (list Z) :=
  {| may X e s :=
       match e with ServeAgent c | ServerClose c => c ∉ s | _ => True end;
     does X e s :=
       match e in ServerE X return X -> list Z -> Prop with
       | ServerClose c => fun _ t => t = c :: s
       | _ => fun _ t => t = s
       end |}.

(** The connection handler closes its connection exactly once, on every
    path, and never serves it after that; it does so also without an agent. *)
Theorem SSHAgentHandler_closes conn s :
  (conn ∉ s) ->
  wp server_env (SSHAgentHandler conn) s (returns (fun _ t => t = conn :: s)).
Proof.
  intros Hc. unfold SSHAgentHandler.
  eapply (wp_defer _ _ _ _ _ (returns (fun _ t => t = s))).
  - unfold SSHAgentHandler_body. prog. split; [done|]. answer present.
    destruct present; prog; [|done]. split; [done|]. answer err.
    destruct err as [e|]; prog; [|done]. destruct (bool_decide (e = EOF)); prog; [done|].
    split; [done|]. by answer x.
  - intros [[]|msg] t; prog; [|done]. intros ->. split; [done|]. by answer x.
Qed.

Lemma SSHAgentHandler_closes_witness :
  wp server_env (SSHAgentHandler 3) [1; 2] (returns (fun _ t => t = [3; 1; 2])).
Proof.
  apply (SSHAgentHandler_closes 3 [1; 2]). rewrite !not_elem_of_cons.
  split; [lia|]. split; [lia|]. apply not_elem_of_nil.
Defined.
