(* ===== verification/Stack.v ===== *)
(** The agent main builds on a host: the wrapped agent (sshagent/wrapped_agent.go)
    over a keyring and the certificate agent, as one program over the calls of
    both, with what a client of it may rely on. *)
From S2P Require Import Prelude Effects Threads X509 Eku Capi Desktop Signers CapiAgent Agents.
Local Open Scope Z_scope.

(** ** The composition

    [NewWrappedAgent(NewKeyRingAgent(), []agent.Agent{cag})] *)
Abbreviation StackE := (sumE RingE AgentE).

Section stack.
Context `{L : Libraries} (disablePINCache : bool) (EncodeToString : list byte -> string).

Definition defaultAgent : Agent RingE :=
  KeyRing.KeyRingAgent ring ring_SignWithFlags RingDesktop EncodeToString.
Definition cag : Agent AgentE := CAPIAgent disablePINCache.

Definition stack_agents : list (Agent StackE) :=
  Wrapped.NewWrappedAgent (embed left_call defaultAgent) [embed right_call cag].
Definition stack : Agent StackE := Wrapped.WrappedAgent stack_agents.
Definition stack_SignWithFlags key data flags : prog StackE sign_reply :=
  Wrapped.SignWithFlags stack_agents key data flags.
End stack.

(** ** What it promises

    The state is the history of the keyring and the critical sections of the
    certificate agent this client has been through. *)
Section spec.
Context `{L : Libraries, !LibraryLaws L} (disablePINCache : bool).
Context (EncodeToString : list byte -> string) (listed : list agent_Key * option error).
Context (contents : list Z) (key_spec : Z -> Z) (encoding : Z -> list byte).
Local Abbreviation VR := (ring_env listed).
Local Abbreviation VA := (monitor_env contents key_spec encoding).
Local Abbreviation V := (sum_env VR VA).
Local Abbreviation section := (agent_state * agent_state)%type.
Local Abbreviation state := (list ring_call * (list section * option section))%type.

(** Signing: the keyring is asked first, and if it signs that is the answer and
    the certificates are not touched; if it cannot, the certificate agent is
    asked, and if that fails too the error is the keyring's. *)
Definition stack_signed (key : ssh_PublicKey) (data : list byte) (flags : Z) (s : state)
    (r : sign_reply) (u : state) : Prop :=
  exists rr, ring_signed listed EncodeToString key data flags s.1 rr u.1 /\
  match rr.2 with
  | None => r = (rr.1, None) /\ u.2 = s.2
  | Some e => exists rc,
      one_section (sign_post disablePINCache contents key_spec encoding key data flags) s.2.1 rc u.2 /\
      r = match rc.2 with None => (rc.1, None) | Some _ => (None, Some e) end
  end.

(** Listing: the keys of the keyring, then the certificates; an error of either
    is the error of the list, and an error of the keyring leaves the
    certificates alone. *)
Definition stack_listed (s : state) (r : list agent_Key * option error) (u : state) : Prop :=
  u.1 = s.1 /\
  match listed with
  | (_, Some e) => r = ([], Some e) /\ u.2 = s.2
  | (ring_keys, None) => exists rc,
      one_section (list_post contents key_spec encoding) s.2.1 rc u.2 /\
      r = match rc.2 with None => (ring_keys ++ rc.1, None) | Some e => ([], Some e) end
  end.

(** A call of a member, then the rest. *)
Lemma left_seq {A B} (m : prog RingE A) (f : A -> prog StackE B) s P Q :
  wp VR m s.1 (returns P) ->
  (forall a t, P a t -> wp V (f a) (t, s.2) Q) ->
  wp V (bind (translate left_call m) f) s Q.
Proof.
  intros Hm Hf. apply wp_bind. destruct s as [s a].
  eapply wp_mono; [by apply wp_left|]. intros [x|msg] [t b] [HP Hb]; [|done].
  cbn in *. subst b. by apply Hf.
Qed.

Lemma right_seq {A B} (m : prog AgentE A) (f : A -> prog StackE B) s P Q :
  wp VA m s.2 (returns P) ->
  (forall a t, P a t -> wp V (f a) (s.1, t) Q) ->
  wp V (bind (translate right_call m) f) s Q.
Proof.
  intros Hm Hf. apply wp_bind. destruct s as [s a].
  eapply wp_mono; [by apply wp_right|]. intros [x|msg] [t b] [HP Hb]; [|done].
  cbn in *. subst t. by apply Hf.
Qed.

Ltac stack_cbn :=
  cbn [Wrapped.NewWrappedAgent app for_range ag_SignWithFlags ag_List embed defaultAgent
       KeyRing.KeyRingAgent cag CAPIAgent].

Lemma stack_sign_ok key data flags s :
  s.2.2 = None ->
  wp V (stack_SignWithFlags disablePINCache EncodeToString key data flags) s
    (returns (stack_signed key data flags s)).
Proof.
  destruct s as [s [h o]]. cbn [snd]. intros ->. unfold stack_SignWithFlags, Wrapped.SignWithFlags, stack_agents.
  stack_cbn. apply wp_bind, wp_bind. eapply left_seq; [apply KeyRing_SignWithFlags_ok|].
  intros [sig [e|]] t Ht; cbn [wpx].
  2: { cbn [bind wpx]. exists (sig, None). done. }
  cbn [bind]. apply wp_bind. eapply right_seq; [by apply SignWithFlags_ok|].
  intros [sig' err'] b Hb. destruct err'; cbn [bind wpx returns]; exists (sig, Some e);
    (split; [exact Ht|]); eexists; (split; [exact Hb|done]).
Qed.

Lemma stack_list_ok s :
  s.2.2 = None ->
  wp V (ag_List (stack disablePINCache EncodeToString)) s (returns (stack_listed s)).
Proof.
  destruct s as [s [h o]]. cbn [snd]. intros ->. unfold stack, stack_agents.
  cbn [ag_List Wrapped.WrappedAgent]. unfold Wrapped.List. stack_cbn.
  apply wp_bind, wp_bind.
  eapply (left_seq _ _ _ (fun r t => r = listed /\ t = s)); [cbn; by auto|].
  intros [ks [e|]] t [Hr ->]; cbn [bind wpx returns]; [unfold stack_listed; by rewrite <-Hr|].
  apply wp_bind. eapply right_seq; [by apply List_ok|].
  intros [ids err] b Hb. destruct err; cbn [bind wpx returns]; unfold stack_listed;
    rewrite <-Hr; (split; [done|]); eexists; (split; [exact Hb|done]).
Qed.

(** (C5) The stack of agents main builds refines one specification: signing
    asks the keyring first and the certificate agent, in one critical section,
    only if the keyring cannot sign; the certificate agent is then asked for
    this key, this data and these flags, its signature is the answer as it is,
    and if both fail the error is the keyring's.  Listing gives the keys of the
    keyring followed by the certificates, listed in one critical section.
    Whatever is asked, each member meets its own specification, and the
    certificate agent's mutex is given back. *)
Theorem stack_refines key data flags s :
  s.2.2 = None ->
  wp V (stack_SignWithFlags disablePINCache EncodeToString key data flags) s
    (returns (stack_signed key data flags s)) /\
  wp V (ag_List (stack disablePINCache EncodeToString)) s (returns (stack_listed s)).
Proof. intros Hs. split; [by apply stack_sign_ok|by apply stack_list_ok]. Qed.

(** Requests that change keys reach the keyring only: whatever the answer,
    the certificate agent is exactly as it was. *)
Theorem stack_changes_keyring_only added key s :
  wp V (ag_Add (stack disablePINCache EncodeToString) added) s (returns (fun r u =>
    u.2 = s.2 /\ exists l, u.1 = s.1 ++ DidAdd added r :: l)) /\
  wp V (ag_Remove (stack disablePINCache EncodeToString) key) s (returns (fun r u =>
    u.2 = s.2 /\ exists l, u.1 = s.1 ++ DidRemove key r :: l)) /\
  wp V (ag_RemoveAll (stack disablePINCache EncodeToString)) s (returns (fun r u =>
    u.2 = s.2 /\ exists l, u.1 = s.1 ++ DidRemoveAll r :: l)).
Proof.
  assert (Hlift : forall (m : prog RingE (option error)) (d : option error -> ring_call)
      (K : option error -> list ring_call -> Prop),
    wp VR m s.1 (returns (fun r t => exists l, t = s.1 ++ d r :: l /\ K r l)) ->
    wp V (translate left_call m) s (returns (fun r u =>
      u.2 = s.2 /\ exists l, u.1 = s.1 ++ d r :: l))).
  { intros m d K Hm. destruct s as [t a]. eapply wp_mono; [by apply wp_left|].
    intros [r|msg] [u b] [Hu Hb]; [|done]. destruct Hu as (l & Hl & _). split; [done|by exists l]. }
  split_and!.
  - by eapply (Hlift _ (DidAdd added)), KeyRing_Add_ok.
  - by eapply (Hlift _ (DidRemove key)), KeyRing_Remove_ok.
  - by eapply (Hlift _ DidRemoveAll), KeyRing_RemoveAll_ok.
Qed.
End spec.

(** ** An instance *)

(** An empty keyring over the agent with one certificate. *)
Lemma stack_refines_witness :
  let s := ([], ([], None)) in
  wp (sum_env (ring_env ([], None)) (monitor_env [5; 6] demo_key_spec (fun _ => [])))
    (@stack_SignWithFlags demo_libs true (fun _ => "") demo_pub [x01] 0) s
    (returns (@stack_signed demo_libs true (fun _ => "") ([], None) [5; 6] demo_key_spec (fun _ => [])
      demo_pub [x01] 0 s)) /\
  wp (sum_env (ring_env ([], None)) (monitor_env [5; 6] demo_key_spec (fun _ => [])))
    (ag_List (@stack demo_libs true (fun _ => ""))) s
    (returns (@stack_listed demo_libs ([], None) [5; 6] demo_key_spec (fun _ => []) s)).
Proof.
  apply (@stack_refines demo_libs demo_laws true (fun _ => "") ([], None) [5; 6] demo_key_spec
           (fun _ => []) demo_pub [x01] 0 ([], ([], None))).
  reflexivity.
Defined.
