(* ===== verification/Conn.v ===== *)
(** Byte-stream connections: io.ReadFull over [conn.Read], and the stream a
    connection is. *)
From S2P Require Import Prelude Effects.

(** ** Calls *)

Inductive ConnE : Type -> Type :=
| ConnRead (n : nat) : ConnE (list byte * option error)
    (** into a buffer of [n] bytes: what was read *)
| ConnWrite (bs : list byte) : ConnE (option error).

(** io.ReadFull into a buffer of [n] bytes: what was read into it, and the
    error.  The loop runs while bytes are missing and there is no error. *)
Definition ReadFull_step (n : nat) (v : list byte * option error)
    : prog ConnE (ctl (list byte * option error) (list byte * option error)) :=
  let '(got, err) := v in
  match err with
  | Some _ => Ret (Break v)
  | None =>
      if (length got <? n)%nat then
        let* (bs, err) := call (ConnRead (n - length got)) in
        Ret (Next (got ++ bs, err))
      else Ret (Break v)
  end.

Definition ReadFull (n : nat) : prog ConnE (list byte * option error) :=
  r <- loop (ReadFull_step n) ([], None) ;;
  match r with
  | inl (got, err) =>
      if (n <=? length got)%nat then Ret (got, None)
      else if (0 <? length got)%nat && bool_decide (err = Some EOF)
           then Ret (got, Some ErrUnexpectedEOF)
           else Ret (got, err)
  | inr r => Ret r
  end.

(** ** Streams

    What is still to be read, what was read, what was written, and whether the
    connection was closed on our side, after which it must not be used. *)
Record stream : Type := Stream {
  inc : list byte;
  got : list byte;
  out : list byte;
  shut : bool;
}.

(** The bytes may arrive in any pieces, and a read or a write may fail unless
    the connection is reliable; a reliable connection only ends with EOF when
    nothing is left. *)
Definition conn_env (reliable : bool) : env ConnE stream :=
  {| may X e s :=
       match e with
       | ConnRead n => shut s = false /\ (0 < n)%nat
       | ConnWrite _ => shut s = false
       end;
     does X e s :=
       match e in ConnE X return X -> stream -> Prop with
       | ConnRead n => fun '(bs, err) t =>
           exists rest, inc s = bs ++ rest /\ (length bs <= n)%nat /\
             t = Stream rest (got s ++ bs) (out s) (shut s) /\
             match err with
             | None => bs <> []
             | Some e => reliable = true -> e = EOF /\ inc s = []
             end
       | ConnWrite bs => fun err t =>
           exists sent, sent `prefix_of` bs /\
             t = Stream (inc s) (got s) (out s ++ sent) (shut s) /\
             match err with
             | None => sent = bs
             | Some _ => reliable = false
             end
       end |}.

(** Reading moves bytes from [inc] to [got]. *)
Definition moved (s : stream) (bs : list byte) (t : stream) : Prop :=
  inc s = bs ++ inc t /\ got t = got s ++ bs /\ out t = out s /\ shut t = shut s.

Lemma moved_nil s : moved s [] s.
Proof. unfold moved. by rewrite app_nil_r. Qed.

Lemma moved_app s a t b u : moved s a t -> moved t b u -> moved s (a ++ b) u.
Proof.
  intros (H1 & H2 & H3 & H4) (K1 & K2 & K3 & K4). unfold moved.
  rewrite H1, K1, K2, H2, K3, K4, <-!app_assoc. auto.
Qed.

(** However the bytes arrive, [ReadFull] ends; without an error it has the next
    [n] bytes of the stream, and on a reliable connection it only fails when
    there are fewer. *)
Lemma ReadFull_ok r n s :
  shut s = false ->
  wp (conn_env r) (ReadFull n) s (returns (fun v t =>
    moved s v.1 t /\
    match v.2 with
    | None => length v.1 = n
    | Some _ => (length v.1 < n)%nat /\ (r = true -> inc t = [])
    end)).
Proof.
  intros Hs. unfold ReadFull. cbn [bind loop].
  apply (wp_loop _ _ _ _ _
    (fun v t => moved s v.1 t /\ (length v.1 <= n)%nat /\
       (v.2 <> None -> r = true -> inc t = []))
    (fun v t => 2 * (n - length v.1) + match v.2 with Some _ => 0 | None => 1 end)%nat).
  { split; [apply moved_nil|]. split; [cbn; lia|done]. }
  intros [g err] t (Hm & Hl & He). cbn [fst snd] in *. cbn [ReadFull_step].
  assert (Hexit : wp (conn_env r) (if (n <=? length g)%nat then Ret (g, None)
      else if (0 <? length g)%nat && bool_decide (err = Some EOF)
           then Ret (g, Some ErrUnexpectedEOF) else Ret (g, err)) t
      (returns (fun v t => moved s v.1 t /\ match v.2 with
        | None => length v.1 = n
        | Some _ => (length v.1 < n)%nat /\ (r = true -> inc t = []) end)) \/
    (err = None /\ (length g < n)%nat)).
  { destruct (Nat.leb_spec n (length g)) as [Hle|Hlt].
    - left. prog. split; [done|]. lia.
    - destruct err as [e|]; [left|by right].
      destruct ((0 <? length g)%nat && bool_decide (Some e = Some EOF)); prog; auto. }
  destruct err as [e|].
  { destruct Hexit as [Hexit|[? _]]; [exact Hexit|done]. }
  destruct (Nat.ltb_spec (length g) n) as [Hlt|Hge].
  2: { destruct Hexit as [Hexit|[_ ?]]; [exact Hexit|lia]. }
  prog. split.
  { destruct Hm as (_ & _ & _ & Hsh). cbn. rewrite Hsh. split; [done|lia]. }
  intros [bs err] u (rest & Hi & Hn & -> & Herr). prog.
  assert (Hm' : moved t bs (Stream rest (got t ++ bs) (out t) (shut t))) by done.
  rewrite length_app. split; [|destruct err, bs; cbn in *; try lia; done].
  split; [by eapply moved_app|]. split; [lia|]. intros Hne Hr. destruct err as [e|]; [|done].
  destruct (Herr Hr) as [_ Hnil]. cbn. rewrite Hi in Hnil. by apply app_eq_nil in Hnil as [_ ->].
Qed.

(** On a reliable connection that has the bytes, it gets them. *)
Lemma ReadFull_reliable n s :
  shut s = false -> (n <= length (inc s))%nat ->
  wp (conn_env true) (ReadFull n) s (returns (fun v t =>
    v = (take n (inc s), None) /\
    t = Stream (drop n (inc s)) (got s ++ take n (inc s)) (out s) (shut s))).
Proof.
  intros Hs Hn. eapply wp_mono; [by apply ReadFull_ok|].
  intros [[bs err]|msg] t; prog; [|done]. intros [(Hi & Hg & Ho & Hsh) Hr].
  assert (Hlen : length (inc s) = (length bs + length (inc t))%nat) by (by rewrite Hi, length_app).
  destruct err as [e|].
  { destruct Hr as [Hlt Hnil]. rewrite (Hnil eq_refl) in Hlen. cbn in Hlen. lia. }
  rewrite Hi, take_app_length', drop_app_length' by done. destruct t; cbn in *. by subst.
Qed.
