(* ===== verification/App.v ===== *)
(** app/app.go: the applications' ids and names, their data directory, and
    what the accept loops of package app share: the calls they make, and the
    bookkeeping of connections, listeners and running handlers. *)
From S2P Require Import Prelude Effects Desktop Misc TcpOwner Conn.
Local Open Scope Z_scope.

(** ** Ids and names

    [iota] counts from the first line of the constant block. *)
Definition WSL_SOCK : string := "keybridge-wsl.sock".
Definition CYGWIN_SOCK : string := "keybridge-cygwin.sock".
Definition NAMED_PIPE : string := "\\.\pipe\openssh-ssh-agent".
Definition APP_CYGWIN : Z := 3.
Definition APP_WSL : Z := 4.
Definition APP_WINSSH : Z := 5.
Definition APP_HYPERV : Z := 6.
Definition APP_SECURECRT : Z := 7.
Definition APP_PAGEANT : Z := 8.
Definition APP_XSHELL : Z := 9.
Definition APP_PUBKEY : Z := 10.
Definition APP_WSL2 : Z := 11.
Definition MENU_QUIT : Z := 12.

Definition appIdToName : list (Z * string) :=
  [(APP_CYGWIN, "Cygwin"); (APP_WSL, "WSL"); (APP_WINSSH, "WinSSH");
   (APP_SECURECRT, "SecureCRT"); (APP_PAGEANT, "Pageant"); (APP_XSHELL, "XShell");
   (APP_HYPERV, "Hyper-V")].

Definition appIdToFullName : list (Z * string) :=
  [(APP_CYGWIN, "Cygwin (MinGW64 & MSYS2)"); (APP_WSL, "Windows Subsystem for Linux");
   (APP_WINSSH, "Windows OpenSSH"); (APP_SECURECRT, "SecureCRT"); (APP_PAGEANT, "Pageant");
   (APP_XSHELL, "XShell"); (APP_HYPERV, "Hyper-V")].

(** A missing key of a Go map gives the empty string. *)
Definition lookup_name (m : list (Z * string)) (id : Z) : string :=
  match find (fun x => x.1 =? id) m with Some x => x.2 | None => "" end.

Definition AppId_String (id : Z) : string := lookup_name appIdToName id.
Definition AppId_FullName (id : Z) : string := lookup_name appIdToFullName id.

(** ** Calls

    A handler runs in a goroutine of its own: [Go c] is
    [go func() { handler(c); wg.Done() }()]. *)
Inductive AppE : Type -> Type :=
| OnConn X (c : Z) (e : ConnE X) : AppE X
| CloseConn (c : Z) : AppE unit
| OnDesktop X (e : DesktopE X) : AppE X
| OnRand X (e : RandE X) : AppE X
| OnTcp X (c : Z) (e : TcpE X) : AppE X
| UserCacheDir : AppE (string * option error)
| MkdirAll (dir : string) (perm : Z) : AppE (option error)
| RemoveFile (path : string) : AppE unit
| CreateFile (path : string) : AppE (Z * option error)
    (** [os.OpenFile] with [O_WRONLY|O_CREATE|O_TRUNC] and 0666 *)
| WriteString (file : Z) (s : string) : AppE unit
| CloseFile (file : Z) : AppE unit
| RandRead (n : nat) : AppE (list byte * option error)
| Getpid : AppE Z
| Getenv (name : string) : AppE string
| Listen (network address : string) : AppE (Z * option error)
| ListenerPort (l : Z) : AppE Z
| ListenerClose (l : Z) : AppE unit
| Accept (l : Z) : AppE (Z * option error)
| CtxDone : AppE bool
    (** [select { case <-ctx.Done(): ...; default: }] *)
| Now : AppE Z
| WgAdd : AppE unit
| WgWait : AppE unit
| Go (c : Z) : AppE unit
| GoCloseOnDone (l : Z) : AppE unit
    (** [go func() { <-ctx.Done(); l.Close() }()] *)
| RegisterClass (class : string) : AppE (Z * error)
| UnregisterClass (class : string) : AppE (Z * error)
| CreateWindowEx (class name : string) : AppE (Z * error)
| DestroyWindow (h : Z) : AppE unit
| SetWindowLongW (h index value : Z) : AppE Z
| GetMessage (h : Z) : AppE Z
| TranslateMessage : AppE unit
| DispatchMessage : AppE unit
| SelectRequest : AppE (option Z)
    (** [select { case req := <-s.requestCh: ...; case <-ctx.Done(): ... }]: the
        connection of a request, or [None] *)
| SetRunning : AppE unit
    (** [s.running = true] *)
| SetText (x : string) : AppE unit
    (** [s.help = x] (WSL), [s.sockfile = x] (Cygwin) *)
| Println (err : error) : AppE unit.

Abbreviation on c m := (translate (fun X => OnConn X c) m).
Abbreviation on_desktop m := (translate OnDesktop m).

Section datadir.
Context (filepath_Join : string -> string -> string).

Definition dataDir : prog AppE (string * option error) :=
  let* (cacheDir, err) := call UserCacheDir in
  match err with
  | Some e => Ret (""%string, Some e)
  | None =>
      let dir := filepath_Join cacheDir "KeyBridge" in
      err <- call (MkdirAll dir 448) ;;
      match err with
      | Some e => Ret (""%string, Some e)
      | None => Ret (dir, None)
      end
  end.
End datadir.

(** ** The environment

    The streams of the connections, the connections Run owns (accepted and
    neither closed nor handed to a handler), the ones handed to handlers, the
    count of the wait group, the open listeners, the open files and the files
    there are, the texts written to files and window titles, the window
    classes there are, the windows that were created and not yet given to
    DestroyWindow (which refuses a window of another thread; nobody looks at its
    result), the state of the owner check, the fields of the application that its
    menu reads, what was asked about the owner of each connection, and how often
    the context was found cancelled. *)
Record app_state : Type := AppState {
  streams : gmap Z stream;
  owned : list Z;
  served : list Z;
  waiting : Z;
  listeners : list Z;
  ofiles : list Z;
  paths : list string;
  published : list string;
  classes : list string;
  wins : list Z;
  tcps : tcp_state;
  running : bool;
  text : string;
  checks : gmap Z (history TcpE);
  stops : nat;
}.

Definition with_stream (c : Z) (x : stream) (s : app_state) : app_state :=
  AppState (<[c := x]> (streams s)) (owned s) (served s) (waiting s)
    (listeners s) (ofiles s) (paths s) (published s) (classes s) (wins s)
    (tcps s) (running s) (text s) (checks s) (stops s).
Definition with_owned (l : list Z) (s : app_state) : app_state :=
  AppState (streams s) l (served s) (waiting s) (listeners s) (ofiles s) (paths s) (published s) (classes s) (wins s)
    (tcps s) (running s) (text s) (checks s) (stops s).
Definition with_served (l : list Z) (s : app_state) : app_state :=
  AppState (streams s) (owned s) l (waiting s) (listeners s) (ofiles s) (paths s) (published s) (classes s) (wins s)
    (tcps s) (running s) (text s) (checks s) (stops s).
Definition with_waiting (n : Z) (s : app_state) : app_state :=
  AppState (streams s) (owned s) (served s) n (listeners s) (ofiles s) (paths s) (published s) (classes s) (wins s)
    (tcps s) (running s) (text s) (checks s) (stops s).
Definition with_listeners (l : list Z) (s : app_state) : app_state :=
  AppState (streams s) (owned s) (served s) (waiting s) l (ofiles s) (paths s) (published s) (classes s) (wins s)
    (tcps s) (running s) (text s) (checks s) (stops s).
Definition with_ofiles (l : list Z) (s : app_state) : app_state :=
  AppState (streams s) (owned s) (served s) (waiting s) (listeners s) l (paths s) (published s) (classes s) (wins s)
    (tcps s) (running s) (text s) (checks s) (stops s).
Definition with_paths (l : list string) (s : app_state) : app_state :=
  AppState (streams s) (owned s) (served s) (waiting s) (listeners s) (ofiles s) l (published s) (classes s) (wins s)
    (tcps s) (running s) (text s) (checks s) (stops s).

Definition publish (x : string) (s : app_state) : app_state :=
  AppState (streams s) (owned s) (served s) (waiting s) (listeners s) (ofiles s) (paths s)
    (x :: published s) (classes s) (wins s) (tcps s) (running s) (text s) (checks s) (stops s).
Definition with_classes (l : list string) (s : app_state) : app_state :=
  AppState (streams s) (owned s) (served s) (waiting s) (listeners s) (ofiles s) (paths s)
    (published s) l (wins s) (tcps s) (running s) (text s) (checks s) (stops s).
Definition with_wins (l : list Z) (s : app_state) : app_state :=
  AppState (streams s) (owned s) (served s) (waiting s) (listeners s) (ofiles s) (paths s)
    (published s) (classes s) l (tcps s) (running s) (text s) (checks s) (stops s).
Definition with_tcps (x : tcp_state) (s : app_state) : app_state :=
  AppState (streams s) (owned s) (served s) (waiting s) (listeners s) (ofiles s) (paths s) (published s)
    (classes s) (wins s) x (running s) (text s) (checks s) (stops s).
Definition with_running (s : app_state) : app_state :=
  AppState (streams s) (owned s) (served s) (waiting s) (listeners s) (ofiles s) (paths s)
    (published s) (classes s) (wins s) (tcps s) true (text s) (checks s) (stops s).
Definition with_text (x : string) (s : app_state) : app_state :=
  AppState (streams s) (owned s) (served s) (waiting s) (listeners s) (ofiles s) (paths s)
    (published s) (classes s) (wins s) (tcps s) (running s) x (checks s) (stops s).
Definition with_checks (x : gmap Z (history TcpE)) (s : app_state) : app_state :=
  AppState (streams s) (owned s) (served s) (waiting s) (listeners s) (ofiles s) (paths s)
    (published s) (classes s) (wins s) (tcps s) (running s) (text s) x (stops s).
Definition with_stops (n : nat) (s : app_state) : app_state :=
  AppState (streams s) (owned s) (served s) (waiting s) (listeners s) (ofiles s) (paths s)
    (published s) (classes s) (wins s) (tcps s) (running s) (text s) (checks s) n.

Definition stream_of (s : app_state) (c : Z) : stream :=
  default (Stream [] [] [] true) (streams s !! c).

(** What the owner check of a connection asked so far, with the answers. *)
Definition checks_of (s : app_state) (c : Z) : history TcpE := default [] (checks s !! c).
Definition note (c : Z) (h : history TcpE) (s : app_state) : app_state :=
  with_checks (<[c := checks_of s c ++ h]> (checks s)) s.

(** A new connection: nothing read or written on it, nothing asked about it. *)
Definition new_conn (c : Z) (bs : list byte) (s : app_state) : app_state :=
  with_stream c (Stream bs [] [] false) (with_checks (delete c (checks s)) s).

(** A connection is given up. *)
Definition drop_conn (c : Z) (s : app_state) : app_state :=
  with_owned (filter (fun d => d <> c) (owned s)) s.

(** The network of each listener and connection, and the peers and users the
    owner check finds. *)
Record tcp_world : Type := {
  network : Z -> string;
  peer_port : Z -> option Z;
  pid_sid : Z -> list byte;
  own_sid : list byte;
  own_token : Z;
}.

Section env.
(** Which connections may be served, and which may be refused. *)
Context (admissible refusable : app_state -> Z -> Prop) (w : tcp_world).
Local Abbreviation T c := (tcp_env (peer_port w c) (pid_sid w) (own_sid w) (own_token w)).

Definition app_env : env AppE app_state :=
  {| may X e s :=
       match e with
       | OnConn _ c e => c ∈ owned s /\ may (conn_env false) e (stream_of s c)
       | CloseConn c => c ∈ owned s /\ refusable s c
       | OnTcp _ c e => c ∈ owned s /\ may (T c) e (tcps s)
       | OnRand _ e => may rand_env e tt
       | DestroyWindow h | SetWindowLongW h _ _ => h ∈ wins s
       | WriteString f _ | CloseFile f => f ∈ ofiles s
       | Accept l | ListenerPort l => l ∈ listeners s
       | Go c => c ∈ owned s /\ (c ∉ served s) /\ 0 < waiting s /\ admissible s c
       | _ => True
       end;
     does X e s :=
       match e in AppE X return X -> app_state -> Prop with
       | OnConn _ c e => fun x t => exists y,
           does (conn_env false) e (stream_of s c) x y /\ t = with_stream c y s
       | CloseConn c => fun _ t => t = drop_conn c s
       | OnTcp _ c e => fun x t => exists y,
           does (T c) e (tcps s) x y /\ t = with_tcps y (note c [Event e x] s)
       | OnRand _ e => fun x t => does rand_env e tt x tt /\ t = s
       | RemoveFile p => fun _ t => t = with_paths (filter (fun q => q <> p) (paths s)) s
       | CreateFile p => fun '(f, err) t =>
           match err with
           | None => (f ∉ ofiles s) /\ t = with_ofiles (f :: ofiles s) (with_paths (p :: paths s) s)
           | Some _ => t = s
           end
       | WriteString _ x => fun _ t => t = publish x s
       | CloseFile f => fun _ t => t = with_ofiles (filter (fun g => g <> f) (ofiles s)) s
       | RandRead n => fun '(bs, err) t => length bs = n /\ t = s
       | Listen n _ => fun '(l, err) t =>
           match err with
           | None => (l ∉ listeners s) /\ network w l = n /\ t = with_listeners (l :: listeners s) s
           | Some _ => t = s
           end
       | ListenerClose l => fun _ t =>
           t = with_listeners (filter (fun k => k <> l) (listeners s)) s
       | Accept l => fun '(c, err) t =>
           match err with
           | None => (c ∉ owned s) /\ (c ∉ served s) /\ network w c = network w l /\
               exists bs, t = with_owned (c :: owned s) (new_conn c bs s)
           | Some _ => t = s
           end
       | CtxDone => fun b t => t = (if b : bool then with_stops (S (stops s)) s else s)
       | SelectRequest => fun r t =>
           match r with
           | Some c => (c ∉ owned s) /\ (c ∉ served s) /\ exists bs,
               t = with_owned (c :: owned s) (new_conn c bs s)
           | None => t = with_stops (S (stops s)) s
           end
       | WgAdd => fun _ t => t = with_waiting (waiting s + 1) s
       | WgWait => fun _ t => t = with_waiting 0 s
       | Go c => fun _ t => t = with_served (c :: served s) (drop_conn c s)
       | RegisterClass k => fun '(r, _) t =>
           t = (if r =? 0 then s else with_classes (k :: classes s) s)
       | UnregisterClass k => fun '(r, _) t =>
           t = (if r =? 0 then s else with_classes (filter (fun x => x <> k) (classes s)) s)
       | CreateWindowEx _ name => fun '(h, _) t =>
           if h =? 0 then t = s
           else (h ∉ wins s) /\ t = publish name (with_wins (h :: wins s) s)
       | SetRunning => fun _ t => t = with_running s
       | SetText x => fun _ t => t = with_text x s
       | DestroyWindow h => fun _ t => t = with_wins (filter (fun k => k <> h) (wins s)) s
       | _ => fun _ t => t = s
       end |}.
End env.

(** ** Lemmas the accept loops share *)

Section lemmas.
Context (admissible refusable : app_state -> Z -> Prop) (w : tcp_world).
Local Abbreviation V := (app_env admissible refusable w).

Lemma stream_of_with c x s : stream_of (with_stream c x s) c = x.
Proof. unfold stream_of. cbn. by rewrite lookup_insert_eq. Qed.

Lemma with_stream_twice c x y s : with_stream c y (with_stream c x s) = with_stream c y s.
Proof. unfold with_stream. cbn. by rewrite insert_insert_eq. Qed.

(** Running a protocol on one connection changes the stream of that
    connection only. *)
Definition same_but (c : Z) (s u : app_state) : Prop :=
  u = s \/ exists x, u = with_stream c x s.

Lemma same_but_trans c s u v : same_but c s u -> same_but c u v -> same_but c s v.
Proof.
  intros [->|[x ->]] [->|[y ->]]; unfold same_but; eauto.
  right. exists y. by rewrite with_stream_twice.
Qed.

(** The fields it leaves alone. *)
Lemma same_but_fields c s u :
  same_but c s u ->
  owned u = owned s /\ served u = served s /\ waiting u = waiting s /\
  listeners u = listeners s /\ ofiles u = ofiles s /\ paths u = paths s /\
  published u = published s /\ classes u = classes s /\ wins u = wins s /\ tcps u = tcps s /\
  running u = running s /\ text u = text s /\ checks u = checks s /\ stops u = stops s.
Proof. by intros [->|[x ->]]. Qed.

Lemma on_ok d {A} c (m : prog ConnE A) s Q :
  c ∈ owned s ->
  wpx (conn_env false) d m (stream_of s c) Q ->
  wpx V d (on c m) s (fun o u => Q o (stream_of u c) /\ same_but c s u).
Proof.
  intros Hc. apply (wp_translate d (conn_env false) V (fun X => OnConn X c)
    (fun t => stream_of t c) (same_but c s)); [|by left].
  intros X e t Hk Ht. split.
  - split; [|exact Ht]. destruct (same_but_fields _ _ _ Hk) as [Ho _]. by rewrite Ho.
  - intros x u (y & Hy & ->). rewrite stream_of_with. split; [done|].
    eapply same_but_trans; [exact Hk|]. right. eauto.
Qed.

Lemma on_readfull d c n s :
  c ∈ owned s -> shut (stream_of s c) = false ->
  wpx V d (on c (ReadFull n)) s (returns (fun v u =>
    same_but c s u /\ moved (stream_of s c) v.1 (stream_of u c) /\
    (v.2 = None -> length v.1 = n))).
Proof.
  intros Hc Hs. eapply wp_mono; [apply on_ok; [done|by apply wp_total, ReadFull_ok]|].
  intros [[bs err]|msg] u; prog; [|by intros []]. intros [[Hm Hv] Hk].
  split; [done|]. split; [done|]. by intros ->.
Qed.

Lemma on_write d c bs s :
  c ∈ owned s -> shut (stream_of s c) = false ->
  wpx V d (on c (call (ConnWrite bs))) s (returns (fun err u =>
    same_but c s u /\ exists sent, sent `prefix_of` bs /\ (err = None -> sent = bs) /\
      stream_of u c = Stream (inc (stream_of s c)) (got (stream_of s c))
                        (out (stream_of s c) ++ sent) false)).
Proof.
  intros Hc Hs. eapply (wp_mono _ _ _ _ (fun o u => returns (fun err x =>
    exists sent, sent `prefix_of` bs /\ (err = None -> sent = bs) /\
      x = Stream (inc (stream_of s c)) (got (stream_of s c)) (out (stream_of s c) ++ sent) false)
      o (stream_of u c) /\ same_but c s u)).
  - apply on_ok; [done|]. prog. split; [done|].
    intros err x (sent & Hp & -> & He). exists sent. rewrite Hs. split; [done|].
    split; [|done]. by intros ->.
  - intros [err|msg] u; prog; [|by intros []]. intros [Hx Hk]. auto.
Qed.

(** Calls that only ask something. *)
Lemma on_desktop_ok d {A} (m : prog DesktopE A) s :
  wpx free d m tt (returns (fun _ _ => True)) ->
  wpx V d (on_desktop m) s (returns (fun _ u => u = s)).
Proof.
  intros Hm. eapply wp_mono.
  - apply (wp_translate d free V OnDesktop (fun _ => tt) (fun u => u = s)); [|done|exact Hm].
    intros X e t -> _. split; [done|]. intros x u Hu. split; [done|]. exact Hu.
  - intros [a|msg] u; prog; by intros [].
Qed.

Lemma SetListenerDeadline_free d kind l t :
  wpx free d (SetListenerDeadline kind l t) tt (returns (fun _ _ => True)).
Proof. destruct kind; prog; done. Qed.

Lemma SetFileAttributes_free d path attr :
  wpx free d (SetFileAttributes path attr) tt (returns (fun _ _ => True)).
Proof. unfold SetFileAttributes. destruct (UTF16Ptr path); prog; done. Qed.

Lemma dataDir_ok d join s :
  wpx V d (dataDir join) s (returns (fun _ u => u = s)).
Proof.
  unfold dataDir. prog. split; [done|]. intros [dir [e|]] u Hu; hnf in Hu; subst u; prog; [done|].
  split; [done|]. intros [e|] u Hu; hnf in Hu; subst u; by prog.
Qed.

(** *** The steps of an accept loop *)

(** The state after a connection was accepted, and after it was handed to a
    handler that the wait group counts. *)
Definition accepted (c : Z) (bs : list byte) (s : app_state) : app_state :=
  with_owned [c] (new_conn c bs s).
Definition handed (c : Z) (s : app_state) : app_state :=
  with_served (c :: served s) (with_owned [] (with_waiting (waiting s + 1) s)).

Lemma accept_ok d {A} l s (k : Z * option error -> prog AppE A) Q :
  l ∈ listeners s -> owned s = [] ->
  (forall c e, wpx V d (k (c, Some e)) s Q) ->
  (forall c bs, (c ∉ served s) -> network w c = network w l -> wpx V d (k (c, None)) (accepted c bs s) Q) ->
  wpx V d (bind (call (Accept l)) k) s Q.
Proof.
  intros Hl Ho He Hc. cbn [bind call wpx]. split; [done|]. intros [c [e|]] t Ht; hnf in Ht.
  - subst t. apply He.
  - destruct Ht as (_ & Hs & Hn & bs & ->). rewrite Ho. by apply Hc.
Qed.

(** [wg.Add(1); go func() { handler(c); wg.Done() }()], then [k]. *)
Lemma hand_over_ok d {A} c s (k : prog AppE A) Q :
  owned s = [c] -> (c ∉ served s) -> 0 <= waiting s ->
  admissible (with_waiting (waiting s + 1) s) c ->
  wpx V d k (handed c s) Q ->
  wpx V d (call WgAdd ;; call (Go c) ;; k) s Q.
Proof.
  intros Ho Hs Hw Ha Hk. cbn [bind call wpx]. split; [done|]. answer x. split.
  { cbn. rewrite Ho. split; [apply elem_here|]. split; [done|]. split; [lia|done]. }
  answer y. unfold drop_conn. cbn. rewrite Ho, filter_self by apply not_elem_of_nil. exact Hk.
Qed.

(** [conn.Close()] of a connection that is refused, then [k]. *)
Lemma turn_away_ok d {A} c s (k : prog AppE A) Q :
  owned s = [c] -> refusable s c -> wpx V d k (with_owned [] s) Q ->
  wpx V d (call (CloseConn c) ;; k) s Q.
Proof.
  intros Ho Hr Hk. cbn [bind call wpx]. split.
  { cbn. rewrite Ho. split; [apply elem_here|done]. }
  answer x. unfold drop_conn. rewrite Ho, filter_self by apply not_elem_of_nil. exact Hk.
Qed.

(** [defer listener.Close()] *)
Lemma listener_closed_ok d {A} l ls (m : prog AppE A) s P Q :
  (l ∉ ls) -> wpx V d m s P ->
  (forall o u, P o u -> listeners u = l :: ls /\ Q o (with_listeners ls u)) ->
  wpx V d (defer (call (ListenerClose l)) m) s Q.
Proof.
  intros Hl Hm HPQ. eapply wp_defer; [exact Hm|]. intros o u [Hu HQ]%HPQ. cbn. split; [done|].
  answer x. by rewrite Hu, filter_self.
Qed.
End lemmas.

(** ** Instances *)

Definition demo_world : tcp_world :=
  {| network := fun h => match h mod 3 with 0 => "tcp" | 1 => "unix" | _ => "pipe" end;
     peer_port := fun _ => Some 50000; pid_sid := fun _ => [x01]; own_sid := [x01];
     own_token := 0 |}.
Definition demo_app : app_state :=
  AppState ∅ [] [] 0 [] [] ["C:\readme.txt"] [] [] []
    {| table := None; procs := []; tokens := [] |} false "" ∅ 0.
