(* ===== verification/Cygwin.v ===== *)
(** app/cygwin.go: a Unix-domain socket as Cygwin emulates it, on a TCP port
    with a cookie in a file. *)
From S2P Require Import Prelude Effects Desktop Misc TcpOwner Conn App.
Local Open Scope Z_scope.

Section cygwin.
Context (filepath_Join : string -> string -> string).

Definition FILE_ATTRIBUTE_READONLY : Z := 1.
Definition FILE_ATTRIBUTE_SYSTEM : Z := 4.

(** fmt.Sprintf("!<socket >%d s %s", port, uuid) *)
Definition socket_text (port : Z) (uuid : list byte) : string :=
  "!<socket >" +:+ pretty port +:+ " s " +:+ UUIDToString uuid.

Definition createCygwinSocket (filename : string) (port : Z)
    : prog AppE (list byte * option error) :=
  call (RemoveFile filename) ;;
  let* (file, err) := call (CreateFile filename) in
  match err with Some e => Ret ([], Some e) | None =>
  let* (uuid, err) := call (RandRead 16) in
  match err with Some e => Ret ([], Some e) | None =>
  call (WriteString file (socket_text port uuid)) ;;
  call (CloseFile file) ;;
  err <- on_desktop (SetFileAttributes filename
           (Z.lor FILE_ATTRIBUTE_SYSTEM FILE_ATTRIBUTE_READONLY)) ;;
  match err with Some e => Ret ([], Some e) | None => Ret (uuid, None) end
  end end.

(** binary.LittleEndian.PutUint32(b[off:], v) *)
Definition PutUint32 (b : list byte) (off : nat) (v : Z) : list byte :=
  take off b ++ le_bytes 4 v ++ drop (off + 4) b.

(** The cookie, and then the reply with our process id in place of the
    client's pid and gid. *)
Definition cygwinHandshake (c : Z) (uuid : list byte) : prog AppE (option error) :=
  let* (cuuid, err) := on c (ReadFull 16) in
  match err with Some e => Ret (Some e) | None =>
  if negb (bool_decide (uuid = cuuid)) then Ret (Some (ErrorString "invalid uuid")) else
  on c (call (ConnWrite uuid)) ;;
  let* (pidsUids, err) := on c (ReadFull 12) in
  match err with Some e => Ret (Some e) | None =>
  pid <- call Getpid ;;
  let gid := pid in
  let pidsUids := PutUint32 pidsUids 0 (u32 pid) in
  let pidsUids := PutUint32 pidsUids 8 (u32 gid) in
  err <- on c (call (ConnWrite pidsUids)) ;;
  match err with Some e => Ret (Some e) | None => Ret None end
  end end.

(** One iteration of the accept loop. *)
Definition Run_step (l : Z) (uuid : list byte) (_ : unit)
    : prog AppE (ctl unit (option error)) :=
  done <- call CtxDone ;;
  if done : bool then call WgWait ;; Ret (Return None) else
  now <- call Now ;;
  on_desktop (SetListenerDeadline TCPListener l (now + 1)) ;;
  let* (conn, err) := call (Accept l) in
  if bool_decide (err = Some ErrNetTimeout) then Ret (Next tt) else
  match err with Some e => Ret (Return (Some e)) | None =>
  err <- cygwinHandshake conn uuid ;;
  match err with
  | Some _ => call (CloseConn conn) ;; Ret (Next tt)
  | None =>
      call WgAdd ;;
      call (Go conn) ;;
      Ret (Next tt)
  end end.

Definition Run_listening (l : Z) (sockfile : string) : prog AppE (option error) :=
  port <- call (ListenerPort l) ;;
  let* (uuid, err) := createCygwinSocket sockfile port in
  match err with Some e => Ret (Some e) | None =>
  call SetRunning ;;
  r <- loop (Run_step l uuid) tt ;;
  match r with inl _ => Ret None | inr err => Ret err end
  end.

Definition Run : prog AppE (option error) :=
  let* (dir, err) := dataDir filepath_Join in
  match err with Some e => Ret (Some e) | None =>
  let sockfile := filepath_Join dir CYGWIN_SOCK in
  call (SetText sockfile) ;;
  let* (l, err) := call (Listen "tcp" "localhost:0") in
  match err with Some e => Ret (Some e) | None =>
  defer (defer (call (ListenerClose l)) (call (RemoveFile sockfile)))
    (Run_listening l sockfile)
  end end.

(** ** The handshake *)

(** The connection has presented [uuid] and twelve more bytes, and nothing but
    a reply to that was sent. *)
Definition shook (uuid : list byte) (x : stream) : Prop :=
  exists ids, length ids = 12%nat /\ got x = uuid ++ ids.

(** Only connections that presented the cookie of the socket file are served. *)
Definition cookie_shown (s : app_state) (c : Z) : Prop :=
  exists port uuid, socket_text port uuid ∈ published s /\ length uuid = 16%nat /\
    shook uuid (stream_of s c).

Context (w : tcp_world).
Local Abbreviation V := (app_env cookie_shown (fun _ _ => True) w).

(** The reply Cygwin expects. *)
Definition ids_reply (pid : Z) (ids : list byte) : list byte :=
  le_bytes 4 (u32 pid) ++ take 4 (drop 4 ids) ++ le_bytes 4 (u32 pid).

Lemma PutUint32_ids pid ids :
  length ids = 12%nat ->
  PutUint32 (PutUint32 ids 0 (u32 pid)) 8 (u32 pid) = ids_reply pid ids.
Proof.
  intros H. do 13 (destruct ids as [|? ids]; [done|]; try (cbn in H; lia)).
Qed.

(** The handshake ends.  It succeeds only if the cookie was presented and the
    reply with our process id was sent; when it fails, nothing was sent unless
    the cookie was presented. *)
Lemma cygwinHandshake_ok c uuid s bs :
  c ∈ owned s -> stream_of s c = Stream bs [] [] false -> length uuid = 16%nat ->
  wp V (cygwinHandshake c uuid) s (returns (fun err u =>
    same_but c s u /\ shut (stream_of u c) = false /\
    (uuid `prefix_of` got (stream_of u c) \/ out (stream_of u c) = []) /\
    (err = None -> exists ids pid sent, length ids = 12%nat /\
       got (stream_of u c) = uuid ++ ids /\ sent `prefix_of` uuid /\
       out (stream_of u c) = sent ++ ids_reply pid ids))).
Proof.
  intros Hc Hs Hu. unfold cygwinHandshake.
  eapply wp_seq; [apply on_readfull; [done|by rewrite Hs]|].
  intros [cuuid err] s1 (Hk1 & Hm1 & Hl1). cbn [fst snd] in *.
  rewrite Hs in Hm1. destruct Hm1 as (Hi1 & Hg1 & Ho1 & Hsh1). cbn in Hi1, Hg1, Ho1, Hsh1.
  destruct err as [e|]; [by prog; split_and!; auto|].
  destruct (bool_decide_reflect (uuid = cuuid)) as [<-|]; cbn [negb];
    [|by prog; split_and!; auto].
  destruct (same_but_fields _ _ _ Hk1) as [Hown1 _].
  eapply wp_seq; [apply on_write; [by rewrite Hown1|done]|].
  intros err s2 (Hk2 & sent & Hp & _ & Hs2).
  destruct (same_but_fields _ _ _ Hk2) as [Hown2 _].
  eapply wp_seq; [apply on_readfull; [by rewrite Hown2, Hown1|by rewrite Hs2]|].
  intros [ids err'] s3 (Hk3 & (Hi3 & Hg3 & Ho3 & Hsh3) & Hl3). cbn [fst snd] in *.
  rewrite Hs2, Hg1 in Hg3. rewrite Hs2, Ho1 in Ho3. rewrite Hs2 in Hsh3. cbn in Hg3, Ho3, Hsh3.
  assert (Hk : same_but c s s3) by (eauto using same_but_trans).
  destruct err' as [e|].
  { prog. split; [done|]. split; [done|]. split; [|done]. left. rewrite Hg3. by apply prefix_app_r. }
  apply wp_bind. cbn [wpx call]. split; [done|]. answer pid. rewrite PutUint32_ids by auto.
  destruct (same_but_fields _ _ _ Hk) as [Hown3 _].
  eapply wp_seq; [apply on_write; [by rewrite Hown3|done]|].
  intros err4 s4 (Hk4 & sent4 & Hp4 & He4 & Hs4).
  assert (Hk' : same_but c s s4) by (eauto using same_but_trans).
  assert (Hpre : uuid `prefix_of` got (stream_of s4 c)).
  { rewrite Hs4. cbn. rewrite Hg3. by apply prefix_app_r. }
  destruct err4 as [e|]; prog; (split; [done|]); (split; [by rewrite Hs4|]); (split; [by left|]); [done|].
  intros _. exists ids, pid, sent. split; [auto|]. rewrite Hs4. cbn.
  split; [done|]. split; [done|]. rewrite Ho3. by rewrite (He4 eq_refl).
Qed.

(** ** The accept loop *)

(** What holds between two iterations: no connection is left over, and the
    socket file holds the cookie. *)
Definition run_inv (s : app_state) (l : Z) (uuid : list byte) (u : app_state) : Prop :=
  owned u = [] /\ listeners u = l :: listeners s /\ ofiles u = ofiles s /\
  0 <= waiting u /\ length uuid = 16%nat /\ stops u = stops s /\
  (exists port, socket_text port uuid ∈ published u).

(** The open files when the cookie could not be made: the socket file that was
    just created, still without its cookie, and nobody was served. *)
Definition file_leaked (s u : app_state) : Prop :=
  (exists f, (f ∉ ofiles s) /\ ofiles u = f :: ofiles s) /\
  published u = published s /\ served u = served s.

(** The files there may be: the ones there were and the socket file. *)
Definition files_in (s : app_state) (sockfile : string) (u : app_state) : Prop :=
  forall p, p ∈ paths u -> p ∈ paths s \/ p = sockfile.

Lemma cygwin_step_ok s l uuid sockfile u :
  run_inv s l uuid u -> files_in s sockfile u ->
  wlp V (Run_step l uuid tt) u (returns (fun r t =>
    files_in s sockfile t /\
    match r with
    | Next _ => run_inv s l uuid t
    | Break _ => False
    | Return err => owned t = [] /\ listeners t = l :: listeners s /\ ofiles t = ofiles s /\
                    (err = None -> waiting t = 0 /\ stops t = S (stops s))
    end)).
Proof.
  intros (Ho & Hl & Hfs & Hw & Hu & Hn & Hp) Hf. unfold Run_step. prog. split; [done|].
  intros [] ? ->; prog.
  { split; [done|]. answer x. cbn. by rewrite Hn. }
  split; [done|]. answer now. apply wp_bind. eapply wp_mono.
  { apply on_desktop_ok, SetListenerDeadline_free. }
  intros [err0|msg] ?; prog; [|by intros []]. intros ->.
  apply accept_ok; [cbn; rewrite Hl; apply elem_here|done|intros c e|intros c bs Hcs _].
  { destruct (bool_decide (Some e = Some ErrNetTimeout)); prog; done. }
  rewrite bool_decide_eq_false_2 by done.
  eapply wp_seq; [apply wp_total; eapply cygwinHandshake_ok;
    [apply elem_here|apply stream_of_with|done]|].
  intros err v (Hk & _ & _ & Hok). destruct (same_but_fields _ _ _ Hk)
    as (Eo & Es & Ew & El & Ef & Epa & Epu & _ & _ & _ & _ & _ & _ & En). cbn in Eo, Es, Ew, El, Ef, Epa, Epu, En.
  assert (Hinv : forall z, owned z = [] -> waiting u <= waiting z -> listeners z = listeners v ->
    ofiles z = ofiles v -> published z = published v -> paths z = paths v -> stops z = stops v ->
    files_in s sockfile z /\ run_inv s l uuid z).
  { intros z Hoz Hwz Hlz Hofz Hpz Hfz Hnz. split; [intros p; rewrite Hfz, Epa; apply Hf|].
    split; [done|]. rewrite Hlz, Hofz, Hpz, Hnz, El, Ef, Epu, En. split_and!; [done|done|lia|done..]. }
  destruct err as [e|].
  - apply turn_away_ok; [done|done|]. apply Hinv; try done. cbn. lia.
  - apply hand_over_ok; [done|by rewrite Es|lia| |apply Hinv; try done; cbn; lia].
    destruct Hp as [port Hp]. exists port, uuid. rewrite <-Epu in Hp. split; [done|].
    split; [done|]. destruct (Hok eq_refl) as (ids & pid & sent & Hids & Hg & _). by exists ids.
Qed.

Lemma createCygwinSocket_ok sockfile port s :
  wp V (createCygwinSocket sockfile port) s (returns (fun r u =>
    owned u = owned s /\ served u = served s /\ waiting u = waiting s /\ listeners u = listeners s /\
    stops u = stops s /\ files_in s sockfile u /\
    match r.2 with
    | None => length r.1 = 16%nat /\ socket_text port r.1 ∈ published u /\ ofiles u = ofiles s
    | Some _ => ofiles u = ofiles s \/ file_leaked s u
    end)).
Proof.
  unfold createCygwinSocket. prog. split; [done|]. answer x.
  set (s1 := with_paths (filter (fun q => q <> sockfile) (paths s)) s).
  assert (Hf1 : files_in s sockfile s1).
  { intros p [_ Hp]%list_elem_of_filter. by left. }
  prog. split; [done|]. intros [f [e|]] t Ht; hnf in Ht; [subst t; prog; by auto 10|].
  destruct Ht as [Hf ->]. set (s2 := with_ofiles _ _).
  assert (Hf2 : files_in s sockfile s2).
  { intros p [->|Hp]%elem_of_cons; [by right|by apply Hf1]. }
  prog. split; [done|]. intros [uuid [e|]] t [Hlen ->].
  { prog. split_and!; [done..|]. right. split_and!; [by exists f|done..]. }
  prog. split; [apply elem_here|]. answer y. prog. split; [apply elem_here|]. answer z.
  apply wp_bind. eapply wp_mono; [apply on_desktop_ok, SetFileAttributes_free|].
  intros [[e|]|msg] ?; prog; [| |by intros []]; intros ->; cbn.
  - split_and!; [done..|]. left. by apply filter_self.
  - split_and!; [done..|apply elem_here|by apply filter_self].
Qed.

Lemma Cygwin_Run_ok s :
  owned s = [] -> 0 <= waiting s ->
  wlp V Run s (returns (fun err u =>
    owned u = [] /\ listeners u = listeners s /\
    (forall p, p ∈ paths u -> p ∈ paths s) /\
    (ofiles u = ofiles s \/ err <> None /\ file_leaked s u) /\
    (err = None -> waiting u = 0 /\ stops u = S (stops s)))).
Proof.
  intros Ho Hw. unfold Run.
  set (post := returns _).
  assert (Hfail : forall e u, owned u = [] -> listeners u = listeners s -> paths u = paths s ->
    ofiles u = ofiles s -> post (Returns (Some e)) u).
  { intros e u Hou Hlu Hpu Hfu. hnf. rewrite Hpu. split_and!; [done..|by left|done]. }
  eapply wp_seq; [apply dataDir_ok|].
  intros [dir [e|]] ? ->; prog; [by apply Hfail|]. split; [done|]. answer x0. prog.
  split; [done|].
  intros [l [e|]] t Ht; hnf in Ht; [subst t; prog; by apply Hfail|]. destruct Ht as (Hl & _ & ->).
  set (sockfile := filepath_Join dir CYGWIN_SOCK).
  eapply (wp_defer _ _ _ _ _ (returns (fun err u => owned u = [] /\
    listeners u = l :: listeners s /\ files_in s sockfile u /\
    (ofiles u = ofiles s \/ err <> None /\ file_leaked s u) /\ (err = None -> waiting u = 0 /\ stops u = S (stops s))))).
  - unfold Run_listening. prog. split; [apply elem_here|]. answer port.
    eapply wp_seq; [apply wp_total, createCygwinSocket_ok|].
    intros [uuid err] u (Eo & Es & Ew & El & En & Hf & Hu). cbn in Eo, Es, Ew, El, En.
    cbn [fst snd] in Hu. destruct err as [e|].
    { prog. rewrite Eo, El. split_and!; [done..| |done]. destruct Hu; [by left|by right]. }
    split; [done|]. answer x1.
    destruct Hu as (Hlen & Hpub & Hfs).
    apply (wlp_loop _ _ _ _ _ (fun _ t => run_inv s l uuid t /\ files_in s sockfile t)).
    { split; [|done]. split_and!; [by cbn; rewrite Eo|by cbn; rewrite El|done|by cbn; rewrite Ew|done|by cbn; rewrite En|by exists port]. }
    intros [] v [Hv Hfv]. eapply wp_mono; [by apply cygwin_step_ok|].
    intros [[w'|w'|err]|msg] z; prog; try done.
    + intros [Hz Hi]. auto.
    + intros [_ []].
    + intros (Hfz & Hoz & Hlz & Hofz & Hwz). auto 10.
  - intros [err|msg] u; prog; [|done]. intros (Hou & Hlu & Hfu & Hofu & Hwu).
    unfold defer. prog. cbn [on_panic]. prog. split; [done|]. answer x. prog.
    split; [done|]. answer y. split; [done|]. cbn. rewrite Hlu.
    split; [by apply filter_self|].
    split; [|done]. intros p [Hp Hin]%list_elem_of_filter. by destruct (Hfu p Hin).
Qed.

(** (C15) Running the Cygwin socket: a connection is only handed to the agent
    after it has presented the sixteen-byte cookie written in the socket file;
    every other connection is closed; whenever [Run] returns, no accepted
    connection is left over, the listener is closed, the socket file is
    removed and no file is left open, except that the socket file stays open when
    [Run] fails because there were no random bytes for the cookie (then nothing
    was written to it and nobody was served); and it returns without an error only after the context was
    cancelled and every handler has finished. *)
Theorem Run_authenticates s :
  owned s = [] -> 0 <= waiting s ->
  wlp V Run s (returns (fun err u =>
    owned u = [] /\ listeners u = listeners s /\
    (forall p, p ∈ paths u -> p ∈ paths s) /\
    (ofiles u = ofiles s \/ err <> None /\ file_leaked s u) /\
    (err = None -> waiting u = 0 /\ stops u = S (stops s)))).
Proof. apply Cygwin_Run_ok. Qed.
End cygwin.

(** ** Instances *)

Lemma Run_authenticates_witness :
  wlp (app_env cookie_shown (fun _ _ => True) demo_world)
    (Run (fun a b => a +:+ "\" +:+ b)) demo_app (returns (fun err u =>
    owned u = [] /\ listeners u = [] /\
    (forall p, p ∈ paths u -> p ∈ ["C:\readme.txt"%string]) /\
    (ofiles u = [] \/ err <> None /\ file_leaked demo_app u) /\ (err = None -> waiting u = 0 /\ stops u = 1%nat))).
Proof.
  apply (Run_authenticates (fun a b => a +:+ "\" +:+ b) demo_world demo_app).
  - reflexivity.
  - cbn. lia.
Defined.
