(* ===== verification/XShell.v ===== *)
(** app/xshell.go and utils/xagent.go, utils/window.go: the agent protocol of
    XShell, a cookie handshake and a proxy that repairs frames. *)
From S2P Require Import Prelude Effects Desktop Misc TcpOwner Conn App.
Local Open Scope Z_scope.

Definition maxAgentResponseBytes : Z := 16 * 2 ^ 20.
Definition agentSignRequest : Z := 13.

(** ** The proxy's state *)
Record xshellProxy : Type := {
  buf : list byte;
  wlength : Z;
  wbuf : list byte;
}.

Definition with_buf (b : list byte) (s : xshellProxy) : xshellProxy :=
  {| buf := b; wlength := wlength s; wbuf := wbuf s |}.

Definition new_proxy : xshellProxy := {| buf := []; wlength := 0; wbuf := [] |}.

Section xshell.
(** ssh.Unmarshal into initAgentMsg ([Flag], [Length] and the rest) and into
    signRequestAgentMsg (whether it fails), and ssh.Marshal of
    initAgentRepMsg. *)
Context (UnmarshalInit : list byte -> (Z * Z * list byte) + error)
        (UnmarshalSign : list byte -> option error)
        (MarshalRep : Z -> list byte).

(** ** The handshake *)

Definition xshellHandshake (cookie : list byte) : prog ConnE (option error) :=
  let* (len, err) := ReadFull 4 in
  match err with Some e => Ret (Some e) | None =>
  let l := u32 (be_uint len + 4) in
  if maxAgentResponseBytes <? l then
    Ret (Some (ErrorString ("xagent: request too large: " +:+ pretty l))) else
  let* (req, err) := ReadFull (Z.to_nat l) in
  match err with Some e => Ret (Some e) | None =>
  match req with
  | [] => Panic "index out of range"
  | opcode :: _ =>
  if negb (byte_val opcode =? 99) then
    Ret (Some (ErrorString ("xagent: unknown opcode: " +:+ pretty (byte_val opcode)))) else
  match UnmarshalInit req with
  | inr e => Ret (Some e)
  | inl (flag, length_, cookie1) =>
  if negb (length_ =? Z.of_nat (length cookie)) then
    Ret (Some (ErrorString "xagent: invalid cookie length")) else
  if length_ <? Z.of_nat (length cookie1) then
    Ret (Some (ErrorString "xagent: invalid message length")) else
  let* (cookieRemain, err) := ReadFull (Z.to_nat (length_ - Z.of_nat (length cookie1))) in
  match err with Some e => Ret (Some e) | None =>
  if negb (bool_decide (cookie1 ++ cookieRemain = cookie)) then
    Ret (Some (ErrorString "xagent: invalid cookie")) else
  let rep := MarshalRep flag in
  err <- call (ConnWrite (be_bytes 4 (u32 (Z.of_nat (length rep))) ++ rep)) ;;
  Ret err
  end end end end end.

(** ** The proxy

    [Read] into a buffer of [n] bytes returns the bytes copied into it. *)
Definition serve_buf (s : xshellProxy) (n : nat) : xshellProxy * (list byte * option error) :=
  (with_buf (drop n (buf s)) s, (take n (buf s), None)).

(** The frame in [s.buf] once it was read: [l] counts the body. *)
Definition repair (body : list byte) : list byte :=
  let l := Z.of_nat (length body) in
  match body with
  | b :: _ =>
      if (byte_val b =? agentSignRequest) &&
         match UnmarshalSign body with Some _ => true | None => false end
      then be_bytes 4 (l + 4) ++ body ++ [x00; x00; x00; x00]
      else be_bytes 4 l ++ body
  | [] => be_bytes 4 l
  end.

Definition Read (s : xshellProxy) (n : nat)
    : prog ConnE (xshellProxy * (list byte * option error)) :=
  match buf s with
  | _ :: _ => Ret (serve_buf s n)
  | [] =>
  let* (len, err) := ReadFull 4 in
  match err with Some e => Ret (s, ([], Some e)) | None =>
  let l := be_uint len in
  if l =? 0 then Ret (s, ([], Some ErrUnexpectedEOF)) else
  if maxAgentResponseBytes <? l then
    Ret (s, ([], Some (ErrorString ("xagent: request too large: " +:+ pretty l)))) else
  let* (body, err) := ReadFull (Z.to_nat l) in
  match err with
  | Some e =>
      (** [s.buf] was made before the read: four zeros, what was read, zeros *)
      Ret (with_buf (replicate 4 x00 ++ body ++ replicate (Z.to_nat l - length body) x00) s,
           ([], Some e))
  | None => Ret (serve_buf (with_buf (repair body) s) n)
  end end end.

Definition Write (s : xshellProxy) (p : list byte)
    : prog ConnE (xshellProxy * (Z * option error)) :=
  if wlength s =? 0 then
    if negb (length p =? 4)%nat then
      Ret (s, (0, Some (ErrorString "xagent proxy: invalid write status"))) else
    Ret ({| buf := buf s; wlength := be_uint p + 4; wbuf := wbuf s ++ p |},
         (Z.of_nat (length p), None))
  else
    let s1 := {| buf := buf s; wlength := wlength s; wbuf := wbuf s ++ p |} in
    if Z.of_nat (length (wbuf s1)) =? wlength s then
      err <- call (ConnWrite (wbuf s1)) ;;
      match err with
      | Some e => Ret ({| buf := buf s; wlength := 0; wbuf := wbuf s1 |}, (0, Some e))
      | None => Ret ({| buf := buf s; wlength := 0; wbuf := [] |},
                     (Z.of_nat (length p), None))
      end
    else if wlength s <? Z.of_nat (length (wbuf s1)) then
      Ret (s1, (0, Some (ErrorString "xagent proxy: invalid write length")))
    else Ret (s1, (Z.of_nat (length p), None)).

(** [Close] is the connection's. *)
Definition Close (c : Z) : prog AppE unit := call (CloseConn c).

(** ** xagent.go, window.go *)

Definition xAgentClassName : string := "NSSSH:AGENTWND".
Definition xAgentSingleClassName : string := "STATIC".
Definition xAgentSingleWindowName : string := "_SINGLE_INSTANCE::XAGENT".

Definition register (class : string) : prog AppE (option error) :=
  let* (res, err) := call (RegisterClass class) in
  if res =? 0 then Ret (Some err) else Ret None.

Definition unregister (class : string) : prog AppE (option error) :=
  let* (res, err) := call (UnregisterClass class) in
  if res =? 0 then Ret (Some err) else Ret None.

(** The window's class and handle. *)
Definition createDefaultWindow (class name : string)
    : prog AppE (option (string * Z) * option error) :=
  match UTF16Ptr class with None => Ret (None, Some EINVAL) | Some _ =>
  match UTF16Ptr name with None => Ret (None, Some EINVAL) | Some _ =>
  err <- register class ;;
  match err with Some e => Ret (None, Some e) | None =>
  let* (h, err) := call (CreateWindowEx class name) in
  if h =? 0 then unregister class ;; Ret (None, Some err)
  else Ret (Some (class, h), None)
  end end end.

Definition window_Close (win : string * Z) : prog AppE unit :=
  call (DestroyWindow win.2) ;; unregister win.1 ;; Ret tt.

Definition SetWindowLong (h index value : Z) : prog AppE Z :=
  ret <- call (SetWindowLongW h index value) ;;
  Ret ((ret + 2 ^ 31) mod 2 ^ 32 - 2 ^ 31).

Record XAgent : Type := {
  socket : Z;
  cookieWin : string * Z;
  singleInstanceWin : string * Z;
}.

Definition NewXAgent (cookie : string) : prog AppE (option XAgent * option error) :=
  let* (l, err) := call (Listen "tcp" "localhost:0") in
  match err with Some e => Ret (None, Some e) | None =>
  let* (w1, err) := createDefaultWindow xAgentClassName cookie in
  match err with Some e => Ret (None, Some e) | None =>
  let* (w2, err) := createDefaultWindow xAgentSingleClassName xAgentSingleWindowName in
  match err with Some e => Ret (None, Some e) | None =>
  match w1, w2 with
  | Some w1, Some w2 =>
      port <- call (ListenerPort l) ;;
      SetWindowLong w1.2 0xFFFFFFEB port ;;
      Ret (Some {| socket := l; cookieWin := w1; singleInstanceWin := w2 |}, None)
  | _, _ => Panic "nil pointer dereference"
  end end end end.

Definition XAgent_Close (x : XAgent) : prog AppE unit :=
  window_Close (cookieWin x) ;; window_Close (singleInstanceWin x).

(** ** Run *)

Definition Run_step (l : Z) (cookie : list byte) (_ : unit)
    : prog AppE (ctl unit (option error)) :=
  let* (conn, err) := call (Accept l) in
  match err with
  | Some e =>
      call WgWait ;;
      if bool_decide (e = ErrClosedPipe) then Ret (Return None) else Ret (Return (Some e))
  | None =>
      err <- on conn (xshellHandshake cookie) ;;
      match err with
      | Some e =>
          call (Println e) ;;
          call (CloseConn conn) ;;
          Ret (Next tt)
      | None =>
          call WgAdd ;;
          call (Go conn) ;;
          Ret (Next tt)
      end
  end.

Definition Run : prog AppE (option error) :=
  cookie <- translate OnRand (RandomString 7) ;;
  let* (win, err) := NewXAgent cookie in
  match err, win with
  | Some e, _ => Ret (Some e)
  | None, None => Panic "nil pointer dereference"
  | None, Some win =>
      defer (XAgent_Close win) (
        r <- loop (Run_step (socket win) (bytes_of cookie)) tt ;;
        match r with inl _ => Ret None | inr err => Ret err end)
  end.

(** ** The handshake is authenticated *)

(** The peer sent a request whose cookie is ours: a length, a message of that
    length, and the rest of the cookie. *)
Definition presents (cookie : list byte) (bs : list byte) (flag : Z) : Prop :=
  exists hdr req cookie1 rest, bs = hdr ++ req ++ rest /\
    length hdr = 4%nat /\ Z.of_nat (length req) = u32 (be_uint hdr + 4) /\
    UnmarshalInit req = inl (flag, Z.of_nat (length cookie), cookie1) /\
    cookie1 ++ rest = cookie.

Definition reply (flag : Z) : list byte :=
  be_bytes 4 (u32 (Z.of_nat (length (MarshalRep flag)))) ++ MarshalRep flag.

(** The length field that makes the code index an empty message. *)
Definition empty_request : list byte := [xff; xff; xff; xfc].

(** Bytes were read; what was written is stated apart. *)
Definition consumed (s : stream) (bs : list byte) (t : stream) : Prop :=
  inc s = bs ++ inc t /\ got t = got s ++ bs /\ shut t = shut s.

Lemma moved_consumed s a t : moved s a t -> consumed s a t /\ out t = out s.
Proof. intros (? & ? & ? & ?). by split. Qed.

Lemma consumed_moved s a t b u : consumed s a t -> moved t b u -> consumed s (a ++ b) u.
Proof.
  intros (H1 & H2 & H3) (K1 & K2 & K3 & K4). unfold consumed.
  rewrite H1, K1, K2, H2, K4, H3, <-!app_assoc. auto.
Qed.

Definition handshake_post (r : bool) (cookie : list byte) (s : stream)
    (o : outcome (option error)) (t : stream) : Prop :=
  exists bs, consumed s bs t /\
  match o with
  | Returns None => exists flag, presents cookie bs flag /\ out t = out s ++ reply flag
  | Returns (Some _) => out t = out s \/ (r = false /\ exists flag, presents cookie bs flag)
  | Panics _ => out t = out s /\ bs = empty_request
  end.

Lemma empty_request_header hdr :
  length hdr = 4%nat -> u32 (be_uint hdr + 4) = 0 -> hdr = empty_request.
Proof.
  intros Hl Hz. apply be_uint_inj; [done|].
  pose proof (be_uint_bound hdr) as Hb. rewrite Hl in Hb. change (256 ^ Z.of_nat 4) with (2 ^ 32) in Hb.
  unfold wrap in Hz. apply Z.mod_divide in Hz as [k Hk]; [|lia].
  change (be_uint empty_request) with 0xfffffffc. lia.
Qed.

(** A read that failed, or a check that did: nothing was sent. *)
Lemma post_refused r cookie s bs t e :
  consumed s bs t -> out t = out s -> handshake_post r cookie s (Returns (Some e)) t.
Proof. intros Hc Ho. exists bs. auto. Qed.

(** The last step: the cookie has been verified. *)
Lemma reply_ok r cookie s bs t flag :
  consumed s bs t -> out t = out s -> shut t = false -> presents cookie bs flag ->
  wp (conn_env r) (err <- call (ConnWrite (reply flag)) ;; Ret err) t (handshake_post r cookie s).
Proof.
  intros (H1 & H2 & H3) Ho Hs Hp. prog. split; [done|].
  intros err u (sent & Hsent & -> & He).
  exists bs. split; [by split_and!|]. destruct err as [e|]; cbn.
  - right. eauto.
  - subst sent. rewrite Ho. eauto.
Qed.

Lemma xshellHandshake_ok r cookie s :
  shut s = false ->
  wp (conn_env r) (xshellHandshake cookie) s (handshake_post r cookie s).
Proof.
  intros Hs. unfold xshellHandshake. eapply wp_seq; [by apply ReadFull_ok|].
  intros [hdr err] t1 [Hm1 Hr1]. cbn [fst snd] in *.
  destruct (moved_consumed _ _ _ Hm1) as [Hc1 Ho1].
  destruct err as [e|]; [prog; by eapply post_refused|].
  set (l := u32 (be_uint hdr + 4)).
  destruct (maxAgentResponseBytes <? l); [prog; by eapply post_refused|].
  assert (Hs1 : shut t1 = false) by (destruct Hc1 as (_ & _ & ->); done).
  eapply wp_seq; [by apply ReadFull_ok|]. intros [req err] t2 [Hm2 Hr2]. cbn [fst snd] in *.
  pose proof (consumed_moved _ _ _ _ _ Hc1 Hm2) as Hc2.
  destruct (moved_consumed _ _ _ Hm2) as [_ Ho2]. rewrite Ho1 in Ho2.
  destruct err as [e|]; [prog; by eapply post_refused|].
  assert (Hl : Z.of_nat (length req) = l).
  { pose proof (wrap_range 32 (be_uint hdr + 4)). subst l. rewrite Hr2. lia. }
  destruct req as [|op req']; [prog|].
  { exists hdr. rewrite app_nil_r in Hc2. split; [done|]. split; [done|].
    apply empty_request_header; [done|]. cbn in Hl. subst l. lia. }
  set (req := op :: req') in *.
  destruct (byte_val op =? 99); cbn [negb]; [|prog; by eapply post_refused].
  destruct (UnmarshalInit req) as [[[flag len] cookie1]|e] eqn:Hu; [|prog; by eapply post_refused].
  destruct (Z.eqb_spec len (Z.of_nat (length cookie))) as [->|]; cbn [negb];
    [|prog; by eapply post_refused].
  destruct (Z.of_nat (length cookie) <? Z.of_nat (length cookie1)); [prog; by eapply post_refused|].
  assert (Hs2 : shut t2 = false) by (destruct Hc2 as (_ & _ & ->); done).
  eapply wp_seq; [by apply ReadFull_ok|]. intros [rest err] t3 [Hm3 Hr3]. cbn [fst snd] in *.
  pose proof (consumed_moved _ _ _ _ _ Hc2 Hm3) as Hc3.
  destruct (moved_consumed _ _ _ Hm3) as [_ Ho3]. rewrite Ho2 in Ho3.
  destruct err as [e|]; [prog; by eapply post_refused|].
  destruct (bool_decide_reflect (cookie1 ++ rest = cookie)) as [Hk|]; cbn [negb];
    [|prog; by eapply post_refused].
  eapply reply_ok; [exact Hc3|done|destruct Hc3 as (_ & _ & ->); done|].
  exists hdr, req, cookie1, rest. rewrite <-app_assoc. done.
Qed.

(** A well-formed request for a cookie. *)
Definition valid_request (cookie req rest : list byte) (flag : Z) : Prop :=
  4 <= Z.of_nat (length req) <= maxAgentResponseBytes /\ head req = Some x63 /\
  exists cookie1, UnmarshalInit req = inl (flag, Z.of_nat (length cookie), cookie1) /\
    cookie1 ++ rest = cookie.

(** Reading the length and the message on a reliable connection. *)
Lemma header_length n :
  4 <= n <= maxAgentResponseBytes -> u32 (be_uint (be_bytes 4 (n - 4)) + 4) = n.
Proof.
  unfold maxAgentResponseBytes. intros Hn. rewrite be_uint_bytes.
  change (256 ^ Z.of_nat 4) with (2 ^ 32). rewrite Z.mod_small, wrap_small; lia.
Qed.

Lemma valid_accepted cookie req rest more flag s :
  shut s = false -> valid_request cookie req rest flag ->
  inc s = be_bytes 4 (Z.of_nat (length req) - 4) ++ req ++ rest ++ more ->
  wp (conn_env true) (xshellHandshake cookie) s (returns (fun err t =>
    err = None /\ inc t = more /\ out t = out s ++ reply flag)).
Proof.
  intros Hs (Hlen & Hhd & cookie1 & Hu & Hk) Hi. unfold xshellHandshake.
  eapply wp_seq; [apply ReadFull_reliable; [done|]|].
  { rewrite Hi, length_app, length_be_bytes. lia. }
  rewrite Hi, take_app_length', drop_app_length' by (by rewrite length_be_bytes).
  intros ? t1 [-> ->]. cbn beta iota. rewrite header_length by done.
  destruct (Z.ltb_spec maxAgentResponseBytes (Z.of_nat (length req))); [lia|]. rewrite Nat2Z.id.
  eapply wp_seq; [apply ReadFull_reliable; [done|cbn; rewrite length_app; lia]|].
  cbn [inc got out shut]. rewrite take_app_length, drop_app_length.
  intros ? t2 [-> ->]. cbn beta iota.
  destruct req as [|op req']; [done|]. cbn in Hhd. injection Hhd as ->.
  change (byte_val x63 =? 99) with true. cbn [negb]. rewrite Hu, Z.eqb_refl. cbn [negb].
  assert (Hck : (length cookie = length cookie1 + length rest)%nat) by (by rewrite <-Hk, length_app).
  destruct (Z.ltb_spec (Z.of_nat (length cookie)) (Z.of_nat (length cookie1))); [lia|].
  replace (Z.to_nat (Z.of_nat (length cookie) - Z.of_nat (length cookie1))) with (length rest) by lia.
  eapply wp_seq; [apply ReadFull_reliable; [done|cbn; rewrite length_app; lia]|].
  cbn [inc got out shut]. rewrite take_app_length, drop_app_length.
  intros ? t3 [-> ->]. cbn beta iota. rewrite bool_decide_eq_true_2 by done. cbn [negb].
  fold (reply flag). prog. split; [done|]. intros err u (sent & _ & -> & He). cbn.
  destruct err; [done|]. by subst sent.
Qed.

(** (C16) The XShell handshake is sound and complete.  On any connection it
    ends; it succeeds only after the peer presented the cookie, and its reply
    is the one thing it then sends; when it refuses, nothing was sent, unless
    the reply to a presented cookie could not be written.  On a reliable
    connection every well-formed request for the cookie is accepted. *)
Theorem xshellHandshake_spec cookie :
  (forall r s, shut s = false ->
     wp (conn_env r) (xshellHandshake cookie) s (handshake_post r cookie s)) /\
  (forall req rest more flag s, shut s = false -> valid_request cookie req rest flag ->
     inc s = be_bytes 4 (Z.of_nat (length req) - 4) ++ req ++ rest ++ more ->
     wp (conn_env true) (xshellHandshake cookie) s (returns (fun err t =>
       err = None /\ inc t = more /\ out t = out s ++ reply flag))).
Proof. split; [intros r s; apply xshellHandshake_ok|apply valid_accepted]. Qed.

(** A four-byte length of 0xFFFFFFFC makes the 32-bit sum wrap to zero,
    passes the size check, and makes the handshake panic on the empty message:
    any client that can reach the port can do this before presenting a
    cookie. *)
Theorem xshellHandshake_panics cookie more s :
  shut s = false -> inc s = empty_request ++ more ->
  wp (conn_env true) (xshellHandshake cookie) s (fun o t =>
    o = Panics "index out of range" /\ inc t = more).
Proof.
  intros Hs Hi. unfold xshellHandshake. apply wp_bind.
  eapply wp_mono; [apply ReadFull_reliable; [done|rewrite Hi; cbn; lia]|].
  rewrite Hi. intros [v|msg] t; prog; [|done]. intros [-> ->].
  change (u32 (be_uint (take 4 (empty_request ++ more)) + 4)) with 0.
  change (maxAgentResponseBytes <? 0) with false. cbn beta iota.
  apply wp_bind. eapply wp_mono; [apply ReadFull_reliable; [done|cbn; lia]|].
  intros [v|msg] t; prog; [|done]. by intros [-> ->].
Qed.

(** ** The proxy's reads *)

(** A message on the wire: its length, and its bytes. *)
Definition frame (body : list byte) : list byte :=
  be_bytes 4 (Z.of_nat (length body)) ++ body.

(** XShell leaves the flags out of its signing requests: such a request does
    not parse, and the agent is to see it with flags of four zero bytes. *)
Definition flagless (body : list byte) : Prop :=
  head body = Some x0d /\ UnmarshalSign body <> None.
Inductive expected : list byte -> list byte -> Prop :=
| expected_flags body : flagless body -> expected body (body ++ [x00; x00; x00; x00])
| expected_same body : ~ flagless body -> expected body body.

(** The stream of messages the agent expects for what XShell sends. *)
Inductive frames : list byte -> list byte -> Prop :=
| frames_nil : frames [] []
| frames_cons body body' rest o :
    0 < Z.of_nat (length body) <= maxAgentResponseBytes -> expected body body' ->
    frames rest o -> frames (frame body ++ rest) (frame body' ++ o).

Lemma agent_sign_opcode b : byte_val b = agentSignRequest <-> b = x0d.
Proof. split; [|by intros ->]. intros H. by apply byte_val_inj. Qed.

Lemma repair_expected body body' : expected body body' -> repair body = frame body'.
Proof.
  unfold repair, frame. intros [b [Hh Hu]|b Hn].
  - destruct b as [|c b]; [done|]. injection Hh as ->.
    destruct (UnmarshalSign (x0d :: b)); [|done]. rewrite length_app, Nat2Z.inj_add. done.
  - destruct b as [|c b]; [done|]. case_match eqn:E; [|done]. destruct Hn.
    apply andb_prop in E as [Hc Hu]. apply Z.eqb_eq, agent_sign_opcode in Hc as ->.
    split; [done|]. by destruct (UnmarshalSign (x0d :: b)).
Qed.

Lemma repair_length body : (4 <= length (repair body))%nat.
Proof.
  unfold repair. destruct body; [by rewrite length_be_bytes|].
  destruct (_ && _); rewrite !length_app, length_be_bytes; lia.
Qed.

(** (C27) Reads through the proxy refine the stream of messages the agent
    expects: each message of XShell with its length in front of it, a signing
    request that does not parse made complete by four zero bytes of flags that
    its length counts.  On a reliable connection whose frames are well formed, each read into a
    non-empty buffer returns at least one byte and no more than fit, and what
    it returns, what it buffers and what is expected for the remaining frames add
    up to the same byte sequence as before. *)
Theorem Read_refines p n s o :
  (0 < n)%nat -> shut s = false -> frames (inc s) o -> buf p ++ o <> [] ->
  wp (conn_env true) (Read p n) s (returns (fun r t =>
    let '(p', (bs, err)) := r in
    err = None /\ bs <> [] /\ (length bs <= n)%nat /\
    exists o', frames (inc t) o' /\ bs ++ buf p' ++ o' = buf p ++ o /\
      wlength p' = wlength p /\ wbuf p' = wbuf p /\ out t = out s)).
Proof.
  intros Hn Hs Hf Hne.
  assert (Hserve : forall q o t, frames (inc t) o -> buf q <> [] -> out t = out s ->
    let '(p', (bs, err)) := serve_buf q n in
    err = None /\ bs <> [] /\ (length bs <= n)%nat /\
    exists o', frames (inc t) o' /\ bs ++ buf p' ++ o' = buf q ++ o /\
      wlength p' = wlength q /\ wbuf p' = wbuf q /\ out t = out s).
  { intros q o' t Hf' Hq Ho. unfold serve_buf. cbn. split; [done|].
    split; [destruct (buf q), n; [done|done|lia|done]|].
    rewrite length_take. split; [lia|]. exists o'. split; [done|].
    by rewrite app_assoc, take_drop. }
  unfold Read. destruct (buf p) as [|b bs] eqn:Hb.
  2: { prog. rewrite <-Hb. apply Hserve; [done|by rewrite Hb|done]. }
  remember (inc s) as i eqn:Hi. symmetry in Hi.
  destruct Hf as [|body body' rest o' Hlen Hexp Hf']; [done|].
  unfold frame in Hi. rewrite <-app_assoc in Hi. rewrite <-(repair_expected _ _ Hexp).
  eapply wp_seq; [apply ReadFull_reliable; [done|]|].
  { rewrite Hi, length_app, length_be_bytes. lia. }
  rewrite Hi, take_app_length', drop_app_length' by (by rewrite length_be_bytes).
  intros ? t1 [-> ->]. cbn beta iota. rewrite be_uint_bytes.
  change (256 ^ Z.of_nat 4) with (2 ^ 32). unfold maxAgentResponseBytes in *.
  rewrite Z.mod_small by lia. destruct (Z.eqb_spec (Z.of_nat (length body)) 0); [lia|].
  destruct (Z.ltb_spec (16 * 2 ^ 20) (Z.of_nat (length body))); [lia|]. rewrite Nat2Z.id.
  eapply wp_seq; [apply ReadFull_reliable; [done|cbn; rewrite length_app; lia]|].
  cbn [inc got out shut]. rewrite take_app_length, drop_app_length.
  intros ? t2 [-> ->]. prog. apply (Hserve (with_buf (repair body) p)); [done| |done].
  cbn [buf with_buf]. pose proof (repair_length body) as Hr. intros Hnil.
  rewrite Hnil in Hr. cbn in Hr. lia.
Qed.

(** ** The proxy's writes

    XShell takes every write for a message, so the writes are recorded one by
    one; they succeed. *)
Definition message_env : env ConnE (list (list byte)) :=
  {| may X e s := match e with ConnRead _ => False | ConnWrite _ => True end;
     does X e s :=
       match e in ConnE X return X -> list (list byte) -> Prop with
       | ConnRead _ => fun _ _ => False
       | ConnWrite bs => fun err t => err = None /\ t = s ++ [bs]
       end |}.

(** The agent's writes of one message, stopping at the first error. *)
Fixpoint write_all (p : xshellProxy) (ps : list (list byte))
    : prog ConnE (xshellProxy * option error) :=
  match ps with
  | [] => Ret (p, None)
  | x :: ps =>
      r <- Write p x ;;
      match r with
      | (p, (_, Some e)) => Ret (p, Some e)
      | (p, (_, None)) => write_all p ps
      end
  end.

Definition idle (p : xshellProxy) : Prop := wlength p = 0 /\ wbuf p = [].

(** The chunks of a body that is not complete yet. *)
Lemma write_chunks chunks b done_ s hdr :
  Forall (fun c => c <> []) chunks -> chunks <> [] -> length hdr = 4%nat ->
  wp message_env (write_all {| buf := b; wlength := Z.of_nat (length (done_ ++ concat chunks)) + 4;
                              wbuf := hdr ++ done_ |} chunks) s
    (returns (fun r t => r = ({| buf := b; wlength := 0; wbuf := [] |}, None) /\
                         t = s ++ [hdr ++ done_ ++ concat chunks])).
Proof.
  intros Hc. revert done_. induction Hc as [|c chunks Hc Hcs IH]; intros d Hne Hh; [done|].
  cbn [write_all concat]. unfold Write at 1. cbn [wlength wbuf buf].
  destruct (Z.eqb_spec (Z.of_nat (length (d ++ c ++ concat chunks)) + 4) 0); [lia|].
  rewrite !length_app, Hh. destruct chunks as [|c2 chunks].
  - cbn [concat]. rewrite !app_nil_r, Nat.add_0_r.
    rewrite (proj2 (Z.eqb_eq _ _)) by lia. prog. split; [done|]. intros err t [-> ->]. prog. by rewrite <-app_assoc.
  - assert (Hpos : (0 < length (concat (c2 :: chunks)))%nat).
    { inversion Hcs as [|?? Hc2]; subst. cbn. rewrite length_app. destruct c2; [done|cbn; lia]. }
    rewrite (proj2 (Z.eqb_neq _ _)), (proj2 (Z.ltb_ge _ _)) by lia. prog. specialize (IH (d ++ c) ltac:(done) Hh). rewrite <-!app_assoc in IH.
    replace (Z.of_nat (length d + (length c + length (concat (c2 :: chunks)))) + 4)
      with (Z.of_nat (length (d ++ c ++ concat (c2 :: chunks))) + 4)
      by (rewrite !length_app; lia).
    rewrite <-app_assoc. exact IH.
Qed.

(** (C28) Writes through the proxy are reassembled: a message the agent writes
    as a four-byte length and then the body in any number of non-empty pieces
    reaches XShell as exactly one write of the whole frame, and the proxy is
    ready for the next message. *)
Theorem Write_reassembles p body chunks s :
  idle p -> body <> [] -> Z.of_nat (length body) < 2 ^ 32 ->
  Forall (fun c => c <> []) chunks -> concat chunks = body ->
  wp message_env (write_all p (be_bytes 4 (Z.of_nat (length body)) :: chunks)) s
    (returns (fun r t => r.2 = None /\ idle r.1 /\ buf r.1 = buf p /\
      t = s ++ [be_bytes 4 (Z.of_nat (length body)) ++ body])).
Proof.
  intros [Hw Hb] Hne Hlt Hc <-. cbn [write_all]. unfold Write at 1.
  rewrite Hw, Hb, Z.eqb_refl, length_be_bytes. cbn [Nat.eqb negb app]. prog.
  rewrite be_uint_bytes. change (256 ^ Z.of_nat 4) with (2 ^ 32). rewrite Z.mod_small by lia.
  eapply wp_mono.
  { rewrite <-(app_nil_r (be_bytes 4 (Z.of_nat (length (concat chunks))))) at 1.
    apply (write_chunks chunks (buf p) []); [done|by intros ->|apply length_be_bytes]. }
  intros [r|msg] t; prog; [|done]. by intros [-> ->].
Qed.

(** ** Well-formed proxies

    What is buffered for the agent is at most one repaired frame.  Nothing is
    buffered for XShell, or the beginning of a frame (its header at least), and
    no more of it than its header announced. *)
Definition writing_wf (p : xshellProxy) : Prop :=
  idle p \/
  (4 <= Z.of_nat (length (wbuf p)) <= wlength p /\ wlength p = be_uint (take 4 (wbuf p)) + 4).
Definition proxy_wf (p : xshellProxy) : Prop :=
  Z.of_nat (length (buf p)) <= maxAgentResponseBytes + 8 /\ writing_wf p.

(** After a write that failed, what had been collected stays in front of what
    comes next: all of it with the failed piece, or without it. *)
Definition stale (p : xshellProxy) (bs : list byte) (q : xshellProxy) : Prop :=
  (wlength q = wlength p \/ wlength q = 0) /\ (wbuf q = wbuf p \/ wbuf q = wbuf p ++ bs).

Lemma repair_bound body :
  Z.of_nat (length body) <= maxAgentResponseBytes ->
  Z.of_nat (length (repair body)) <= maxAgentResponseBytes + 8.
Proof.
  intros Hl. unfold repair. destruct body as [|b body]; [rewrite length_be_bytes; lia|].
  destruct (_ && _); rewrite !length_app, length_be_bytes; cbn [length] in *; lia.
Qed.

Lemma wf_with_buf p bs :
  proxy_wf p -> Z.of_nat (length bs) <= maxAgentResponseBytes + 8 -> proxy_wf (with_buf bs p).
Proof. intros [_ Hw] Hb. by split. Qed.

Lemma serve_buf_wf p n :
  proxy_wf p -> let '(q, (bs, err)) := serve_buf p n in
  proxy_wf q /\ (length bs <= n)%nat /\ err = None.
Proof.
  intros Hp. unfold serve_buf. split; [|rewrite length_take; split; [lia|done]].
  apply wf_with_buf; [done|]. rewrite length_drop. destruct Hp as [Hb _]. lia.
Qed.

Lemma Read_wf p n s :
  proxy_wf p -> shut s = false ->
  wp (conn_env false) (Read p n) s (returns (fun r t =>
    proxy_wf r.1 /\ (length r.2.1 <= n)%nat /\ (r.2.2 <> None -> r.2.1 = []) /\ out t = out s)).
Proof.
  intros Hp Hs.
  assert (Hserve : forall q t, proxy_wf q -> out t = out s ->
    wp (conn_env false) (Ret (serve_buf q n)) t (returns (fun r t =>
      proxy_wf r.1 /\ (length r.2.1 <= n)%nat /\ (r.2.2 <> None -> r.2.1 = []) /\ out t = out s))).
  { intros q t Hq Ht. pose proof (serve_buf_wf q n Hq) as H. prog.
    destruct (serve_buf q n) as [q' [bs err]]. by destruct H as (? & ? & ->). }
  unfold Read. destruct (buf p) as [|b0 rest]; [|by apply Hserve].
  eapply wp_seq; [by apply ReadFull_ok|]. intros [len [e|]] t ((_ & _ & Ho & Hsh) & Hlen);
    cbn [fst snd] in *; [prog; split; [done|]; split; [cbn; lia|done]|].
  pose proof (be_uint_bound len) as Hr. set (l := be_uint len) in *.
  destruct (l =? 0); [prog; split; [done|]; split; [cbn; lia|done]|].
  destruct (Z.ltb_spec maxAgentResponseBytes l); [prog; split; [done|]; split; [cbn; lia|done]|].
  eapply wp_seq; [apply ReadFull_ok; by rewrite Hsh|].
  intros [body [e|]] u ((_ & _ & Ho2 & _) & Hbody); cbn [fst snd] in *.
  - prog. split; [|split; [cbn; lia|split; [done|congruence]]]. apply wf_with_buf; [done|].
    rewrite !length_app, !length_replicate. lia.
  - apply Hserve; [|congruence]. apply wf_with_buf; [done|]. apply repair_bound. lia.
Qed.

Lemma Write_wf p bs s :
  proxy_wf p -> shut s = false ->
  wp (conn_env false) (Write p bs) s (returns (fun r t =>
    match r.2.2 with Some _ => stale p bs r.1 | None => proxy_wf r.1 end /\
    buf r.1 = buf p /\ (r.2.2 = None -> r.2.1 = Z.of_nat (length bs)) /\
    exists sent, out t = out s ++ sent /\
      (sent <> [] -> sent `prefix_of` wbuf p ++ bs /\
                     Z.of_nat (length (wbuf p ++ bs)) = wlength p) /\
      (r.2.2 = None -> Z.of_nat (length (wbuf p ++ bs)) = wlength p -> sent = wbuf p ++ bs))).
Proof.
  intros [Hb Hw] Hs. unfold Write.
  assert (Hquiet : Z.of_nat (length (wbuf p ++ bs)) <> wlength p -> exists sent, out s = out s ++ sent /\
    (sent <> [] -> sent `prefix_of` wbuf p ++ bs /\ Z.of_nat (length (wbuf p ++ bs)) = wlength p) /\
    (None = @None error -> Z.of_nat (length (wbuf p ++ bs)) = wlength p -> sent = wbuf p ++ bs)).
  { exists []. by rewrite app_nil_r. }
  destruct (Z.eqb_spec (wlength p) 0) as [H0|H0].
  - assert (Hi : wbuf p = []) by (destruct Hw as [[_ Hi]|[Hl _]]; [done|lia]).
    destruct (Nat.eqb_spec (length bs) 4) as [H4|H4]; cbn [negb]; prog.
    + split; [split; [done|]|].
      { right. cbn [wbuf wlength]. rewrite Hi. cbn [app]. rewrite take_ge by lia.
        pose proof (be_uint_bound bs). lia. }
      split; [done|]. split; [done|]. apply Hquiet. rewrite length_app. lia.
    + split; [split; auto|]. split; [done|]. split; [done|]. exists []. by rewrite app_nil_r.
  - destruct Hw as [[Hw _]|[Hlen Hann]]; [done|]. cbn [wbuf].
    destruct (Z.eqb_spec (Z.of_nat (length (wbuf p ++ bs))) (wlength p)) as [He|He].
    + prog. split; [done|]. intros err t (sent & Hp & -> & Herr). destruct err as [e|]; prog.
      * split; [split; auto|]. split; [done|]. split; [done|]. by exists sent.
      * split; [split; [done|by left]|]. split; [done|]. split; [done|]. exists sent. auto.
    + destruct (Z.ltb_spec (wlength p) (Z.of_nat (length (wbuf p ++ bs)))); prog.
      * split; [split; auto|]. split; [done|]. split; [done|].
        destruct (Hquiet He) as (sent & ? & ? & _). by exists sent.
      * split; [split; [done|]|].
        { right. cbn [wbuf wlength]. rewrite length_app in *.
          rewrite take_app_le by lia. lia. }
        split; [done|]. split; [done|]. by apply Hquiet.
Qed.

(** (C29) The proxy is well formed after every operation, whatever XShell and
    the agent send and however the connection fails: it never buffers more for
    the agent than one frame of sixteen megabytes with its header and repair,
    and, until a write fails, never more for XShell than the frame that the
    header at its front announced.  A read never returns more than fits or data with
    an error; a write only sends a message whose length is the one its header
    announced, or the part of it the connection took before it failed, and sends
    it as soon as it is complete.  A write that fails adds at most its own bytes
    to what was collected, which stays (and is in the way of the next message).
    No operation panics or runs for ever. *)
Theorem proxy_stays_wf p n bs s :
  proxy_wf p -> shut s = false ->
  wp (conn_env false) (Read p n) s (returns (fun r t =>
    proxy_wf r.1 /\ (length r.2.1 <= n)%nat /\ (r.2.2 <> None -> r.2.1 = []) /\ out t = out s)) /\
  wp (conn_env false) (Write p bs) s (returns (fun r t =>
    match r.2.2 with Some _ => stale p bs r.1 | None => proxy_wf r.1 end /\
    buf r.1 = buf p /\ (r.2.2 = None -> r.2.1 = Z.of_nat (length bs)) /\
    exists sent, out t = out s ++ sent /\
      (sent <> [] -> sent `prefix_of` wbuf p ++ bs /\
                     Z.of_nat (length (wbuf p ++ bs)) = wlength p) /\
      (r.2.2 = None -> Z.of_nat (length (wbuf p ++ bs)) = wlength p -> sent = wbuf p ++ bs))).
Proof. intros Hp Hs. split; [by apply Read_wf|by apply Write_wf]. Qed.

(** ** Run *)

(** Only connections that presented the cookie in the window's title are
    served. *)
Definition cookie_presented (s : app_state) (c : Z) : Prop :=
  exists cookie flag, cookie ∈ published s /\ length (bytes_of cookie) = 7%nat /\
    presents (bytes_of cookie) (got (stream_of s c)) flag.

Context (w : tcp_world).
Local Abbreviation V := (app_env cookie_presented (fun _ _ => True) w).

(** What the window operations leave alone. *)
Definition same_conns (s u : app_state) : Prop :=
  owned u = owned s /\ served u = served s /\ waiting u = waiting s /\ streams u = streams s.

Lemma unregister_ok d class s :
  wpx V d (unregister class) s (returns (fun _ u =>
    same_conns s u /\ listeners u = listeners s /\ wins u = wins s /\ published u = published s)).
Proof.
  unfold unregister. prog. split; [done|]. intros [r e] u Hu. hnf in Hu.
  destruct (r =? 0); subst u; by prog.
Qed.

Lemma createDefaultWindow_ok class name s :
  wp V (createDefaultWindow class name) s (returns (fun r u =>
    same_conns s u /\ listeners u = listeners s /\
    (forall x, x ∈ published s -> x ∈ published u) /\
    match r with
    | (Some win, None) => (win.2 ∉ wins s) /\ wins u = win.2 :: wins s /\ name ∈ published u
    | (None, Some _) => wins u = wins s
    | _ => False
    end)).
Proof.
  unfold createDefaultWindow. destruct (UTF16Ptr class); [|by prog].
  destruct (UTF16Ptr name); [|by prog]. unfold register. prog. split; [done|].
  intros [r e] u Hu. hnf in Hu. destruct (r =? 0); subst u; [by prog|]. prog.
  split; [done|]. intros [h e'] u Hu. hnf in Hu. destruct (h =? 0).
  - subst u. eapply wp_seq; [apply unregister_ok|]. intros _ u (Hc & Hl & Hw & Hp). prog.
    split; [exact Hc|]. split; [done|]. split; [by rewrite Hp|done].
  - destruct Hu as [Hh ->]. prog. split; [done|]. split; [done|].
    split; [|split; [done|]; split; [done|apply elem_here]].
    intros x Hx. apply elem_of_cons. by right.
Qed.

(** What is left when the agent could not be started: no listener; or a
    listener and no window; or a listener and the first of the two windows. *)
Definition not_started (s u : app_state) : Prop :=
  (listeners u = listeners s /\ wins u = wins s) \/
  exists l, listeners u = l :: listeners s /\
    (wins u = wins s \/ exists h, (h ∉ wins s) /\ wins u = h :: wins s).

Lemma NewXAgent_ok cookie s :
  wp V (NewXAgent cookie) s (returns (fun r u =>
    same_conns s u /\
    match r with
    | (Some x, None) => listeners u = socket x :: listeners s /\ cookie ∈ published u /\
        wins u = (singleInstanceWin x).2 :: (cookieWin x).2 :: wins s /\
        ((cookieWin x).2 ∉ wins s) /\ ((singleInstanceWin x).2 ∉ (cookieWin x).2 :: wins s)
    | (None, Some _) => not_started s u
    | _ => False
    end)).
Proof.
  unfold NewXAgent. prog. split; [done|]. intros [l [e|]] u Hu; hnf in Hu; [subst u; prog; by repeat split; left|].
  destruct Hu as (Hl & _ & ->). prog. eapply wp_seq; [apply createDefaultWindow_ok|].
  intros [[w1|] [e|]] t (Hc1 & Hl1 & Hp1 & H1); try done.
  2: { prog. split; [done|]. right. exists l. split; [done|by left]. }
  destruct H1 as (Hf1 & Hw1 & Hpub).
  eapply wp_seq; [apply createDefaultWindow_ok|].
  intros [[w2|] [e|]] v (Hc2 & Hl2 & Hp2 & H2); try done.
  - destruct H2 as (Hf2 & Hw2 & _). prog. split; [cbn; rewrite Hl2, Hl1; apply elem_here|].
    answer port. prog. split; [cbn; rewrite Hw2, Hw1; apply elem_of_cons; right; apply elem_here|].
    answer y. split.
    { unfold same_conns in *. cbn in Hc1. intuition congruence. }
    cbn. rewrite Hl2, Hl1, Hw2, Hw1. split; [done|]. split; [auto|]. split; [done|].
    split; [done|]. rewrite Hw1 in Hf2. exact Hf2.
  - prog. split; [unfold same_conns in *; cbn in Hc1; intuition congruence|].
    right. exists l. rewrite Hl2, H2, Hl1, Hw1. split; [done|]. right. by exists w1.2.
Qed.

Lemma window_Close_ok d win s :
  win.2 ∈ wins s ->
  wpx V d (window_Close win) s (returns (fun _ u =>
    same_conns s u /\ listeners u = listeners s /\
    wins u = filter (fun h => h <> win.2) (wins s))).
Proof.
  intros Hw. unfold window_Close. apply wp_bind. cbn [wpx call]. split; [done|]. answer x.
  eapply wp_seq; [apply unregister_ok|].
  intros _ u (Hc & Hl & Hwi & _). by prog.
Qed.

(** Between two iterations no connection is left over. *)
Definition run_inv (s : app_state) (win : XAgent) (cookie : string) (u : app_state) : Prop :=
  owned u = [] /\ 0 <= waiting u /\ listeners u = socket win :: listeners s /\
  cookie ∈ published u /\
  wins u = (singleInstanceWin win).2 :: (cookieWin win).2 :: wins s.

Lemma xshell_step_ok s win cookie u :
  length (bytes_of cookie) = 7%nat -> run_inv s win cookie u ->
  wlp V (Run_step (socket win) (bytes_of cookie) tt) u (fun o t =>
    wins t = wins u /\ listeners t = listeners u /\
    match o with
    | Returns (Next _) => run_inv s win cookie t
    | Returns (Break _) => False
    | Returns (Return _) => owned t = [] /\ waiting t = 0
    | Panics _ => exists c, owned t = [c] /\ got (stream_of t c) = empty_request
    end).
Proof.
  intros Hlen (Ho & Hw & Hl & Hp & Hwi). unfold Run_step.
  apply accept_ok; [rewrite Hl; apply elem_here|done|intros c e|intros c bs Hcs _].
  { prog. split; [done|]. answer x. by destruct (bool_decide (e = ErrClosedPipe)); prog. }
  assert (Hst : stream_of (accepted c bs u) c = Stream bs [] [] false) by apply stream_of_with.
  apply wp_bind. eapply wp_mono.
  { apply on_ok; [apply elem_here|]. apply wp_total.
    apply (xshellHandshake_ok false). by rewrite Hst. }
  intros o v [(bs' & (_ & Hg & _) & Hpost) Hk]. rewrite Hst in Hg. cbn in Hg.
  destruct (same_but_fields _ _ _ Hk) as (Eo & Es & Ew & El & _ & _ & Epu & _ & Ewi & _).
  cbn in Eo, Es, Ew, El, Epu, Ewi.
  assert (Hinv : forall z, owned z = [] -> waiting u <= waiting z -> listeners z = listeners v ->
    published z = published v -> wins z = wins v ->
    wins z = wins u /\ listeners z = listeners u /\ run_inv s win cookie z).
  { intros z Hoz Hwz Hlz Hpz Hiz. unfold run_inv. rewrite Hlz, Hpz, Hiz, El, Epu, Ewi.
    split_and!; [done..|lia|done|done|done]. }
  destruct o as [[e|]|msg].
  - split; [done|]. answer x. apply turn_away_ok; [done|done|]. apply Hinv; try done. cbn. lia.
  - apply hand_over_ok; [done|by rewrite Es|lia| |apply Hinv; try done; cbn; lia].
    destruct Hpost as (flag & Hpre & _). exists cookie, flag.
    cbn [published with_waiting]. rewrite Epu.
    split; [done|]. split; [done|]. change (stream_of (with_waiting _ v) c) with (stream_of v c).
    by rewrite Hg.
  - split; [done|]. split; [done|]. exists c. split; [done|]. rewrite Hg. by destruct Hpost.
Qed.

Lemma RandomString_app d n s :
  wpx V d (translate OnRand (RandomString n)) s (returns (fun r u =>
    u = s /\ length (bytes_of r) = n)).
Proof.
  eapply wp_mono.
  - apply (wp_translate d rand_env V OnRand (fun _ => tt) (fun u => u = s)); [|done|].
    + intros X e t -> Hm. split; [exact Hm|]. intros x u [Hd ->]. done.
    + apply wp_total, RandomString_ok.
  - intros [r|msg] u; prog; [|by intros []]. intros [[Hl _] ->]. done.
Qed.

Lemma XShell_Run_ok s :
  owned s = [] -> 0 <= waiting s ->
  wlp V Run s (fun o u =>
    match o with
    | Returns err => owned u = [] /\
        ((err <> None /\ served u = served s /\ not_started s u) \/
         (waiting u = 0 /\ wins u = wins s /\ exists l, listeners u = l :: listeners s))
    | Panics _ => wins u = wins s /\ exists c, owned u = [c] /\ got (stream_of u c) = empty_request
    end).
Proof.
  intros Ho Hw. unfold Run. eapply wp_seq; [apply RandomString_app|].
  intros cookie ? [-> Hlen]. eapply wp_seq; [apply wp_total, NewXAgent_ok|].
  intros [[win|] [e|]] u ((Eo & Es & Ew & _) & Hu); try done.
  2: { prog. rewrite Eo. split; [done|]. left. by rewrite Es. }
  destruct Hu as (Hl & Hp & Hwi & Hf1 & Hf2).
  eapply (wp_defer _ _ _ _ _ (fun o t => wins t = wins u /\ listeners t = listeners u /\
    match o with
    | Returns _ => owned t = [] /\ waiting t = 0
    | Panics _ => exists c, owned t = [c] /\ got (stream_of t c) = empty_request
    end)).
  - cbn [bind loop].
    apply (wlp_loop _ _ _ _ _ (fun _ t => run_inv s win cookie t)).
    { split_and!; [by rewrite Eo|by rewrite Ew|done..]. }
    intros [] v Hv. eapply wp_mono; [by apply xshell_step_ok|].
    pose proof Hv as (_ & _ & Hlv & _ & Hwv). rewrite Hwv, Hlv, <-Hl, <-Hwi.
    intros [[x|x|err]|msg] z (Hwz & Hlz & Hz); prog; [done|done| |].
    + exact (conj Hwz (conj Hlz Hz)).
    + exact (conj Hwz (conj Hlz Hz)).
  - intros o t (Hwt & Hlt & Ht). unfold XAgent_Close.
    rewrite Hwi in Hwt. rewrite Hl in Hlt.
    eapply wp_seq; [apply window_Close_ok; rewrite Hwt; apply elem_of_cons; right; apply elem_here|].
    intros _ t1 ((Eo1 & Es1 & Ew1 & Er1) & Hl1 & Hw1).
    assert (Hw1' : wins t1 = (singleInstanceWin win).2 :: wins s).
    { rewrite Hw1, Hwt. rewrite not_elem_of_cons in Hf2. destruct Hf2 as [Hne Hns].
      rewrite filter_cons, decide_True by done. f_equal.
      by apply filter_self. }
    eapply wp_mono; [apply window_Close_ok; rewrite Hw1'; apply elem_here|].
    intros [[]|msg] t2; prog; [|done]. intros ((Eo2 & Es2 & Ew2 & Er2) & Hl2 & Hw2).
    rewrite Hw1' in Hw2. rewrite not_elem_of_cons in Hf2. destruct Hf2 as [_ Hns].
    rewrite filter_self in Hw2 by done.
    destruct o as [err|msg].
    + destruct Ht as [Hto Htw]. rewrite Eo2, Eo1. split; [done|]. right.
      rewrite Ew2, Ew1, Hl2, Hl1. split; [done|]. split; [done|]. eauto.
    + split; [done|]. destruct Ht as (c & Hc & Hg). exists c. rewrite Eo2, Eo1. split; [done|].
      unfold stream_of in *. by rewrite Er2, Er1.
Qed.

(** (C30) Running the XShell agent: a connection is only served after it
    presented the seven-character cookie that is the title of the agent's
    window; every refused connection is closed; when [Run] returns, no accepted
    connection is left over.  If it had started, the windows it made were then given
    to DestroyWindow and every handler has finished, but its listener is still
    open: nothing closes it.  If it could not start, it returns an error and
    nobody was served, but the listener and the first of the two windows are left
    if they were made.  The only panic is the one of an empty request, and the
    windows are given to DestroyWindow then, too. *)
Theorem Run_serves_cookie s :
  owned s = [] -> 0 <= waiting s ->
  wlp V Run s (fun o u =>
    match o with
    | Returns err => owned u = [] /\
        ((err <> None /\ served u = served s /\ not_started s u) \/
         (waiting u = 0 /\ wins u = wins s /\ exists l, listeners u = l :: listeners s))
    | Panics _ => wins u = wins s /\ exists c, owned u = [c] /\ got (stream_of u c) = empty_request
    end).
Proof. apply XShell_Run_ok. Qed.
End xshell.

(** ** Instances *)

(** The wire format of RFC 4251 for the three messages. *)
Definition demo_init (req : list byte) : (Z * Z * list byte) + error :=
  if (length req <? 9)%nat then inr (ErrLib 4)
  else inl (be_uint (take 4 (drop 1 req)), be_uint (take 4 (drop 5 req)), drop 9 req).
Definition demo_sign (body : list byte) : option error :=
  if (length body <? 13)%nat then Some (ErrLib 4) else None.
Definition demo_rep (flag : Z) : list byte := x63 :: be_bytes 4 flag.

Definition demo_cookie : list byte := bytes_of "abcdefg".
Definition demo_request : list byte := x63 :: be_bytes 4 5 ++ be_bytes 4 7 ++ bytes_of "abc".

Lemma xshellHandshake_panics_witness :
  wp (conn_env true) (xshellHandshake demo_init demo_rep demo_cookie)
    (Stream (empty_request ++ [x01]) [] [] false) (fun o t =>
      o = Panics "index out of range" /\ inc t = [x01]).
Proof. apply (xshellHandshake_panics demo_init demo_rep demo_cookie [x01]); reflexivity. Defined.

(** The cookie split between the message and the bytes after it. *)
Lemma demo_request_valid :
  valid_request demo_init demo_cookie demo_request (bytes_of "defg") 5.
Proof.
  split; [unfold maxAgentResponseBytes; cbn; lia|]. split; [reflexivity|].
  exists (bytes_of "abc"). split; reflexivity.
Qed.

Lemma xshellHandshake_spec_witness :
  wp (conn_env true) (xshellHandshake demo_init demo_rep demo_cookie)
    (Stream (be_bytes 4 8 ++ demo_request ++ bytes_of "defg" ++ []) [] [] false)
    (returns (fun err t =>
      err = None /\ inc t = [] /\ out t = [] ++ reply demo_rep 5)).
Proof.
  apply (proj2 (xshellHandshake_spec demo_init demo_rep demo_cookie) demo_request (bytes_of "defg"));
    [reflexivity|apply demo_request_valid|reflexivity].
Defined.

(** A signing request without flags: the agent sees it with its flags. *)
Lemma demo_flagless : flagless demo_sign [x0d; x01].
Proof. by split. Qed.

Lemma Read_refines_witness :
  wp (conn_env true) (Read demo_sign new_proxy 3)
    (Stream (be_bytes 4 2 ++ [x0d; x01]) [] [] false) (returns (fun r t =>
    let '(p', (bs, err)) := r in
    err = None /\ bs <> [] /\ (length bs <= 3)%nat /\
    exists o', frames demo_sign (inc t) o' /\
      bs ++ buf p' ++ o' = [] ++ be_bytes 4 6 ++ [x0d; x01; x00; x00; x00; x00] /\
      wlength p' = 0 /\ wbuf p' = [] /\ out t = [])).
Proof.
  apply (Read_refines demo_sign new_proxy 3 (Stream (be_bytes 4 2 ++ [x0d; x01]) [] [] false)
           (be_bytes 4 6 ++ [x0d; x01; x00; x00; x00; x00])); [lia|reflexivity| |done].
  apply (frames_cons demo_sign [x0d; x01] ([x0d; x01] ++ [x00; x00; x00; x00]) [] []);
    [unfold maxAgentResponseBytes; cbn; lia|apply expected_flags, demo_flagless|constructor].
Defined.

Lemma Write_reassembles_witness :
  wp message_env (write_all new_proxy (be_bytes 4 3 :: [[x01]; [x02; x03]])) []
    (returns (fun r t => r.2 = None /\ idle r.1 /\ buf r.1 = [] /\
      t = [be_bytes 4 3 ++ [x01; x02; x03]])).
Proof.
  apply (Write_reassembles new_proxy [x01; x02; x03] [[x01]; [x02; x03]] []);
    [done|done|cbn; lia|by repeat constructor|reflexivity].
Defined.

(** A proxy that has half a frame to write. *)
Lemma proxy_stays_wf_witness :
  let p := {| buf := []; wlength := 6; wbuf := [x00; x00; x00; x02; xaa] |} in
  let s := Stream [x00; x00] [] [] false in
  wp (conn_env false) (Read demo_sign p 4) s (returns (fun r t =>
    proxy_wf r.1 /\ (length r.2.1 <= 4)%nat /\ (r.2.2 <> None -> r.2.1 = []) /\ out t = [])) /\
  wp (conn_env false) (Write p [xbb]) s (returns (fun r t =>
    match r.2.2 with Some _ => stale p [xbb] r.1 | None => proxy_wf r.1 end /\
    buf r.1 = [] /\ (r.2.2 = None -> r.2.1 = 1) /\
    exists sent, out t = [] ++ sent /\
      (sent <> [] -> sent `prefix_of` wbuf p ++ [xbb] /\
                     Z.of_nat (length (wbuf p ++ [xbb])) = 6) /\
      (r.2.2 = None -> Z.of_nat (length (wbuf p ++ [xbb])) = 6 -> sent = wbuf p ++ [xbb]))).
Proof.
  apply (proxy_stays_wf demo_sign {| buf := []; wlength := 6; wbuf := [x00; x00; x00; x02; xaa] |}
           4 [xbb] (Stream [x00; x00] [] [] false)).
  - split; cbn; [unfold maxAgentResponseBytes; lia|right; cbn; lia].
  - reflexivity.
Defined.

Lemma Run_serves_cookie_witness :
  wlp (app_env (cookie_presented demo_init) (fun _ _ => True) demo_world)
    (Run demo_init demo_rep) demo_app (fun o u =>
    match o with
    | Returns err => owned u = [] /\
        ((err <> None /\ served u = [] /\ not_started demo_app u) \/
         (waiting u = 0 /\ wins u = [] /\ exists l, listeners u = [l]))
    | Panics _ => wins u = [] /\ exists c, owned u = [c] /\ got (stream_of u c) = empty_request
    end).
Proof. apply (Run_serves_cookie demo_init demo_sign demo_rep demo_world demo_app); [reflexivity|cbn; lia]. Defined.

(** *** After a failed write

    The proxy forgets the length of the message but keeps its bytes, so they
    are still in front of the next message, which is then refused. *)
Definition failing_write X (e : ConnE X) (s : unit) : X * unit :=
  match e in ConnE X return X * unit with
  | ConnRead _ => (([], Some EOF), s)
  | ConnWrite _ => (Some ErrClosedPipe, s)
  end.

Example Write_keeps_stale_bytes :
  (r ← run failing_write 0 (write_all new_proxy [be_bytes 4 1; [x05]]) tt;
   match r.1 with
   | Returns (p, Some ErrClosedPipe) =>
       q ← run failing_write 0 (write_all p [be_bytes 4 1; [x06]]) tt;
       match q.1 with Returns (_, err) => Some (wbuf p, err) | _ => None end
   | _ => None
   end) =
  Some (be_bytes 4 1 ++ [x05],
        Some (ErrorString "xagent proxy: invalid write length")).
Proof. reflexivity. Qed.
