(* ===== verification/Wsl.v ===== *)
(** app/wsl.go: the Unix-domain socket for WSL, with a fallback to TCP. *)
From S2P Require Import Prelude Effects Desktop TcpOwner Conn App.
Local Open Scope Z_scope.

(** ** Paths *)

(** filepath.ToSlash on Windows. *)
Definition to_slash (b : byte) : byte := if bool_decide (b = x5c) then x2f else b.
Definition ToSlash (s : string) : string := string_of (map to_slash (bytes_of s)).

(** strings.ToLower of a one-byte ASCII string. *)
Definition to_lower (b : byte) : byte :=
  if (65 <=? byte_val b) && (byte_val b <=? 90) then to_byte (byte_val b + 32) else b.

Section wsl.
Context (filepath_Join : string -> string -> string).
(** filepath.VolumeName, and fmt.Sprintf of a format without arguments. *)
Context (VolumeName : string -> string) (Sprintf : string -> string).

Definition winPath2Unix (path : string) : string :=
  let volumeName := bytes_of (VolumeName path) in
  let vnl := length volumeName in
  let fileName := string_of (drop vnl (bytes_of path)) in
  match volumeName with
  | [d; _] => "/mnt/" +:+ string_of [to_lower d] +:+ ToSlash fileName
  | _ => ToSlash path
  end.

(** ** Run *)

Definition listenUnixSock (filename : string) : prog AppE (string * Z * option error) :=
  let* (dir, err) := dataDir filepath_Join in
  match err with Some e => Ret (""%string, 0, Some e) | None =>
  let path := filepath_Join dir filename in
  call (RemoveFile path) ;;
  let* (l, err) := call (Listen "unix" path) in
  Ret (path, l, err)
  end.

(** The text of the help dialog; with the fallback it is made of two lines,
    which [s.help] gets one after the other. *)
Definition socat_line (port : Z) : string :=
  "socat UNIX-LISTEN:/tmp/ssh-capi-agent.sock,reuseaddr,fork TCP:localhost:" +:+
  pretty port +:+ " &" +:+ string_of [x0a].
Definition export_line : string := "export SSH_AUTH_SOCK=/tmp/ssh-capi-agent.sock".
Definition help_text (fallback : bool) (path : string) (port : Z) : string :=
  if fallback then socat_line port +:+ export_line
  else Sprintf ("export SSH_AUTH_SOCK=" +:+ winPath2Unix path).

(** Whether the connection is refused: only in the fallback, and only when the
    check answered, with [false]. *)
Definition refuse (fallback : bool) (c : Z) : prog AppE bool :=
  if fallback then
    let* (same, err) := translate (fun X => OnTcp X c) SameUserTCPConn in
    match err with
    | None => Ret (negb same)
    | Some _ => Ret false
    end
  else Ret false.

Definition Run_step (fallback : bool) (l : Z) (_ : unit)
    : prog AppE (ctl unit (option error)) :=
  done <- call CtxDone ;;
  if done : bool then call WgWait ;; Ret (Return None) else
  now <- call Now ;;
  on_desktop (SetListenerDeadline (if fallback then TCPListener else UnixListener) l (now + 1)) ;;
  let* (conn, err) := call (Accept l) in
  if bool_decide (err = Some ErrNetTimeout) then Ret (Next tt) else
  match err with Some e => Ret (Return (Some e)) | None =>
  other <- refuse fallback conn ;;
  if other : bool then call (CloseConn conn) ;; Ret (Next tt) else
  call WgAdd ;;
  call (Go conn) ;;
  Ret (Next tt)
  end.

Definition Run_listening (fallback : bool) (path : string) (l : Z)
    : prog AppE (option error) :=
  call SetRunning ;;
  (if fallback then
     port <- call (ListenerPort l) ;;
     call (SetText (socat_line port)) ;;
     call (SetText (socat_line port +:+ export_line))
   else call (SetText (help_text false path 0))) ;;
  r <- loop (Run_step fallback l) tt ;;
  match r with inl _ => Ret None | inr err => Ret err end.

Definition Run : prog AppE (option error) :=
  let* (path, l, err) := listenUnixSock WSL_SOCK in
  match err with
  | None => defer (call (ListenerClose l)) (Run_listening false path l)
  | Some _ =>
      let* (l, err) := call (Listen "tcp" "localhost:0") in
      match err with
      | Some e => Ret (Some e)
      | None => defer (call (ListenerClose l)) (Run_listening true path l)
      end
  end.

(** ** The theorems *)

(** What the code relies on: the volume name of a path with a drive letter is
    the letter and the colon. *)
Definition drive_volumes : Prop :=
  forall d rest, (65 <= byte_val d <= 90) \/ (97 <= byte_val d <= 122) ->
    VolumeName (string_of (d :: x3a :: rest)) = string_of [d; x3a].

(** A path on a drive becomes the path WSL mounts it at: the drive letter
    in lower case below /mnt, and every backslash a slash. *)
Theorem winPath2Unix_drive d rest :
  drive_volumes -> (65 <= byte_val d <= 90) \/ (97 <= byte_val d <= 122) ->
  bytes_of (winPath2Unix (string_of (d :: x3a :: rest))) =
  bytes_of "/mnt/" ++ to_lower d :: map to_slash rest /\
  97 <= byte_val (to_lower d) <= 122.
Proof.
  intros Hv Hd. unfold winPath2Unix, ToSlash. rewrite (Hv d rest Hd), !bytes_of_string_of.
  cbn [length drop]. rewrite !bytes_of_app, !bytes_of_string_of. split; [done|].
  unfold to_lower. destruct Hd as [Hd|Hd].
  - rewrite (proj2 (Z.leb_le _ _)), (proj2 (Z.leb_le _ _)) by lia. cbn [andb].
    rewrite byte_val_to_byte, Z.mod_small; lia.
  - rewrite (proj2 (Z.leb_gt (byte_val d) 90)), andb_false_r by lia. lia.
Qed.

Context (w : tcp_world).

(** Another user's process owns the peer's port, as far as Windows' table
    says. *)
Definition other_user (s : app_state) (c : Z) : Prop :=
  owner_checked (peer_port w c) (pid_sid w) (own_sid w) false (tcps s).

(** A connection over TCP may be served once the owner check was run on it, to
    the end, and did not answer [false] without an error. *)
Definition checked (s : app_state) (c : Z) : Prop :=
  network w c = "tcp"%string ->
  exists r, exec recording SameUserTCPConn [] (Returns r) (checks_of s c) /\ r <> (false, None).

Local Abbreviation V := (app_env checked other_user w).

(** What the owner check leaves alone. *)
Definition only_checks (s u : app_state) : Prop := u = with_tcps (tcps u) (with_checks (checks u) s).

Lemma SameUserTCPConn_checks d c s :
  c ∈ owned s -> checks_of s c = [] ->
  wpx V d (translate (fun X => OnTcp X c) SameUserTCPConn) s (returns (fun r u =>
    only_checks s u /\ exec recording SameUserTCPConn [] (Returns r) (checks_of u c) /\
    (r = (false, None) -> other_user u c))).
Proof.
  intros Hc Hn. set (T := tcp_env (peer_port w c) (pid_sid w) (own_sid w) (own_token w)).
  pose proof (wp_recorded T SameUserTCPConn (tcps s) [] _ (SameUserTCPConn_ok _ _ _ _ _)) as H.
  eapply wp_mono.
  { apply (wp_translate d (recorded T) V (fun X => OnTcp X c)
      (fun u => (tcps u, checks_of u c)) (only_checks s)).
    - intros X e t Hk Ht. split; [split; [by rewrite Hk|exact Ht]|].
      intros x u (y & Hy & ->). split.
      { split; [exact Hy|]. unfold note, checks_of. cbn. by rewrite lookup_insert_eq. }
      unfold only_checks, note in *. by rewrite Hk.
    - by destruct s.
    - rewrite Hn. apply wp_total, H. }
  intros [r|msg] u; prog; [|by intros [[[] _] _]]. intros [[(_ & _ & _ & Hr) Hex] Hk].
  split; [done|]. split; [done|]. intros ->. by apply Hr.
Qed.

Lemma refuse_ok d (fallback : bool) c s :
  c ∈ owned s -> checks_of s c = [] ->
  network w c = (if fallback then "tcp" else "unix")%string ->
  wpx V d (refuse fallback c) s (returns (fun (r : bool) u =>
    only_checks s u /\ if r then other_user u c else checked u c)).
Proof.
  intros Hc Hn Hnet. unfold refuse, checked. destruct fallback.
  - eapply wp_seq; [by apply SameUserTCPConn_checks|].
    intros [same [e|]] u (Hk & Hex & Hr); prog; [eauto|].
    split; [done|]. destruct same; cbn; [eauto|auto].
  - prog. split; [by destruct s|]. by rewrite Hnet.
Qed.

(** What the menu shows. *)
Definition settings (s : app_state) : bool * string := (running s, text s).

(** Between two iterations no connection is left over. *)
Definition run_inv (s : app_state) (l : Z) (help : string) (u : app_state) : Prop :=
  owned u = [] /\ listeners u = l :: listeners s /\ settings u = (true, help) /\ 0 <= waiting u /\ stops u = stops s.

Lemma wsl_step_ok (fallback : bool) s l help u :
  network w l = (if fallback then "tcp" else "unix")%string -> run_inv s l help u ->
  wlp V (Run_step fallback l tt) u (returns (fun r t =>
    match r with
    | Next _ => run_inv s l help t
    | Break _ => False
    | Return err => owned t = [] /\ listeners t = l :: listeners s /\
                    settings t = (true, help) /\
                    (err = None -> waiting t = 0 /\ stops t = S (stops s))
    end)).
Proof.
  intros Hnet (Ho & Hl & Hset & Hw & Hn). unfold Run_step. prog. split; [done|].
  intros [] ? ->; prog.
  { split; [done|]. answer x. cbn. rewrite Hn. done. }
  split; [done|]. answer now. apply wp_bind. eapply wp_mono.
  { apply on_desktop_ok, SetListenerDeadline_free. }
  intros [err0|msg] ?; prog; [|by intros []]. intros ->.
  apply accept_ok; [cbn; rewrite Hl; apply elem_here|done|intros c e|intros c bs Hc Hcn].
  { destruct (bool_decide (Some e = Some ErrNetTimeout)); prog; done. }
  rewrite bool_decide_eq_false_2 by done.
  eapply wp_seq.
  { apply (refuse_ok _ fallback); [apply elem_here| |by rewrite Hcn].
    unfold checks_of. cbn. by rewrite lookup_delete_eq. }
  intros other v [Hv Hr].
  assert (Ev : owned v = [c] /\ served v = served u /\ waiting v = waiting u /\
    listeners v = listeners u /\ settings v = settings u /\ stops v = stops u)
    by (rewrite Hv; done).
  destruct Ev as (Eo & Es & Ew & El & Et & En). unfold settings in *. destruct other.
  - apply turn_away_ok; [done|exact Hr|]. unfold run_inv, settings. prog. cbn.
    split_and!; [done|congruence|congruence|lia|congruence].
  - apply hand_over_ok; [done|by rewrite Es|by rewrite Ew|exact Hr|]. unfold run_inv, settings. prog.
    cbn.
    split_and!; [done|congruence|congruence|lia|congruence].
Qed.

Lemma Run_listening_ok (fallback : bool) path l s :
  (l ∉ listeners s) -> network w l = (if fallback then "tcp" else "unix")%string -> owned s = [] -> 0 <= waiting s ->
  wlp V (defer (call (ListenerClose l)) (Run_listening fallback path l))
    (with_listeners (l :: listeners s) s) (returns (fun err u =>
      owned u = [] /\ listeners u = listeners s /\
      (err = None -> waiting u = 0 /\ stops u = S (stops s)) /\
      exists port, settings u = (true, help_text fallback path port))).
Proof.
  intros Hl Hnet Ho Hw.
  apply (listener_closed_ok _ _ _ _ l (listeners s) _ _ (returns (fun err u =>
    owned u = [] /\ listeners u = l :: listeners s /\
    (err = None -> waiting u = 0 /\ stops u = S (stops s)) /\
    exists port, settings u = (true, help_text fallback path port)))); [done| |].
  - unfold Run_listening. apply wp_bind. cbn [wpx call]. split; [done|]. answer x.
    set (s1 := with_running _).
    eapply (wp_seq _ _ _ _ _ (fun _ u =>
      exists port, u = with_text (help_text fallback path port) s1)).
    { destruct fallback; prog.
      - split; [apply elem_here|]. answer port. split; [done|]. answer x1. split; [done|].
        answer x2. by exists port.
      - split; [done|]. answer x1. by exists 0. }
    intros x1 ? [port ->]. cbn [bind loop].
    apply (wlp_loop _ _ _ _ _ (fun _ t => run_inv s l (help_text fallback path port) t)); [done|].
    intros [] v Hv. eapply wp_mono; [by apply wsl_step_ok|].
    intros [[x2|x2|err]|msg] z; prog; try done. intros (Hoz & Hlz & Hsz & Hwz).
    split_and!; [done..|]. by exists port.
  - intros [r|msg] u; prog; [|done]. by intros (Hou & Hlu & Hwu & Hh).
Qed.

Lemma Wsl_Run_ok s :
  owned s = [] -> 0 <= waiting s ->
  wlp V Run s (returns (fun err u =>
    owned u = [] /\ listeners u = listeners s /\
    ((err <> None /\ settings u = settings s) \/
     ((err = None -> waiting u = 0 /\ stops u = S (stops s)) /\
      exists fallback path port, settings u = (true, help_text fallback path port))))).
Proof.
  intros Ho Hw. unfold Run, listenUnixSock.
  apply wp_bind, wp_bind. eapply wp_mono; [apply dataDir_ok|].
  intros [[dir [e|]]|msg] u; prog; [| |done]; intros ->.
  { split; [done|]. intros [l [e'|]] u Hu; hnf in Hu; [subst u; prog; eauto|].
    destruct Hu as (Hl & Hn & ->). prog. eapply wp_mono; [by apply Run_listening_ok|].
    intros [r|msg] u; prog; [|done]. intros (? & ? & ? & ? & ?). eauto 10. }
  split; [done|]. answer x. split; [done|]. set (s1 := with_paths _ s).
  intros [l [e|]] u Hu; hnf in Hu.
  - subst u. prog. split; [done|]. intros [l2 [e'|]] u Hu; hnf in Hu; [subst u; prog; eauto|].
    destruct Hu as (Hl & Hn & ->). prog. eapply wp_mono; [by apply (Run_listening_ok true _ _ s1)|].
    intros [r|msg] u; prog; [|done]. intros (? & ? & ? & ? & ?). eauto 10.
  - destruct Hu as (Hl & Hn & ->). prog. eapply wp_mono; [by apply (Run_listening_ok false _ _ s1)|].
    intros [r|msg] u; prog; [|done]. intros (? & ? & ? & ? & ?). eauto 10.
Qed.

(** (C17) Running the WSL socket: a connection that came over TCP is served
    only after the owner check was run on it to its end, and only if its answer
    was not [false] without an error; a connection is refused only when the owner
    check positively found a process of another user (so never on the Unix
    socket, and never because the check failed), and every other connection is
    served; when [Run] returns, no accepted connection is left over and its
    listener is closed, and it returns without an error only after the context
    was cancelled and every handler has finished.  Unless it could not listen at
    all, it is then marked as running, with the help text for the socket it
    listens on. *)
Theorem Run_refuses_others s :
  owned s = [] -> 0 <= waiting s ->
  wlp V Run s (returns (fun err u =>
    owned u = [] /\ listeners u = listeners s /\
    ((err <> None /\ settings u = settings s) \/
     ((err = None -> waiting u = 0 /\ stops u = S (stops s)) /\
      exists fallback path port, settings u = (true, help_text fallback path port))))).
Proof. apply Wsl_Run_ok. Qed.
End wsl.

(** ** Instances *)

Definition demo_volume (path : string) : string :=
  match bytes_of path with d :: b :: _ => string_of [d; b] | _ => "" end.

Lemma demo_volume_drives : drive_volumes demo_volume.
Proof. intros d rest _. unfold demo_volume. by rewrite bytes_of_string_of. Qed.

Lemma winPath2Unix_drive_witness :
  bytes_of (winPath2Unix demo_volume (string_of (x43 :: x3a :: bytes_of "\Users\me"))) =
  bytes_of "/mnt/" ++ x63 :: map to_slash (bytes_of "\Users\me") /\
  97 <= byte_val x63 <= 122.
Proof.
  apply (winPath2Unix_drive demo_volume x43 (bytes_of "\Users\me") demo_volume_drives).
  left. cbn. lia.
Defined.

Example winPath2Unix_run :
  winPath2Unix demo_volume "C:\Users\me\keybridge-wsl.sock" = "/mnt/c/Users/me/keybridge-wsl.sock"%string.
Proof. reflexivity. Qed.

Lemma Run_refuses_others_witness :
  wlp (app_env (checked demo_world) (other_user demo_world) demo_world)
    (Run (fun a b => a +:+ "\" +:+ b) demo_volume id) demo_app (returns (fun err u =>
    owned u = [] /\ listeners u = [] /\
    ((err <> None /\ settings u = (false, ""%string)) \/
     ((err = None -> waiting u = 0 /\ stops u = 1%nat) /\
      exists fallback path port,
        settings u = (true, help_text demo_volume id fallback path port))))).
Proof.
  apply (Run_refuses_others (fun a b => a +:+ "\" +:+ b) demo_volume id demo_world demo_app);
    [reflexivity|cbn; lia].
Defined.
