(* ===== verification/Clipboard.v ===== *)
(** utils/clipboard.go: putting a text on the clipboard. *)
From S2P Require Import Prelude Effects Desktop.
Local Open Scope Z_scope.

Definition cfUnicodetext : Z := 13.
Definition gmemMoveable : Z := 0x0002.
Definition Second : Z := 10 ^ 9.
Definition Millisecond : Z := 10 ^ 6.

(** ** Calls

    [Proc.Call] answers with the result and the last error, an [Errno] that is
    not nil even when its number is zero. *)
Inductive ClipE : Type -> Type :=
| ClipNow : ClipE Z
| Sleep (d : Z) : ClipE unit
| OpenClipboard (owner : Z) : ClipE (Z * Z)
| CloseClipboard : ClipE unit
| EmptyClipboard : ClipE (Z * Z)
| GlobalAlloc (flags size : Z) : ClipE (Z * Z)
| GlobalFree (h : Z) : ClipE unit
| GlobalLock (h : Z) : ClipE (Z * Z)
| Lstrcpy (dst : Z) (src : list Z) : ClipE (Z * Z)
| GlobalUnlock (h : Z) : ClipE (Z * Z)
| SetClipboardData (format h : Z) : ClipE (Z * Z).

Section clipboard.
(** The UTF-16 encoding of a string. *)
Context (utf16 : string -> list Z).

Definition UTF16FromString (text : string) : list Z + error :=
  if decide (x00 ∈ bytes_of text) then inr EINVAL else inl (utf16 text ++ [0]).

Definition waitOpen_step (limit : Z) (err : option error)
    : prog ClipE (ctl (option error) (option error)) :=
  now <- call ClipNow ;;
  if now <? limit then
    let* (r, e) := call (OpenClipboard 0) in
    if negb (r =? 0) then Ret (Return None) else
    call (Sleep Millisecond) ;;
    Ret (Next (Some (Errno e)))
  else Ret (Break err).

Definition waitOpenClipboard : prog ClipE (option error) :=
  started <- call ClipNow ;;
  let limit := started + Second in
  r <- loop (waitOpen_step limit) None ;;
  match r with inl err => Ret err | inr r => Ret r end.

(** The deferred clean-up, with the value [h] has by then, which comes with
    the result. *)
Definition free_if (h : Z) : prog ClipE unit :=
  if negb (h =? 0) then call (GlobalFree h) else Ret tt.

Definition fill_and_set (h : Z) (data : list Z) : prog ClipE (Z * option error) :=
  let* (l, err) := call (GlobalLock h) in
  if l =? 0 then Ret (h, Some (Errno err)) else
  let* (r, err) := call (Lstrcpy l data) in
  if r =? 0 then Ret (h, Some (Errno err)) else
  let* (r, err) := call (GlobalUnlock h) in
  if (r =? 0) && negb (err =? 0) then Ret (h, Some (Errno err)) else
  let* (r, err) := call (SetClipboardData cfUnicodetext h) in
  if r =? 0 then Ret (h, Some (Errno err)) else
  Ret (0, None).

Definition set_opened (text : string) : prog ClipE (option error) :=
  let* (r, err) := call EmptyClipboard in
  if r =? 0 then Ret (Some (Errno err)) else
  match UTF16FromString text with
  | inr e => Ret (Some e)
  | inl data =>
      let* (h, err) := call (GlobalAlloc gmemMoveable (Z.of_nat (length data) * 2)) in
      if h =? 0 then Ret (Some (Errno err)) else
      let* (h, err) := fill_and_set h data in
      free_if h ;;
      Ret err
  end.

Definition SetClipBoard (text : string) : prog ClipE (option error) :=
  err <- waitOpenClipboard ;;
  match err with
  | Some e => Ret (Some e)
  | None => defer (call CloseClipboard) (set_opened text)
  end.

(** ** What Windows promises *)

(** The time, whether we have the clipboard open, the memory blocks we own with
    what is in them, the views of locked blocks, and what is on the
    clipboard. *)
Record clip_state : Type := ClipState {
  time : Z;
  opened : bool;
  blocks : gmap Z (list Z);
  views : gmap Z Z;
  content : option (list Z);
}.

(** lstrcpyW copies up to and including the first zero. *)
Fixpoint zstring (l : list Z) : list Z :=
  match l with
  | [] => []
  | x :: l => if x =? 0 then [0] else x :: zstring l
  end.

Definition clip_env : env ClipE clip_state :=
  {| may X e s :=
       match e with
       | GlobalFree h | GlobalLock h | GlobalUnlock h | SetClipboardData _ h =>
           is_Some (blocks s !! h)
       | Lstrcpy l _ => exists h, views s !! l = Some h /\ is_Some (blocks s !! h)
       | _ => True
       end;
     does X e s :=
       match e in ClipE X return X -> clip_state -> Prop with
       | ClipNow => fun now t => time s <= now /\
           t = ClipState now (opened s) (blocks s) (views s) (content s)
       | Sleep d => fun _ t => exists now, time s + d <= now /\
           t = ClipState now (opened s) (blocks s) (views s) (content s)
       | OpenClipboard _ => fun '(r, _) t =>
           t = (if r =? 0 then s else ClipState (time s) true (blocks s) (views s) (content s))
       | CloseClipboard => fun _ t =>
           t = ClipState (time s) false (blocks s) (views s) (content s)
       | EmptyClipboard => fun '(r, _) t =>
           if r =? 0 then t = s
           else opened s = true /\ t = ClipState (time s) (opened s) (blocks s) (views s) None
       | GlobalAlloc _ _ => fun '(h, _) t =>
           if h =? 0 then t = s
           else blocks s !! h = None /\
                t = ClipState (time s) (opened s) (<[h := []]> (blocks s)) (views s) (content s)
       | GlobalFree h => fun _ t =>
           t = ClipState (time s) (opened s) (delete h (blocks s)) (views s) (content s)
       | GlobalLock h => fun '(l, _) t =>
           t = (if l =? 0 then s
                else ClipState (time s) (opened s) (blocks s) (<[l := h]> (views s)) (content s))
       | Lstrcpy l src => fun '(r, _) t =>
           if r =? 0 then t = s
           else forall h, views s !! l = Some h ->
                t = ClipState (time s) (opened s) (<[h := zstring src]> (blocks s)) (views s) (content s)
       | GlobalUnlock _ => fun _ t => t = s
       | SetClipboardData _ h => fun '(r, _) t =>
           if r =? 0 then t = s
           else opened s = true /\
                t = ClipState (time s) (opened s) (delete h (blocks s)) (views s) (blocks s !! h)
       end |}.

(** ** The theorem *)

Lemma waitOpenClipboard_ok s :
  opened s = false ->
  wp clip_env waitOpenClipboard s (returns (fun err t =>
    blocks t = blocks s /\ content t = content s /\
    (err <> None -> opened t = false))).
Proof.
  intros Hs. unfold waitOpenClipboard. apply wp_bind. cbn [wpx call]. split; [done|].
  intros started s1 [_ ->]. cbn [bind loop].
  apply (wp_loop _ _ _ _ _
    (fun _ t => blocks t = blocks s /\ content t = content s /\ opened t = false)
    (fun _ t => Z.to_nat (started + Second - time t))).
  { done. }
  intros err t (Hb & Hc & Ho). unfold waitOpen_step. prog. split; [done|].
  intros now t1 [Hn ->]. destruct (Z.ltb_spec now (started + Second)); prog; [|done].
  split; [done|]. intros [r e] t2 Ht2. hnf in Ht2. destruct (r =? 0); subst t2; cbn [negb]; prog; [|done].
  split; [done|]. intros [] t3 (now' & Hn' & ->). cbn in *. unfold Millisecond in *.
  split; [done|]. lia.
Qed.

Lemma fill_and_set_ok h data s :
  is_Some (blocks s !! h) -> h <> 0 ->
  wp clip_env (fill_and_set h data) s (returns (fun r t =>
    (r.1 = h /\ r.2 <> None /\ is_Some (blocks t !! h) /\
     delete h (blocks t) = delete h (blocks s) /\ content t = content s) \/
    (r = (0, None) /\ blocks t = delete h (blocks s) /\ content t = Some (zstring data)))).
Proof.
  intros Hh H0. unfold fill_and_set. prog. split; [done|].
  intros [l e] t Ht. hnf in Ht. destruct (Z.eqb_spec l 0); subst t; prog; [by left|].
  set (s1 := ClipState _ _ _ (<[l := h]> (views s)) _).
  assert (Hv : views s1 !! l = Some h) by apply lookup_insert_eq.
  split; [by exists h|]. intros [r e'] t Ht. hnf in Ht. destruct (Z.eqb_spec r 0); prog.
  { subst t. by left. }
  rewrite (Ht h Hv). set (s2 := ClipState _ _ (<[h := zstring data]> _) _ _).
  assert (Hh2 : blocks s2 !! h = Some (zstring data)) by apply lookup_insert_eq.
  assert (Hd2 : delete h (blocks s2) = delete h (blocks s)) by apply delete_insert_eq.
  split; [exact (mk_is_Some _ _ Hh2)|]. intros [r2 e2] t2 Ht2. hnf in Ht2. subst t2.
  destruct ((r2 =? 0) && negb (e2 =? 0)); prog.
  { left. split; [done|]. split; [done|]. exact (conj (mk_is_Some _ _ Hh2) (conj Hd2 eq_refl)). }
  split; [exact (mk_is_Some _ _ Hh2)|]. intros [r3 e3] t3 Ht3. hnf in Ht3. destruct (Z.eqb_spec r3 0); prog.
  { subst t3. left.
    split; [done|]. split; [done|]. exact (conj (mk_is_Some _ _ Hh2) (conj Hd2 eq_refl)). }
  destruct Ht3 as [_ ->]. right. split; [done|]. cbn. by rewrite delete_insert_eq, lookup_insert_eq.
Qed.

Lemma set_opened_ok text s :
  wp clip_env (set_opened text) s (returns (fun err t =>
    blocks t = blocks s /\
    match err with
    | None => content t = Some (zstring (utf16 text ++ [0]))
    | Some _ => content t = content s \/ content t = None
    end)).
Proof.
  unfold set_opened. prog. split; [done|]. intros [r e] t Ht. hnf in Ht.
  destruct (Z.eqb_spec r 0); prog; [subst t; auto|]. destruct Ht as [_ ->].
  unfold UTF16FromString. destruct (decide (x00 ∈ bytes_of text)); prog; [auto|].
  split; [done|]. intros [h e'] t Ht. hnf in Ht. destruct (Z.eqb_spec h 0); prog.
  { subst t. auto. }
  destruct Ht as [Hfresh ->]. eapply wp_seq.
  { apply fill_and_set_ok; [|done]. cbn. rewrite lookup_insert_eq. eauto. }
  cbn [blocks content]. rewrite delete_insert_eq, delete_id by exact Hfresh.
  intros [h' err] t [(Hh' & He & Hb & Hd & Hc)|([= -> ->] & Hb & Hc)]; cbn [fst snd] in *.
  - subst h'. unfold free_if. rewrite (proj2 (Z.eqb_neq _ _)) by done. cbn [negb]. prog.
    split; [done|]. answer x. cbn. destruct err; [|done]. auto.
  - unfold free_if. cbn. auto.
Qed.

Lemma SetClipBoard_ok text s :
  opened s = false ->
  wp clip_env (SetClipBoard text) s (returns (fun err t =>
    opened t = false /\ blocks t = blocks s /\
    match err with
    | None => content t = Some (zstring (utf16 text ++ [0]))
    | Some _ => content t = content s \/ content t = None
    end)).
Proof.
  intros Hs. unfold SetClipBoard. eapply wp_seq; [by apply waitOpenClipboard_ok|].
  intros [e|] t (Hb & Hc & Ho); [prog; auto|].
  eapply wp_defer; [apply set_opened_ok|]. intros [err|msg] u; prog; [|done].
  intros [Hbu Hcu]. split; [done|]. answer x. cbn. rewrite Hbu, Hb. split; [done|].
  split; [done|]. by rewrite <-Hc.
Qed.

(** (C32) Setting the clipboard never leaks: [SetClipBoard] ends (the wait is
    bounded by the clock), the clipboard is closed again, every block of global
    memory it allocated is freed or was handed over to the clipboard, and it
    returns no error only when the clipboard holds the text with its
    terminator. *)
Theorem SetClipBoard_balanced text s :
  opened s = false ->
  wp clip_env (SetClipBoard text) s (returns (fun err t =>
    opened t = false /\ blocks t = blocks s /\
    match err with
    | None => content t = Some (zstring (utf16 text ++ [0]))
    | Some _ => content t = content s \/ content t = None
    end)).
Proof. apply SetClipBoard_ok. Qed.
End clipboard.

(** ** Instances *)

Lemma SetClipBoard_balanced_witness :
  wp clip_env (SetClipBoard (fun s => map byte_val (bytes_of s)) "hi")
    (ClipState 0 false ∅ ∅ None) (returns (fun err t =>
    opened t = false /\ blocks t = ∅ /\
    match err with
    | None => content t = Some [104; 105; 0]
    | Some _ => content t = None \/ content t = None
    end)).
Proof.
  apply (SetClipBoard_balanced (fun s => map byte_val (bytes_of s)) "hi"
           (ClipState 0 false ∅ ∅ None)).
  reflexivity.
Defined.
