(* ===== verification/Mmap.v ===== *)
(** utils/mmap.go: a request in shared memory as a connection. *)
From S2P Require Import Prelude Effects.
Local Open Scope Z_scope.

(** The answer a closed connection leaves in the request's channel: the data,
    or an error. *)
Inductive response : Type :=
| Response (data : list byte)
| ResponseErr (err : error).

Record memoryMapConn : Type := {
  data : list byte;
  offset : nat;
  w : list byte;
  closed : bool;
}.

Definition new_conn (d : list byte) : memoryMapConn :=
  {| data := d; offset := 0; w := []; closed := false |}.

(** [Read] into a buffer of [n] bytes: the new state, what was copied, and the
    error. *)
Definition Read (m : memoryMapConn) (n : nat) : memoryMapConn * list byte * option error :=
  if closed m then (m, [], Some ErrClosedPipe)
  else if (length (data m) <=? offset m)%nat then (m, [], Some EOF)
  else
    let bs := take n (drop (offset m) (data m)) in
    ({| data := data m; offset := offset m + length bs; w := w m; closed := closed m |}, bs, None).

Definition Write (m : memoryMapConn) (p : list byte) : memoryMapConn * nat * option error :=
  if closed m then (m, 0%nat, Some ErrClosedPipe)
  else ({| data := data m; offset := offset m; w := w m ++ p; closed := closed m |},
        length p, None).

(** [Close] sends one response. *)
Definition Close (m : memoryMapConn) : memoryMapConn * option response * option error :=
  if closed m then (m, None, Some ErrClosedPipe)
  else
    let m' := {| data := data m; offset := offset m; w := w m; closed := true |} in
    (m', Some (if (0 <? length (w m))%nat then Response (w m) else ResponseErr ErrUnexpectedEOF),
     None).

(** ** Sessions

    The mutex makes the operations of concurrent callers a sequence. *)
Inductive op : Type := ORead (n : nat) | OWrite (p : list byte) | OClose.

(** What a session has seen: the bytes read and written, and the responses
    sent. *)
Record session : Type := {
  conn : memoryMapConn;
  reads : list byte;
  writes : list byte;
  responses : list response;
}.

Definition start (d : list byte) : session :=
  {| conn := new_conn d; reads := []; writes := []; responses := [] |}.

Definition step (s : session) (o : op) : session * option error :=
  match o with
  | ORead n =>
      let '(m, bs, err) := Read (conn s) n in
      ({| conn := m; reads := reads s ++ bs; writes := writes s; responses := responses s |}, err)
  | OWrite p =>
      let '(m, _, err) := Write (conn s) p in
      ({| conn := m; reads := reads s;
          writes := (match err with None => writes s ++ p | Some _ => writes s end);
          responses := responses s |}, err)
  | OClose =>
      let '(m, r, err) := Close (conn s) in
      ({| conn := m; reads := reads s; writes := writes s;
          responses := responses s ++ match r with Some r => [r] | None => [] end |}, err)
  end.

Fixpoint steps (s : session) (ops : list op) : session :=
  match ops with
  | [] => s
  | o :: ops => steps (step s o).1 ops
  end.

(** The abstract connection: the request read in order, and exactly one
    response, at the close, with everything written before it. *)
Definition answer_of (written : list byte) : response :=
  match written with [] => ResponseErr ErrUnexpectedEOF | _ => Response written end.

Definition session_inv (d : list byte) (s : session) : Prop :=
  data (conn s) = d /\ (offset (conn s) <= length d)%nat /\
  reads s = take (offset (conn s)) d /\ writes s = w (conn s) /\
  responses s = (if closed (conn s) then [answer_of (writes s)] else []).

Lemma step_inv d s o : session_inv d s -> session_inv d (step s o).1.
Proof.
  intros (Hd & Ho & Hr & Hw & Hresp). unfold session_inv. destruct o as [n|p|]; cbn.
  - unfold Read. destruct (closed (conn s)) eqn:Hc; [cbn; by rewrite app_nil_r, Hc|].
    destruct (Nat.leb_spec (length (data (conn s))) (offset (conn s)));
      [cbn; by rewrite app_nil_r, Hc|].
    cbn. rewrite Hd, length_take, length_drop. split; [done|]. split; [lia|]. split; [|done].
    rewrite Hr, take_take_drop. destruct (Nat.le_gt_cases n (length d - offset (conn s))).
    + by rewrite Nat.min_l by lia.
    + by rewrite !take_ge by lia.
  - unfold Write. destruct (closed (conn s)) eqn:Hc; cbn; [by rewrite Hc|].
    split_and!; try done. by rewrite Hw.
  - unfold Close. destruct (closed (conn s)) eqn:Hc; cbn.
    + by rewrite app_nil_r, Hc.
    + split_and!; try done. rewrite Hresp, Hw. by destruct (w (conn s)).
Qed.

Lemma steps_inv d s ops : session_inv d s -> session_inv d (steps s ops).
Proof. revert s. induction ops as [|o ops IH]; intros s Hs; [done|]. by apply IH, step_inv. Qed.

Lemma start_inv d : session_inv d (start d).
Proof. by split_and!; cbn; try lia. Qed.

(** After the close every operation is refused and changes nothing. *)
Lemma step_closed s o : closed (conn s) = true -> step s o = (s, Some ErrClosedPipe).
Proof.
  intros Hc. destruct s as [m r ws rs]. cbn in *. destruct o; cbn;
    unfold Read, Write, Close; rewrite Hc; by rewrite ?app_nil_r.
Qed.

(** Only [Close] closes. *)
Lemma step_open s o : o <> OClose -> closed (conn (step s o).1) = closed (conn s).
Proof.
  intros Ho. destruct o as [n|p|]; [| |done]; cbn.
  - unfold Read. destruct (closed (conn s)) eqn:Hc; [done|].
    destruct (length (data (conn s)) <=? offset (conn s))%nat; cbn; congruence.
  - unfold Write. destruct (closed (conn s)) eqn:Hc; cbn; congruence.
Qed.

(** The first [Close] sends the answer. *)
Lemma step_close d s r :
  session_inv d s -> closed (conn s) = false -> (Close (conn s)).1.2 = Some r ->
  closed (conn (step s OClose).1) = true /\ r = answer_of (writes (step s OClose).1).
Proof.
  intros (_ & _ & _ & Hw & _) Hc. cbn. unfold Close. rewrite Hc. cbn. intros [= <-].
  split; [done|]. rewrite Hw. by destruct (w (conn s)).
Qed.

Lemma step_data s o : data (conn (step s o).1) = data (conn s).
Proof.
  destruct o as [n|p|]; cbn; unfold Read, Write, Close; destruct (closed (conn s)); cbn; try done.
  by destruct (length (data (conn s)) <=? offset (conn s))%nat.
Qed.

(** A shared-memory connection behaves like a stream with one answer:
    whatever the order and the sizes of the operations, the bytes read are the
    first bytes of the request in order, exactly one response is sent, at the
    first close, it holds everything that was written before (or the error of
    an empty answer), and after the close every operation is refused and
    changes nothing. *)
Theorem memoryMapConn_session d ops :
  let s := steps (start d) ops in
  (exists rest, d = reads s ++ rest) /\
  responses s = (if closed (conn s) then [answer_of (writes s)] else []) /\
  (closed (conn s) = true -> forall o, step s o = (s, Some ErrClosedPipe)).
Proof.
  cbn zeta. destruct (steps_inv d _ ops (start_inv d)) as (Hd & Ho & Hr & Hw & Hresp).
  set (s := steps (start d) ops) in *. split; [|split; [done|]].
  - rewrite Hr. exists (drop (offset (conn s)) d). by rewrite take_drop.
  - intros Hc o. by apply step_closed.
Qed.

(** Reading on delivers the whole request: with a non-empty buffer, at least
    one byte until the end, then EOF. *)
Lemma Read_progress m n :
  closed m = false -> (0 < n)%nat ->
  if (offset m <? length (data m))%nat
  then exists bs, bs <> [] /\ (Read m n).1.2 = bs /\ (Read m n).2 = None
  else (Read m n).2 = Some EOF.
Proof.
  intros Hc Hn. unfold Read. rewrite Hc.
  destruct (Nat.ltb_spec (offset m) (length (data m))).
  - rewrite (proj2 (Nat.leb_gt _ _)) by done. cbn. eexists. split; [|done].
    intros Hnil. apply (f_equal length) in Hnil. rewrite length_take, length_drop in Hnil.
    cbn in Hnil. lia.
  - by rewrite (proj2 (Nat.leb_le _ _)).
Qed.

Example session_run :
  let s := steps (start [x01; x02; x03]) [ORead 2; OWrite [xaa]; ORead 5; OWrite [xbb]; OClose; OClose] in
  reads s = [x01; x02; x03] /\ responses s = [Response [xaa; xbb]].
Proof. split; reflexivity. Qed.
