(* ===== verification/Pageant.v ===== *)
(** utils/pageant.go and the first part of utils/mmap.go: the hidden Pageant
    window that receives requests in shared memory; app/pageant.go: its accept
    loop. *)
From S2P Require Import Prelude Effects Desktop TcpOwner Conn App Mmap XShell.
Local Open Scope Z_scope.

Definition className : string := "Pageant".
Definition agentCopydataId : Z := 0x804e50ba.
Definition agentMaxMsglen : Z := 8192.
Definition fileMapAllAccess : Z := 0xf001f.
Definition fileMapWrite : Z := 0x2.
Definition WM_COPYDATA : Z := 0x004A.

(** copyDataStruct *)
Record copyDataStruct : Type := {
  dwData : Z;
  cbData : Z;
  lpData : Z;
}.

(** ** Calls of the window procedure

    The shared memory belongs to the client as well: each access to it is a
    call of its own. *)
Inductive WndE : Type -> Type :=
| WTcp X (e : TcpE X) : WndE X
| WDesktop X (e : DesktopE X) : WndE X
| DefWindowProc (hWnd message wParam lParam : Z) : WndE Z
| ReadCopyData (lParam : Z) : WndE copyDataStruct
| ReadName (lpData cbData : Z) : WndE (list byte)
| OpenFileMappingA (access inherit name : Z) : WndE (Z * error)
| WCloseHandle (h : Z) : WndE unit
| MapViewOfFile (h access : Z) : WndE (Z * option error)
| UnmapViewOfFile (addr : Z) : WndE unit
| ReadView (addr : Z) (n : nat) : WndE (list byte)
| WriteView (addr : Z) (bs : list byte) : WndE unit
| SendRequest (data : list byte) : WndE unit
| RecvResponse : WndE response
| WPrintln (msg : string) : WndE unit.

(** mmap.go *)
Definition OpenFileMapping (dwDesiredAccess bInheritHandle mapNamePtr : Z)
    : prog WndE (Z * option error) :=
  let* (ptr, err) := call (OpenFileMappingA dwDesiredAccess bInheritHandle mapNamePtr) in
  if ptr =? 0 then Ret (0, Some err) else Ret (ptr, None).

(** [if s.debug { println(...) }] *)
Definition debugln (debug : bool) (msg : string) : prog WndE unit :=
  if debug then call (WPrintln msg) else Ret tt.

(** A failed step: the message, and the zero result. *)
Definition fails (msg : string) : prog WndE Z := call (WPrintln msg) ;; Ret 0.

(** The part with the view mapped. *)
Definition with_view (addr : Z) : prog WndE Z :=
  hdr <- call (ReadView addr 4) ;;
  let size := u32 (be_uint hdr + 4) in
  if agentMaxMsglen <? size then fails "Pageant: invalid message length" else
  data <- call (ReadView addr (Z.to_nat size)) ;;
  call (SendRequest data) ;;
  resp <- call RecvResponse ;;
  match resp with
  | Response out =>
      if agentMaxMsglen <? Z.of_nat (length out) then
        fails "Pageant: response too large for shared memory buffer"
      else call (WriteView addr out) ;; Ret 1
  | ResponseErr _ => Ret 0
  end.

(** The part with the file mapping open. *)
Definition with_mapping (debug : bool) (fileMap : Z) : prog WndE Z :=
  let* (ourself, err) := translate WTcp GetUserSID in
  match err with Some _ => fails "Pageant: GetUserSID error" | None =>
  let* (ourself2, err) := translate WDesktop GetDefaultSID in
  match err with Some _ => fails "Pageant: GetDefaultSID error" | None =>
  let* (mapOwner, err) := translate WDesktop (GetHandleSID fileMap) in
  match err with Some _ => fails "Pageant: GetHandleSID error" | None =>
  debugln debug "Pageant: ourSID" ;;
  same <- call (WTcp _ (EqualSid mapOwner ourself)) ;;
  same2 <- (if same : bool then Ret true else call (WTcp _ (EqualSid mapOwner ourself2))) ;;
  if negb same2 then fails "Pageant: wrong owning SID of file mapping" else
  let* (sharedMemory, err) := call (MapViewOfFile fileMap fileMapWrite) in
  match err with Some _ => fails "Pageant: MapViewOfFile error" | None =>
  defer (call (UnmapViewOfFile sharedMemory)) (with_view sharedMemory)
  end end end end.

Definition wndProc (debug : bool) (hWnd message wParam lParam : Z) : prog WndE Z :=
  if negb (message =? WM_COPYDATA) then call (DefWindowProc hWnd message wParam lParam) else
  copyData <- call (ReadCopyData lParam) ;;
  if negb (dwData copyData =? agentCopydataId) then
    debugln debug "Pageant: invalid copy data id" ;; Ret 0 else
  (if debug then call (ReadName (lpData copyData) (cbData copyData)) ;;
                 call (WPrintln "Pageant: OpenFileMapping") else Ret tt) ;;
  let* (fileMap, err) := OpenFileMapping fileMapAllAccess 0 (lpData copyData) in
  match err with Some _ => fails "Pageant: OpenFileMapping error" | None =>
  defer (call (WCloseHandle fileMap)) (with_mapping debug fileMap)
  end.

(** ** What Windows promises *)

(** What the window procedure relies on at the other end of its channels: how
    [s.requestCh <- request{data, ch}] and [<-ch] may change the state [G] of
    the rest of the program. *)
Class RequestChannel (G : Type) : Type := {
  send_request : list byte -> G -> G -> Prop;
  recv_response : response -> G -> G -> Prop;
}.

(** The open mappings, the mapped views with their mapping, what was read from
    the views, the requests that were handed to the agent, what was written to
    the views, and the rest of the program. *)
Record wnd_state (G : Type) : Type := WndState {
  maps : list Z;
  mviews : list (Z * Z);
  seen : list (Z * list byte);
  requests : list (list byte);
  written : list (Z * list byte);
  rest : G;
}.
Arguments WndState {G}.
Arguments maps {G}.
Arguments mviews {G}.
Arguments seen {G}.
Arguments requests {G}.
Arguments written {G}.
Arguments rest {G}.

Section wnd.
Context {G : Type} `{!RequestChannel G}.
(** Our user, the owner of every kernel object, our process's handle, and the
    number of bytes mapped for each mapping (whole pages). *)
Context (own_sid : list byte) (owner_of : Z -> list byte) (self : Z) (size_of : Z -> Z).
Local Abbreviation T := (tcp_env None (fun _ => []) own_sid 0).
Definition no_tcp : tcp_state := {| table := None; procs := []; tokens := [] |}.

(** A mapping we may trust: its owner is our user, or the owner of our own
    process (the Administrators group, when elevated). *)
Definition trusted (f : Z) : Prop := owner_of f = own_sid \/ owner_of f = owner_of self.

(** The first [n] bytes at [a] are mapped.  An access beyond them ends the whole
    process, with no deferred call and no answer, so nothing follows it. *)
Definition in_view (s : wnd_state G) (a : Z) (n : nat) : Prop :=
  exists f, (a, f) ∈ mviews s /\ Z.of_nat n <= size_of f.

Definition wnd_env : env WndE (wnd_state G) :=
  {| may X e s :=
       match e with
       | WTcp _ e => may T e no_tcp
       | WCloseHandle f | MapViewOfFile f _ => f ∈ maps s
       | UnmapViewOfFile a => exists f, (a, f) ∈ mviews s
       | ReadView a n => exists f, (a, f) ∈ mviews s /\ Z.of_nat n <= agentMaxMsglen
       | WriteView a bs => exists f, (a, f) ∈ mviews s /\ Z.of_nat (length bs) <= agentMaxMsglen
       | SendRequest bs =>
           (exists a f, (a, f) ∈ mviews s /\ trusted f) /\ Z.of_nat (length bs) <= agentMaxMsglen
       | _ => True
       end;
     does X e s :=
       match e in WndE X return X -> wnd_state G -> Prop with
       | WTcp _ e => fun x t => (exists y, does T e no_tcp x y) /\ t = s
       | WDesktop _ e => fun x t => t = s /\
           match e in DesktopE X return X -> Prop with
           | CurrentProcess => fun h => h = self
           | GetSecurityInfo h => fun '(sd, err) => err = None -> sd = h
           | SDOwner sd => fun '(sid, err) => err = None -> sid = owner_of sd
           | _ => fun _ => True
           end x
       | OpenFileMappingA _ _ _ => fun '(f, _) t =>
           if f =? 0 then t = s
           else (f ∉ maps s) /\ t = WndState (f :: maps s) (mviews s) (seen s) (requests s) (written s) (rest s)
       | WCloseHandle f => fun _ t =>
           t = WndState (filter (fun g => g <> f) (maps s)) (mviews s) (seen s) (requests s) (written s)
                 (rest s)
       | MapViewOfFile f _ => fun '(a, err) t =>
           match err with
           | Some _ => t = s
           | None => (a ∉ (mviews s).*1) /\
                     t = WndState (maps s) ((a, f) :: mviews s) (seen s) (requests s) (written s) (rest s)
           end
       | UnmapViewOfFile a => fun _ t =>
           t = WndState (maps s) (filter (fun x => x.1 <> a) (mviews s)) (seen s) (requests s) (written s)
                 (rest s)
       | ReadView a n => fun bs t => in_view s a n /\ length bs = n /\
           t = WndState (maps s) (mviews s) (seen s ++ [(a, bs)]) (requests s) (written s) (rest s)
       | SendRequest bs => fun _ t => exists g, send_request bs (rest s) g /\
           t = WndState (maps s) (mviews s) (seen s) (requests s ++ [bs]) (written s) g
       | RecvResponse => fun r t => exists g, recv_response r (rest s) g /\
           t = WndState (maps s) (mviews s) (seen s) (requests s) (written s) g
       | WriteView a bs => fun _ t => in_view s a (length bs) /\
           t = WndState (maps s) (mviews s) (seen s) (requests s) (written s ++ [(a, bs)]) (rest s)
       | _ => fun _ t => t = s
       end |}.
Local Abbreviation V := wnd_env.

Lemma fails_ok msg s (Q : outcome Z -> wnd_state G -> Prop) :
  Q (Returns 0) s -> wp V (fails msg) s Q.
Proof. intros HQ. unfold fails. prog. split; [done|]. answer x. exact HQ. Qed.

Lemma GetUserSID_ok s :
  wp V (translate WTcp GetUserSID) s (returns (fun r t =>
    t = s /\ (r.2 = None -> r.1 = own_sid))).
Proof.
  unfold GetUserSID. prog. split; [done|]. intros tok t [[? [-> _]] ->]. prog.
  split; [by left|]. intros [sid err] t [[? [_ Hs]] ->]. destruct err; prog; [done|].
  split; [done|]. intros _. by destruct (Hs eq_refl) as [[_ ->]|[[] _]].
Qed.

Lemma GetHandleSID_ok h s :
  wp V (translate WDesktop (GetHandleSID h)) s (returns (fun r t =>
    t = s /\ (r.2 = None -> r.1 = owner_of h))).
Proof.
  unfold GetHandleSID. prog. split; [done|]. intros [sd [e|]] t [-> Hsd]; prog; [done|].
  rewrite (Hsd eq_refl). split; [done|]. intros [sid [e|]] t [-> Hsid]; prog; [done|].
  split; [done|]. auto.
Qed.

Lemma GetDefaultSID_ok s :
  wp V (translate WDesktop GetDefaultSID) s (returns (fun r t =>
    t = s /\ (r.2 = None -> r.1 = owner_of self))).
Proof.
  unfold GetDefaultSID. cbn [bind call translate wpx]. split; [done|].
  intros h t [-> ->]. cbn [bind]. apply GetHandleSID_ok.
Qed.

(** What a message does: nothing, or the request it finds in the view (as many
    bytes as the length in front says, with the length) is handed over once, and
    the response that comes back for it decides: an answer that fits is written
    to the view, and the result is 1. *)
Definition responded (s : wnd_state G) (a : Z) (resp : response) (r : Z) (t : wnd_state G) : Prop :=
  match resp with
  | Response out =>
      if agentMaxMsglen <? Z.of_nat (length out) then r = 0 /\ written t = written s
      else r = 1 /\ written t = written s ++ [(a, out)]
  | ResponseErr _ => r = 0 /\ written t = written s
  end.

(** The bytes of a request in the view [a], as they were when they were read:
    first the length, then all of it. *)
Definition request_in_view (s : wnd_state G) (a : Z) (bs : list byte) (t : wnd_state G) : Prop :=
  exists hdr, seen t = seen s ++ [(a, hdr); (a, bs)] /\ length hdr = 4%nat /\
    Z.of_nat (length bs) = u32 (be_uint hdr + 4).

Definition handled (s : wnd_state G) (r : Z) (t : wnd_state G) : Prop :=
  maps t = maps s /\ mviews t = mviews s /\
  ((r = 0 /\ requests t = requests s /\ written t = written s /\ rest t = rest s) \/
   exists a f bs g resp, trusted f /\ request_in_view s a bs t /\
     Z.of_nat (length bs) <= agentMaxMsglen /\ Z.of_nat (length bs) <= size_of f /\
     requests t = requests s ++ [bs] /\
     send_request bs (rest s) g /\ recv_response resp g (rest t) /\ responded s a resp r t).

Lemma with_view_ok a f s :
  mviews s !! 0%nat = Some (a, f) -> (a ∉ (tail (mviews s)).*1) -> trusted f ->
  wp V (with_view a) s (returns (fun r t => handled s r t)).
Proof.
  intros Ha Hfresh Hf. unfold with_view.
  assert (Hin : (a, f) ∈ mviews s) by (apply list_elem_of_lookup; eauto).
  assert (Hthe : forall n s', mviews s' = mviews s -> in_view s' a n -> Z.of_nat n <= size_of f).
  { unfold in_view. intros n s' -> (f' & Hf' & Hn). enough (f' = f) as -> by done.
    destruct (mviews s) as [|v vs]; [done|]. injection Ha as ->. cbn in Hfresh.
    apply elem_of_cons in Hf' as [[= ->]|Hf']; [done|]. destruct Hfresh.
    apply list_elem_of_fmap. by exists (a, f'). }
  prog. split; [exists f; split; [done|unfold agentMaxMsglen; lia]|]. intros hdr t (_ & Hh & ->).
  pose proof (wrap_range 32 (be_uint hdr + 4)). set (size := u32 (be_uint hdr + 4)) in *.
  destruct (Z.ltb_spec agentMaxMsglen size).
  { apply fails_ok. split; [done|]. split; [done|]. by left. }
  prog. split; [exists f; split; [done|lia]|]. intros bs t (Hv & Hbs & ->).
  apply Hthe in Hv; [|done].
  assert (Hlen : Z.of_nat (length bs) = size) by lia.
  prog. split; [split; [by exists a, f|lia]|]. intros [] t (g & Hg & ->). prog. split; [done|].
  intros resp t (g' & Hg' & ->). set (u := WndState _ _ _ _ _ g').
  assert (Hdone : forall r t, maps t = maps u -> mviews t = mviews u -> seen t = seen u ->
    requests t = requests u -> rest t = rest u -> responded s a resp r t -> handled s r t).
  { intros r t Hm Hvs Hs Hq Hr Hresp. split; [done|]. split; [done|]. right.
    exists a, f, bs, g, resp. rewrite Hq, Hr. split; [done|]. split.
    { exists hdr. rewrite Hs. cbn. by rewrite <-app_assoc. }
    split_and!; [lia|lia|done..]. }
  unfold responded in Hdone. destruct resp as [out|e]; prog.
  - destruct (Z.ltb_spec agentMaxMsglen (Z.of_nat (length out))).
    + apply fails_ok. by apply Hdone.
    + prog. split; [by exists f|]. intros [] v [_ ->]. by apply Hdone.
  - by apply Hdone.
Qed.

Lemma debugln_ok debug msg s :
  wp V (debugln debug msg) s (returns (fun _ t => t = s)).
Proof. destruct debug; prog; [|done]. split; [done|]. by answer x. Qed.

Lemma with_mapping_ok debug f s :
  f ∈ maps s ->
  wp V (with_mapping debug f) s (returns (fun r t => handled s r t)).
Proof.
  intros Hf. unfold with_mapping.
  assert (Hnone : handled s 0 s) by (split; [done|]; split; [done|]; by left).
  eapply wp_seq; [apply GetUserSID_ok|]. intros [o1 [e|]] ? [-> H1]; [by apply fails_ok|].
  eapply wp_seq; [apply GetDefaultSID_ok|]. intros [o2 [e|]] ? [-> H2]; [by apply fails_ok|].
  eapply wp_seq; [apply GetHandleSID_ok|]. intros [o3 [e|]] ? [-> H3]; [by apply fails_ok|].
  cbn [fst snd] in *. rewrite (H1 eq_refl), (H2 eq_refl), (H3 eq_refl).
  eapply wp_seq; [apply debugln_ok|]. intros [] ? ->.
  apply wp_bind. cbn [wpx call]. split; [done|]. intros b t [[? [-> _]] ->].
  eapply (wp_seq _ _ _ _ _ (fun b t => t = s /\ (b = true -> trusted f))).
  { destruct (bool_decide_reflect (owner_of f = own_sid)) as [He|]; prog.
    - split; [done|]. by left.
    - split; [done|]. intros b t [[? [-> _]] ->]. split; [done|].
      intros Hb%bool_decide_eq_true. by right. }
  intros [|] ? [-> Htr]; cbn [negb]; [|by apply fails_ok].
  prog. split; [done|]. intros [a [e|]] t Ht; hnf in Ht; [subst t; by apply fails_ok|].
  destruct Ht as [Ha ->].
  eapply wp_defer; [apply (with_view_ok a f); [done|exact Ha|by apply Htr]|].
  intros [r|msg] t; prog; [|done]. intros (Hm & Hv & Hr). cbn in Hm, Hv.
  split; [exists f; rewrite Hv; apply elem_here|]. answer u1.
  split; [done|]. split; [cbn; rewrite Hv; by apply (filter_fresh fst)|exact Hr].
Qed.

Lemma wndProc_ok debug hWnd message wParam lParam s :
  wp V (wndProc debug hWnd message wParam lParam) s (returns (fun r t =>
    if message =? WM_COPYDATA then handled s r t else t = s)).
Proof.
  unfold wndProc. destruct (message =? WM_COPYDATA); cbn [negb].
  2: { prog. split; [done|]. by answer r. }
  assert (Hnone : handled s 0 s) by (split; [done|]; split; [done|]; by left).
  apply wp_bind. cbn [wpx call]. split; [done|]. answer cd.
  destruct (negb (dwData cd =? agentCopydataId)).
  { eapply wp_seq; [apply debugln_ok|]. by intros [] ? ->. }
  eapply (wp_seq _ _ _ _ _ (fun _ t => t = s)).
  { destruct debug; prog; [|done]. split; [done|]. answer x. prog. split; [done|]. by answer y. }
  intros _ ? ->. unfold OpenFileMapping. prog. split; [done|].
  intros [f e] t Ht. hnf in Ht. destruct (f =? 0); prog.
  { subst t. by apply fails_ok. }
  destruct Ht as [Hf ->].
  eapply wp_defer; [apply with_mapping_ok, elem_here|].
  intros [r|msg] t; prog; [|done]. intros (Hm & Hv & Hr). cbn in Hm, Hv.
  split; [cbn; rewrite Hm; apply elem_here|]. answer u1.
  split; [cbn; rewrite Hm; by apply filter_self|].
  split; [exact Hv|exact Hr].
Qed.


(** The 32-bit sum of the length check can wrap: for the lengths
    0xFFFFFFFC to 0xFFFFFFFF the size becomes 0 to 3, passes the check, and a
    request without a complete length field is handed to the agent. *)
Theorem with_view_size_wraps a f n s g g' :
  (a, f) ∈ mviews s -> 4 <= size_of f -> trusted f -> 0 <= n < 4 ->
  send_request (replicate (Z.to_nat n) xff) (rest s) g ->
  recv_response (ResponseErr ErrUnexpectedEOF) g g' ->
  exists t, requests t = requests s ++ [replicate (Z.to_nat n) xff] /\
    exec V (with_view a) s (Returns 0) t.
Proof.
  intros Ha Hsz Hf Hn Hg Hg'. unfold with_view.
  set (hdr := be_bytes 4 (0xfffffffc + n)). set (bs := replicate (Z.to_nat n) xff).
  set (seen1 := seen s ++ [(a, hdr)]). set (seen2 := seen1 ++ [(a, bs)]).
  exists (WndState (maps s) (mviews s) seen2 (requests s ++ [bs]) (written s) g').
  split; [done|].
  eapply (exec_vis _ _ _ _ _ _ hdr (WndState (maps s) (mviews s) seen1 _ _ _)).
  { split; [by exists f|]. split; [apply length_be_bytes|done]. }
  cbn [bind]. unfold hdr. rewrite be_uint_bytes. change (256 ^ Z.of_nat 4) with (2 ^ 32).
  rewrite (Z.mod_small (0xfffffffc + n)) by lia.
  assert (Hw : u32 (0xfffffffc + n + 4) = n).
  { unfold wrap. replace (0xfffffffc + n + 4) with (n + 1 * 2 ^ 32) by lia.
    rewrite Z.mod_add, Z.mod_small; lia. }
  rewrite Hw. destruct (Z.ltb_spec agentMaxMsglen n); [unfold agentMaxMsglen in *; lia|].
  eapply (exec_vis _ _ _ _ _ _ bs (WndState (maps s) (mviews s) seen2 _ _ _)).
  { split; [exists f; split; [done|lia]|]. split; [apply length_replicate|done]. }
  eapply (exec_vis _ _ _ _ _ _ tt); [by exists g|].
  eapply (exec_vis _ _ _ _ _ _ (ResponseErr ErrUnexpectedEOF)); [by exists g'|].
  constructor.
Qed.

End wnd.

(** ** The window *)

Record pageantWindow : Type := {
  pclass : string;
  pwindow : Z;
  pdebug : bool;
}.

(** The window is made in a goroutine of its own, which then runs the event
    loop; the result that comes back is the handle and its error.  When there
    is no window the function returns the [err] of the registration, which is
    nil by then. *)
Definition NewPageant (debug : bool) : prog AppE (option pageantWindow * option error) :=
  match UTF16Ptr className with None => Ret (None, Some EINVAL) | Some _ =>
  err <- register className ;;
  match err with Some e => Ret (None, Some e) | None =>
  let* (handle, _) := call (CreateWindowEx className className) in
  if handle =? 0 then unregister className ;; Ret (None, err)
  else Ret (Some {| pclass := className; pwindow := handle; pdebug := debug |}, None)
  end end.

Definition AcceptCtx (win : option pageantWindow) : prog AppE (Z * option error) :=
  match win with
  | None => Panic "nil pointer dereference"
  | Some _ =>
      req <- call SelectRequest ;;
      match req with
      | Some c => Ret (c, None)
      | None => Ret (0, Some ErrClosedPipe)
      end
  end.

Definition pageant_Close (win : option pageantWindow) : prog AppE unit :=
  match win with
  | None => Panic "nil pointer dereference"
  | Some x => call (DestroyWindow (pwindow x)) ;; unregister (pclass x) ;; Ret tt
  end.

(** [int32(ret)] of the uintptr Windows returned. *)
Definition int32 (z : Z) : Z := (z + 2 ^ 31) mod 2 ^ 32 - 2 ^ 31.

Definition eventLoop_step (window : Z) (_ : unit) : prog AppE (ctl unit unit) :=
  ret <- call (GetMessage window) ;;
  if int32 ret =? -1 then Ret (Return tt)
  else if int32 ret =? 0 then Ret (Return tt)
  else call TranslateMessage ;; call DispatchMessage ;; Ret (Next tt).

Definition eventLoop (window : Z) : prog AppE unit :=
  loop (eventLoop_step window) tt ;; Ret tt.

(** ** app/pageant.go *)

Definition Run_step (win : option pageantWindow) (_ : unit)
    : prog AppE (ctl unit (option error)) :=
  let* (conn, err) := AcceptCtx win in
  match err with
  | Some e =>
      call WgWait ;;
      if bool_decide (e = ErrClosedPipe) then Ret (Return None) else Ret (Return (Some e))
  | None =>
      call WgAdd ;;
      call (Go conn) ;;
      Ret (Next tt)
  end.

Definition Run : prog AppE (option error) :=
  v <- call (Getenv "KB_DEBUG") ;;
  let debug := String.eqb v "1" in
  let* (win, err) := NewPageant debug in
  match err with
  | Some e => Ret (Some e)
  | None =>
      defer (pageant_Close win) (
        r <- loop (Run_step win) tt ;;
        match r with inl _ => Ret None | inr err => Ret err end)
  end.

Section run.
Context (w : tcp_world).
Local Abbreviation V := (app_env (fun _ _ => True) (fun _ _ => False) w).

(** Only the classes differ: no window was made, and nobody was served. *)
Definition only_classes (s u : app_state) : Prop := u = with_classes (classes u) s.

(** A window with the class and the title of Pageant was made. *)
Definition window_made (h : Z) (s u : app_state) : Prop :=
  (h ∉ wins s) /\ wins u = h :: wins s /\ published u = className :: published s /\
  owned u = owned s /\ served u = served s /\ waiting u = waiting s /\ stops u = stops s.

Lemma NewPageant_ok debug s :
  wp V (NewPageant debug) s (returns (fun r u =>
    match r with
    | (Some x, None) => window_made (pwindow x) s u
    | (None, Some _) => u = s
    | (None, None) => only_classes s u
    | _ => False
    end)).
Proof.
  unfold NewPageant, register. cbn [UTF16Ptr]. destruct (UTF16Ptr className); [|by prog].
  prog. split; [done|]. intros [r e] u Hu. hnf in Hu. destruct (r =? 0); subst u; [by prog|].
  prog. split; [done|]. intros [h e'] u Hu. hnf in Hu. destruct (h =? 0).
  - subst u. unfold unregister. prog. split; [done|]. intros [r2 e2] u Hu. hnf in Hu.
    destruct (r2 =? 0); subst u; by prog.
  - destruct Hu as [Hh ->]. by prog.
Qed.

(** The accept loop of a window there is. *)
Lemma pageant_serve_ok win s :
  owned s = [] -> 0 <= waiting s -> is_Some win ->
  wlp V (r <- loop (Run_step win) tt ;;
         match r with inl _ => Ret None | inr err => Ret err end) s (fun o u =>
    o = Returns None /\ wins u = wins s /\ published u = published s /\ owned u = [] /\
    waiting u = 0 /\ stops u = S (stops s)).
Proof.
  intros Ho Hw [x ->]. cbn [bind loop].
  apply wlp_loop with (fun _ t => owned t = [] /\ 0 <= waiting t /\ wins t = wins s /\
    published t = published s /\ stops t = stops s); [done|].
  intros [] t (Hto & Htw & Hts & Htp & Htn). unfold Run_step, AcceptCtx. prog. split; [done|].
  intros [c|] u Hu; hnf in Hu.
  - destruct Hu as (_ & Hc & bs & ->). rewrite Hto. apply hand_over_ok; [done..|].
    prog. split; [done|]. cbn. split; [lia|done].
  - subst u. prog. split; [done|]. answer y. prog. rewrite bool_decide_true by done. cbn. by rewrite Htn.
Qed.

(** What [Run] leaves behind. *)
Definition run_post (s : app_state) (o : outcome (option error)) (u : app_state) : Prop :=
  match o with
  | Returns (Some _) => u = s
  | Returns None => wins u = wins s /\ published u = className :: published s /\
      owned u = [] /\ waiting u = 0 /\ stops u = S (stops s)
  | Panics _ => only_classes s u
  end.

Lemma Pageant_Run_ok s : owned s = [] -> 0 <= waiting s -> wlp V Run s (run_post s).
Proof.
  intros Ho Hw. unfold Run. apply wp_bind. cbn [wpx call]. split; [done|]. answer v.
  eapply wp_seq; [apply wp_total, NewPageant_ok|].
  intros [[win|] [e|]] u Hu; [done| |by prog|].
  - destruct Hu as (Hn & Hu & Hpu & Eo & Es & Ew & En).
    eapply wp_defer; [eapply (pageant_serve_ok (Some win) u); [by rewrite Eo|by rewrite Ew|done]|].
    intros o t (-> & Ht & Htp & Hto & Htw & Htn).
    cbn [pageant_Close]. unfold unregister. prog. cbn. rewrite Ht, Hu. split; [apply elem_here|].
    answer x. prog. split; [done|]. intros [r e] t' Ht'. hnf in Ht'.
    assert (Hf : filter (fun k => k <> pwindow win) (pwindow win :: wins s) = wins s)
      by (by apply filter_self).
    destruct (r =? 0); subst t'; prog; cbn; rewrite ?Ht, ?Hu, ?Htp, ?Hpu, ?Htn, ?En; auto 10.
  - unfold defer. cbn [on_panic bind loop Run_step AcceptCtx pageant_Close].
    apply wlp_loop with (fun _ t => t = u); [done|].
    intros [] t ->. exact Hu.
Qed.

(** (C31) Running Pageant: every request the window hands over is served, and
    none is turned away; when [Run] returns without an error, it had made its
    window and given it to DestroyWindow, no connection is left over, and every
    handler has finished, after the context was found cancelled, once; with
    an error nothing had changed.  It panics only when the window could not be
    created although its class was registered: no error is returned then, and
    [Run] uses the nil window, having served nobody. *)
Theorem Run_pageant s : owned s = [] -> 0 <= waiting s -> wlp V Run s (run_post s).
Proof. apply Pageant_Run_ok. Qed.
End run.

(** A program that takes any request and refuses it. *)
Definition refusing : RequestChannel unit :=
  {| send_request _ _ _ := True;
     recv_response r _ _ := r = ResponseErr ErrUnexpectedEOF |}.

(** Our own process asks, with a length field of 0xFFFFFFFE. *)
Lemma with_view_size_wraps_witness :
  exists t, requests t = [[xff; xff]] /\
    exec (@wnd_env unit refusing [x01] (fun _ => [x01]) 1 (fun _ => 4096)) (with_view 64)
      (WndState [8] [(64, 8)] [] [] [] tt) (Returns 0) t.
Proof.
  apply (@with_view_size_wraps unit refusing [x01] (fun _ => [x01]) 1 (fun _ => 4096) 64 8 2
           (WndState [8] [(64, 8)] [] [] [] tt) tt tt).
  - apply elem_here.
  - lia.
  - by left.
  - lia.
  - exact I.
  - reflexivity.
Defined.

Lemma Run_pageant_witness :
  wlp (app_env (fun _ _ => True) (fun _ _ => False) demo_world) Run demo_app (run_post demo_app).
Proof. apply (Run_pageant demo_world demo_app); [reflexivity|cbn; lia]. Defined.
