(* ===== verification/PageantFlow.v ===== *)
(** utils/pageant.go, utils/mmap.go and app/pageant.go together: the window
    thread, the accept loop and the handlers as a transition system over the
    two unbuffered channels that join them. *)
From S2P Require Import Prelude Effects Mmap Pageant.

(** ** The state *)

(** The window thread: in [eventLoop], or in [wndProc] at
    [s.requestCh <- request{data, ch}], or at [resp := <-ch] of request [n]. *)
Inductive window_pc : Type :=
| WIdle
| WSend (d : list byte)
| WWait (n : nat).

(** The loop of [Run]: in the [select] of [AcceptCtx], or past it for good. *)
Inductive accept_pc : Type := Accepting | Stopped.

(** A connection made of a request; [sending] is the response [Close] is
    sending with the mutex of the connection held. *)
Record served : Type := Served {
  session_of : session;
  sending : option response;
}.

Record flow : Type := Flow {
  window : window_pc;
  accept : accept_pc;
  cancelled : bool;
  conns : list served;
  asked : list (list byte);  (** the requests [wndProc] accepted, in order *)
  results : list response;   (** what it received for them, in order *)
}.

Definition flow_init : flow := Flow WIdle Accepting false [] [] [].

(** ** The steps *)
Inductive flow_step : flow -> flow -> Prop :=
| deliver d a c cs qs rs :
    (** a client sends WM_COPYDATA, and [wndProc] accepts its request *)
    flow_step (Flow WIdle a c cs qs rs) (Flow (WSend d) a c cs (qs ++ [d]) rs)
| hand_over d c cs qs rs :
    (** [case req := <-s.requestCh]; the handler is started *)
    flow_step (Flow (WSend d) Accepting c cs qs rs)
              (Flow (WWait (length cs)) Accepting c (cs ++ [Served (start d) None]) qs rs)
| cancel w a c cs qs rs :
    flow_step (Flow w a c cs qs rs) (Flow w a true cs qs rs)
| stop w cs qs rs :
    (** [case <-ctx.Done()]: [Run] waits for its handlers and returns *)
    flow_step (Flow w Accepting true cs qs rs) (Flow w Stopped true cs qs rs)
| handler_op w a c cs qs rs i s o :
    (** a handler reads, writes, or closes a connection that is closed *)
    cs !! i = Some (Served s None) -> (o = OClose -> closed (conn s) = true) ->
    flow_step (Flow w a c cs qs rs)
              (Flow w a c (<[i := Served (step s o).1 None]> cs) qs rs)
| handler_close w a c cs qs rs i s r :
    (** the first [Close], up to [m.req.response <- ...] *)
    cs !! i = Some (Served s None) -> closed (conn s) = false ->
    (Close (conn s)).1.2 = Some r ->
    flow_step (Flow w a c cs qs rs)
              (Flow w a c (<[i := Served (step s OClose).1 (Some r)]> cs) qs rs)
| respond a c cs qs rs i s r :
    (** the response is received by the [wndProc] that waits for it *)
    cs !! i = Some (Served s (Some r)) ->
    flow_step (Flow (WWait i) a c cs qs rs)
              (Flow WIdle a c (<[i := Served s None]> cs) qs (rs ++ [r])).

(** The steps of the whole program. *)
Abbreviation flow_steps := (rtc flow_step).

(** ** The invariant *)

(** The request a connection was made of. *)
Definition request_of (x : served) : list byte := data (conn (session_of x)).

(** A connection whose response has been received, and one that is live. *)
Definition answered_with (x : served) (r : response) : Prop :=
  sending x = None /\ closed (conn (session_of x)) = true /\
  r = answer_of (writes (session_of x)).

Definition live (x : served) : Prop :=
  match sending x with
  | None => closed (conn (session_of x)) = false
  | Some r => closed (conn (session_of x)) = true /\ r = answer_of (writes (session_of x))
  end.

(** The request that has not been handed over yet. *)
Definition pending (p : window_pc) : list (list byte) :=
  match p with WSend d => [d] | _ => [] end.

(** Every request is served by its own connection, in order; all but the one
    the window thread waits for have been answered, each with its own
    response. *)
Definition flow_ok (f : flow) : Prop :=
  Forall (fun x => session_inv (request_of x) (session_of x)) (conns f) /\
  asked f = map request_of (conns f) ++ pending (window f) /\
  match window f with
  | WWait n => n = length (results f) /\
      exists cs x, conns f = cs ++ [x] /\ Forall2 answered_with cs (results f) /\ live x
  | _ => Forall2 answered_with (conns f) (results f)
  end.

Lemma flow_ok_init : flow_ok flow_init.
Proof. split; [constructor|]. split; [done|constructor]. Qed.

(** A handler's step on connection [i], from [x] to [y]. *)
Lemma flow_ok_handler p a c cs qs rs i x y :
  flow_ok (Flow p a c cs qs rs) -> cs !! i = Some x ->
  session_inv (request_of y) (session_of y) -> request_of y = request_of x ->
  (forall r, answered_with x r -> answered_with y r) -> (live x -> live y) ->
  flow_ok (Flow p a c (<[i := y]> cs) qs rs).
Proof.
  intros (Hs & Hq & Hw) Hi Hy Hr Ha Hl. unfold flow_ok. cbn in *.
  split; [by apply Forall_insert|]. split.
  { rewrite Hq. f_equal. change (map request_of) with (fmap (M := list) request_of).
    rewrite list_fmap_insert, Hr. symmetry. apply list_insert_id.
    by rewrite list_lookup_fmap, Hi. }
  assert (Hans : forall cs, Forall2 answered_with cs rs -> cs !! i = Some x ->
    Forall2 answered_with (<[i := y]> cs) rs).
  { intros cs' H Hi'. destruct (Forall2_lookup_l _ _ _ _ _ H Hi') as (r & Hri & Hx).
    rewrite <-(list_insert_id rs i r Hri). apply Forall2_insert; auto. }
  destruct p as [|d|n]; [by apply Hans..|].
  destruct Hw as (-> & cs0 & z & -> & Hcs & Hz). split; [done|].
  destruct (decide (i < length cs0)%nat) as [Hlt|Hge].
  - rewrite lookup_app_l in Hi by done. exists (<[i := y]> cs0), z.
    rewrite insert_app_l by done. auto.
  - pose proof (lookup_lt_Some _ _ _ Hi) as Hb. rewrite length_app in Hb. cbn in Hb.
    assert (i = length cs0) as -> by lia.
    rewrite list_lookup_middle in Hi by done. injection Hi as <-.
    exists cs0, y. rewrite insert_app_r_alt, Nat.sub_diag by done. auto.
Qed.

Lemma flow_ok_step f g : flow_ok f -> flow_step f g -> flow_ok g.
Proof.
  intros Hf Hg. destruct Hg as [d a c cs qs rs|d c cs qs rs|p a c cs qs rs|p cs qs rs
    |p a c cs qs rs i s o Hi Ho|p a c cs qs rs i s r Hi Hc Hr|a c cs qs rs i s r Hi].
  - destruct Hf as (Hs & Hq & Hw). split; [done|]. split; [|done]. cbn in *.
    by rewrite Hq, app_nil_r.
  - destruct Hf as (Hs & Hq & Hw). cbn in *. split; cbn.
    { apply Forall_app. split; [done|]. constructor; [apply start_inv|done]. }
    split; [by rewrite map_app, app_nil_r|]. split; [by apply Forall2_length in Hw|].
    exists cs, (Served (start d) None). done.
  - exact Hf.
  - exact Hf.
  - eapply flow_ok_handler; [exact Hf|exact Hi| | | |].
    + destruct Hf as (Hs & _). rewrite Forall_forall in Hs. unfold request_of. cbn.
      rewrite step_data. apply step_inv, (Hs (Served s None)), list_elem_of_lookup. eauto.
    + apply step_data.
    + intros r (_ & Hc & Hr). cbn in *. by rewrite step_closed.
    + intros Hl. cbn in *. rewrite step_open; [done|]. intros ->. by rewrite Ho in Hl.
  - assert (Hs : session_inv (request_of (Served s None)) s).
    { destruct Hf as (Hs & _). rewrite Forall_forall in Hs.
      apply (Hs (Served s None)), list_elem_of_lookup. eauto. }
    destruct (step_close _ s r Hs Hc Hr) as [Hc' Hr'].
    eapply flow_ok_handler; [exact Hf|exact Hi| | | |].
    + unfold request_of. cbn -[step]. rewrite step_data. by apply step_inv.
    + apply step_data.
    + intros r' (_ & Ht & _). cbn in Ht. by rewrite Ht in Hc.
    + intros _. done.
  - destruct Hf as (Hs & Hq & Hn & cs0 & x & Hcs0 & Hcs & Hx). cbn in *. subst i cs.
    pose proof (Forall2_length _ _ _ Hcs) as Hlen.
    rewrite <-Hlen, list_lookup_middle in Hi by done. injection Hi as ->.
    rewrite <-Hlen, insert_app_r_alt, Nat.sub_diag by done. cbn.
    apply Forall_app in Hs as [Hs Hlast]. split; cbn.
    { apply Forall_app. split; [done|]. inversion Hlast. by constructor. }
    split; [rewrite Hq, !map_app; by rewrite !app_nil_r|].
    apply Forall2_app; [done|]. constructor; [|done]. by destruct Hx.
Qed.

Lemma flow_ok_steps f : flow_steps flow_init f -> flow_ok f.
Proof.
  intros H. remember flow_init as f0 eqn:E. assert (Hf : flow_ok f0) by (subst; apply flow_ok_init).
  clear E. induction H; eauto using flow_ok_step.
Qed.

(** ** What a client may rely on *)

Lemma flow_lengths f :
  flow_ok f -> (length (results f) <= length (asked f) <= length (results f) + 1)%nat.
Proof.
  intros (_ & -> & Hw). rewrite length_app, length_map. destruct (window f) as [|d|n]; cbn in *.
  - apply Forall2_length in Hw. lia.
  - apply Forall2_length in Hw. lia.
  - destruct Hw as (_ & cs & x & -> & Hw & _). apply Forall2_length in Hw.
    rewrite length_app. cbn. lia.
Qed.

Lemma flow_result f i r :
  flow_ok f -> results f !! i = Some r ->
  exists x, conns f !! i = Some x /\ asked f !! i = Some (request_of x) /\ answered_with x r.
Proof.
  intros (_ & Hq & Hw) Hr.
  assert (Hx : exists x, conns f !! i = Some x /\ answered_with x r).
  { destruct (window f) as [|d|n]; [by eapply Forall2_lookup_r in Hr..|].
    destruct Hw as (_ & cs & x & -> & Hw & _).
    destruct (Forall2_lookup_r _ _ _ _ _ Hw Hr) as (y & Hy & Ha). exists y.
    split; [by apply lookup_app_l_Some|done]. }
  destruct Hx as (x & Hx & Ha). exists x. split; [done|]. split; [|done].
  rewrite Hq. apply lookup_app_l_Some.
  change (map request_of) with (fmap (M := list) request_of).
  by rewrite list_lookup_fmap, Hx.
Qed.

(** (C12) Over all interleavings of clients, window thread, accept loop and
    handlers: requests are answered one at a time and in order; what the window
    procedure receives for its [i]-th request is what the handlers of exactly
    that request's connection wrote to it before they closed it (or the error of
    an empty answer), and what they read is a prefix of that request; and a
    handler that closes never waits for long, since the window procedure is at
    the receive of that same request. *)
Theorem flow_answers f :
  flow_steps flow_init f ->
  (length (results f) <= length (asked f) <= length (results f) + 1)%nat /\
  (forall i r, results f !! i = Some r ->
     exists x rest, conns f !! i = Some x /\
       asked f !! i = Some (reads (session_of x) ++ rest) /\
       r = answer_of (writes (session_of x))) /\
  (forall i x r, conns f !! i = Some x -> sending x = Some r -> window f = WWait i).
Proof.
  intros Hf%flow_ok_steps. split; [by apply flow_lengths|]. split.
  - intros i r Hr. destruct (flow_result f i r Hf Hr) as (x & Hx & Hq & _ & _ & Ha).
    destruct Hf as (Hs & _). rewrite Forall_lookup in Hs.
    destruct (Hs i x Hx) as (_ & _ & Hreads & _). exists x, (drop (offset (conn (session_of x))) (request_of x)).
    rewrite Hreads, take_drop. done.
  - intros i x r Hi Hx. destruct Hf as (_ & _ & Hw).
    assert (Hno : forall cs, Forall2 answered_with cs (results f) -> cs !! i <> Some x).
    { intros cs H Hc. destruct (Forall2_lookup_l _ _ _ _ _ H Hc) as (r' & _ & Hn & _). congruence. }
    destruct (window f) as [|d|n]; [by destruct (Hno _ Hw Hi)..|].
    destruct Hw as (-> & cs & y & Hcs & Hw & _). rewrite Hcs in Hi.
    apply lookup_snoc_Some in Hi as [[_ Hi]|[-> _]]; [by destruct (Hno _ Hw Hi)|].
    by rewrite (Forall2_length _ _ _ Hw).
Qed.

(** Closing the live connection gets the window thread its response. *)
Lemma flow_close f n :
  flow_ok f -> window f = WWait n ->
  exists g, flow_steps f g /\ window g = WIdle /\ asked g = asked f.
Proof.
  intros (Hs & _ & Hw) Hn. rewrite Hn in Hw. destruct f as [p a c cs qs rs]. cbn in *. subst p.
  destruct Hw as (-> & cs0 & [s o] & -> & Hcs & Hx).
  rewrite <-(Forall2_length _ _ _ Hcs).
  assert (Hresp : forall s r, exists g,
    flow_steps (Flow (WWait (length cs0)) a c (cs0 ++ [Served s (Some r)]) qs rs) g /\
    window g = WIdle /\ asked g = qs).
  { intros s' r. eexists. split; [apply rtc_once; by eapply respond, list_lookup_middle|done]. }
  destruct o as [r|]; [apply Hresp|]. unfold live in Hx. cbn in Hx.
  destruct (Close (conn s)) as [[m o] e] eqn:Hc. destruct o as [r|].
  - destruct (Hresp (step s OClose).1 r) as (g & Hg & Hgw). exists g. split; [|exact Hgw].
    eapply rtc_l; [eapply (handler_close _ _ _ _ _ _ (length cs0) s r)|].
    + by apply list_lookup_middle.
    + done.
    + by rewrite Hc.
    + rewrite insert_app_r_alt, Nat.sub_diag by done. exact Hg.
  - unfold Close in Hc. by rewrite Hx in Hc.
Qed.

(** (C13) As long as [Run] accepts, no request is lost in a deadlock: from every
    reachable state the program can go on to answer the request at hand and
    return the window thread to its message loop. *)
Theorem flow_can_answer f :
  flow_steps flow_init f -> accept f = Accepting ->
  exists g, flow_steps f g /\ window g = WIdle /\ asked g = asked f /\
    length (results g) = length (asked f).
Proof.
  intros Hf Ha. pose proof (flow_ok_steps f Hf) as Hok.
  assert (Hg : exists g, flow_steps f g /\ window g = WIdle /\ asked g = asked f).
  { destruct (window f) as [|d|n] eqn:Hw; [by exists f| |by eapply flow_close].
    destruct f as [p a c cs qs rs]. cbn in *. subst.
    pose proof (hand_over d c cs qs rs) as Hstep.
    destruct (flow_close _ (length cs) (flow_ok_step _ _ Hok Hstep) eq_refl) as (g & Hg & Hr).
    exists g. split; [by eapply rtc_l|exact Hr]. }
  destruct Hg as (g & Hg & Hw & Hq). exists g. split_and!; [done..|].
  assert (Hfg : flow_steps flow_init g) by (by etransitivity).
  destruct (flow_ok_steps g Hfg) as (_ & Hq' & Hans). rewrite Hw in *.
  rewrite <-Hq, Hq', app_nil_r, length_map. symmetry. by eapply Forall2_length.
Qed.

(** [wndProc] accepts the request [d]. *)
Definition with_request (d : list byte) (f : flow) : flow :=
  Flow (WSend d) (accept f) (cancelled f) (conns f) (asked f ++ [d]) (results f).

Lemma deliver_request d f : window f = WIdle -> flow_step f (with_request d f).
Proof. destruct f as [p a c cs qs rs]. cbn. intros ->. apply deliver. Qed.

(** [f] with the window thread at a send that nobody will receive. *)
Definition wedged (d : list byte) (f g : flow) : Prop :=
  window g = WSend d /\ accept g = Stopped /\ results g = results f /\
  length (conns g) = length (conns f).

Lemma wedged_steps d f g h : wedged d f g -> flow_steps g h -> wedged d f h.
Proof.
  intros Hg Hs. induction Hs as [|g h k Hs _ IH]; [done|]. apply IH. clear IH k.
  destruct Hg as (Hw & Ha & Hr & Hc). destruct Hs; cbn in *; try congruence;
    unfold wedged; cbn; rewrite ?length_insert; auto; congruence.
Qed.

(** (C14) After [Run] has stopped, nothing takes a request any more, but the
    window is still there: whatever the state it stopped in, the window
    procedure accepts the next message, and from then on, whatever the rest of
    the program does, the window thread stays at the send of that request; it
    is never made a connection of, nobody ever gets an answer, and the client
    stays in its SendMessage. *)
Theorem flow_wedges f d :
  accept f = Stopped -> window f = WIdle ->
  flow_step f (with_request d f) /\
  forall g, flow_steps (with_request d f) g ->
    window g = WSend d /\ accept g = Stopped /\ results g = results f /\
    length (conns g) = length (conns f).
Proof.
  intros Ha Hw. split; [by apply deliver_request|].
  intros g Hg. by eapply wedged_steps; [|exact Hg].
Qed.

(** ** The window procedure in the flow

    The channels of [wndProc] (Pageant.v) lead to the rest of this transition
    system: while the window thread sends or waits, the others go on. *)

(** Steps of the accept loop, the handlers and main. *)
Definition others (f g : flow) : Prop :=
  flow_steps f g /\ asked g = asked f /\ results g = results f.

#[export] Instance flow_channel : RequestChannel flow :=
  {| send_request d f g := exists f1, others f f1 /\ window f1 = WIdle /\
       others (with_request d f1) g /\ exists n, window g = WWait n;
     recv_response r f g := exists f1, others f f1 /\ window f1 = window f /\
       flow_step f1 g /\ window g = WIdle /\ asked g = asked f1 /\ results g = results f1 ++ [r] |}.

Lemma send_request_flow d f g :
  flow_steps flow_init f -> send_request d f g ->
  flow_steps flow_init g /\ asked g = asked f ++ [d] /\ results g = results f.
Proof.
  intros Hf (f1 & (Hs1 & Hq1 & Hr1) & Hw1 & (Hs2 & Hq2 & Hr2) & _). cbn in Hq2, Hr2.
  split; [|by rewrite Hq2, Hr2, Hq1, Hr1]. etransitivity; [exact Hf|]. etransitivity; [exact Hs1|].
  eapply rtc_l; [by apply deliver_request|exact Hs2].
Qed.

Lemma recv_response_flow r f g :
  flow_steps flow_init f -> recv_response r f g ->
  flow_steps flow_init g /\ window g = WIdle /\ asked g = asked f /\ results g = results f ++ [r].
Proof.
  intros Hf (f1 & (Hs1 & Hq1 & Hr1) & _ & Hs2 & Hw & Hq2 & Hr2).
  split; [|by rewrite Hq2, Hr2, Hq1, Hr1]. etransitivity; [exact Hf|].
  eapply rtc_r; [exact Hs1|exact Hs2].
Qed.

(** What the client of one request sees: nothing happened and the result is 0;
    or the request in its view became a connection, and the result is 1 exactly
    when the handlers wrote between one and 8192 bytes to it, which are then in
    that view. *)
Definition answer_seen (out : list byte) (s : wnd_state flow) (a r : Z) (t : wnd_state flow) : Prop :=
  if bool_decide (out = []) || (agentMaxMsglen <? Z.of_nat (length out))%Z
  then r = 0%Z /\ written t = written s
  else r = 1%Z /\ written t = written s ++ [(a, out)].

Definition client_sees (s : wnd_state flow) (r : Z) (t : wnd_state flow) : Prop :=
  (r = 0%Z /\ written t = written s /\ rest t = rest s) \/
  exists a bs x,
    request_in_view s a bs t /\ asked (rest t) = asked (rest s) ++ [bs] /\
    conns (rest t) !! length (results (rest s)) = Some x /\ request_of x = bs /\
    answer_seen (writes (session_of x)) s a r t.

Lemma responded_answer out (s : wnd_state flow) a r (t : wnd_state flow) :
  responded s a (answer_of out) r t -> answer_seen out s a r t.
Proof.
  unfold answer_seen. destruct out as [|b out]; [done|]. cbn [answer_of responded].
  rewrite bool_decide_eq_false_2 by done. done.
Qed.

Section client.
Context (own_sid : list byte) (owner_of : Z -> list byte) (self : Z) (size_of : Z -> Z).

(** (C11) A Pageant client end to end: the window procedure, the accept loop and
    the handlers together.  A message that [wndProc] takes becomes the next
    connection, and what the client finds in its shared memory is exactly what
    the handlers of that connection wrote before they closed it; if they wrote
    nothing, or more than fits, the client is told so by the result 0.  The
    window thread is then back in its message loop. *)
Theorem pageant_client debug hWnd wParam lParam s :
  flow_steps flow_init (rest s) -> window (rest s) = WIdle ->
  wp (wnd_env own_sid owner_of self size_of) (wndProc debug hWnd WM_COPYDATA wParam lParam) s
    (returns (fun r t => flow_steps flow_init (rest t) /\ window (rest t) = WIdle /\
      maps t = maps s /\ mviews t = mviews s /\ client_sees s r t)).
Proof.
  intros Hs Hw. eapply wp_mono; [apply wndProc_ok|]. intros [r|msg] t; [|done].
  cbn [returns]. rewrite Z.eqb_refl. intros (Hm & Hv & Hr).
  destruct Hr as [(-> & _ & Hwr & Hrest)|(a & f & bs & g & resp & _ & Hview & _ & _ & _ & Hsend & Hrecv & Hresp)].
  { rewrite Hrest. split_and!; [done..|]. by left. }
  destruct (send_request_flow _ _ _ Hs Hsend) as (Hg & Hqg & Hrg).
  destruct (recv_response_flow _ _ _ Hg Hrecv) as (Ht & Hwt & Hqt & Hrt).
  split_and!; [done..|]. right.
  pose proof (flow_ok_steps _ Hs) as (_ & Hq & Hans). rewrite Hw in Hq, Hans. cbn in Hq, Hans.
  assert (Hlast : results (rest t) !! length (results (rest s)) = Some resp).
  { rewrite Hrt, Hrg. by apply list_lookup_middle. }
  destruct (flow_result _ _ _ (flow_ok_steps _ Ht) Hlast) as (x & Hx & Hqx & _ & _ & ->).
  exists a, bs, x. split; [done|]. split; [by rewrite Hqt, Hqg|]. split; [done|]. split.
  - rewrite Hqt, Hqg in Hqx. rewrite list_lookup_middle in Hqx; [by injection Hqx|].
    rewrite Hq, app_nil_r, length_map. symmetry. by eapply Forall2_length.
  - by apply responded_answer.
Qed.
End client.

(** ** A run *)
Definition demo_flow : flow :=
  Flow WIdle Accepting false
    [Served (steps (start [x01; x02]) [ORead 4; OWrite [xaa]; OClose]) None] [[x01; x02]]
    [Response [xaa]].

Lemma demo_flow_run : flow_steps flow_init demo_flow.
Proof.
  eapply rtc_l; [apply (deliver [x01; x02])|]. eapply rtc_l; [apply hand_over|].
  eapply rtc_l; [eapply (handler_op _ _ _ _ _ _ 0 _ (ORead 4)); [reflexivity|done]|].
  eapply rtc_l; [eapply (handler_op _ _ _ _ _ _ 0 _ (OWrite [xaa])); [reflexivity|done]|].
  eapply rtc_l; [eapply (handler_close _ _ _ _ _ _ 0 _ (Response [xaa])); reflexivity|].
  apply rtc_once.
  apply (respond Accepting false
    [Served (steps (start [x01; x02]) [ORead 4; OWrite [xaa]; OClose]) (Some (Response [xaa]))]
    [[x01; x02]] [] 0). reflexivity.
Qed.

Lemma flow_answers_witness :
  flow_steps flow_init demo_flow /\
  exists x rest, conns demo_flow !! 0%nat = Some x /\
    asked demo_flow !! 0%nat = Some (reads (session_of x) ++ rest) /\
    Response [xaa] = answer_of (writes (session_of x)).
Proof.
  split; [exact demo_flow_run|].
  exact (proj1 (proj2 (flow_answers demo_flow demo_flow_run)) 0%nat (Response [xaa]) eq_refl).
Defined.

Lemma flow_can_answer_witness :
  exists g, flow_steps demo_flow g /\ window g = WIdle /\ asked g = asked demo_flow /\
    length (results g) = length (asked demo_flow).
Proof. apply (flow_can_answer demo_flow); [exact demo_flow_run|reflexivity]. Defined.

(** Main cancels the context after that, and a client asks again. *)
Definition stopped_flow : flow :=
  Flow WIdle Stopped true (conns demo_flow) (asked demo_flow) (results demo_flow).

Lemma stopped_flow_run : flow_steps flow_init stopped_flow.
Proof.
  etransitivity; [exact demo_flow_run|]. eapply rtc_l; [apply cancel|].
  apply rtc_once, stop.
Qed.

Lemma flow_wedges_witness :
  flow_steps flow_init stopped_flow /\
  flow_step stopped_flow (with_request [x03] stopped_flow) /\
  forall g, flow_steps (with_request [x03] stopped_flow) g ->
    window g = WSend [x03] /\ accept g = Stopped /\ results g = results stopped_flow /\
    length (conns g) = length (conns stopped_flow).
Proof.
  split; [exact stopped_flow_run|]. apply (flow_wedges stopped_flow [x03]); reflexivity.
Defined.

Lemma pageant_client_witness :
  let s := WndState [] [] [] [] [] demo_flow in
  wp (wnd_env [x01] (fun _ => [x01]) 1%Z (fun _ => 8192%Z)) (wndProc false 7%Z WM_COPYDATA 0%Z 64%Z) s
    (returns (fun r t => flow_steps flow_init (rest t) /\ window (rest t) = WIdle /\
      maps t = [] /\ mviews t = [] /\ client_sees s r t)).
Proof.
  apply (pageant_client [x01] (fun _ => [x01]) 1%Z (fun _ => 8192%Z) false 7%Z 0%Z 64%Z
           (WndState [] [] [] [] [] demo_flow)).
  - exact demo_flow_run.
  - reflexivity.
Defined.
