(* ===== verification/Pipe.v ===== *)
(** app/pipe.go: the named pipe of Windows OpenSSH. *)
From S2P Require Import Prelude Effects Desktop TcpOwner Conn App.
Local Open Scope Z_scope.

Definition Run_step (pipe : Z) (_ : unit) : prog AppE (ctl unit (option error)) :=
  let* (conn, err) := call (Accept pipe) in
  match err with
  | Some e =>
      call WgWait ;;
      if bool_decide (e = ErrPipeListenerClosed) then Ret (Return None)
      else Ret (Return (Some e))
  | None =>
      call WgAdd ;;
      call (Go conn) ;;
      Ret (Next tt)
  end.

(** winio.ListenPipe is [Listen "pipe"]. *)
Definition Run : prog AppE (option error) :=
  let* (pipe, err) := call (Listen "pipe" NAMED_PIPE) in
  match err with
  | Some e => Ret (Some e)
  | None =>
      call SetRunning ;;
      defer (call (ListenerClose pipe)) (
        call (GoCloseOnDone pipe) ;;
        r <- loop (Run_step pipe) tt ;;
        match r with inl _ => Ret None | inr err => Ret err end)
  end.

Section run.
Context (w : tcp_world).
Local Abbreviation V := (app_env (fun _ _ => True) (fun _ _ => False) w).

(** Between two iterations no connection is left over. *)
Definition run_inv (s : app_state) (l : Z) (u : app_state) : Prop :=
  owned u = [] /\ listeners u = l :: listeners s /\ running u = true /\ 0 <= waiting u.

Lemma pipe_step_ok s l u :
  run_inv s l u ->
  wlp V (Run_step l tt) u (returns (fun r t =>
    match r with
    | Next _ => run_inv s l t
    | Break _ => False
    | Return err => run_inv s l t /\ waiting t = 0 /\ err <> Some ErrPipeListenerClosed
    end)).
Proof.
  intros (Ho & Hl & Hr & Hw). unfold Run_step.
  apply accept_ok; [rewrite Hl; apply elem_here|done|intros c e|intros c bs Hc _].
  - prog. split; [done|]. answer x.
    assert (run_inv s l (with_waiting 0 u)) by done.
    destruct (bool_decide_reflect (e = ErrPipeListenerClosed)); prog; [done|].
    split; [done|]. split; [done|]. congruence.
  - apply hand_over_ok; [done..|]. prog. split_and!; [done..|cbn; lia].
Qed.

(** Running the named pipe: every connection that is accepted is served
    and none is refused; whenever [Run] returns after it could listen, every
    handler has finished, no accepted connection is left over, the listener is
    closed and the application was marked as running, and a listener that was
    closed because the context was cancelled is not an error. *)
Theorem Run_serves_pipe s :
  owned s = [] -> 0 <= waiting s ->
  wlp V Run s (returns (fun err u =>
    owned u = [] /\ listeners u = listeners s /\
    ((err <> None /\ u = s) \/
     (err <> Some ErrPipeListenerClosed /\ waiting u = 0 /\ running u = true)))).
Proof.
  intros Ho Hw. unfold Run. prog. split; [done|].
  intros [l [e|]] u Hu; hnf in Hu; [subst u; prog; auto|]. destruct Hu as (Hl & _ & ->). prog.
  split; [done|]. answer x.
  apply (listener_closed_ok _ _ _ _ l (listeners s) _ _ (returns (fun err t =>
    run_inv s l t /\ waiting t = 0 /\ err <> Some ErrPipeListenerClosed))); [done| |].
  - split; [done|]. answer y.
    apply (wlp_loop _ _ _ _ _ (fun _ t => run_inv s l t)); [done|].
    intros [] t Ht. eapply wp_mono; [by apply pipe_step_ok|].
    intros [[v|v|err]|msg] z; prog; done.
  - intros [err|msg] t; prog; [|done]. intros ((Hto & Htl & Htr & _) & Htw & Hte).
    split; [done|]. split; [done|]. split; [done|]. right. done.
Qed.
End run.

Lemma Run_serves_pipe_witness :
  wlp (app_env (fun _ _ => True) (fun _ _ => False) demo_world) Run demo_app
    (returns (fun err u =>
    owned u = [] /\ listeners u = [] /\
    ((err <> None /\ u = demo_app) \/
     (err <> Some ErrPipeListenerClosed /\ waiting u = 0 /\ running u = true)))).
Proof. apply (Run_serves_pipe demo_world demo_app); [reflexivity|cbn; lia]. Defined.
