(* ===== verification/ProcessNotify.v ===== *)
(** utils/processnotify.go: WMI events about processes, turned into
    [ProcessEvent]s. *)
From S2P Require Import Prelude Effects.
Local Open Scope Z_scope.

Definition PROCESS_CREATE : Z := 0.
Definition PROCESS_DELETE : Z := 1.
Definition PROCESS_MODIFY : Z := 2.
Definition PROCESS_ERROR : Z := 3.

Record ProcessEvent : Type := {
  Type_ : Z;
  Error : option error;
  TimeStamp : Z;
  ProcessId : Z;
  Name : string;
  CommandLine : string;
}.

Record win32Process : Type := {
  wProcessId : Z;
  wName : string;
  wCommandLine : string;
}.

Record wmiProcessEvent : Type := {
  wTimeStamp : Z;
  wClass : string;
  wInstance : win32Process;
}.

(** ** Calls *)

Inductive NotifyE : Type -> Type :=
| NewNotificationQuery (query : string) : NotifyE (Z * option error)
| GoStartNotifications (q : Z) : NotifyE unit
    (** [go func() { done <- s.q.StartNotifications() }()] *)
| GoDispatch : NotifyE unit
| QStop (q : Z) : NotifyE unit
| SelectEvent : NotifyE (wmiProcessEvent + option error)
    (** [select { case ev := <-s.events: ...; case err := <-done: ... }] *)
| SendEvent (ev : ProcessEvent) : NotifyE unit.
    (** [s.ch <- event] *)

(** fmt.Sprintf(processEventQuery, name) *)
Definition nl : string := string_of [x0a].
Definition processEventQuery (name : string) : string :=
  nl +:+ "SELECT * FROM __InstanceOperationEvent" +:+ nl +:+ "WITHIN 1" +:+ nl +:+
  "WHERE" +:+ nl +:+ "TargetInstance ISA 'Win32_Process'" +:+ nl +:+
  "AND TargetInstance.Name='" +:+ name +:+ "'".

(** The result is the query; the channels are the other ends of [SelectEvent]
    and [SendEvent]. *)
Definition NewProcessNotify (name : string) : prog NotifyE (Z * option error) :=
  let* (q, err) := call (NewNotificationQuery (processEventQuery name)) in
  match err with
  | Some e => Ret (0, Some e)
  | None => Ret (q, None)
  end.

Definition Start (q : Z) : prog NotifyE unit :=
  call (GoStartNotifications q) ;;
  call GoDispatch.

Definition Stop (q : Z) : prog NotifyE unit := call (QStop q).

(** The switch on the class. *)
Definition event_type (class : string) : Z :=
  if String.eqb class "__InstanceCreationEvent" then PROCESS_CREATE
  else if String.eqb class "__InstanceDeletionEvent" then PROCESS_DELETE
  else PROCESS_MODIFY.

Definition dispatch_step (_ : unit) : prog NotifyE (ctl unit unit) :=
  sel <- call SelectEvent ;;
  match sel with
  | inl ev =>
      call (SendEvent {| Type_ := event_type (wClass ev); Error := None;
                         TimeStamp := wTimeStamp ev;
                         ProcessId := wProcessId (wInstance ev);
                         Name := wName (wInstance ev);
                         CommandLine := wCommandLine (wInstance ev) |}) ;;
      Ret (Next tt)
  | inr err =>
      call (SendEvent {| Type_ := PROCESS_ERROR; Error := err; TimeStamp := 0;
                         ProcessId := 0; Name := ""; CommandLine := "" |}) ;;
      Ret (Return tt)
  end.

Definition dispatch : prog NotifyE unit :=
  loop dispatch_step tt ;; Ret tt.

(** ** The theorem *)

(** What was received and what was sent, in order. *)
Record notify_state : Type := NotifyState {
  received : list (wmiProcessEvent + option error);
  sent : list ProcessEvent;
}.

Definition notify_env : env NotifyE notify_state :=
  {| may _ _ _ := True;
     does X e s :=
       match e in NotifyE X return X -> notify_state -> Prop with
       | SelectEvent => fun x t => t = NotifyState (received s ++ [x]) (sent s)
       | SendEvent ev => fun _ t => t = NotifyState (received s) (sent s ++ [ev])
       | _ => fun _ t => t = s
       end |}.

(** The specification: which event stands for what was received. *)
Inductive reports : wmiProcessEvent + option error -> ProcessEvent -> Prop :=
| reports_create t i :
    reports (inl {| wTimeStamp := t; wClass := "__InstanceCreationEvent"; wInstance := i |})
      {| Type_ := PROCESS_CREATE; Error := None; TimeStamp := t; ProcessId := wProcessId i;
         Name := wName i; CommandLine := wCommandLine i |}
| reports_delete t i :
    reports (inl {| wTimeStamp := t; wClass := "__InstanceDeletionEvent"; wInstance := i |})
      {| Type_ := PROCESS_DELETE; Error := None; TimeStamp := t; ProcessId := wProcessId i;
         Name := wName i; CommandLine := wCommandLine i |}
| reports_modify t c i :
    c <> "__InstanceCreationEvent"%string -> c <> "__InstanceDeletionEvent"%string ->
    reports (inl {| wTimeStamp := t; wClass := c; wInstance := i |})
      {| Type_ := PROCESS_MODIFY; Error := None; TimeStamp := t; ProcessId := wProcessId i;
         Name := wName i; CommandLine := wCommandLine i |}
| reports_error err :
    reports (inr err)
      {| Type_ := PROCESS_ERROR; Error := err; TimeStamp := 0; ProcessId := 0; Name := "";
         CommandLine := "" |}.

Lemma event_reports ev :
  reports (inl ev)
    {| Type_ := event_type (wClass ev); Error := None; TimeStamp := wTimeStamp ev;
       ProcessId := wProcessId (wInstance ev); Name := wName (wInstance ev);
       CommandLine := wCommandLine (wInstance ev) |}.
Proof.
  destruct ev as [t c i]. cbn. unfold event_type.
  destruct (String.eqb_spec c "__InstanceCreationEvent"); [subst; constructor|].
  destruct (String.eqb_spec c "__InstanceDeletionEvent"); [subst; constructor|].
  by constructor.
Qed.

(** One more round keeps the lists in step. *)
Lemma Forall2_snoc {A B} (R : A -> B -> Prop) l k x y :
  Forall2 R l k -> R x y -> Forall2 R (l ++ [x]) (k ++ [y]).
Proof. intros Hl Hx. apply Forall2_app; auto. Qed.

(** The dispatcher forwards every event it receives, once, in order and
    with the type its WMI class stands for; it stops with the first result of
    the query, which it reports as the one error event, as the last one. *)
Theorem dispatch_forwards :
  wlp notify_env dispatch (NotifyState [] []) (returns (fun _ t =>
    Forall2 reports (received t) (sent t) /\
    exists evs err, received t = map inl evs ++ [inr err])).
Proof.
  unfold dispatch. cbn [bind loop].
  apply (wlp_loop _ _ _ _ _ (fun _ t =>
    Forall2 reports (received t) (sent t) /\ exists evs, received t = map inl evs)).
  { split; [constructor|by exists []]. }
  intros [] t [Hf [evs He]]. unfold dispatch_step. prog. split; [done|].
  intros [ev|err] u Hu; hnf in Hu; subst u; prog; (split; [done|]); answer x; cbn.
  - split; [apply Forall2_snoc; [done|apply event_reports]|].
    exists (evs ++ [ev]). by rewrite He, map_app.
  - split; [apply Forall2_snoc; [done|constructor]|]. exists evs, err. by rewrite He.
Qed.

(** A run with one new process and the end of the query. *)
Example dispatch_run :
  let ev := {| wTimeStamp := 7; wClass := "__InstanceCreationEvent";
               wInstance := {| wProcessId := 42; wName := "wslhost.exe"; wCommandLine := "{vm}" |} |} in
  let h X (e : NotifyE X) (s : list (wmiProcessEvent + option error) * list Z) :=
    match e in NotifyE X return X * (list (wmiProcessEvent + option error) * list Z) with
    | NewNotificationQuery _ => ((1, None), s)
    | GoStartNotifications _ | GoDispatch | QStop _ => (tt, s)
    | SelectEvent => (hd (inr None) s.1, (tl s.1, s.2))
    | SendEvent e => (tt, (s.1, s.2 ++ [Type_ e]))
    end in
  run h 5 dispatch ([inl ev], []) = Some (Returns tt, ([], [PROCESS_CREATE; PROCESS_ERROR])).
Proof. reflexivity. Qed.
