(* ===== verification/Wsl2.v ===== *)
(** utils/wsl2.go: whether Hyper-V sockets and our service are there, and which
    virtual machines WSL 2 runs. *)
From S2P Require Import Prelude Effects.
Local Open Scope Z_scope.

Definition afHvSock : Z := 34.
Definition SOCK_STREAM : Z := 1.
Definition sHvProtocolRaw : Z := 1.
Definition HyperVServiceRegPath : string :=
  "SOFTWARE\Microsoft\Windows NT\CurrentVersion\Virtualization\GuestCommunicationServices".
(** registry.LOCAL_MACHINE *)
Definition LOCAL_MACHINE : Z := 0x80000002.

(** ** Calls *)

Inductive ProbeE : Type -> Type :=
| OpenKey (parent : Z) (path : string) : ProbeE (Z * option error)
| CloseKey (k : Z) : ProbeE unit
| Socket (family type proto : Z) : ProbeE (Z * option error)
| CloseSocket (fd : Z) : ProbeE unit
| ProbePrintln (err : error) : ProbeE unit
| WmiQuery (where_ : string) : ProbeE (list string * option error)
    (** the [CommandLine] of every process found *)
| RangeKeys (keys : list string) : ProbeE (list string).
    (** the order in which [range] visits the keys of a map *)

Section wsl2.
(** The text of our service's GUID. *)
Context (service_String : string).

Definition CheckHVService : prog ProbeE bool :=
  let* (gcs, err) := call (OpenKey LOCAL_MACHINE HyperVServiceRegPath) in
  match err with Some _ => Ret false | None =>
  defer (call (CloseKey gcs)) (
    let* (agentSrv, err) := call (OpenKey gcs service_String) in
    match err with Some _ => Ret false | None =>
    call (CloseKey agentSrv) ;;
    Ret true
    end)
  end.

Definition CheckHvSocket : prog ProbeE bool :=
  let* (fd, err) := call (Socket afHvSock SOCK_STREAM sHvProtocolRaw) in
  match err with
  | Some e => call (ProbePrintln e) ;; Ret false
  | None => call (CloseSocket fd) ;; Ret true
  end.

(** strings.Split with a separator of one byte. *)
Fixpoint split_on (sep : byte) (l : list byte) : list (list byte) :=
  match l with
  | [] => [[]]
  | b :: l =>
      if decide (b = sep) then [] :: split_on sep l
      else match split_on sep l with
           | [] => [[b]]
           | x :: xs => (b :: x) :: xs
           end
  end.

(** [for i := len(args) - 1; i >= 0; i--]: the last argument with a brace. *)
Definition last_brace (args : list (list byte)) : option (list byte) :=
  find (fun a => bool_decide (x7b ∈ a)) (rev args).

(** The argument of a command line that is entered in the map. *)
Definition vm_token (line : string) : option string :=
  string_of <$> last_brace (split_on x20 (bytes_of line)).

(** [k[1:len(k)-1]]: [None] when the bounds are out of order. *)
Definition strip (k : string) : option string :=
  let b := bytes_of k in
  if decide (1 <= length b - 1)%nat then Some (string_of (take (length b - 2) (drop 1 b)))
  else None.

Definition append_stripped (k : string) (results : list string)
    : prog ProbeE (ctl (list string) unit) :=
  match strip k with
  | Some x => Ret (Next (results ++ [x]))
  | None => Panic "slice bounds out of range"
  end.

(** The keys of the map, each once. *)
Definition guids (processes : list string) : list string :=
  remove_dups (omap vm_token processes).

Definition GetVMIDs : prog ProbeE (list string) :=
  let* (processes, err) := call (WmiQuery "WHERE Name='wslhost.exe'") in
  match err with Some _ => Ret [] | None =>
  keys <- call (RangeKeys (guids processes)) ;;
  r <- for_range keys [] append_stripped ;;
  match r with inl results => Ret results | inr _ => Ret [] end
  end.
End wsl2.

(** ** What Windows promises

    The open registry keys and sockets, and the processes the last query
    found. *)
Record probe_state : Type := ProbeState {
  keys : list Z;
  socks : list Z;
  found : list string;
}.

Definition probe_env : env ProbeE probe_state :=
  {| may X e s :=
       match e with
       | OpenKey p _ => p = LOCAL_MACHINE \/ p ∈ keys s
       | CloseKey k => k ∈ keys s
       | CloseSocket f => f ∈ socks s
       | _ => True
       end;
     does X e s :=
       match e in ProbeE X return X -> probe_state -> Prop with
       | OpenKey _ _ => fun '(k, err) t =>
           match err with
           | None => (k ∉ keys s) /\ t = ProbeState (k :: keys s) (socks s) (found s)
           | Some _ => t = s
           end
       | CloseKey k => fun _ t =>
           t = ProbeState (filter (fun j => j <> k) (keys s)) (socks s) (found s)
       | Socket _ _ _ => fun '(f, err) t =>
           match err with
           | None => (f ∉ socks s) /\ t = ProbeState (keys s) (f :: socks s) (found s)
           | Some _ => t = s
           end
       | CloseSocket f => fun _ t =>
           t = ProbeState (keys s) (filter (fun j => j <> f) (socks s)) (found s)
       | WmiQuery _ => fun '(l, err) t =>
           t = ProbeState (keys s) (socks s) (match err with None => l | Some _ => [] end)
       | RangeKeys l => fun l' t => l' ≡ₚ l /\ t = s
       | ProbePrintln _ => fun _ t => t = s
       end |}.

(** ** The theorems *)

Lemma CheckHVService_ok d service s :
  wpx probe_env d (CheckHVService service) s (returns (fun _ t => t = s)).
Proof.
  unfold CheckHVService. prog. split; [by left|].
  intros [k [e|]] t Ht; hnf in Ht; [subst t; by prog|]. destruct Ht as [Hk ->]. prog.
  eapply (wp_defer _ _ _ _ _ (returns (fun _ t => t = ProbeState (k :: keys s) (socks s) (found s)))).
  - prog. split; [right; apply elem_here|]. intros [k' [e|]] t Ht; hnf in Ht; [subst t; by prog|].
    destruct Ht as [Hk' ->]. prog. split; [apply elem_here|]. answer x. cbn [keys].
    f_equal. by apply filter_self.
  - intros [b|msg] t; prog; [|done]. intros ->. split; [apply elem_here|]. answer x. cbn [keys].
    destruct s. f_equal. by apply filter_self.
Qed.

Lemma CheckHvSocket_ok d s :
  wpx probe_env d CheckHvSocket s (returns (fun _ t => t = s)).
Proof.
  unfold CheckHvSocket. prog. split; [done|].
  intros [f [e|]] t Ht; hnf in Ht; [subst t; prog; split; [done|]; by answer x|].
  destruct Ht as [Hf ->]. prog. split; [apply elem_here|]. answer x. cbn [socks].
  destruct s. f_equal. by apply filter_self.
Qed.

Lemma length_string_of l : length (bytes_of (string_of l)) = length l.
Proof. by rewrite bytes_of_string_of. Qed.

(** A token has a brace, so it is only out of bounds when it is the brace. *)
Lemma token_brace line k : vm_token line = Some k -> x7b ∈ bytes_of k.
Proof.
  unfold vm_token, last_brace. intros H.
  apply fmap_Some in H as (a & Ha & ->). apply find_some in Ha as [_ Ha].
  rewrite bytes_of_string_of. by apply bool_decide_eq_true in Ha.
Qed.

Lemma strip_None k : x7b ∈ bytes_of k -> strip k = None <-> k = "{"%string.
Proof.
  intros Hk. unfold strip. case_decide as Hd.
  - split; [done|]. intros ->. cbn in Hd. lia.
  - split; [|done]. intros _. apply bytes_of_inj.
    destruct (bytes_of k) as [|b [|c l]]; [by apply elem_of_nil in Hk| |cbn in Hd; lia].
    apply list_elem_of_singleton in Hk. by subst b.
Qed.

(** *** What the machines' ids are

    An argument of a command line: what is between two spaces, or between a
    space and an end of the line. *)
Definition ends_in_space (l : list byte) : Prop := l = [] \/ exists l', l = l' ++ [x20].
Definition starts_with_space (l : list byte) : Prop := l = [] \/ exists l', l = x20 :: l'.

(** The last argument with a brace in it: no brace comes after it. *)
Definition machine_argument (line k : string) : Prop :=
  exists pre post, bytes_of line = pre ++ bytes_of k ++ post /\
    ends_in_space pre /\ starts_with_space post /\ (x20 ∉ bytes_of k) /\
    x7b ∈ bytes_of k /\ (x7b ∉ post).

(** The id in it: all but the first and the last byte. *)
Definition machine_id (k id : string) : Prop :=
  exists first last, bytes_of k = first :: bytes_of id ++ [last].

(** The ids of the processes: one for each argument, each argument once. *)
Definition machine_ids (processes ids : list string) : Prop :=
  exists ks, NoDup ks /\
    (forall k, k ∈ ks <-> exists line, line ∈ processes /\ machine_argument line k) /\
    Forall2 machine_id ks ids.

(** A run of bytes other than [c], up to the next [c] or the end. *)
Lemma run_unique (c : byte) x1 x2 y1 y2 :
  (c ∉ x1) -> (c ∉ x2) -> (y1 = [] \/ exists z, y1 = c :: z) ->
  (y2 = [] \/ exists z, y2 = c :: z) -> x1 ++ y1 = x2 ++ y2 -> x1 = x2 /\ y1 = y2.
Proof.
  revert x2. induction x1 as [|b x1 IH]; intros [|b' x2] H1 H2 Hy1 Hy2 H; cbn in H.
  - auto.
  - destruct Hy1 as [->|[z ->]]; [done|]. injection H as -> _. destruct H2. apply elem_here.
  - destruct Hy2 as [->|[z ->]]; [done|]. injection H as -> _. destruct H1. apply elem_here.
  - injection H as -> H. rewrite not_elem_of_cons in H1, H2.
    destruct (IH x2) as [-> ->]; tauto.
Qed.

Lemma run_unique_r (c : byte) x1 x2 y1 y2 :
  (c ∉ x1) -> (c ∉ x2) -> (y1 = [] \/ exists z, y1 = z ++ [c]) ->
  (y2 = [] \/ exists z, y2 = z ++ [c]) -> y1 ++ x1 = y2 ++ x2 -> x1 = x2 /\ y1 = y2.
Proof.
  intros H1 H2 Hy1 Hy2 H. apply (f_equal reverse) in H. rewrite !reverse_app in H.
  assert (Hr : forall y, (y = [] \/ exists z, y = z ++ [c]) ->
    reverse y = [] \/ exists z, reverse y = c :: z).
  { intros y [->|[z ->]]; [by left|right]. exists (reverse z). apply reverse_snoc. }
  apply (run_unique c) in H as [Hx Hy]; [|by rewrite elem_of_reverse|by rewrite elem_of_reverse|by apply Hr|by apply Hr].
  split; by apply (inj reverse).
Qed.

Lemma machine_argument_unique line k k' :
  machine_argument line k -> machine_argument line k' -> k = k'.
Proof.
  intros (p & q & Hl & Hp & Hq & Hs & Hb & Hn) (p' & q' & Hl' & Hp' & Hq' & Hs' & Hb' & Hn').
  apply list_elem_of_split_r in Hb as (a & b & Ek & Hb).
  apply list_elem_of_split_r in Hb' as (a' & b' & Ek' & Hb').
  rewrite Ek in Hl, Hs. rewrite Ek' in Hl', Hs'.
  rewrite not_elem_of_app, not_elem_of_cons in Hs, Hs'.
  assert (H : (p ++ a ++ [x7b]) ++ (b ++ q) = (p' ++ a' ++ [x7b]) ++ (b' ++ q')).
  { rewrite <-!app_assoc. cbn. rewrite <-!app_assoc in Hl, Hl'. cbn in Hl, Hl'. congruence. }
  apply (run_unique_r x7b) in H as [Hr Hl2];
    [|by rewrite not_elem_of_app|by rewrite not_elem_of_app
     |right; eexists; by rewrite app_assoc|right; eexists; by rewrite app_assoc].
  apply (run_unique x20) in Hr as [-> _]; [|tauto|tauto|done|done].
  rewrite !app_assoc in Hl2. apply app_inj_tail in Hl2 as [Hl2 _].
  apply (run_unique_r x20) in Hl2 as [-> _]; [|tauto|tauto|done|done].
  apply bytes_of_inj. congruence.
Qed.

(** A line is its arguments with the separator between them. *)
Lemma split_on_join c l :
  exists x xs, split_on c l = x :: xs /\ l = x ++ flat_map (cons c) xs /\
    Forall (fun a => c ∉ a) (x :: xs).
Proof.
  induction l as [|b l (x & xs & Hs & -> & Hc)]; cbn [split_on].
  { exists [], []. split_and!; [done..|]. repeat constructor. apply not_elem_of_nil. }
  rewrite Hs. destruct (decide (b = c)) as [->|Hne].
  - exists [], (x :: xs). split_and!; [done..|]. constructor; [apply not_elem_of_nil|done].
  - exists (b :: x), xs. split_and!; [done..|]. inversion Hc as [|?? Hx Hxs]. constructor; [|done].
    by apply not_elem_of_cons.
Qed.

(** An argument with what is around it. *)
Lemma split_on_around c l xs a ys :
  split_on c l = xs ++ a :: ys ->
  exists pre, l = pre ++ a ++ flat_map (cons c) ys /\ (c ∉ a) /\
    (pre = [] \/ exists z, pre = z ++ [c]).
Proof.
  destruct (split_on_join c l) as (x & zs & -> & -> & Hc). intros H.
  assert (Ha : c ∉ a).
  { rewrite Forall_forall in Hc. apply Hc. rewrite H. apply elem_of_app. right. apply elem_here. }
  destruct xs as [|x' xs]; injection H as -> ->; [by exists []; auto|].
  exists (x' ++ flat_map (cons c) xs ++ [c]). rewrite flat_map_app. cbn.
  rewrite <-!app_assoc. split; [done|]. split; [done|]. right. eexists. by rewrite app_assoc.
Qed.

(** [find] from the end of a list. *)
Lemma find_rev {A} (p : A -> bool) l :
  match find p (rev l) with
  | Some a => exists l1 l2, l = l1 ++ a :: l2 /\ p a = true /\ Forall (fun x => p x = false) l2
  | None => Forall (fun x => p x = false) l
  end.
Proof.
  induction l as [|x l IH] using rev_ind; [by constructor|]. rewrite rev_unit. cbn.
  destruct (p x) eqn:Hx; [exists l, []; by split_and!|].
  destruct (find p (rev l)) as [a|].
  - destruct IH as (l1 & l2 & -> & Ha & Hl). exists l1, (l2 ++ [x]). rewrite <-app_assoc.
    split_and!; [done..|]. apply Forall_app. by repeat constructor.
  - apply Forall_app. by repeat constructor.
Qed.

Lemma no_brace xs :
  Forall (fun a => bool_decide (x7b ∈ a) = false) xs -> x7b ∉ flat_map (cons x20) xs.
Proof.
  induction 1 as [|a xs Ha _ IH]; cbn; [apply not_elem_of_nil|].
  apply bool_decide_eq_false in Ha. rewrite not_elem_of_cons, not_elem_of_app. done.
Qed.

(** The code finds the machine's argument. *)
Lemma vm_token_spec line k : vm_token line = Some k <-> machine_argument line k.
Proof.
  unfold vm_token, last_brace. pose proof (find_rev (fun a => bool_decide (x7b ∈ a))
    (split_on x20 (bytes_of line))) as Hf.
  destruct (find _ _) as [a|]; cbn.
  - destruct Hf as (xs & ys & Hs & Ha%bool_decide_eq_true & Hys%no_brace).
    destruct (split_on_around _ _ _ _ _ Hs) as (pre & Hl & Hsp & Hpre).
    assert (Hk : machine_argument line (string_of a)).
    { exists pre, (flat_map (cons x20) ys). rewrite bytes_of_string_of.
      split_and!; try done. destruct ys; cbn; [by left|right; eauto]. }
    split; [by intros [= <-]|]. intros Hk'. f_equal. by eapply machine_argument_unique.
  - split; [done|]. intros (pre & post & Hl & _ & _ & _ & Hb & _).
    destruct (split_on_join x20 (bytes_of line)) as (x & xs & Hs & Hj & _). rewrite Hs in Hf.
    inversion Hf as [|?? Hx%bool_decide_eq_false Hxs%no_brace]; subst.
    assert (x7b ∈ x ++ flat_map (cons x20) xs) as [?|?]%elem_of_app; [|done..].
    rewrite <-Hj, Hl, !elem_of_app. auto.
Qed.

(** Stripping gives the id. *)
Lemma strip_spec k id : strip k = Some id <-> machine_id k id.
Proof.
  unfold strip, machine_id. destruct (bytes_of k) as [|b l] eqn:Hk.
  { rewrite decide_False by (cbn; lia). split; [done|]. by intros (? & ? & ?). }
  destruct l as [|c l _] using rev_ind.
  { rewrite decide_False by (cbn; lia). split; [done|]. intros (? & ? & [= _ H]).
    by destruct (bytes_of id). }
  rewrite decide_True by (cbn; rewrite length_app; cbn; lia).
  cbn [length drop]. replace (S (length (l ++ [c])) - 2)%nat with (length l)
    by (rewrite length_app; cbn; lia).
  rewrite skipn_O, take_app_length. split.
  - intros [= <-]. exists b, c. by rewrite bytes_of_string_of.
  - intros (b' & c' & [= _ H]). apply app_inj_tail in H as [-> _]. f_equal. by apply String.string_of_list_byte_of_string.
Qed.

(** The machines the query stands for. *)
Definition vms_of (processes : list string) : list string := omap strip (guids processes).

Lemma guids_spec processes k :
  k ∈ guids processes <-> exists line, line ∈ processes /\ machine_argument line k.
Proof.
  unfold guids. rewrite elem_of_remove_dups, list_elem_of_omap. by setoid_rewrite vm_token_spec.
Qed.

Lemma strip_guids processes ks :
  ks ≡ₚ guids processes -> ("{"%string ∉ ks) -> machine_ids processes (omap strip ks).
Proof.
  intros Hks Hn. exists ks. split; [rewrite Hks; apply NoDup_remove_dups|].
  split; [intros k; rewrite Hks; apply guids_spec|].
  assert (Hb : Forall (fun k => x7b ∈ bytes_of k) ks).
  { apply Forall_forall. intros k Hk. rewrite Hks in Hk.
    apply guids_spec in Hk as (line & _ & Hk%vm_token_spec). by eapply token_brace. }
  clear Hks. induction Hb as [|k ks Hk _ IH]; cbn; [constructor|].
  apply not_elem_of_cons in Hn as [Hne Hn]. destruct (strip k) as [x|] eqn:Hx.
  - constructor; [by apply strip_spec|by apply IH].
  - apply (strip_None k Hk) in Hx. by subst k.
Qed.

Lemma strip_all_ok d ks acc s :
  (forall k, k ∈ ks -> x7b ∈ bytes_of k) ->
  wpx probe_env d (for_range ks acc append_stripped) s (fun o t => t = s /\
    match o with
    | Returns (inl r) => r = acc ++ omap strip ks /\ "{"%string ∉ ks
    | Returns (inr _) => False
    | Panics _ => "{"%string ∈ ks
    end).
Proof.
  revert acc. induction ks as [|k ks IH]; intros acc Hks; cbn [for_range].
  { prog. cbn. rewrite app_nil_r. split; [done|]. split; [done|]. apply not_elem_of_nil. }
  unfold append_stripped at 1. pose proof (strip_None k (Hks k (elem_here _ _))) as Hn.
  destruct (strip k) as [x|] eqn:Hk; cbn [bind].
  - eapply wp_mono; [apply IH; intros j Hj; apply Hks; by right|].
    intros [[r|r]|msg] t [-> H]; (split; [done|]); [|done|by right].
    destruct H as [-> H]. cbn. rewrite Hk, <-app_assoc. split; [done|].
    apply not_elem_of_cons. split; [|done]. intros Heq. by destruct Hn as [_ Hn]; specialize (Hn (eq_sym Heq)).
  - prog. split; [done|]. apply elem_of_cons. left. symmetry. by apply Hn.
Qed.

(** What the query answers is turned into the machines' ids. *)
Lemma GetVMIDs_keys d s :
  wpx probe_env d GetVMIDs s (fun o t =>
    keys t = keys s /\ socks t = socks s /\
    match o with
    | Returns vms => exists ks, ks ≡ₚ guids (found t) /\ vms = omap strip ks /\ ("{"%string ∉ ks)
    | Panics _ => "{"%string ∈ guids (found t)
    end).
Proof.
  unfold GetVMIDs. prog. split; [done|]. intros [l [e|]] t Ht; hnf in Ht; subst t; prog.
  { split; [done|]. split; [done|]. exists []. split_and!; [done..|]. apply not_elem_of_nil. }
  split; [done|]. intros ks t [Hks ->]. apply wp_bind.
  eapply wp_mono; [apply strip_all_ok|].
  { intros k Hk. rewrite Hks in Hk. apply elem_of_remove_dups, list_elem_of_omap in Hk
      as (line & _ & Hk). by eapply token_brace. }
  intros [[r|r]|msg] t [-> H]; [|done|]; cbn; (split; [done|]); (split; [done|]).
  - destruct H as [-> H]. by exists ks.
  - by rewrite Hks in H.
Qed.

Lemma GetVMIDs_ok d s :
  wpx probe_env d GetVMIDs s (fun o t =>
    keys t = keys s /\ socks t = socks s /\
    match o with
    | Returns vms => vms ≡ₚ vms_of (found t) /\ "{"%string ∉ guids (found t)
    | Panics _ => "{"%string ∈ guids (found t)
    end).
Proof.
  eapply wp_mono; [apply GetVMIDs_keys|]. intros [vms|msg] t (Hk & Hs & H); [|done].
  destruct H as (ks & Hks & -> & Hn). split; [done|]. split; [done|]. unfold vms_of.
  by rewrite <-Hks.
Qed.

(** (C39) Looking for the virtual machines: the answer lists, without regard to
    order, the machine ids of the processes the query found.  The id of a process
    is in the last argument of its command line (between spaces) with a brace in
    it, without the first and the last byte; equal arguments count once; a process
    without a brace on its command line has none, and a query that fails finds
    nothing.  It panics exactly when that argument of some process is a lone brace. *)
Theorem GetVMIDs_spec s :
  wp probe_env GetVMIDs s (fun o t =>
    let lone_brace := exists line, line ∈ found t /\ machine_argument line "{" in
    match o with
    | Returns vms => machine_ids (found t) vms /\ ~ lone_brace
    | Panics _ => lone_brace
    end).
Proof.
  eapply wp_mono; [apply GetVMIDs_keys|].
  intros [vms|msg] t (_ & _ & H); cbn; rewrite <-guids_spec; [|done].
  destruct H as (ks & Hks & -> & Hn). split; [by apply strip_guids|]. by rewrite <-Hks.
Qed.

Example vm_token_run :
  vm_token "wslhost.exe --distro {11} --vm-id {a-b} --x 1" = Some "{a-b}"%string /\
  vms_of ["wslhost.exe --vm-id {a-b} 1"; "wslhost.exe {a-b}"; "other"] = ["a-b"%string].
Proof. by vm_compute. Qed.
