(* ===== verification/VSock.v ===== *)
(** app/vsock.go: the Hyper-V socket, and the watcher that keeps one listener
    per virtual machine of WSL 2. *)
From S2P Require Import Prelude Effects Desktop TcpOwner Conn App ProcessNotify Wsl2.
Local Open Scope Z_scope.

(** ** Differences of lists of ids *)

Definition id_map (l : list string) : gmap string unit :=
  foldl (fun m v => <[v := tt]> m) ∅ l.

(** The ids of [l] that are not keys of [m], in order. *)
Definition missing (m : gmap string unit) (l : list string) : list string :=
  foldl (fun acc v => match m !! v with None => acc ++ [v] | Some _ => acc end) [] l.

Definition vmidDiff (old new : list string) : list string * list string :=
  let oldIDS := id_map old in
  let newIDS := id_map new in
  let add := missing oldIDS new in
  let del := missing newIDS old in
  (add, del).

Lemma id_map_lookup l v : id_map l !! v = None <-> v ∉ l.
Proof.
  unfold id_map. assert (H : forall m : gmap string unit, foldl (fun m v => <[v := tt]> m) m l !! v = None <->
    m !! v = None /\ v ∉ l); [|rewrite H, lookup_empty; naive_solver].
  induction l as [|x l IH]; intros m; cbn.
  - rewrite elem_of_nil. naive_solver.
  - rewrite IH, lookup_insert_None, not_elem_of_cons. naive_solver.
Qed.

Lemma missing_spec l k : missing (id_map k) l = filter (fun v => v ∉ k) l.
Proof.
  unfold missing. assert (H : forall acc,
    foldl (fun acc v => match id_map k !! v with None => acc ++ [v] | Some _ => acc end) acc l =
    acc ++ filter (fun v => v ∉ k) l); [|apply (H [])].
  induction l as [|x l IH]; intros acc; cbn [foldl]; [by rewrite app_nil_r|].
  rewrite IH, filter_cons. pose proof (id_map_lookup k x).
  destruct (id_map k !! x); case_decide; try naive_solver. by rewrite <-app_assoc.
Qed.

Lemma vmidDiff_ok old new :
  vmidDiff old new = (filter (fun v => v ∉ old) new, filter (fun v => v ∉ new) old).
Proof. unfold vmidDiff. by rewrite !missing_spec. Qed.

(** The difference of two lists of machines is exactly what turns the old
    set into the new one: nothing that is added was there, nothing that is
    removed stays, and the old set without the removed and with the added
    machines is the new set. *)
Theorem vmidDiff_spec old new :
  let '(add, del) := vmidDiff old new in
  (forall v, v ∈ add <-> v ∈ new /\ v ∉ old) /\
  (forall v, v ∈ del <-> v ∈ old /\ v ∉ new) /\
  add `sublist_of` new /\ del `sublist_of` old /\
  (list_to_set old ∖ list_to_set del ∪ list_to_set add : gset string) = list_to_set new.
Proof.
  rewrite vmidDiff_ok.
  assert (Ha : forall v, v ∈ filter (fun v => v ∉ old) new <-> v ∈ new /\ v ∉ old)
    by (intros v; rewrite list_elem_of_filter; naive_solver).
  assert (Hd : forall v, v ∈ filter (fun v => v ∉ new) old <-> v ∈ old /\ v ∉ new)
    by (intros v; rewrite list_elem_of_filter; naive_solver).
  split_and!; [done|done|apply sublist_filter|apply sublist_filter|].
  apply leibniz_equiv. intros v. set_unfold.
  destruct (decide (v ∈ old)), (decide (v ∈ new)); naive_solver.
Qed.

(** ** The watcher *)

Inductive WatchE : Type -> Type :=
| WProbe X (e : ProbeE X) : WatchE X
| WNotify X (e : NotifyE X) : WatchE X
| ListenHv (vmid : Z) : WatchE (Z * option error)
    (** [winio.ListenHvsock] for our service *)
| CloseHv (l : Z) : WatchE unit
| GoWorker (l : Z) : WatchE unit
    (** [go w.Run()] *)
| SelectTick (timeout : Z) : WatchE bool
    (** whether the context was done; if not, an event came or the time was up *)
| WatchPrintln (err : error) : WatchE unit.

Section watcher.
(** guid.FromString *)
Context (guid_FromString : string -> Z + error).

(** The worker is its listener. *)
Definition newVSockWorker (vmid : string) : prog WatchE (Z * option error) :=
  match guid_FromString vmid with
  | inr err => Ret (0, Some err)
  | inl vmidGUID =>
      let* (pipe, err) := call (ListenHv vmidGUID) in
      match err with Some e => Ret (0, Some e) | None => Ret (pipe, None) end
  end.

Definition vSockWorker_Close (w : Z) : prog WatchE unit := call (CloseHv w).

Definition start_worker (v : string) (workers : gmap string Z)
    : prog WatchE (ctl (gmap string Z) unit) :=
  let* (w, err) := newVSockWorker v in
  match err with
  | Some _ => Ret (Next workers)
  | None => call (GoWorker w) ;; Ret (Next (<[v := w]> workers))
  end.

Definition stop_worker (v : string) (workers : gmap string Z)
    : prog WatchE (ctl (gmap string Z) unit) :=
  match workers !! v with
  | Some w => vSockWorker_Close w ;; Ret (Next (delete v workers))
  | None => Ret (Next workers)
  end.

(** The loop variables: the last ids and the workers. *)
Definition watch_step (timeout : Z) (x : list string * gmap string Z)
    : prog WatchE (ctl (list string * gmap string Z) unit) :=
  let '(lastVMIDs, workers) := x in
  vmids <- translate WProbe GetVMIDs ;;
  let '(add, del) := vmidDiff lastVMIDs vmids in
  r <- for_range add workers start_worker ;;
  let workers := match r with inl m => m | inr _ => workers end in
  r <- for_range del workers stop_worker ;;
  let workers := match r with inl m => m | inr _ => workers end in
  done <- call (SelectTick timeout) ;;
  if done : bool then Ret (Return tt) else Ret (Next (vmids, workers)).

Definition watch (timeout : Z) : prog WatchE unit :=
  loop (watch_step timeout) ([], ∅) ;; Ret tt.

Definition wsl2Watcher : prog WatchE unit :=
  let* (pn, err) := translate WNotify (NewProcessNotify "wslhost.exe") in
  match err with
  | Some e =>
      call (WatchPrintln e) ;;
      watch (15 * 10 ^ 9)
  | None =>
      translate WNotify (Start pn) ;;
      defer (translate WNotify (Stop pn)) (watch (60 * 10 ^ 9))
  end.

(** *** What Windows promises

    The probes' state, the open Hyper-V listeners with their machines, and the
    queries that were not stopped.  An address can be bound only once. *)
Record watch_state : Type := WatchState {
  wprobe : probe_state;
  hv : gmap Z Z;
  queries : list Z;
}.

(** The machines there are, after the last query. *)
Definition vms (s : watch_state) : list string := vms_of (found (wprobe s)).

(** Every listener is for a machine there is. *)
Definition tidy (s : watch_state) : Prop :=
  forall l g, hv s !! l = Some g -> exists v, v ∈ vms s /\ guid_FromString v = inl g.

Definition watch_env : env WatchE watch_state :=
  {| may X e s :=
       match e with
       | WProbe _ e => may probe_env e (wprobe s)
       | WNotify _ (QStop q) => q ∈ queries s
       | CloseHv l => exists g v, hv s !! l = Some g /\ guid_FromString v = inl g /\ v ∉ vms s
       | GoWorker l => is_Some (hv s !! l)
       | SelectTick _ => tidy s
       | _ => True
       end;
     does X e s :=
       match e in WatchE X return X -> watch_state -> Prop with
       | WProbe _ e => fun x t => exists p, does probe_env e (wprobe s) x p /\
           t = WatchState p (hv s) (queries s)
       | WNotify _ e =>
           match e in NotifyE X return X -> watch_state -> Prop with
           | NewNotificationQuery _ => fun '(q, err) t =>
               match err with
               | None => (q ∉ queries s) /\ t = WatchState (wprobe s) (hv s) (q :: queries s)
               | Some _ => t = s
               end
           | QStop q => fun _ t =>
               t = WatchState (wprobe s) (hv s) (filter (fun p => p <> q) (queries s))
           | _ => fun _ t => t = s
           end
       | ListenHv g => fun '(l, err) t =>
           match err with
           | None => hv s !! l = None /\ (forall k, hv s !! k <> Some g) /\
                     t = WatchState (wprobe s) (<[l := g]> (hv s)) (queries s)
           | Some _ => t = s
           end
       | CloseHv l => fun _ t => t = WatchState (wprobe s) (delete l (hv s)) (queries s)
       | _ => fun _ t => t = s
       end |}.
Local Abbreviation V := watch_env.

(** *** The workers and their listeners *)

Record matched (workers : gmap string Z) (s : watch_state) : Prop := {
  m_open : forall v l, workers !! v = Some l ->
    exists g, guid_FromString v = inl g /\ hv s !! l = Some g;
  m_owned : forall l g, hv s !! l = Some g -> exists v, workers !! v = Some l;
  m_inj : forall v v' l, workers !! v = Some l -> workers !! v' = Some l -> v = v';
}.

(** Steps that change the listeners only. *)
Definition same_rest (s t : watch_state) : Prop :=
  wprobe t = wprobe s /\ queries t = queries s.

Lemma start_worker_ok d v workers s :
  matched workers s ->
  wpx V d (start_worker v workers) s (returns (fun r t =>
    same_rest s t /\
    exists m, r = Next m /\ matched m t /\ forall x, is_Some (m !! x) -> x = v \/ is_Some (workers !! x))).
Proof.
  intros HM. unfold start_worker, newVSockWorker.
  destruct (guid_FromString v) as [g|e] eqn:Hg; prog.
  2: { split; [done|]. exists workers. auto. }
  split; [done|]. intros [l [e|]] t Ht; hnf in Ht; prog.
  { subst t. split; [done|]. exists workers. auto. }
  destruct Ht as (Hl & Hfree & ->). split; [cbn; rewrite lookup_insert_eq; eauto|]. answer x.
  split; [done|]. exists (<[v := l]> workers). split; [done|].
  assert (Hv : workers !! v = None).
  { destruct (workers !! v) as [l'|] eqn:Hw; [|done].
    destruct (m_open _ _ HM v l' Hw) as (g' & Hg' & Hl'). rewrite Hg in Hg'. injection Hg' as <-.
    by destruct (Hfree l'). }
  assert (Hnew : forall y k, workers !! y = Some k -> k <> l).
  { intros y k Hy ->. destruct (m_open _ _ HM y l Hy) as (? & _ & ?). congruence. }
  split; [split; cbn [hv]|].
  - intros y k [[<- <-]|[Hne Hy]]%lookup_insert_Some; [exists g; by rewrite lookup_insert_eq|].
    destruct (m_open _ _ HM y k Hy) as (g' & ? & ?). exists g'. split; [done|].
    rewrite lookup_insert_ne by (intros ->; by apply (Hnew y k)). done.
  - intros k g' [[<- <-]|[Hne Hk]]%lookup_insert_Some; [exists v; by rewrite lookup_insert_eq|].
    destruct (m_owned _ _ HM k g' Hk) as [y Hy]. exists y.
    rewrite lookup_insert_ne; [done|]. intros ->. congruence.
  - intros y y' k [[<- <-]|[? Hy]]%lookup_insert_Some [[<- Hk]|[? Hy']]%lookup_insert_Some; try done.
    + by destruct (Hnew y' l).
    + subst k. by destruct (Hnew y l).
    + by apply (m_inj _ _ HM y y' k).
  - intros y Hy. destruct (decide (y = v)) as [->|]; [by left|]. right.
    by rewrite lookup_insert_ne in Hy.
Qed.

Lemma stop_worker_ok d v workers s :
  matched workers s -> v ∉ vms s ->
  wpx V d (stop_worker v workers) s (returns (fun r t =>
    same_rest s t /\
    exists m, r = Next m /\ matched m t /\ forall x, is_Some (m !! x) -> x <> v /\ is_Some (workers !! x))).
Proof.
  intros HM Hv. unfold stop_worker, vSockWorker_Close.
  destruct (workers !! v) as [l|] eqn:Hw; prog.
  2: { split; [done|]. exists workers. split; [done|]. split; [done|]. intros x Hx.
       split; [|done]. intros ->. rewrite Hw in Hx. by destruct Hx. }
  destruct (m_open _ _ HM v l Hw) as (g & Hg & Hl).
  split; [by exists g, v|]. answer x. split; [done|]. exists (delete v workers). split; [done|].
  split; [split; cbn [hv]|].
  - intros y k [Hne Hy]%lookup_delete_Some. destruct (m_open _ _ HM y k Hy) as (g' & ? & ?).
    exists g'. split; [done|]. rewrite lookup_delete_ne; [done|]. intros ->.
    apply Hne. by apply (m_inj _ _ HM v y k).
  - intros k g' [Hne Hk]%lookup_delete_Some. destruct (m_owned _ _ HM k g' Hk) as [y Hy].
    exists y. rewrite lookup_delete_ne; [done|]. intros ->. congruence.
  - intros y y' k [_ Hy]%lookup_delete_Some [_ Hy']%lookup_delete_Some.
    by apply (m_inj _ _ HM y y' k).
  - intros y [k Hk]. apply lookup_delete_Some in Hk as [Hne Hk]. split; [done|]. by exists k.
Qed.

(** All the new workers. *)
Lemma start_all_ok d add workers s :
  matched workers s ->
  wpx V d (for_range add workers start_worker) s (returns (fun r t =>
    same_rest s t /\
    exists m, r = inl m /\ matched m t /\ forall x, is_Some (m !! x) -> x ∈ add \/ is_Some (workers !! x))).
Proof.
  intros HM. apply (wp_for_range _ _ _ _ _ _ (fun rest m t =>
    same_rest s t /\ matched m t /\
    (forall x, x ∈ rest -> x ∈ add) /\
    forall x, is_Some (m !! x) -> x ∈ add \/ is_Some (workers !! x))).
  - split; [done|]. split; [done|]. auto.
  - intros m t (Hs & Hm & _ & Hx). split; [done|]. by exists m.
  - intros v l m t (Hs & Hm & Hin & Hx).
    eapply wp_mono; [by apply start_worker_ok|]. intros [r|msg] u; prog; [|done].
    intros (Hs' & m' & -> & Hm' & Hx'). split; [unfold same_rest in *; intuition congruence|].
    split; [done|]. split; [intros x Hxl; apply Hin; by right|].
    intros x Hxm. destruct (Hx' x Hxm) as [->|?]; [|by apply Hx]. left. apply Hin, elem_here.
Qed.

(** All the workers that are no longer needed. *)
Lemma stop_all_ok d del workers s :
  matched workers s -> (forall v, v ∈ del -> v ∉ vms s) ->
  wpx V d (for_range del workers stop_worker) s (returns (fun r t =>
    same_rest s t /\
    exists m, r = inl m /\ matched m t /\
      forall x, is_Some (m !! x) -> (x ∉ del) /\ is_Some (workers !! x))).
Proof.
  intros HM Hdel. apply (wp_for_range _ _ _ _ _ _ (fun rest m t =>
    same_rest s t /\ matched m t /\ (forall v, v ∈ rest -> v ∉ vms s) /\
    forall x, is_Some (m !! x) -> (x ∈ del -> x ∈ rest) /\ is_Some (workers !! x))).
  - split; [done|]. auto.
  - intros m t (Hs & Hm & _ & Hx). split; [done|]. exists m. split; [done|]. split; [done|].
    intros x Hxm. destruct (Hx x Hxm) as [Hd ?]. split; [|done]. intros Hxd.
    by apply Hd, elem_of_nil in Hxd.
  - intros v l m t ([Hs Hq] & Hm & Hv & Hx).
    assert (v ∉ vms t) by (unfold vms; rewrite Hs; apply Hv, elem_here).
    eapply wp_mono; [by apply stop_worker_ok|]. intros [r|msg] u; prog; [|done].
    intros ([Hs' Hq'] & m' & -> & Hm' & Hx'). split; [unfold same_rest; intuition congruence|].
    split; [done|]. split; [intros y Hy; apply Hv; by right|].
    intros x Hxm. destruct (Hx' x Hxm) as [Hne Hxw]. destruct (Hx x Hxw) as [Hd ?].
    split; [|done]. intros Hxd. by apply Hd, elem_of_cons in Hxd as [?|?].
Qed.

(** Between two rounds every worker is for a machine of the last list. *)
Definition watch_inv (q : list Z) (x : list string * gmap string Z) (s : watch_state) : Prop :=
  matched x.2 s /\ queries s = q /\ forall v, is_Some (x.2 !! v) -> v ∈ x.1.

Lemma probe_ok d {A} (m : prog ProbeE A) s Q :
  wpx probe_env d m (wprobe s) Q ->
  wpx V d (translate WProbe m) s (fun o t =>
    Q o (wprobe t) /\ hv t = hv s /\ queries t = queries s).
Proof.
  apply (wp_translate d probe_env V WProbe wprobe
    (fun t => hv t = hv s /\ queries t = queries s)); [|done].
  intros X e t [Hh Hq] Hm. split; [done|]. intros x u (p & Hp & ->). auto.
Qed.

Lemma watch_step_ok timeout q x s :
  watch_inv q x s ->
  wlp V (watch_step timeout x) s (fun o t => queries t = q /\
    match o with
    | Returns (Next y) => watch_inv q y t
    | Returns (Break _) => False
    | Returns (Return _) => tidy t
    | Panics _ => "{"%string ∈ guids (found (wprobe t))
    end).
Proof.
  destruct x as [last workers]. intros (HM & Hq & Hlast). unfold watch_step.
  apply wp_bind. eapply wp_mono; [apply probe_ok, GetVMIDs_ok|].
  intros [ids|msg] t [(_ & _ & Hids) [Hh Hqt]]; [|split; [congruence|done]].
  destruct Hids as [Hids _]. rewrite vmidDiff_ok. cbn [fst snd] in *.
  assert (HMt : matched workers t).
  { destruct HM as [H1 H2 H3]. split; rewrite ?Hh; auto. }
  eapply wp_seq; [by apply start_all_ok|]. intros r t1 ([Hp1 Hq1] & m1 & -> & HM1 & Hx1).
  eapply wp_seq.
  { apply stop_all_ok; [done|]. intros v [Hv _]%list_elem_of_filter. unfold vms.
    rewrite Hp1, <-Hids. done. }
  intros r t2 ([Hp2 Hq2] & m2 & -> & HM2 & Hx2).
  assert (Hin : forall v, is_Some (m2 !! v) -> v ∈ ids).
  { intros v Hv. destruct (Hx2 v Hv) as [Hd Hv1]. destruct (Hx1 v Hv1) as [Ha|Hw].
    - by apply list_elem_of_filter in Ha as [_ ?].
    - destruct (decide (v ∈ ids)) as [|Hn]; [done|]. destruct Hd.
      apply list_elem_of_filter. auto. }
  assert (Htidy : tidy t2).
  { intros l g Hl. destruct (m_owned _ _ HM2 l g Hl) as [v Hv]. exists v.
    split; [unfold vms; rewrite Hp2, Hp1, <-Hids; apply Hin; by exists l|].
    destruct (m_open _ _ HM2 v l Hv) as (g' & Hg & Hl'). congruence. }
  prog. split; [done|]. intros stop u Hu. hnf in Hu. subst u.
  destruct stop; prog; (split; [congruence|]); [done|].
  split; [done|]. split; [congruence|done].
Qed.

Lemma watch_ok timeout s :
  hv s = ∅ ->
  wlp V (watch timeout) s (fun o t => queries t = queries s /\
    match o with
    | Returns _ => tidy t
    | Panics _ => "{"%string ∈ guids (found (wprobe t))
    end).
Proof.
  intros Hs. unfold watch. cbn [bind loop].
  apply (wlp_loop _ _ _ _ _ (watch_inv (queries s))).
  - split; [split|split; [done|]]; cbn [fst snd].
    + by intros v l []%lookup_empty_Some.
    + rewrite Hs. by intros l g []%lookup_empty_Some.
    + by intros v v' l []%lookup_empty_Some.
    + by intros v [l []%lookup_empty_Some].
  - intros x t Ht. eapply wp_mono; [by apply watch_step_ok|].
    by intros [[y|y|r]|msg] u [Hq H].
Qed.

(** (C25) Watching for virtual machines: whenever the watcher waits, and when it
    returns, every Hyper-V listener it holds open is for a machine the last
    query found; it closes a listener only when its machine is gone; it never
    closes a listener twice; the process notification it subscribed to is
    cancelled; and it only panics on a lone brace on a command line. *)
Theorem wsl2Watcher_tidy s :
  hv s = ∅ ->
  wlp V wsl2Watcher s (fun o t => queries t = queries s /\
    match o with
    | Returns _ => tidy t
    | Panics _ => "{"%string ∈ guids (found (wprobe t))
    end).
Proof.
  intros Hs. unfold wsl2Watcher, NewProcessNotify, Start, Stop. prog. split; [done|].
  intros [q [e|]] t Ht; hnf in Ht; prog.
  - subst t. split; [done|]. answer x. by apply watch_ok.
  - destruct Ht as [Hq ->]. split; [done|]. answer x. prog. split; [done|]. answer y.
    eapply wp_defer; [by apply watch_ok|].
    intros o t [Hqt Ho]. prog. cbn [queries] in Hqt. cbn. rewrite Hqt. split; [apply elem_here|].
    answer z. cbn [queries]. split; [|by destruct o].
    by apply filter_self.
Qed.
End watcher.

(** ** The accept loops *)

Inductive VSockE : Type -> Type :=
| VApp X (e : AppE X) : VSockE X
| VProbe X (e : ProbeE X) : VSockE X
| CtxIsHV : VSockE bool
    (** [ctx.Value(CtxKeyHV).(bool)] *)
| ListenWildcard : VSockE (Z * option error)
    (** [winio.ListenHvsock] for all machines and our service *)
| GoWatcher : VSockE unit
    (** [go s.wsl2Watcher(ctx, handler)] *)
| GoWaitOnDone : VSockE unit
    (** [go func() { <-ctx.Done(); wg.Wait() }()] *)
| GoHandler (c : Z) : VSockE unit.
    (** [go func() { s.handler(conn) }()], without a wait group *)

Definition vSockWorker_step (l : Z) (_ : unit) : prog VSockE (ctl unit unit) :=
  let* (conn, err) := call (VApp _ (Accept l)) in
  match err with
  | Some _ => Ret (Return tt)
  | None => call (GoHandler conn) ;; Ret (Next tt)
  end.

Definition vSockWorker_Run (l : Z) : prog VSockE unit :=
  loop (vSockWorker_step l) tt ;; Ret tt.

Definition Run_step (pipe : Z) (_ : unit) : prog VSockE (ctl unit (option error)) :=
  let* (conn, err) := call (VApp _ (Accept pipe)) in
  match err with
  | Some _ => Ret (Return None)
  | None =>
      call (VApp _ WgAdd) ;;
      call (VApp _ (Go conn)) ;;
      Ret (Next tt)
  end.

Section run.
Context (service_String : string).

Definition Run : prog VSockE (option error) :=
  isHV <- call CtxIsHV ;;
  if isHV : bool then Ret None else
  sock <- translate VProbe CheckHvSocket ;;
  if negb sock then Ret None else
  svc <- translate VProbe (CheckHVService service_String) ;;
  if negb svc then Ret None else
  let* (pipe, err) := call ListenWildcard in
  match err with
  | Some e => Ret (Some e)
  | None =>
      call (VApp _ SetRunning) ;;
      defer (call (VApp _ (ListenerClose pipe))) (
        call GoWatcher ;;
        call GoWaitOnDone ;;
        r <- loop (Run_step pipe) tt ;;
        match r with inl _ => Ret None | inr err => Ret err end)
  end.

(** The application's state, the probes' state and the number of watchers. *)
Record vsock_state : Type := VSockState {
  vapp : app_state;
  vprobe : probe_state;
  watchers : Z;
}.

(** [hv] says whether this process itself runs in a guest. *)
Context (w : tcp_world) (hv : bool).
Local Abbreviation A := (app_env (fun _ _ => True) (fun _ _ => False) w).

Definition vsock_env : env VSockE vsock_state :=
  {| may X e s :=
       match e with
       | VApp _ e => may A e (vapp s)
       | VProbe _ e => may probe_env e (vprobe s)
       | GoHandler c => c ∈ owned (vapp s) /\ c ∉ served (vapp s)
       | ListenWildcard | GoWatcher => hv = false
       | _ => True
       end;
     does X e s :=
       match e in VSockE X return X -> vsock_state -> Prop with
       | VApp _ e => fun x t => exists a, does A e (vapp s) x a /\
           t = VSockState a (vprobe s) (watchers s)
       | VProbe _ e => fun x t => exists p, does probe_env e (vprobe s) x p /\
           t = VSockState (vapp s) p (watchers s)
       | CtxIsHV => fun b t => b = hv /\ t = s
       | ListenWildcard => fun '(l, err) t =>
           match err with
           | None => (l ∉ listeners (vapp s)) /\
               t = VSockState (with_listeners (l :: listeners (vapp s)) (vapp s)) (vprobe s) (watchers s)
           | Some _ => t = s
           end
       | GoWatcher => fun _ t => t = VSockState (vapp s) (vprobe s) (watchers s + 1)
       | GoWaitOnDone => fun _ t => t = s
       | GoHandler c => fun _ t =>
           t = VSockState (with_served (c :: served (vapp s)) (drop_conn c (vapp s)))
                 (vprobe s) (watchers s)
       end |}.
Local Abbreviation V := vsock_env.

Lemma vprobe_ok d {B} (m : prog ProbeE B) s :
  wpx probe_env d m (vprobe s) (returns (fun _ t => t = vprobe s)) ->
  wpx V d (translate VProbe m) s (returns (fun _ t => t = s)).
Proof.
  intros H. eapply wp_mono; [apply (wp_translate d probe_env V VProbe vprobe
    (fun t => vapp t = vapp s /\ watchers t = watchers s)); [|done|exact H]|].
  - intros X e t [Ha Hw] Hm. split; [done|]. intros x u (p & Hp & ->). auto.
  - intros [b|msg] t; prog; [|by intros []]. intros [Hp [Ha Hw]]. destruct t, s. cbn in *. congruence.
Qed.

(** A worker hands over every connection it accepts. *)
Lemma vSockWorker_Run_ok l s :
  l ∈ listeners (vapp s) -> owned (vapp s) = [] ->
  wlp V (vSockWorker_Run l) s (returns (fun _ t => owned (vapp t) = [])).
Proof.
  intros Hl Ho. unfold vSockWorker_Run. cbn [bind loop].
  apply (wlp_loop _ _ _ _ _ (fun _ t => l ∈ listeners (vapp t) /\ owned (vapp t) = [])); [done|].
  intros [] t [Hlt Hot]. unfold vSockWorker_step. prog. split; [done|].
  intros [c [e|]] u (a & Ha & ->); hnf in Ha; prog; [by subst a|].
  destruct Ha as (Hco & Hcs & _ & bs & ->). split; [split; [apply elem_here|done]|]. answer x.
  cbn. rewrite Hot. split; [done|]. by rewrite decide_False by auto.
Qed.

(** Between two iterations no connection is left over. *)
Definition run_inv (s : vsock_state) (l : Z) (t : vsock_state) : Prop :=
  owned (vapp t) = [] /\ listeners (vapp t) = l :: listeners (vapp s) /\
  running (vapp t) = true /\ 0 <= waiting (vapp t) /\ vprobe t = vprobe s /\
  watchers t = watchers s + 1.

Lemma vsock_step_ok s l t :
  run_inv s l t ->
  wlp V (Run_step l tt) t (returns (fun r u =>
    run_inv s l u /\ match r with Next _ => True | Break _ => False | Return e => e = None end)).
Proof.
  intros (Ho & Hl & Hr & Hw & Hp & Hn). unfold Run_step. prog.
  split; [cbn; rewrite Hl; apply elem_here|].
  intros [c [e|]] u (a & Ha & ->); hnf in Ha; prog.
  { subst a. done. }
  destruct Ha as (Hco & Hcs & _ & bs & ->). split; [done|]. intros x u (a & Ha & ->). hnf in Ha.
  subst a. prog. split; [split; [apply elem_here|]; cbn; split; [done|]; split; [lia|done]|].
  intros y u (a & Ha & ->). hnf in Ha. subst a. split; [|done]. unfold run_inv. cbn. rewrite Ho.
  split; [by rewrite decide_False by auto|]. split; [done|]. split; [done|]. split; [lia|done].
Qed.

(** Running the Hyper-V socket: in a guest, and where Hyper-V sockets or
    our service are missing, it does nothing and reports no error; otherwise it
    starts one watcher and serves every connection it accepts; it closes its
    listener, and every registry key and socket it opened to find out, on every
    path.  The only error it reports is that it cannot listen. *)
Theorem Run_vsock s :
  owned (vapp s) = [] -> 0 <= waiting (vapp s) ->
  wlp V Run s (returns (fun err t =>
    owned (vapp t) = [] /\ listeners (vapp t) = listeners (vapp s) /\ vprobe t = vprobe s /\
    (t = s \/ (hv = false /\ err = None /\ running (vapp t) = true /\
               watchers t = watchers s + 1)))).
Proof.
  intros Ho Hw. unfold Run. apply wp_bind. cbn [wpx call]. split; [done|].
  intros b t [-> ->]. destruct hv eqn:Hhv; [prog; auto|].
  eapply wp_seq; [apply vprobe_ok, CheckHvSocket_ok|].
  intros [] ? ->; cbn [negb]; [|prog; auto].
  eapply wp_seq; [apply vprobe_ok, CheckHVService_ok|].
  intros [] ? ->; cbn [negb]; [|prog; auto].
  prog. split; [done|]. intros [l [e|]] t Ht; hnf in Ht; [subst t; prog; auto|].
  destruct Ht as [Hl ->]. prog. split; [done|]. intros x t (a & Ha & ->). hnf in Ha. subst a.
  eapply (wp_defer _ _ _ _ _ (returns (fun err u => run_inv s l u /\ err = None))).
  - split; [done|]. answer y. split; [done|]. answer z.
    apply (wlp_loop _ _ _ _ _ (fun _ u => run_inv s l u)); [done|].
    intros [] u Hu. eapply wp_mono; [by apply vsock_step_ok|].
    intros [[v|v|err]|msg] u'; prog; [by intros []|by intros []| |done].
    intros [Hi ->]. done.
  - intros [err|msg] u; prog; [|done]. intros [(Huo & Hul & Hur & _ & Hup & Hun) ->].
    split; [done|]. intros y t (a & Ha & ->). hnf in Ha. subst a. split; [done|].
    cbn. rewrite Hul. split; [by apply filter_self|].
    auto 10.
Qed.
End run.

(** ** Instances *)

Definition demo_guid (s : string) : Z + error :=
  if String.eqb s "a-b" then inl 7 else inr (ErrLib 1).
Definition demo_watch : watch_state :=
  WatchState (ProbeState [] [] []) ∅ [].

Lemma wsl2Watcher_tidy_witness :
  wlp (watch_env demo_guid) (wsl2Watcher demo_guid) demo_watch (fun o t => queries t = [] /\
    match o with
    | Returns _ => tidy demo_guid t
    | Panics _ => "{"%string ∈ guids (found (wprobe t))
    end).
Proof. apply (wsl2Watcher_tidy demo_guid demo_watch). reflexivity. Defined.

Lemma Run_vsock_witness :
  wlp (vsock_env demo_world false) (Run "guid") (VSockState demo_app (ProbeState [] [] []) 0)
    (returns (fun err t =>
    owned (vapp t) = [] /\ listeners (vapp t) = [] /\ vprobe t = ProbeState [] [] [] /\
    (t = VSockState demo_app (ProbeState [] [] []) 0 \/
     (false = false /\ err = None /\ running (vapp t) = true /\ watchers t = 0 + 1)))).
Proof.
  apply (Run_vsock "guid" demo_world false (VSockState demo_app (ProbeState [] [] []) 0));
    [reflexivity|cbn; lia].
Defined.

(** A world with one machine, whose listener can be opened at the [n]th try; the
    context is cancelled in the third round.  The state: the tries that fail,
    the rounds that are left, and the open listeners. *)
Definition demo_windows X (e : WatchE X) (s : nat * nat * list Z) : X * (nat * nat * list Z) :=
  let '(fails, rounds, open) := s in
  match e in WatchE X return X * (nat * nat * list Z) with
  | WProbe _ e => (match e in ProbeE X return X with
                   | OpenKey _ _ | Socket _ _ _ => (0, None)
                   | CloseKey _ | CloseSocket _ | ProbePrintln _ => tt
                   | WmiQuery _ => (["wslhost.exe {a-b}"%string], None)
                   | RangeKeys l => l
                   end, s)
  | WNotify _ e => (match e in NotifyE X return X with
                    | NewNotificationQuery _ => (1, None)
                    | GoStartNotifications _ | GoDispatch | QStop _ | SendEvent _ => tt
                    | SelectEvent => inr None
                    end, s)
  | ListenHv g => match fails with
                  | O => ((100 + g, None), (O, rounds, 100 + g :: open))
                  | S n => ((0, Some (Errno 5)), (n, rounds, open))
                  end
  | CloseHv l => (tt, (fails, rounds, filter (fun k => k <> l) open))
  | GoWorker _ | WatchPrintln _ => (tt, s)
  | SelectTick _ => match rounds with
                    | S (S n) => (false, (fails, S n, open))
                    | _ => (true, s)
                    end
  end.

(** When the context is cancelled the listeners of the workers stay open. *)
Example wsl2Watcher_leaves_listeners :
  run demo_windows 5 (wsl2Watcher demo_guid) (O, 3%nat, []) =
  Some (Returns tt, (O, 1%nat, [107])).
Proof. by vm_compute. Qed.

(** A machine whose listener could not be opened is not tried again. *)
Example wsl2Watcher_never_retries :
  run demo_windows 5 (wsl2Watcher demo_guid) (1%nat, 3%nat, []) =
  Some (Returns tt, (O, 1%nat, [])).
Proof. by vm_compute. Qed.
