(* ===== verification/Menus.v ===== *)
(** menu.go, app/pubkey.go and the [Menu] and [onClick] methods of the
    applications: the tray menu, its dialogs, and the texts they offer to
    copy. *)
From S2P Require Import Prelude Effects Desktop Signers CapiAgent App Clipboard Wsl2 ProcessNotify.
Local Open Scope Z_scope.

(** ** Calls

    The handlers run when an entry is clicked and read the fields of their
    application, named by its id, at that time. *)
Inductive UiE : Type -> Type :=
| UDesktop X (e : DesktopE X) : UiE X
| UClip X (e : ClipE X) : UiE X
| UProbe X (e : ProbeE X) : UiE X
| GetRunning (id : Z) : UiE bool
    (** [s.running] *)
| GetText (id : Z) : UiE string
    (** [s.help] (WSL), [s.sockfile] (Cygwin) *)
| AgIsNil : UiE bool
    (** [s.ag == nil] *)
| AgList : UiE (list agent_Key * option error).
    (** [s.ag.List()] *)

(** ** menu.go *)

Definition handler : Type := prog UiE unit.

Record Menu : Type := {
  items : list (string * Z);
  handlers : gmap Z handler;
}.

Definition NewMenu : Menu := {| items := []; handlers := ∅ |}.

Definition Register (m : Menu) (id : Z) (name : string) (h : handler) : Menu :=
  {| items := items m ++ [(name, u64 id)]; handlers := <[id := h]> (handlers m) |}.

Definition Handle (m : Menu) (id : Z) : prog UiE unit :=
  match handlers m !! id with
  | Some h => h
  | None => Ret tt
  end.

(** ** The dialogs *)

Section dialogs.
Context (utf16 : string -> list Z) (err_Error : error -> string) (key_String : agent_Key -> string).
Context (service_String : string).

Abbreviation msgbox title text style := (translate UDesktop (MessageBox title text style)).

(** Show a text and copy it if the user presses OK. *)
Definition offer (title text : string) : prog UiE unit :=
  r <- msgbox (title +:+ " (OK to copy):") text MB_OKCANCEL ;;
  if r =? IDOK then translate UClip (SetClipBoard utf16 text) ;; Ret tt else Ret tt.

Definition does_not_work (id : Z) : prog UiE unit :=
  msgbox "Error:" (AppId_String id +:+ " agent doesn't work!") MB_ICONWARNING ;; Ret tt.

Definition quote (s : string) : string := string_of [x22] +:+ s +:+ string_of [x22].

(** [s.help] is read for the dialog, and again for the clipboard; [Run] writes it
    in another goroutine. *)
Definition WSL_onClick : handler :=
  running <- call (GetRunning APP_WSL) ;;
  if running : bool then
    help <- call (GetText APP_WSL) ;;
    r <- msgbox (AppId_FullName APP_WSL +:+ " (OK to copy):") help MB_OKCANCEL ;;
    if r =? IDOK then
      help <- call (GetText APP_WSL) ;;
      translate UClip (SetClipBoard utf16 help) ;; Ret tt
    else Ret tt
  else does_not_work APP_WSL.

Definition Cygwin_onClick : handler :=
  running <- call (GetRunning APP_CYGWIN) ;;
  if running : bool then
    sockfile <- call (GetText APP_CYGWIN) ;;
    let help := "export SSH_AUTH_SOCK=" +:+ quote sockfile in
    offer (AppId_FullName APP_CYGWIN) help
  else does_not_work APP_CYGWIN.

Definition NamedPipe_onClick : handler :=
  running <- call (GetRunning APP_WINSSH) ;;
  if running : bool then
    let help := "set SSH_AUTH_SOCK=" +:+ NAMED_PIPE in
    offer (AppId_FullName APP_WINSSH) help
  else does_not_work APP_WINSSH.

Definition NamedPipe_onClickSC : handler :=
  running <- call (GetRunning APP_WINSSH) ;;
  if running : bool then
    let help := "setx " +:+ quote "VANDYKE_SSH_AUTH_SOCK" +:+ " " +:+ quote NAMED_PIPE in
    offer (AppId_FullName APP_WINSSH) help
  else does_not_work APP_WINSSH.

Definition checkHvService : prog UiE unit :=
  there <- translate UProbe (CheckHVService service_String) ;;
  if there : bool then does_not_work APP_HYPERV else
  r <- msgbox (AppId_FullName APP_HYPERV +:+ ":")
         (AppId_String APP_HYPERV +:+ " agent is not working! Do you want to enable it?")
         MB_OKCANCEL ;;
  if r =? IDOK then
    err <- translate UDesktop (RunMeElevatedWithArgs "-i") ;;
    match err with
    | Some e => msgbox "Install Service Error:" (err_Error e) MB_ICONERROR ;; Ret tt
    | None => Ret tt
    end
  else Ret tt.

Definition VSock_help : string :=
  "export SSH_AUTH_SOCK=/tmp/keybridge-hv.sock" +:+ nl +:+
  "ss -lnx | grep -q $SSH_AUTH_SOCK" +:+ nl +:+
  "if [ $? -ne 0 ]; then" +:+ nl +:+
  string_of [x09] +:+ "rm -f $SSH_AUTH_SOCK" +:+ nl +:+
  "  (setsid nohup socat UNIX-LISTEN:$SSH_AUTH_SOCK,fork SOCKET-CONNECT:40:0:x0000x33332222x02000000x00000000 >/dev/null 2>&1) & disown" +:+ nl +:+
  "fi".

Definition VSock_onClick : handler :=
  running <- call (GetRunning APP_HYPERV) ;;
  if negb running then checkHvService
  else offer (AppId_FullName APP_HYPERV) VSock_help.

Definition VSock_onCheckClick : handler :=
  running <- call (GetRunning APP_HYPERV) ;;
  if negb running then checkHvService
  else msgbox (AppId_FullName APP_HYPERV +:+ ":")
         (AppId_String APP_HYPERV +:+ " agent is working!") 0 ;; Ret tt.

(** The keys, one per line. *)
Definition key_lines (keys : list agent_Key) : string :=
  match keys with
  | [] => "No Keys"
  | _ => foldl (fun acc key => acc +:+ (key_String key +:+ nl)) "" keys
  end.

(** Before [Run] has stored the agent, [s.ag] is nil. *)
Definition PubKeyView_onClick : handler :=
  isnil <- call AgIsNil ;;
  if isnil : bool then Panic "nil pointer dereference" else
  let* (keys, err) := call AgList in
  match err with
  | Some e => msgbox "Error:" (err_Error e) MB_ICONWARNING ;; Ret tt
  | None => offer "Public Keys" (key_lines keys)
  end.

(** ** The [Menu] methods *)

Definition show_settings (id : Z) : string := "Show " +:+ AppId_String id +:+ " Settings".

Definition PubKeyView_Menu (m : Menu) : prog UiE Menu :=
  Ret (Register m APP_PUBKEY "Show Public Keys" PubKeyView_onClick).
Definition WSL_Menu (m : Menu) : prog UiE Menu :=
  Ret (Register m APP_WSL (show_settings APP_WSL) WSL_onClick).
Definition VSock_Menu (m : Menu) : prog UiE Menu :=
  there <- translate UProbe CheckHvSocket ;;
  if negb there then Ret m else
  let m := Register m APP_WSL2 "Show WSL2 / Linux On Hyper-V Settings" VSock_onClick in
  Ret (Register m APP_HYPERV "Check Hyper-V Agent Status" VSock_onCheckClick).
Definition Cygwin_Menu (m : Menu) : prog UiE Menu :=
  Ret (Register m APP_CYGWIN (show_settings APP_CYGWIN) Cygwin_onClick).
Definition NamedPipe_Menu (m : Menu) : prog UiE Menu :=
  let m := Register m APP_WINSSH (show_settings APP_WINSSH) NamedPipe_onClick in
  Ret (Register m APP_SECURECRT (show_settings APP_SECURECRT) NamedPipe_onClickSC).
Definition Pageant_Menu (m : Menu) : prog UiE Menu := Ret m.
Definition XShell_Menu (m : Menu) : prog UiE Menu := Ret m.

(** main.go: the applications, in order, register their entries. *)
Definition application_menus : list (Menu -> prog UiE Menu) :=
  [PubKeyView_Menu; WSL_Menu; VSock_Menu; Cygwin_Menu; NamedPipe_Menu; Pageant_Menu; XShell_Menu].

Fixpoint register_all (l : list (Menu -> prog UiE Menu)) (m : Menu) : prog UiE Menu :=
  match l with
  | [] => Ret m
  | f :: l => m <- f m ;; register_all l m
  end.

(** ** The theorems

    The texts of the questions the user agreed to, the clipboard, the probes'
    state, whether the agent was stored, and what was read from the texts of the
    applications, which change while the menu is open. *)
Record ui_state : Type := UiState {
  agreed : list string;
  clip : clip_state;
  uprobe : probe_state;
  agset : bool;
  texts : list (Z * string);
}.

(** The clipboard may only be touched after the user agreed to something. *)
Definition ui_env : env UiE ui_state :=
  {| may X e s :=
       match e with
       | UClip _ e => agreed s <> [] /\ may clip_env e (clip s)
       | UProbe _ e => may probe_env e (uprobe s)
       | AgList => agset s = true
       | _ => True
       end;
     does X e s :=
       match e in UiE X return X -> ui_state -> Prop with
       | UDesktop _ e =>
           match e in DesktopE X return X -> ui_state -> Prop with
           | MessageBoxW txt _ style => fun r t =>
               t = (if (r =? IDOK) && (style =? MB_OKCANCEL)
                    then UiState (txt :: agreed s) (clip s) (uprobe s) (agset s) (texts s) else s)
           | _ => fun _ t => t = s
           end
       | UClip _ e => fun x t => exists c, does clip_env e (clip s) x c /\
           t = UiState (agreed s) c (uprobe s) (agset s) (texts s)
       | UProbe _ e => fun x t => exists p, does probe_env e (uprobe s) x p /\
           t = UiState (agreed s) (clip s) p (agset s) (texts s)
       | GetText a => fun x t =>
           t = UiState (agreed s) (clip s) (uprobe s) (agset s) (texts s ++ [(a, x)])
       | AgIsNil => fun b t => b = negb (agset s) /\ t = s
       | _ => fun _ t => t = s
       end |}.
Local Abbreviation V := ui_env.

(** What a click may do: at most one question is agreed to, and only one text
    can get on the clipboard after that, the one of the question, or, for WSL,
    what the field the question was read from held when it was read once more;
    the clipboard is closed again and no memory is lost. *)
Definition copies (s : ui_state) (txt copied : string) (t : ui_state) : Prop :=
  copied = txt \/ texts t = texts s ++ [(APP_WSL, txt); (APP_WSL, copied)].

Definition clicked (s : ui_state) (o : outcome unit) (t : ui_state) : Prop :=
  opened (clip t) = false /\ blocks (clip t) = blocks (clip s) /\ uprobe t = uprobe s /\
  agset t = agset s /\
  match o with
  | Panics _ => agset s = false /\ t = s
  | Returns _ =>
      (agreed t = agreed s /\ clip t = clip s) \/
      exists txt copied, agreed t = txt :: agreed s /\ copies s txt copied t /\
        (content (clip t) = content (clip s) \/ content (clip t) = None \/
         content (clip t) = Some (zstring (utf16 copied ++ [0])))
  end.

Lemma clicked_none s : opened (clip s) = false -> clicked s (Returns tt) s.
Proof. intros Ho. split_and!; try done. by left. Qed.

(** A message box: nothing happens but an agreement, if it asks. *)
Lemma msgbox_ok title txt style s :
  wp V (msgbox title txt style) s (returns (fun r t =>
    (t = s /\ (style = MB_OKCANCEL -> r <> IDOK)) \/
    (style = MB_OKCANCEL /\ r = IDOK /\ t = UiState (txt :: agreed s) (clip s) (uprobe s) (agset s) (texts s)))).
Proof.
  unfold MessageBox, UTF16Ptr. case_decide; [|case_decide]; prog; [by left..|].
  split; [done|]. intros r t Ht. hnf in Ht.
  destruct (Z.eqb_spec r IDOK), (Z.eqb_spec style MB_OKCANCEL); cbn in Ht; auto.
Qed.

(** A message box that does not ask. *)
Lemma tell_ok title txt style s :
  style <> MB_OKCANCEL -> opened (clip s) = false ->
  wp V (msgbox title txt style ;; Ret tt) s (clicked s).
Proof.
  intros Hst Ho. eapply wp_seq; [apply msgbox_ok|]. intros r t [[-> _]|[? _]]; [|done].
  prog. by apply clicked_none.
Qed.

Lemma does_not_work_ok id s :
  opened (clip s) = false -> wp V (does_not_work id) s (clicked s).
Proof. by apply tell_ok. Qed.

Lemma copy_ok txt s :
  agreed s <> [] -> opened (clip s) = false ->
  wp V (translate UClip (SetClipBoard utf16 txt)) s (returns (fun _ t =>
    agreed t = agreed s /\ uprobe t = uprobe s /\ agset t = agset s /\ texts t = texts s /\
    opened (clip t) = false /\ blocks (clip t) = blocks (clip s) /\
    (content (clip t) = content (clip s) \/ content (clip t) = None \/
     content (clip t) = Some (zstring (utf16 txt ++ [0]))))).
Proof.
  intros Ha Ho. eapply wp_mono.
  { apply (wp_translate Total clip_env V UClip clip (fun t =>
      agreed t = agreed s /\ uprobe t = uprobe s /\ agset t = agset s /\ texts t = texts s));
      [|done|].
    - intros X e t (Hag & Hp & Hs & Hx) Hm. split; [split; [by rewrite Hag|done]|].
      intros x u (c & Hc & ->). auto.
    - by apply SetClipBoard_ok. }
  intros [err|msg] t; prog; [|by intros []]. intros [(Hot & Hb & Hc) (Hag & Hp & Hs & Hx)].
  split_and!; try done. destruct err; [|auto]. destruct Hc; auto.
Qed.

(** Only the reads of texts are forgotten. *)
Definition same_ui (s u : ui_state) : Prop :=
  agreed u = agreed s /\ clip u = clip s /\ uprobe u = uprobe s /\ agset u = agset s.

Lemma offer_later title txt s u :
  same_ui s u -> opened (clip s) = false -> wp V (offer title txt) u (clicked s).
Proof.
  intros (Eag & Ec & Ep & Es) Ho. unfold offer. eapply wp_seq; [apply msgbox_ok|].
  intros r t [[-> Hr]|(_ & -> & ->)].
  - specialize (Hr eq_refl). rewrite (proj2 (Z.eqb_neq _ _)) by done. prog.
    unfold clicked. rewrite Ec. split_and!; try done. by left.
  - rewrite Z.eqb_refl. eapply wp_seq; [apply copy_ok; [done|by cbn; rewrite Ec]|].
    intros err t (Hag & Hp & Hs & _ & Hot & Hb & Hc). cbn in Hag, Hp, Hs, Hb, Hc. prog.
    unfold clicked. rewrite <-Ec, <-Ep, <-Es, <-Eag. split_and!; try done.
    right. exists txt, txt. by split_and!; [|left|].
Qed.

Lemma offer_ok title txt s :
  opened (clip s) = false -> wp V (offer title txt) s (clicked s).
Proof. by apply offer_later. Qed.

Lemma WSL_click_ok s :
  opened (clip s) = false ->
  wp V (help <- call (GetText APP_WSL) ;;
        r <- msgbox (AppId_FullName APP_WSL +:+ " (OK to copy):") help MB_OKCANCEL ;;
        if r =? IDOK then
          help <- call (GetText APP_WSL) ;;
          translate UClip (SetClipBoard utf16 help) ;; Ret tt
        else Ret tt) s (clicked s).
Proof.
  intros Ho. apply wp_bind. cbn [wpx call]. split; [done|]. intros txt ? ->.
  eapply wp_seq; [apply msgbox_ok|]. intros r t [[-> Hr]|(_ & -> & ->)].
  - specialize (Hr eq_refl). rewrite (proj2 (Z.eqb_neq _ _)) by done. prog.
    split_and!; try done. by left.
  - rewrite Z.eqb_refl. apply wp_bind. cbn [wpx call]. split; [done|]. intros copied ? ->.
    eapply wp_seq; [by apply copy_ok|].
    intros err t (Hag & Hp & Hs & Hx & Hot & Hb & Hc). prog. split_and!; try done.
    right. exists txt, copied. split; [done|]. split; [|done]. right. rewrite Hx. cbn. by rewrite <-app_assoc.
Qed.

Lemma uprobe_ok {A} (m : prog ProbeE A) s :
  wp probe_env m (uprobe s) (returns (fun _ t => t = uprobe s)) ->
  wp V (translate UProbe m) s (returns (fun _ t => t = s)).
Proof.
  intros H. eapply wp_mono; [apply (wp_translate Total probe_env V UProbe uprobe
    (fun t => agreed t = agreed s /\ clip t = clip s /\ agset t = agset s /\ texts t = texts s));
    [|done|exact H]|].
  - intros X e t (Ha & Hc & Hs & Hx) Hm. split; [done|]. intros x u (p & Hp & ->). auto.
  - intros [b|msg] t; prog; [|by intros []]. intros [Hp (Ha & Hc & Hs & Hx)].
    destruct t, s. cbn in *. congruence.
Qed.

Lemma checkHvService_ok s :
  opened (clip s) = false -> wp V checkHvService s (clicked s).
Proof.
  intros Ho. unfold checkHvService.
  eapply wp_seq; [apply uprobe_ok, CheckHVService_ok|]. intros [] ? ->; [by apply does_not_work_ok|].
  eapply wp_seq; [apply msgbox_ok|]. intros r t [[-> Hr]|(_ & -> & ->)].
  - specialize (Hr eq_refl). rewrite (proj2 (Z.eqb_neq _ _)) by done. prog. by apply clicked_none.
  - rewrite Z.eqb_refl. set (txt := AppId_String _ +:+ _).
    set (s1 := UiState _ _ _ _ _).
    assert (H1 : clicked s (Returns tt) s1).
    { split_and!; try done. right. exists txt, txt. split; [done|]. split; [by left|auto]. }
    unfold RunMeElevatedWithArgs. prog. split; [done|]. intros [exe e1] t Ht. hnf in Ht. subst t.
    prog. split; [done|]. intros [cwd e2] t Ht. hnf in Ht. subst t.
    prog. split; [done|]. intros [e|] t Ht; hnf in Ht; subst t; prog; [|done].
    eapply wp_seq; [apply msgbox_ok|]. intros r t [[-> _]|[? _]]; done.
Qed.

(** Every handler of the menu. *)
Definition entries : list (Z * handler) :=
  [(APP_PUBKEY, PubKeyView_onClick); (APP_WSL, WSL_onClick); (APP_WSL2, VSock_onClick);
   (APP_HYPERV, VSock_onCheckClick); (APP_CYGWIN, Cygwin_onClick);
   (APP_WINSSH, NamedPipe_onClick); (APP_SECURECRT, NamedPipe_onClickSC)].

Lemma PubKeyView_onClick_ok s :
  opened (clip s) = false -> wp V PubKeyView_onClick s (clicked s).
Proof.
  intros Ho. unfold PubKeyView_onClick. apply wp_bind. cbn [wpx call]. split; [done|].
  intros b t [-> ->]. destruct (agset s) eqn:Hs; cbn [negb].
  - apply wp_bind. cbn [wpx call]. split; [done|]. intros [ks [e|]] t Ht; hnf in Ht; subst t.
    + by apply tell_ok.
    + by apply offer_ok.
  - prog. by split_and!.
Qed.

(** The handlers that ask whether their application runs. *)
Lemma running_ok id (h1 h2 : handler) s :
  wp V h1 s (clicked s) -> wp V h2 s (clicked s) ->
  wp V (running <- call (GetRunning id) ;; if running : bool then h1 else h2) s (clicked s).
Proof. intros H1 H2. apply wp_bind. cbn [wpx call]. split; [done|]. intros [] t Ht; hnf in Ht; by subst t. Qed.

Lemma entries_ok id h s :
  (id, h) ∈ entries -> opened (clip s) = false -> wp V h s (clicked s).
Proof.
  intros Hin Ho. unfold entries in Hin. set_unfold.
  destruct_or! Hin; injection Hin as -> ->.
  - by apply PubKeyView_onClick_ok.
  - apply running_ok; [by apply WSL_click_ok|by apply does_not_work_ok].
  - apply wp_bind. cbn [wpx call]. split; [done|]. intros [] t Ht; hnf in Ht; subst t;
      [by apply offer_ok|by apply checkHvService_ok].
  - apply wp_bind. cbn [wpx call]. split; [done|]. intros [] t Ht; hnf in Ht; subst t;
      [by apply tell_ok|by apply checkHvService_ok].
  - apply running_ok; [|by apply does_not_work_ok]. apply wp_bind. cbn [wpx call].
    split; [done|]. intros x ? ->. by apply offer_later.
  - apply running_ok; [by apply offer_ok|by apply does_not_work_ok].
  - apply running_ok; [by apply offer_ok|by apply does_not_work_ok].
Qed.

(** The entries there are with and without Hyper-V sockets. *)
Definition shown (there : bool) : list (Z * handler) :=
  filter (fun x => there = true \/ x.1 ∉ [APP_WSL2; APP_HYPERV]) entries.

Lemma register_all_ok s :
  wp V (register_all application_menus NewMenu) s (returns (fun m t =>
    t = s /\ exists there, handlers m = list_to_map (shown there) /\
      (items m).*2 = (shown there).*1)).
Proof.
  unfold application_menus. cbn [register_all].
  unfold PubKeyView_Menu, WSL_Menu, VSock_Menu, Cygwin_Menu, NamedPipe_Menu, Pageant_Menu,
    XShell_Menu, shown, entries.
  generalize PubKeyView_onClick WSL_onClick VSock_onClick VSock_onCheckClick Cygwin_onClick
    NamedPipe_onClick NamedPipe_onClickSC. intros h1 h2 h3 h4 h5 h6 h7.
  cbn [bind]. apply wp_bind. eapply wp_seq; [apply uprobe_ok, CheckHvSocket_ok|].
  intros there ? ->. destruct there; cbn [negb]; prog; (split; [done|]);
    [exists true|exists false]; by split.
Qed.

Lemma entries_NoDup there : NoDup (shown there).*1.
Proof. destruct there; refine (bool_decide_unpack _ _); vm_compute; exact I. Qed.

Lemma shown_sub there x : x ∈ shown there -> x ∈ entries.
Proof. by intros [_ ?]%list_elem_of_filter. Qed.

(** (C34) The menu the applications build together has no clashes: no two
    entries share an id, none has the id of the Quit entry, every entry has a
    handler, and the handler of each entry is the one of the application that
    registered it; the entries for Hyper-V are there exactly when Hyper-V
    sockets are. *)
Theorem menu_entries s :
  wp V (register_all application_menus NewMenu) s (returns (fun m t =>
    t = s /\ exists there : bool,
      NoDup (items m).*2 /\ (MENU_QUIT ∉ (items m).*2) /\
      (forall id, id ∈ (items m).*2 <-> is_Some (handlers m !! id)) /\
      (forall id h, handlers m !! id = Some h <->
         (id, h) ∈ entries /\ (there = true \/ id ∉ [APP_WSL2; APP_HYPERV])))).
Proof.
  eapply wp_mono; [apply register_all_ok|]. intros [m|msg] t; prog; [|done].
  intros [-> (there & Hh & Hi)]. split; [done|]. exists there. rewrite Hi, Hh.
  pose proof (entries_NoDup there) as Hnd.
  assert (Hlook : forall id h, list_to_map (M := gmap Z handler) (shown there) !! id = Some h <->
    (id, h) ∈ shown there).
  { intros id h. symmetry. by apply elem_of_list_to_map. }
  split; [done|]. split; [destruct there; refine (bool_decide_unpack _ _); vm_compute; exact I|]. split.
  - intros id. rewrite list_elem_of_fmap. split.
    + intros ([k h] & -> & Hx). exists h. by apply Hlook.
    + intros [h Hx%Hlook]. by exists (id, h).
  - intros id h. rewrite Hlook. unfold shown. rewrite list_elem_of_filter. cbn. tauto.
Qed.

(** (C33) Nothing gets on the clipboard without consent.  Whatever entry of the
    menu is clicked, the handler ends; at most one question is agreed to, the
    clipboard is only touched after that and can then only hold the very text
    the user agreed to copy, or, for the settings of WSL, what a second read of
    the text that was shown gave: the one that was agreed to, unless [Run] wrote
    it in between; it is closed again and no memory is lost.  Only a
    click on the public keys before the agent was stored panics. *)
Theorem menu_consent s :
  wp V (register_all application_menus NewMenu) s (returns (fun m _ =>
    forall id s', opened (clip s') = false -> wp V (Handle m id) s' (clicked s'))).
Proof.
  eapply wp_mono; [apply register_all_ok|]. intros [m|msg] t; prog; [|done].
  intros [-> (there & Hh & _)] id s' Ho. unfold Handle.
  destruct (handlers m !! id) as [h|] eqn:Hm; [|by prog; apply clicked_none].
  rewrite Hh in Hm. apply (entries_ok id); [|done].
  by eapply shown_sub, elem_of_list_to_map_2.
Qed.
End dialogs.
