(* ===== verification/Relay.v ===== *)
(** relay.go: relaying stdin and stdout to a named pipe.  The command line, the
    dialling loop, and the two goroutines as a transition system. *)
From S2P Require Import Prelude Effects.
Local Open Scope Z_scope.

Definition Second : Z := 10 ^ 9.
Definition Millisecond : Z := 10 ^ 6.
Definition dialTimeoutPerAttempt : Z := 5 * Second.
Definition pollInterval : Z := 200 * Millisecond.
Definition stdinDrainTimeout : Z := 5 * Second.

(** ** The command line *)

Record flags : Type := Flags {
  poll : bool;
  closeWrite : bool;
  closeOnPipeEOF : bool;
  closeOnStdinEOF : bool;
  verbose : bool;
}.

(** The defaults. *)
Definition no_flags : flags := Flags false false false false false.

(** Setting a flag by its name; [None] if there is no such flag. *)
Definition set_flag (name : string) (v : bool) (f : flags) : option flags :=
  if String.eqb name "p" then
    Some (Flags v (closeWrite f) (closeOnPipeEOF f) (closeOnStdinEOF f) (verbose f))
  else if String.eqb name "s" then
    Some (Flags (poll f) v (closeOnPipeEOF f) (closeOnStdinEOF f) (verbose f))
  else if String.eqb name "ep" then
    Some (Flags (poll f) (closeWrite f) v (closeOnStdinEOF f) (verbose f))
  else if String.eqb name "ei" then
    Some (Flags (poll f) (closeWrite f) (closeOnPipeEOF f) v (verbose f))
  else if String.eqb name "v" then
    Some (Flags (poll f) (closeWrite f) (closeOnPipeEOF f) (closeOnStdinEOF f) v)
  else None.

(** strconv.ParseBool *)
Definition ParseBool (s : string) : option bool :=
  if bool_decide (s ∈ ["1"; "t"; "T"; "true"; "TRUE"; "True"]%string) then Some true
  else if bool_decide (s ∈ ["0"; "f"; "F"; "false"; "FALSE"; "False"]%string) then Some false
  else None.

(** What package flag does with one argument: it is not a flag, it ends the
    flags, it is a flag, or parsing fails and the process exits with a code. *)
Inductive parsed : Type :=
| NotFlag
| EndOfFlags
| IsFlag (f : flags)
| ParseExit (code : Z).

(** The name before the first '=', which cannot be the first byte, and the value
    after it. *)
Fixpoint split_value (l : list byte) : list byte * option (list byte) :=
  match l with
  | [] => ([], None)
  | b :: l => if decide (b = x3d) then ([], Some l)
              else let '(n, v) := split_value l in (b :: n, v)
  end.

Definition apply_flag (name : string) (value : option (list byte)) (f : flags) : parsed :=
  match set_flag name true f with
  | None => if bool_decide (name ∈ ["help"; "h"]%string) then ParseExit 0 else ParseExit 2
  | Some _ =>
      match value with
      | None => match set_flag name true f with Some g => IsFlag g | None => ParseExit 2 end
      | Some v =>
          match ParseBool (string_of v) with
          | Some b => match set_flag name b f with Some g => IsFlag g | None => ParseExit 2 end
          | None => ParseExit 2
          end
      end
  end.

Definition parse_one (arg : string) (f : flags) : parsed :=
  match bytes_of arg with
  | x2d :: (c :: rest) as l =>
      if decide (l = [x2d; x2d]) then EndOfFlags else
      let name := if decide (c = x2d) then rest else c :: rest in
      match name with
      | [] => ParseExit 2
      | b :: bs =>
          if decide (b = x2d \/ b = x3d) then ParseExit 2 else
          let '(n, v) := split_value bs in
          apply_flag (string_of (b :: n)) v f
      end
  | _ => NotFlag
  end.

(** fs.Parse: the flags and the remaining arguments, or the exit code. *)
Fixpoint Parse (args : list string) (f : flags) : flags * list string + Z :=
  match args with
  | [] => inl (f, [])
  | a :: rest =>
      match parse_one a f with
      | NotFlag => inl (f, args)
      | EndOfFlags => inl (f, rest)
      | IsFlag g => Parse rest g
      | ParseExit code => inr code
      end
  end.

(** strings.HasPrefix(extra, "-") *)
Definition dashed (s : string) : bool :=
  match bytes_of s with b :: _ => bool_decide (b = x2d) | [] => false end.

(** The beginning of [runRelay]: the flags and the pipe, or the exit code with
    the argument the message complains about, if it does. *)
Definition relay_args (args : list string) : flags * string + Z * option string :=
  match Parse args no_flags with
  | inr code => inr (code, None)
  | inl (f, [path]) => inl (f, path)
  | inl (_, []) => inr (1, None)
  | inl (_, _ :: extras) => inr (1, find dashed extras)
  end.

(** The arguments that stand for flags. *)
Definition flag_args (f : flags) : list string :=
  (if poll f then ["-p"%string] else []) ++ (if closeWrite f then ["-s"%string] else []) ++
  (if closeOnPipeEOF f then ["-ep"%string] else []) ++
  (if closeOnStdinEOF f then ["-ei"%string] else []) ++ (if verbose f then ["-v"%string] else []).

Lemma Parse_flag_args f rest : Parse (flag_args f ++ rest) no_flags = Parse rest f.
Proof. by destruct f as [[] [] [] [] []]. Qed.

Lemma parse_path path f : dashed path = false -> parse_one path f = NotFlag.
Proof.
  intros Hp. unfold parse_one, dashed in *. destruct (bytes_of path) as [|b l]; [done|].
  apply bool_decide_eq_false in Hp. by destruct b.
Qed.

(** The command line of the relay: every combination of flags, given before
    the path, is understood as it is meant; a flag after the path is not taken
    as a flag but reported, with exit code 1. *)
Theorem relay_args_spec f path extra more :
  dashed path = false ->
  relay_args (flag_args f ++ [path]) = inl (f, path) /\
  relay_args (flag_args f ++ path :: extra :: more) =
    inr (1, find dashed (extra :: more)).
Proof.
  intros Hp. unfold relay_args. rewrite !Parse_flag_args. cbn [Parse].
  by rewrite parse_path.
Qed.

Lemma relay_args_spec_witness :
  relay_args (flag_args (Flags true false false true false) ++ ["\\.\pipe\docker"%string]) =
    inl (Flags true false false true false, "\\.\pipe\docker"%string) /\
  relay_args (flag_args (Flags true false false true false) ++ ["\\.\pipe\docker"; "-s"]%string) =
    inr (1, find dashed ["-s"%string]).
Proof. apply relay_args_spec. reflexivity. Defined.

(** ** Dialling *)

Inductive DialE : Type -> Type :=
| DialPipe (path : string) (timeout : Z) : DialE (Z * option error)
| DialSleep (d : Z) : DialE unit.

(** [os.IsNotExist(err) || err == winio.ErrTimeout] *)
Definition retryable (e : error) : bool :=
  bool_decide (e = ErrNotExist) || bool_decide (e = ErrWinioTimeout).

Definition dial_step (path : string) (poll : bool) (_ : unit)
    : prog DialE (ctl unit (Z * option error)) :=
  let* (conn, err) := call (DialPipe path dialTimeoutPerAttempt) in
  match err with
  | None => Ret (Return (conn, None))
  | Some e =>
      if poll && retryable e then
        call (DialSleep pollInterval) ;; Ret (Next tt)
      else Ret (Return (0, Some e))
  end.

Definition dialPipeWithPoll (path : string) (poll : bool) : prog DialE (Z * option error) :=
  r <- loop (dial_step path poll) tt ;;
  match r with inl _ => Ret (0, None) | inr r => Ret r end.

(** [runRelay] up to the connection: the flags and the pipe, or the exit code. *)
Definition runRelay_connect (args : list string) : prog DialE (flags * Z + Z) :=
  match relay_args args with
  | inr (code, _) => Ret (inr code)
  | inl (f, path) =>
      let* (conn, err) := dialPipeWithPoll path (poll f) in
      match err with
      | Some _ => Ret (inr 1)
      | None => Ret (inl (f, conn))
      end
  end.

(** What happened: the answer of every attempt, and the pauses. *)
Inductive dialled : Type :=
| Attempt (conn : Z) (err : option error)
| Pause (d : Z).

Definition dial_env (path : string) : env DialE (list dialled) :=
  {| may X e s := match e with DialPipe p t => p = path /\ t = dialTimeoutPerAttempt | _ => True end;
     does X e s :=
       match e in DialE X return X -> list dialled -> Prop with
       | DialPipe _ _ => fun '(c, err) t => t = s ++ [Attempt c err]
       | DialSleep d => fun _ t => t = s ++ [Pause d]
       end |}.

(** Attempts that may be repeated, each with its pause. *)
Inductive tries : list dialled -> Prop :=
| tries_nil : tries []
| tries_snoc l c e : tries l -> retryable e = true ->
    tries (l ++ [Attempt c (Some e); Pause pollInterval]).

(** Dialling: without polling there is one attempt and its answer is the
    result.  With polling, an attempt is repeated, after a pause of 200
    milliseconds, only while the pipe is missing or busy, and the first other
    answer is the result: a connection, or an error that is neither. *)
Theorem dialPipeWithPoll_spec path poll :
  wlp (dial_env path) (dialPipeWithPoll path poll) [] (returns (fun r l =>
    exists ts c err, l = ts ++ [Attempt c err] /\ tries ts /\ (poll = false -> ts = []) /\
      match err with
      | None => r = (c, None)
      | Some e => r = (0, Some e) /\ (poll = true -> e <> ErrNotExist /\ e <> ErrWinioTimeout)
      end)).
Proof.
  unfold dialPipeWithPoll. cbn [bind loop].
  apply (wlp_loop _ _ _ _ _ (fun _ l => tries l /\ (poll = false -> l = []))).
  { split; [constructor|done]. }
  intros [] l [Ht Hp]. unfold dial_step. prog. split; [done|].
  intros [c [e|]] u Hu; hnf in Hu; subst u; prog.
  - destruct (poll && retryable e) eqn:He; prog.
    + apply andb_prop in He as [-> He]. split; [done|]. answer x. cbn. rewrite <-app_assoc.
      split; [by constructor|done].
    + exists l, c, (Some e). split; [done|]. split; [done|]. split; [done|]. split; [done|].
      intros ->. cbn in He. unfold retryable in He. apply orb_false_elim in He as [H1 H2].
      by apply bool_decide_eq_false in H1, H2.
  - exists l, c, None. done.
Qed.

(** ** The two goroutines *)

(** One direction of the copy: what the source has produced and was not read
    yet, whether it has ended, what was read and not written yet, and what was
    written; [fed] is everything the source has produced up to its first end of
    file.  The end of file of a pipe may be a message of no bytes, after which it
    goes on: io.Copy has returned by then and nothing reads the pipe again, so
    what it says later changes nothing here and has no step. *)
Record dir : Type := Dir {
  fed : list byte;
  pending : list byte;
  eof : bool;
  inflight : list byte;
  delivered : list byte;
}.

(** The buffer of io.Copy. *)
Definition copy_buffer : Z := 32 * 1024.

(** io.Copy between two reads or writes that succeed. *)
Inductive copying : dir -> dir -> Prop :=
| copy_read f c rest e d :
    c <> [] -> Z.of_nat (length c) <= copy_buffer ->
    copying (Dir f (c ++ rest) e [] d) (Dir f rest e c d)
| copy_write f p e c d :
    c <> [] ->
    copying (Dir f p e c d) (Dir f p e [] (d ++ c)).

(** io.Copy returns without an error at the end of the source. *)
Definition copied (x : dir) : Prop := pending x = [] /\ eof x = true /\ inflight x = [].

(** io.Copy returns an error after a read that failed, or after a write that
    failed and delivered a part. *)
Inductive copy_fails : dir -> dir -> Prop :=
| read_fails f p e d : copy_fails (Dir f p e [] d) (Dir f p e [] d)
| write_fails f p e c c' d : c <> [] -> c' `prefix_of` c ->
    copy_fails (Dir f p e c d) (Dir f p e c (d ++ c')).

(** The source produces data, or reaches its first end of file. *)
Inductive produces : dir -> dir -> Prop :=
| feed f p c d b : c <> [] -> produces (Dir f p false b d) (Dir (f ++ c) (p ++ c) false b d)
| finish f p d b : produces (Dir f p false b d) (Dir f p true b d).

(** Where the goroutine for stdin and the main goroutine are. *)
Inductive stdin_pc : Type := SCopy | SCloseWrite | SCheckExit | SDone.
Inductive main_pc : Type := MCopy | MCheckExit | MCloseStdout | MSelect.

Record relay : Type := Relay {
  up : dir;
  down : dir;
  spc : stdin_pc;
  mpc : main_pc;
  closed_write : option bool;  (** the call of [CloseWrite], and whether it succeeded *)
  warned : bool;               (** the message that -s has no effect *)
  stdout_closed : bool;
  exited : option Z;           (** the exit code *)
}.

(** [conn] implements [closeWriter] exactly for a message-mode pipe.  An exit in
    one goroutine ends both.  A read or a write that blocks is a step that is not
    taken yet; that a blocked write can be taken in the end is an assumption of
    every statement that says there is a step. *)
Inductive step (f : flags) (message_mode : bool) : relay -> relay -> Prop :=
| stdin_produces u u' d sp mp cw wn so :
    produces u u' ->
    step f message_mode (Relay u d sp mp cw wn so None) (Relay u' d sp mp cw wn so None)
| pipe_produces u d d' sp mp cw wn so :
    produces d d' ->
    step f message_mode (Relay u d sp mp cw wn so None) (Relay u d' sp mp cw wn so None)
| s_copy u u' d mp cw wn so :
    copying u u' ->
    step f message_mode (Relay u d SCopy mp cw wn so None) (Relay u' d SCopy mp cw wn so None)
| s_fatal u u' d mp cw wn so :
    copy_fails u u' ->
    step f message_mode (Relay u d SCopy mp cw wn so None) (Relay u' d SCopy mp cw wn so (Some 1))
| s_copied u d mp cw wn so :
    copied u ->
    step f message_mode (Relay u d SCopy mp cw wn so None)
      (Relay u d (if closeWrite f then SCloseWrite else SCheckExit) mp cw wn so None)
| s_close_write u d mp cw wn so ok :
    message_mode = true ->
    step f message_mode (Relay u d SCloseWrite mp cw wn so None)
      (Relay u d SCheckExit mp (Some ok) wn so None)
| s_warn u d mp cw wn so :
    message_mode = false ->
    step f message_mode (Relay u d SCloseWrite mp cw wn so None)
      (Relay u d SCheckExit mp cw true so None)
| s_exit u d mp cw wn so :
    closeOnStdinEOF f = true ->
    step f message_mode (Relay u d SCheckExit mp cw wn so None)
      (Relay u d SCheckExit mp cw wn so (Some 0))
| s_done u d mp cw wn so :
    closeOnStdinEOF f = false ->
    step f message_mode (Relay u d SCheckExit mp cw wn so None)
      (Relay u d SDone mp cw wn so None)
| m_copy u d d' sp cw wn so :
    copying d d' ->
    step f message_mode (Relay u d sp MCopy cw wn so None) (Relay u d' sp MCopy cw wn so None)
| m_fatal u d d' sp cw wn so :
    copy_fails d d' ->
    step f message_mode (Relay u d sp MCopy cw wn so None) (Relay u d' sp MCopy cw wn so (Some 1))
| m_copied u d sp cw wn so :
    copied d ->
    step f message_mode (Relay u d sp MCopy cw wn so None) (Relay u d sp MCheckExit cw wn so None)
| m_exit u d sp cw wn so :
    closeOnPipeEOF f = true ->
    step f message_mode (Relay u d sp MCheckExit cw wn so None)
      (Relay u d sp MCheckExit cw wn so (Some 0))
| m_go_on u d sp cw wn so :
    closeOnPipeEOF f = false ->
    step f message_mode (Relay u d sp MCheckExit cw wn so None)
      (Relay u d sp MCloseStdout cw wn so None)
| m_close_stdout u d sp cw wn so :
    step f message_mode (Relay u d sp MCloseStdout cw wn so None)
      (Relay u d sp MSelect cw wn true None)
| m_stdin_done u d cw wn so :
    step f message_mode (Relay u d SDone MSelect cw wn so None)
      (Relay u d SDone MSelect cw wn so (Some 0))
| m_timeout u d sp cw wn so :
    step f message_mode (Relay u d sp MSelect cw wn so None)
      (Relay u d sp MSelect cw wn so (Some 0)).

Definition no_data : dir := Dir [] [] false [] [].
Definition connected : relay := Relay no_data no_data SCopy MCopy None false false None.

Definition reachable (f : flags) (message_mode : bool) : relay -> Prop :=
  rtc (step f message_mode) connected.

(** *** Invariants *)

Definition dir_ok (x : dir) : Prop := fed x = delivered x ++ inflight x ++ pending x.
Definition dir_pre (x : dir) : Prop := delivered x `prefix_of` fed x.

Lemma dir_ok_pre x : dir_ok x -> dir_pre x.
Proof. intros H. unfold dir_pre. rewrite H. by apply prefix_app_r. Qed.

Lemma dir_ok_copied x : dir_ok x -> copied x -> delivered x = fed x /\ eof x = true.
Proof. intros H (Hp & He & Hi). by rewrite H, Hp, Hi, !app_nil_r. Qed.

Lemma copying_ok x y : copying x y -> dir_ok x -> dir_ok y.
Proof. unfold dir_ok. intros Hc Hx. destruct Hc; cbn in *; subst; by rewrite <-?app_assoc, ?app_nil_r. Qed.

Lemma copy_fails_ok x y : copy_fails x y -> dir_ok x -> dir_pre y.
Proof.
  unfold dir_ok, dir_pre. intros [|f p e c c' d _ [k ->]] H; cbn in *; subst.
  - by apply prefix_app_r.
  - exists (k ++ p). by rewrite <-!app_assoc.
Qed.

Lemma produces_ok x y : produces x y -> dir_ok x -> dir_ok y.
Proof. unfold dir_ok. intros Hc Hx. destruct Hc; cbn in *; subst; by rewrite <-?app_assoc. Qed.

Lemma produces_copied x y : produces x y -> ~ copied x.
Proof. by intros [] (_ & He & _). Qed.

Section relay.
Context (f : flags) (message_mode : bool).
Local Abbreviation step := (step f message_mode).

Record relay_inv (r : relay) : Prop := {
  i_up : exited r <> Some 1 -> dir_ok (up r);
  i_down : exited r <> Some 1 -> dir_ok (down r);
  i_up_pre : dir_pre (up r);
  i_down_pre : dir_pre (down r);
  i_stdin : spc r <> SCopy -> copied (up r);
  i_main : mpc r <> MCopy -> copied (down r);
  i_early : closed_write r <> None -> spc r = SCheckExit \/ spc r = SDone;
  i_signal : spc r = SCheckExit \/ spc r = SDone -> closeWrite f = true ->
    if message_mode then closed_write r <> None else warned r = true;
  i_stdout : mpc r = MSelect -> stdout_closed r = true;
  i_exit : exited r = Some 0 ->
    (spc r = SCheckExit /\ closeOnStdinEOF f = true) \/
    (mpc r = MCheckExit /\ closeOnPipeEOF f = true) \/ mpc r = MSelect;
}.

Lemma relay_inv_init : relay_inv connected.
Proof. split; cbn; try done; [by exists []..|naive_solver]. Qed.

Lemma relay_inv_step r r' : step r r' -> relay_inv r -> relay_inv r'.
Proof.
  intros Hs [H1 H2 H3 H4 H5 H6 H7 H8 H9 H10].
  destruct Hs; cbn in *; try (specialize (H1 ltac:(done))); try (specialize (H2 ltac:(done)));
    repeat match goal with
    | H : produces _ _ |- _ =>
        pose proof (produces_copied _ _ H); pose proof (produces_ok _ _ H ltac:(assumption)); clear H
    | H : copying _ _ |- _ => pose proof (copying_ok _ _ H ltac:(assumption)); clear H
    | H : copy_fails _ _ |- _ => pose proof (copy_fails_ok _ _ H ltac:(assumption)); clear H
    end;
    split; cbn; try done; auto using dir_ok_pre;
    destruct (closeWrite f) eqn:?, message_mode; intuition congruence.
Qed.

Lemma reachable_inv r : reachable f message_mode r -> relay_inv r.
Proof.
  unfold reachable. remember connected as r0 eqn:H0. intros H.
  assert (relay_inv r0) as Hi by (subst; apply relay_inv_init). clear H0.
  induction H as [|x y z Hs _ IH]; [done|]. apply IH. by eapply relay_inv_step.
Qed.

(** (C20) The relay never changes the data.  In every reachable state, whatever
    the interleaving of the two goroutines, the data written to the pipe is a
    prefix of what stdin produced, and the data written to stdout a prefix of
    what the pipe produced, up to the first end of file of each; and the end-of-data signal of -s is only sent after
    all of stdin was written, once stdin has ended. *)
Theorem relay_faithful r :
  reachable f message_mode r ->
  delivered (up r) `prefix_of` fed (up r) /\
  delivered (down r) `prefix_of` fed (down r) /\
  (closed_write r <> None -> exited r <> Some 1 ->
   delivered (up r) = fed (up r) /\ eof (up r) = true).
Proof.
  intros [H1 H2 H3 H4 H5 _ H7 _ _ _]%reachable_inv. split; [done|]. split; [done|].
  intros Hc He. apply dir_ok_copied; [by apply H1|]. apply H5. destruct (H7 Hc) as [->| ->]; done.
Qed.

(** (C19) What exit code 0 means: either -ei was given, stdin has ended, all of it
    was written to the pipe and, if -s was given too, its signal was sent before
    the exit (or the user was told that it has no effect); or the pipe has
    ended, all of it was written to stdout, and -ep was given or stdout was
    closed. *)
Theorem relay_exit_zero r :
  reachable f message_mode r -> exited r = Some 0 ->
  (closeOnStdinEOF f = true /\ eof (up r) = true /\ delivered (up r) = fed (up r) /\
   (closeWrite f = true -> if message_mode then closed_write r <> None else warned r = true)) \/
  (eof (down r) = true /\ delivered (down r) = fed (down r) /\
   (closeOnPipeEOF f = true \/ stdout_closed r = true)).
Proof.
  intros [H1 H2 _ _ H5 H6 _ H8 H9 H10]%reachable_inv He. rewrite He in *.
  specialize (H1 ltac:(done)). specialize (H2 ltac:(done)).
  destruct (H10 eq_refl) as [[Hs Hf]|[[Hm Hf]|Hm]].
  - left. rewrite Hs in *. destruct (dir_ok_copied _ H1 (H5 ltac:(done))). split_and!; [done..|]. apply H8. by left.
  - right. rewrite Hm in *. destruct (dir_ok_copied _ H2 (H6 ltac:(done))). auto.
  - right. rewrite Hm in *. destruct (dir_ok_copied _ H2 (H6 ltac:(done))). auto.
Qed.

(** *** Termination *)

Definition dir_size (x : dir) : nat := 2 * length (pending x) + length (inflight x).
Definition stdin_rank (p : stdin_pc) : nat :=
  match p with SCopy => 3 | SCloseWrite => 2 | SCheckExit => 1 | SDone => 0 end.
Definition main_rank (p : main_pc) : nat :=
  match p with MCopy => 3 | MCheckExit => 2 | MCloseStdout => 1 | MSelect => 0 end.
Definition size (r : relay) : nat :=
  dir_size (up r) + dir_size (down r) + stdin_rank (spc r) + main_rank (mpc r) +
  match exited r with None => 1 | Some _ => 0 end.

Lemma copying_size x y : copying x y -> (dir_size y < dir_size x)%nat.
Proof.
  unfold dir_size. intros Hc. destruct Hc as [g c rest e d Hc _|g p e c d Hc]; cbn;
    (destruct c; [done|]); cbn; rewrite ?length_app; cbn; lia.
Qed.

Lemma copy_fails_size x y : copy_fails x y -> dir_size y = dir_size x.
Proof. by intros []. Qed.

Lemma copying_eof x y : copying x y -> eof y = eof x.
Proof. by intros []. Qed.

Lemma step_size r r' :
  step r r' -> eof (up r) = true -> eof (down r) = true ->
  (size r' < size r)%nat /\ (exited r' <> None \/ (eof (up r') = true /\ eof (down r') = true)).
Proof.
  intros Hs Hu Hd. destruct Hs; unfold size; cbn -[dir_size] in *;
    repeat match goal with
    | H : produces _ _ |- _ => by destruct H
    | H : copying _ _ |- _ =>
        pose proof (copying_size _ _ H); pose proof (copying_eof _ _ H); clear H
    | H : copy_fails _ _ |- _ => pose proof (copy_fails_size _ _ H); clear H
    end; try (split; [lia|first [by left|right; split; congruence]]).
  destruct (closeWrite f); cbn; (split; [lia|by right]).
Qed.

Lemma exited_stuck r r' : exited r <> None -> ~ step r r'.
Proof. intros He Hs. by destruct Hs. Qed.

Lemma step_sn r : eof (up r) = true -> eof (down r) = true -> sn step r.
Proof.
  remember (size r) as n eqn:Hn. revert r Hn.
  induction n as [n IH] using lt_wf_ind. intros r -> Hu Hd. constructor. intros r' Hs.
  destruct (step_size _ _ Hs Hu Hd) as [Hlt [He|[Hu' Hd']]].
  - constructor. intros r'' Hs'. by destruct (exited_stuck _ _ He Hs').
  - by apply (IH (size r')).
Qed.

(** The main goroutine alone writes out the rest of the pipe. *)
Lemma drain u d sp cw wn so :
  eof d = true ->
  exists d', copied d' /\
    rtc step (Relay u d sp MCopy cw wn so None) (Relay u d' sp MCopy cw wn so None).
Proof.
  remember (dir_size d) as n eqn:Hn. revert d Hn.
  induction n as [n IH] using lt_wf_ind. intros d -> He.
  assert (Hnext : forall d1, copying d d1 -> exists d', copied d' /\
    rtc step (Relay u d sp MCopy cw wn so None) (Relay u d' sp MCopy cw wn so None)).
  { intros d1 H1. destruct (IH (dir_size d1) (copying_size _ _ H1) d1 eq_refl) as (d' & Hd & Hr).
    { by rewrite (copying_eof _ _ H1). }
    exists d'. split; [done|]. eapply rtc_l; [by apply m_copy|done]. }
  destruct d as [g p e [|b c] dl]; cbn in He; subst e.
  - destruct p as [|b p].
    + by exists (Dir g [] true [] dl).
    + apply (Hnext (Dir g p true [b] dl)). apply (copy_read g [b] p); [done|].
      unfold copy_buffer. cbn. lia.
  - eapply Hnext. by apply copy_write.
Qed.

(** (C21) The relay ends.  Once both sources have ended, every schedule of the
    two goroutines is finite, and it is never stuck before the process has
    exited (as long as what it writes to is not blocked for ever).  Once the pipe has ended, the process can exit with code 0 without
    any help from stdin, which may stay open and idle. *)
Theorem relay_terminates r :
  reachable f message_mode r -> eof (down r) = true ->
  (eof (up r) = true -> sn step r /\ (exited r = None -> exists r', step r r')) /\
  (exited r = None -> exists r', rtc step r r' /\ exited r' = Some 0 /\ up r' = up r).
Proof.
  intros Hr Hd.
  assert (Hexit : exited r = None -> exists r', rtc step r r' /\ exited r' = Some 0 /\ up r' = up r).
  { destruct r as [u d sp mp cw wn so ex]. cbn in *. intros ->.
    assert (Hsel : forall d so, exists r', rtc step (Relay u d sp MSelect cw wn so None) r' /\
      exited r' = Some 0 /\ up r' = u).
    { intros. eexists. split; [apply rtc_once, m_timeout|done]. }
    assert (Hstd : forall d so, exists r', rtc step (Relay u d sp MCloseStdout cw wn so None) r' /\
      exited r' = Some 0 /\ up r' = u).
    { intros d1 so1. destruct (Hsel d1 true) as (r' & Hr' & ?). exists r'. split; [|done].
      eapply rtc_l; [apply m_close_stdout|done]. }
    assert (Hchk : forall d so, exists r', rtc step (Relay u d sp MCheckExit cw wn so None) r' /\
      exited r' = Some 0 /\ up r' = u).
    { intros d1 so1. destruct (closeOnPipeEOF f) eqn:Hep.
      - eexists. split; [by apply rtc_once, m_exit|done].
      - destruct (Hstd d1 so1) as (r' & Hr' & ?). exists r'. split; [|done].
        eapply rtc_l; [by apply m_go_on|done]. }
    destruct mp; auto.
    destruct (drain u d sp cw wn so Hd) as (d' & Hcp & Hrt).
    destruct (Hchk d' so) as (r' & Hr' & ?). exists r'. split; [|done].
    etrans; [exact Hrt|]. eapply rtc_l; [by apply m_copied|done]. }
  split; [|exact Hexit]. intros Hu. split; [by apply step_sn|]. intros He.
  destruct (Hexit He) as (r' & Hrt & He' & _). inversion Hrt as [|x y z Hs]; subst; [congruence|].
  by exists y.
Qed.
End relay.

(** ** Instances *)

Definition demo_flags : flags := Flags false true false true false.
Definition hello : list byte := bytes_of "hello".
Definition done_dir : dir := Dir hello [] true [] hello.

(** A run with -s and -ei on a message-mode pipe: stdin says hello and ends. *)
Definition demo_end : relay :=
  Relay done_dir no_data SCheckExit MCopy (Some true) false false (Some 0).

Lemma demo_reachable : reachable demo_flags true demo_end.
Proof.
  unfold reachable, connected, demo_end, no_data, done_dir.
  eapply rtc_l; [apply stdin_produces, (feed [] [] hello); done|].
  eapply rtc_l; [apply stdin_produces, finish|].
  eapply rtc_l; [apply s_copy, (copy_read _ hello []); [done|unfold copy_buffer; cbn; lia]|].
  eapply rtc_l; [apply s_copy; by apply copy_write|].
  eapply rtc_l; [by apply s_copied|].
  eapply rtc_l; [by apply (s_close_write _ _ _ _ _ _ _ _ true)|].
  eapply rtc_l; [by apply s_exit|]. reflexivity.
Qed.

Lemma relay_faithful_witness :
  delivered (up demo_end) `prefix_of` fed (up demo_end) /\
  delivered (down demo_end) `prefix_of` fed (down demo_end) /\
  (closed_write demo_end <> None -> exited demo_end <> Some 1 ->
   delivered (up demo_end) = fed (up demo_end) /\ eof (up demo_end) = true).
Proof. apply (relay_faithful demo_flags true demo_end). exact demo_reachable. Defined.

Lemma relay_exit_zero_witness :
  (closeOnStdinEOF demo_flags = true /\ eof (up demo_end) = true /\
   delivered (up demo_end) = fed (up demo_end) /\
   (closeWrite demo_flags = true -> if true then closed_write demo_end <> None else warned demo_end = true)) \/
  (eof (down demo_end) = true /\ delivered (down demo_end) = fed (down demo_end) /\
   (closeOnPipeEOF demo_flags = true \/ stdout_closed demo_end = true)).
Proof.
  apply (relay_exit_zero demo_flags true demo_end); [exact demo_reachable|reflexivity].
Defined.

(** The pipe ends at once and stdin stays open. *)
Definition demo_idle : relay :=
  Relay no_data (Dir [] [] true [] []) SCopy MCopy None false false None.

Lemma relay_terminates_witness :
  (eof (up demo_idle) = true -> sn (step demo_flags true) demo_idle /\
     (exited demo_idle = None -> exists r', step demo_flags true demo_idle r')) /\
  (exited demo_idle = None ->
     exists r', rtc (step demo_flags true) demo_idle r' /\ exited r' = Some 0 /\ up r' = up demo_idle).
Proof.
  apply (relay_terminates demo_flags true demo_idle); [|reflexivity].
  apply rtc_once, pipe_produces, finish.
Defined.
