(* ===== verification/MainProg.v ===== *)
(** main.go: choosing the mode and the agent, starting the applications, the
    event loop of the tray icon, and shutting down. *)
From S2P Require Import Prelude Effects Desktop Signers CapiAgent Agents App Clipboard Wsl2 Menus.
Local Open Scope Z_scope.

Definition agentTitle : string := "KeyBridge v1.0.8".

(** ** installService *)

Inductive InstE : Type -> Type :=
| IDesktop X (e : DesktopE X) : InstE X
| EnterPrivilege : InstE (option error)
| LeavePrivilege : InstE unit
    (** switching the privilege of the thread on and off, which only
        [winio.RunWithPrivilege] does *)
| IOpenKey (path : string) : InstE (Z * option error)
| ICloseKey (k : Z) : InstE unit
| ICreateKey (parent : Z) (path : string) : InstE (Z * option error)
| ISetString (k : Z) (name value : string) : InstE (option error).

Section install.
Context (err_Error : error -> string) (service_String : string).
(** winio.RunWithPrivilege, for the restore privilege. *)
Context (RunWithPrivilege : prog InstE (option error) -> prog InstE (option error)).

(** The function that is run. *)
Definition create_service : prog InstE (option error) :=
  let* (gcs, err) := call (IOpenKey HyperVServiceRegPath) in
  match err with Some e => Ret (Some e) | None =>
  defer (call (ICloseKey gcs)) (
    let* (agentSrv, err) := call (ICreateKey gcs service_String) in
    match err with Some e => Ret (Some e) | None =>
    err <- call (ISetString agentSrv "ElementName" "KeyBridge") ;;
    match err with Some e => Ret (Some e) | None => Ret None end
    end)
  end.

Definition installService : prog InstE unit :=
  admin <- translate IDesktop IsAdmin ;;
  if negb admin then
    err <- translate IDesktop RunMeElevated ;;
    match err with
    | Some e => translate IDesktop (MessageBox "Install Service Error:" (err_Error e) MB_ICONERROR) ;; Ret tt
    | None => Ret tt
    end
  else
    err <- RunWithPrivilege create_service ;;
    match err with
    | Some e => translate IDesktop (MessageBox "Install Service Error:" (err_Error e) MB_ICONERROR) ;; Ret tt
    | None => translate IDesktop (MessageBox "Install Service Success:"
                "Please reboot your computer to take effect!" MB_ICONINFORMATION) ;; Ret tt
    end.
End install.

(** ** main *)

(** The agents main can choose: Agents.HV.HVAgent, Agents.KeyRing.KeyRingAgent,
    and Agents.Wrapped.WrappedAgent over a keyring and a CapiAgent. *)
Inductive agent_choice : Type := AgHV | AgKeyRing | AgWrapped.

(** -i, -disable-capi, -disable-pin-cache *)
Record options : Type := Options {
  installHVService : bool;
  disableCapi : bool;
  disablePINCache : bool;
}.

(** What the event loop receives. *)
Inductive event : Type := Clicked (id : Z) | Balloon | Interrupt.

Inductive MainE : Type -> Type :=
| MArgs : MainE (list string)
| MRelay (args : list string) : MainE unit
    (** [runRelay], which is in Relay.v *)
| FlagParse : MainE options
    (** [flag.Parse], when it does not exit *)
| MUi X (e : UiE X) : MainE X
| MHv X (e : HvE X) : MainE X
| MInst X (e : InstE X) : MainE X
| MGetenv (name : string) : MainE string
| UserHomeDir : MainE (string * option error)
| OpenLog (path : string) : MainE (Z * option error)
| SetStdHandle (which f : Z) : MainE (option error)
| SetStdout (f : Z) : MainE unit
| SetStderr (f : Z) : MainE unit
| LoadIcon (id : Z) : MainE (Z * option error)
| NewNotifier (title : string) (icon : Z) : MainE (Z * option error)
| RegisterKind (n : Z) (event : string) (icon : Z) (opts : list (string * bool)) : MainE unit
| MSetDisablePINCache (b : bool) : MainE unit
| NewAgent (choice : agent_choice) : MainE unit
| CagClose : MainE unit
    (** the deferred [cag.Close()] *)
| SetContext (choice : agent_choice) (hv : bool) : MainE unit
| MWgAdd : MainE unit
| GoApp (i : nat) : MainE unit
| MWgDone : MainE unit
| NotifyInterrupt : MainE unit
| MenuSep : MainE unit
| MenuItem (name : string) (id : Z) : MainE unit
| TrayAdd (n : Z) : MainE (option error)
| SelectMain : MainE event
| TrayClose (n : Z) : MainE unit
| Cancel : MainE unit
| GoWait : MainE unit
    (** [go func() { wg.Wait(); done <- struct{}{} }()] *)
| SelectDone (timeout : Z) : MainE unit.
    (** whichever comes first, the time or [done] *)

Section main.
Context (filepath_Join : string -> string -> string).
Context (utf16 : string -> list Z) (err_Error : error -> string) (key_String : agent_Key -> string).
Context (service_String : string).
Context (RunWithPrivilege : prog InstE (option error) -> prog InstE (option error)).

Definition STD_OUTPUT_HANDLE : Z := -11.
Definition STD_ERROR_HANDLE : Z := -12.
Definition IconInfo : Z := 1.

Definition on_ui {A} (m : prog UiE A) : prog MainE A := translate MUi m.
Definition message (title text : string) (style : Z) : prog MainE unit :=
  on_ui (translate UDesktop (MessageBox title text style)) ;; Ret tt.

Definition initDebugLog : prog MainE unit :=
  v <- call (MGetenv "KB_DEBUG") ;;
  if negb (String.eqb v "1") then Ret tt else
  let* (home, err) := call UserHomeDir in
  match err with Some _ => Ret tt | None =>
  let* (f, err) := call (OpenLog (filepath_Join home "KB_DEBUG.log")) in
  match err with Some _ => Ret tt | None =>
  err <- call (SetStdHandle STD_OUTPUT_HANDLE f) ;;
  match err with Some _ => Ret tt | None =>
  err <- call (SetStdHandle STD_ERROR_HANDLE f) ;;
  match err with Some _ => Ret tt | None =>
  call (SetStdout f) ;;
  call (SetStderr f)
  end end end end.

Definition initSystray (hv : bool) : prog MainE (Z * option error) :=
  let* (icon, err) := call (LoadIcon 1) in
  match err with Some e => Ret (0, Some e) | None =>
  let title := if hv then agentTitle +:+ " (Hyper-V)" else agentTitle in
  let* (n, err) := call (NewNotifier title icon) in
  match err with Some e => Ret (0, Some e) | None =>
  call (RegisterKind n "info" IconInfo [("windows:sound"%string, false)]) ;;
  on_ui (translate UDesktop (RegisterNotifier (Some n))) ;;
  Ret (n, None)
  end end.

(** Whether we run in a guest: the host answers. *)
Definition detect_guest : prog MainE bool :=
  let* (hvConn, err) := translate MHv (HV.ConnectHyperV service_String) in
  match err with
  | None => call (MHv _ (ConnClose hvConn)) ;; Ret true
  | Some _ => Ret false
  end.

Definition choose_agent (hvClient disable : bool) : agent_choice :=
  if hvClient then AgHV else if disable then AgKeyRing else AgWrapped.

(** The applications register their entries and start. *)
Definition start_app (x : nat * (Menu -> prog UiE Menu)) (m : Menu)
    : prog MainE (ctl Menu unit) :=
  m <- on_ui (x.2 m) ;;
  call MWgAdd ;;
  call (GoApp x.1) ;;
  Ret (Next m).

Definition start_apps (m : Menu) : prog MainE Menu :=
  r <- for_range (imap pair (application_menus utf16 err_Error key_String service_String)) m start_app ;;
  match r with inl m => Ret m | inr _ => Ret m end.

Definition event_step (m : Menu) (_ : unit) : prog MainE (ctl unit unit) :=
  ev <- call SelectMain ;;
  match ev with
  | Clicked id =>
      if id =? MENU_QUIT then Ret (Break tt)
      else on_ui (Handle m id) ;; Ret (Next tt)
  | Balloon => Ret (Next tt)
  | Interrupt => Ret (Break tt)
  end.

(** From the label [cleanup] on. *)
Definition cleanup (sysTray : Z) : prog MainE unit :=
  call (TrayClose sysTray) ;;
  call Cancel ;;
  call GoWait ;;
  call (SelectDone (5 * 10 ^ 9)).

(** With the agent chosen. *)
Definition serve (sysTray : Z) (choice : agent_choice) (hvClient : bool) : prog MainE unit :=
  call (SetContext choice hvClient) ;;
  menu <- start_apps NewMenu ;;
  call NotifyInterrupt ;;
  call MenuSep ;;
  call (MenuItem "Quit" MENU_QUIT) ;;
  err <- call (TrayAdd sysTray) ;;
  match err with
  | Some e =>
      message "Error:" (err_Error e) MB_ICONERROR ;;
      cleanup sysTray
  | None =>
      loop (event_step menu) tt ;;
      cleanup sysTray
  end.

Definition agent_main (opts : options) : prog MainE unit :=
  hvClient <- detect_guest ;;
  let* (sysTray, err) := initSystray hvClient in
  match err with
  | Some e => message "Error:" (err_Error e) MB_ICONERROR
  | None =>
      call (MSetDisablePINCache (disablePINCache opts)) ;;
      let choice := choose_agent hvClient (disableCapi opts) in
      call (NewAgent choice) ;;
      match choice with
      | AgWrapped => defer (call CagClose) (serve sysTray choice hvClient)
      | _ => serve sysTray choice hvClient
      end
  end.

Definition main : prog MainE unit :=
  args <- call MArgs ;;
  match args with
  | _ :: "relay"%string :: rest => call (MRelay rest)
  | _ =>
      opts <- call FlagParse ;;
      on_ui (translate UDesktop SetProcessSystemDpiAware) ;;
      initDebugLog ;;
      if installHVService opts then translate MInst (installService err_Error service_String RunWithPrivilege)
      else agent_main opts
  end.
End main.

(** ** What the parts promise *)

(** The open registry keys and whether the privilege is on. *)
Record inst_state : Type := InstState {
  ikeys : list Z;
  privileged : bool;
}.

Definition inst_env : env InstE inst_state :=
  {| may X e s :=
       match e with
       | IOpenKey _ => privileged s = true
       | ICreateKey p _ => privileged s = true /\ p ∈ ikeys s
       | ISetString k _ _ | ICloseKey k => k ∈ ikeys s
       | _ => True
       end;
     does X e s :=
       match e in InstE X return X -> inst_state -> Prop with
       | EnterPrivilege => fun err t =>
           t = (match err with None => InstState (ikeys s) true | Some _ => s end)
       | LeavePrivilege => fun _ t => t = InstState (ikeys s) false
       | IOpenKey _ | ICreateKey _ _ => fun '(k, err) t =>
           match err with
           | None => (k ∉ ikeys s) /\ t = InstState (k :: ikeys s) (privileged s)
           | Some _ => t = s
           end
       | ICloseKey k => fun _ t => t = InstState (filter (fun j => j <> k) (ikeys s)) (privileged s)
       | _ => fun _ t => t = s
       end |}.

Lemma inst_desktop_ok {A} (m : prog DesktopE A) s :
  wp free m tt (returns (fun _ _ => True)) ->
  wp inst_env (translate IDesktop m) s (returns (fun _ t => t = s)).
Proof.
  intros Hm. eapply wp_mono.
  - apply (wp_translate _ free inst_env IDesktop (fun _ => tt) (fun t => t = s)); [|done|exact Hm].
    intros X e t -> _. split; [done|]. intros x t Ht. split; [done|exact Ht].
  - intros [a|msg] t; prog; by intros [].
Qed.

(** The value is set while the privilege is on, and the parent key is closed;
    the key that was created is not. *)
Lemma create_service_ok service s :
  privileged s = true ->
  wp inst_env (create_service service) s (returns (fun err t =>
    privileged t = true /\
    (ikeys t = ikeys s \/ exists k, ikeys t = k :: ikeys s))).
Proof.
  intros Hp. unfold create_service. prog. split; [done|].
  intros [k [e|]] t Ht; hnf in Ht; [subst t; prog; auto|]. destruct Ht as [Hk ->]. prog.
  eapply (wp_defer _ _ _ _ _ (returns (fun err t => privileged t = true /\ (k ∈ ikeys t) /\
    exists l, ikeys t = l ++ k :: ikeys s /\ (k ∉ l) /\ (length l <= 1)%nat))).
  - prog. split; [split; [done|apply elem_here]|].
    intros [k' [e|]] t Ht; hnf in Ht.
    + subst t. prog. split; [done|]. split; [apply elem_here|]. exists [].
      split; [done|]. split; [apply not_elem_of_nil|cbn; lia].
    + destruct Ht as [Hk' ->]. prog. split; [apply elem_here|]. cbn in Hk'.
      assert (Hne : k <> k') by (intros ->; apply Hk', elem_here).
      assert (Hin : k ∈ [k'; k] ++ ikeys s) by (cbn; right; apply elem_here).
      intros [e|] t Ht; hnf in Ht; subst t; prog; (split; [done|]); (split; [exact Hin|]);
        exists [k']; (split; [done|]); (split; [by rewrite list_elem_of_singleton|cbn; lia]).
  - intros [err|msg] t; prog; [|done]. intros (Hpt & Hkt & l & Hl & Hkl & Hlen).
    split; [done|]. answer x. split; [done|]. cbn. rewrite Hl, filter_app.
    rewrite (filter_fresh (fun x => x) k k (ikeys s)) by (rewrite ?list_fmap_id; done).
    destruct l as [|k' [|]]; [by left| |cbn in Hlen; lia]. right. exists k'.
    apply not_elem_of_cons in Hkl as [Hne _]. by rewrite filter_cons, decide_True by done.
Qed.

(** What the library documents: the function runs with the privilege, if it
    runs, and the privilege is off afterwards. *)
Definition runs_privileged (R : prog InstE (option error) -> prog InstE (option error)) : Prop :=
  forall fn s, privileged s = false ->
    wp inst_env fn (InstState (ikeys s) true) (returns (fun _ t => privileged t = true)) ->
    wp inst_env (R fn) s (returns (fun _ t => privileged t = false)).

Lemma installService_ok err_Error service R s :
  runs_privileged R -> privileged s = false ->
  wp inst_env (installService err_Error service R) s (returns (fun _ t => privileged t = false)).
Proof.
  intros HR Hp. unfold installService.
  assert (Hmsg : forall title text style u, privileged u = false ->
    wp inst_env (translate IDesktop (MessageBox title text style) ;; Ret tt) u
      (returns (fun _ t => privileged t = false))).
  { intros title text style u Hu. eapply wp_seq; [apply inst_desktop_ok|].
    - unfold MessageBox. destruct (UTF16Ptr text), (UTF16Ptr title); by prog.
    - by intros r ? ->. }
  eapply wp_seq; [apply inst_desktop_ok|].
  { unfold IsAdmin. prog. split; [done|]. intros [sid [e|]] ? _; prog; [done|].
    eapply (wp_defer _ _ _ _ _ (returns (fun _ _ => True))); [|by intros [r|msg] u0 H; prog].
    prog. split; [done|]. intros [m [e|]] ? _; by prog. }
  intros [] ? ->; cbn [negb].
  - eapply (wp_seq _ _ _ _ _ (fun _ t => privileged t = false));
      [|intros [e|] t Ht; by apply Hmsg].
    apply HR; [done|]. eapply wp_mono; [by apply create_service_ok|].
    intros [err|msg] t; prog; [|done]. by intros [? _].
  - eapply wp_seq; [apply inst_desktop_ok|].
    { unfold RunMeElevated. prog. split; [done|]. intros [exe e] ? _. prog. split; [done|].
      intros [cwd e'] ? _. prog. split; [done|]. intros argv ? _. prog. by split. }
    intros [e|] ? ->; [by apply Hmsg|by prog].
Qed.

(** ** The environment of main

    The command line, the relays that were run, the dialogs, the connections to
    a host, the installer, the tray icons there are, the applications started,
    whether the context was cancelled, and whether there is a CAPI agent that
    was not closed. *)
Record main_state : Type := MainState {
  margs : list string;
  relays : list (list string);
  mui : ui_state;
  conns : list Z;
  inst : inst_state;
  trays : list Z;
  started : list nat;
  cancelled : bool;
  cag : bool;
}.

Definition with_ui (u : ui_state) (s : main_state) : main_state :=
  MainState (margs s) (relays s) u (conns s) (inst s) (trays s) (started s) (cancelled s) (cag s).
Definition with_conns (l : list Z) (s : main_state) : main_state :=
  MainState (margs s) (relays s) (mui s) l (inst s) (trays s) (started s) (cancelled s) (cag s).
Definition with_inst (i : inst_state) (s : main_state) : main_state :=
  MainState (margs s) (relays s) (mui s) (conns s) i (trays s) (started s) (cancelled s) (cag s).
Definition with_trays (l : list Z) (s : main_state) : main_state :=
  MainState (margs s) (relays s) (mui s) (conns s) (inst s) l (started s) (cancelled s) (cag s).
Definition with_started (l : list nat) (s : main_state) : main_state :=
  MainState (margs s) (relays s) (mui s) (conns s) (inst s) (trays s) l (cancelled s) (cag s).
Definition with_cancelled (b : bool) (s : main_state) : main_state :=
  MainState (margs s) (relays s) (mui s) (conns s) (inst s) (trays s) (started s) b (cag s).
Definition with_cag (b : bool) (s : main_state) : main_state :=
  MainState (margs s) (relays s) (mui s) (conns s) (inst s) (trays s) (started s) (cancelled s) b.

(** While the event loop waits, [PubKeyView.Run] may store the agent. *)
Definition main_env : env MainE main_state :=
  {| may X e s :=
       match e with
       | MUi _ e => may ui_env e (mui s)
       | MHv _ e => may hv_env e (conns s)
       | MInst _ e => may inst_env e (inst s)
       | GoApp i => cancelled s = false /\ i ∉ started s
       | TrayAdd n | TrayClose n => n ∈ trays s
       | SelectMain => trays s <> [] /\ cancelled s = false
       | NewAgent _ => cag s = false
       | CagClose => cag s = true
       | SelectDone _ => trays s = [] /\ cancelled s = true
       | _ => True
       end;
     does X e s :=
       match e in MainE X return X -> main_state -> Prop with
       | MArgs => fun l t => l = margs s /\ t = s
       | MRelay l => fun _ t => t = MainState (margs s) (l :: relays s) (mui s) (conns s) (inst s)
                                     (trays s) (started s) (cancelled s) (cag s)
       | MUi _ e => fun x t => exists u, does ui_env e (mui s) x u /\ t = with_ui u s
       | MHv _ e => fun x t => exists l, does hv_env e (conns s) x l /\ t = with_conns l s
       | MInst _ e => fun x t => exists i, does inst_env e (inst s) x i /\ t = with_inst i s
       | NewNotifier _ _ => fun '(n, err) t =>
           match err with
           | None => (n ∉ trays s) /\ t = with_trays (n :: trays s) s
           | Some _ => t = s
           end
       | TrayClose n => fun _ t => t = with_trays (filter (fun k => k <> n) (trays s)) s
       | NewAgent c => fun _ t =>
           t = with_cag (match c with AgWrapped => true | _ => false end) s
       | CagClose => fun _ t => t = with_cag false s
       | GoApp i => fun _ t => t = with_started (started s ++ [i]) s
       | Cancel => fun _ t => t = with_cancelled true s
       | SelectMain => fun _ t => exists b, t = with_ui
           (UiState (agreed (mui s)) (clip (mui s)) (uprobe (mui s)) (agset (mui s) || b) (texts (mui s))) s
       | _ => fun _ t => t = s
       end |}.

(** ** The theorem *)

Section lifecycle.
Context (filepath_Join : string -> string -> string).
Context (utf16 : string -> list Z) (err_Error : error -> string) (key_String : agent_Key -> string).
Context (service_String : string).
Context (RunWithPrivilege : prog InstE (option error) -> prog InstE (option error)).
Local Abbreviation V := main_env.
Local Abbreviation menus := (application_menus utf16 err_Error key_String service_String).

Lemma ui_ok d {A} (m : prog UiE A) s Q :
  wpx ui_env d m (mui s) Q ->
  wpx V d (on_ui m) s (fun o t => Q o (mui t) /\ t = with_ui (mui t) s).
Proof.
  apply (wp_translate d ui_env V MUi mui (fun t => t = with_ui (mui t) s)); [|by destruct s].
  intros X e t Hk Hm. split; [done|]. intros x u (v & Hv & ->). split; [done|]. by rewrite Hk.
Qed.

(** A part of the user interface that changes nothing. *)
Lemma ui_same {A} (m : prog UiE A) s (P : A -> Prop) :
  wp ui_env m (mui s) (returns (fun a u => u = mui s /\ P a)) ->
  wp V (on_ui m) s (returns (fun a t => t = s /\ P a)).
Proof.
  intros H. eapply wp_mono; [by apply ui_ok|]. intros [a|msg] t; prog; [|by intros []].
  intros [[Hu HP] Ht]. rewrite Ht, Hu. by destruct s.
Qed.

Lemma message_ok title text style s :
  style <> MB_OKCANCEL ->
  wp V (message title text style) s (returns (fun _ t => t = s)).
Proof.
  intros Hst. unfold message. eapply wp_seq.
  - apply (ui_same _ s (fun _ => True)). eapply wp_mono; [apply msgbox_ok|].
    intros [r|msg] t; prog; [|done]. intros [[-> _]|[? _]]; done.
  - by intros r t [-> _].
Qed.

Lemma dpi_ok s :
  wp ui_env (translate UDesktop SetProcessSystemDpiAware) s (returns (fun _ t => t = s)).
Proof.
  unfold SetProcessSystemDpiAware. prog. split; [done|].
  assert (Hrest : forall r0 : Z, wp ui_env (translate UDesktop (
    if r0 =? 1 then Ret None else
    found <- call (FindProc "Shcore.dll" "SetProcessDpiAwareness") ;;
    match found with
    | None =>
        let* (r0, err) := call (CallProc "SetProcessDpiAwareness" [1]) in
        if r0 =? 1 then Ret None else Ret (Some err)
    | Some _ =>
    found <- call (FindProc "user32" "SetProcessDPIAware") ;;
    match found with
    | None =>
        let* (r0, err) := call (CallProc "SetProcessDPIAware" []) in
        if r0 =? 1 then Ret None else Ret (Some err)
    | Some _ => Ret None
    end
    end)) s (returns (fun _ t => t = s))).
  { intros r0. destruct (r0 =? 1); prog; [done|]. split; [done|].
    intros [e|] t Ht; hnf in Ht; subst t; prog; (split; [done|]).
    - intros [e'|] t Ht; hnf in Ht; subst t; prog; [done|]. split; [done|].
      intros [r e2] t Ht. hnf in Ht. subst t. by destruct (r =? 1).
    - intros [r e2] t Ht. hnf in Ht. subst t. by destruct (r =? 1). }
  intros [e|] t Ht; hnf in Ht; subst t; prog; [apply (Hrest 0)|].
  split; [done|]. intros [r e] t Ht. hnf in Ht. subst t. apply (Hrest r).
Qed.

Lemma initDebugLog_ok s :
  wp V (initDebugLog filepath_Join) s (returns (fun _ t => t = s)).
Proof.
  unfold initDebugLog. prog. split; [done|]. answer v. destruct (negb _); prog; [done|].
  split; [done|]. intros [home [e|]] t Ht; hnf in Ht; subst t; prog; [done|].
  split; [done|]. intros [f [e|]] t Ht; hnf in Ht; subst t; prog; [done|].
  split; [done|]. intros [e|] t Ht; hnf in Ht; subst t; prog; [done|].
  split; [done|]. intros [e|] t Ht; hnf in Ht; subst t; prog; [done|].
  split; [done|]. answer x. prog. split; [done|]. by answer y.
Qed.

Lemma initSystray_ok hv s :
  wp V (initSystray hv) s (returns (fun r t =>
    match r with
    | (n, None) => (n ∉ trays s) /\ t = with_trays (n :: trays s) s
    | (_, Some _) => t = s
    end)).
Proof.
  unfold initSystray. prog. split; [done|]. intros [icon [e|]] t Ht; hnf in Ht; subst t; prog; [done|].
  split; [done|]. intros [n [e|]] t Ht; hnf in Ht; [subst t; by prog|]. destruct Ht as [Hn ->]. prog.
  split; [done|]. answer x. eapply wp_seq.
  - apply (ui_same _ _ (fun _ => True)). unfold RegisterNotifier. prog. split; [done|].
    by answer y.
  - intros y t [-> _]. by prog.
Qed.

Lemma detect_guest_ok s :
  wp V (detect_guest service_String) s (returns (fun _ t => t = s)).
Proof.
  unfold detect_guest.
  eapply (wp_seq _ _ _ _ _ (fun r t =>
    match r with
    | (c, None) => (c ∉ conns s) /\ t = with_conns (c :: conns s) s
    | (_, Some _) => t = s
    end)).
  - eapply wp_mono.
    + apply (wp_translate _ hv_env V MHv conns (fun t => t = with_conns (conns t) s));
        [|by destruct s|apply ConnectHyperV_ok].
      intros X e t Hk Hm. split; [done|]. intros x u (l & Hl & ->). split; [done|]. by rewrite Hk.
    + intros [[c [e|]]|msg] t; prog; [| |by intros []].
      * intros [Hc Hk]. rewrite Hk, Hc. by destruct s.
      * intros [[Hc Hs] Hk]. by rewrite Hk, Hs.
  - intros [c [e|]] t Ht; [by subst|]. destruct Ht as [Hc ->]. prog. split; [apply elem_here|].
    intros x t (l & Hl & ->). hnf in Hl. subst l. destruct s. unfold with_conns. cbn in *.
    f_equal. apply (filter_fresh (fun x => x)); [done|]. by rewrite list_fmap_id.
Qed.

(** *** Starting the applications *)

(** Only the applications' own handlers are in the menu. *)
Definition own_handlers (m : Menu) : Prop :=
  forall id h, handlers m !! id = Some h ->
    (id, h) ∈ entries utf16 err_Error key_String service_String.

Lemma own_Register m id name h :
  own_handlers m -> (id, h) ∈ entries utf16 err_Error key_String service_String ->
  own_handlers (Register m id name h).
Proof.
  intros Hm Hin k g. cbn. by intros [[<- <-]|[_ Hk]]%lookup_insert_Some; [|apply Hm].
Qed.

Lemma application_menu_ok f m s :
  f ∈ menus -> own_handlers m ->
  wp ui_env (f m) s (returns (fun m' t => t = s /\ own_handlers m')).
Proof.
  intros Hf Hm. unfold application_menus in Hf. set_unfold.
  assert (Hin : forall x, x ∈ entries utf16 err_Error key_String service_String <->
    In x (entries utf16 err_Error key_String service_String)) by (intros; apply list_elem_of_In).
  destruct_or! Hf; try done; subst f; [prog..| |prog|prog|prog|prog].
  3: { unfold VSock_Menu. eapply wp_seq; [apply uprobe_ok, CheckHvSocket_ok|].
    intros [] ? ->; cbn [negb]; prog; [|done]. split; [done|].
    apply own_Register; [apply own_Register; [done|]|]; apply Hin; cbn; auto 10. }
  all: split; [done|]; try done.
  4: apply own_Register.
  all: try (apply own_Register; [done|]); apply Hin; cbn; auto 10.
Qed.

Lemma start_apps_ok m s :
  own_handlers m -> started s = [] -> cancelled s = false ->
  wp V (start_apps utf16 err_Error key_String service_String m) s (returns (fun m' t =>
    own_handlers m' /\ t = with_started (seq 0 7) s)).
Proof.
  intros Hm Hst Hca. unfold start_apps.
  eapply (wp_seq _ _ _ _ _ (fun r t => exists m', r = inl m' /\ own_handlers m' /\
    t = with_started (seq 0 7) s)); [|by intros r t (m' & -> & Hm' & ->)].
  apply (wp_for_range _ _ _ _ _ _ (fun rest m t => own_handlers m /\
    (forall x, x ∈ rest -> x.2 ∈ menus) /\
    exists l, t = with_started l s /\ l ++ rest.*1 = seq 0 7)).
  - split; [done|]. split; [|exists []; by destruct s; cbn in *; subst].
    intros [k f] Hx. apply (elem_of_lookup_imap_1) in Hx as (j & f' & Hf & Hl).
    injection Hf as -> ->. by eapply list_elem_of_lookup_2.
  - intros m' t (Hm' & _ & l & -> & Hl). exists m'. rewrite app_nil_r in Hl. by subst l.
  - intros [k f] rest m' t (Hm' & Hin & l & -> & Hl). unfold start_app.
    apply wp_bind. eapply wp_mono; [apply ui_ok, (application_menu_ok f); [apply (Hin (k, f)), elem_here|done]|].
    intros [m''|msg] t; prog; [|by intros []]. intros [[Hu Hm''] Ht].
    assert (t = with_started l s) as -> by (rewrite Ht, Hu; done). clear Ht Hu.
    split; [done|]. answer x. split.
    { split; [exact Hca|]. cbn. intros Hk. pose proof (NoDup_seq 0 7) as Hnd. rewrite <-Hl in Hnd.
      apply NoDup_app in Hnd as (_ & Hd & _). apply (Hd k Hk). cbn. apply elem_here. }
    answer y. split; [done|]. split; [intros z Hz; apply Hin; by right|].
    exists (l ++ [k]). split; [done|]. by rewrite <-app_assoc.
Qed.

(** *** The event loop *)

(** Only the user interface was used. *)
Definition idle (s t : main_state) : Prop :=
  exists u, t = with_ui u s /\ opened (clip u) = false /\ blocks (clip u) = blocks (clip (mui s)).

Lemma handle_ok m id s :
  own_handlers m -> opened (clip (mui s)) = false ->
  wp V (on_ui (Handle m id)) s (fun o t => idle s t /\
    match o with Returns _ => True | Panics _ => agset (mui t) = false end).
Proof.
  intros Hm Ho. eapply wp_mono.
  { apply ui_ok. instantiate (1 := clicked utf16 (mui s)). unfold Handle.
    destruct (handlers m !! id) as [h|] eqn:Hh; [|by prog; apply clicked_none].
    by apply (entries_ok utf16 err_Error key_String service_String id h), Ho; apply Hm. }
  intros o t [(Hop & Hb & _ & Hs & Hc) ->]. split; [by exists (mui t)|].
  destruct o; [done|]. cbn. destruct Hc as [Hc _]. congruence.
Qed.

Lemma event_loop_ok m s :
  own_handlers m -> opened (clip (mui s)) = false -> trays s <> [] -> cancelled s = false ->
  wlp V (loop (event_step m) tt) s (fun o t => idle s t /\
    match o with Returns _ => True | Panics _ => agset (mui t) = false end).
Proof.
  intros Hm Ho Hn Hca. cbn [loop].
  apply (wlp_loop _ _ _ _ _ (fun _ t => idle s t)).
  { exists (mui s). by destruct s. }
  intros [] t (u & -> & Hop & Hb). unfold event_step. prog. split; [done|].
  intros ev t [b ->]. set (v := UiState _ _ _ _ _). assert (Hv : idle s (with_ui v s)) by by exists v.
  destruct ev as [id| |]; [|by prog..]. destruct (id =? MENU_QUIT); [by prog|].
  apply wp_bind. eapply wp_mono; [apply wp_total, (handle_ok m id (with_ui v s)); done|].
  intros [x|msg] t [(u' & -> & Hop' & Hb') H]; prog.
  - exists u'. split; [done|]. split; [done|]. by rewrite Hb'.
  - split; [|done]. exists u'. split; [done|]. split; [done|]. by rewrite Hb'.
Qed.

(** How [main] may end, apart from the CAPI agent. *)
Definition finished (s : main_state) (o : outcome unit) (t : main_state) : Prop :=
  relays t = relays s /\ conns t = conns s /\ privileged (inst t) = false /\
  opened (clip (mui t)) = false /\ blocks (clip (mui t)) = blocks (clip (mui s)) /\
  match o with
  | Returns _ => trays t = trays s /\
      (started t = [] \/ (started t = seq 0 7 /\ cancelled t = true))
  | Panics _ => agset (mui t) = false
  end.

Lemma cleanup_ok d n s :
  trays s = [n] ->
  wpx V d (cleanup n) s (returns (fun _ t => t = with_cancelled true (with_trays [] s))).
Proof.
  intros Hn. unfold cleanup. prog. cbn. rewrite Hn. split; [apply elem_here|]. answer x. prog.
  cbn. rewrite decide_False by auto. split; [done|]. answer y. prog. split; [done|]. answer z.
  prog. split; [done|]. by answer x'.
Qed.

(** What holds before the applications start. *)
Definition ready (n : Z) (s : main_state) : Prop :=
  trays s = [n] /\ started s = [] /\ cancelled s = false /\ privileged (inst s) = false /\
  opened (clip (mui s)) = false.

Lemma serve_ok n choice hv s :
  ready n s ->
  wlp V (serve utf16 err_Error key_String service_String n choice hv) s (fun o t =>
    cag t = cag s /\ finished (with_trays [] s) o t).
Proof.
  intros (Ht & Hs & Hc & Hp & Ho). unfold serve. apply wp_bind. cbn [wpx call]. split; [done|]. answer x.
  eapply wp_seq; [apply wp_total, start_apps_ok; [intros id h; cbn; by intros []%lookup_empty_Some|done|done]|].
  intros m t [Hm ->]. do 3 (apply wp_bind; cbn [wpx call]; split; [done|]; answer y; clear y).
  apply wp_bind. cbn [wpx call]. split; [cbn; rewrite Ht; apply elem_here|].
  set (s1 := with_started (seq 0 7) s). intros [e|] t Hte; hnf in Hte; subst t.
  - eapply wp_seq; [by apply wp_total, message_ok|]. intros x1 ? ->.
    eapply wp_mono; [by apply cleanup_ok|]. intros [r|msg] t; prog; [|done]. intros ->.
    split; [done|]. unfold finished. cbn. auto 10.
  - apply wp_bind. eapply wp_mono; [apply (event_loop_ok m s1); [done|done|by cbn; rewrite Ht|done]|].
    intros [r|msg] t [(u & -> & Hop & Hb) H].
    + eapply wp_mono; [by apply cleanup_ok|]. intros [r'|msg] t; prog; [|done]. intros ->.
      split; [done|]. unfold finished. cbn. auto 10.
    + split; [done|]. unfold finished. cbn. auto 10.
Qed.

Lemma agent_main_ok opts s :
  trays s = [] -> started s = [] -> cancelled s = false -> privileged (inst s) = false ->
  opened (clip (mui s)) = false -> cag s = false ->
  wlp V (agent_main utf16 err_Error key_String service_String opts) s (fun o t =>
    cag t = false /\ finished s o t).
Proof.
  intros Ht Hs Hc Hp Ho Hg. unfold agent_main.
  eapply wp_seq; [apply wp_total, detect_guest_ok|]. intros hv ? ->.
  eapply wp_seq; [apply wp_total, initSystray_ok|]. intros [n [e|]] t Hn.
  { subst t. eapply wp_mono; [by apply wp_total, message_ok|].
    intros [r|msg] t; prog; [|done]. intros ->. split; [done|]. unfold finished. auto 10. }
  destruct Hn as [Hn ->]. rewrite Ht. prog. split; [done|]. answer x. prog. split; [done|]. answer y.
  set (c := choose_agent _ _). set (s1 := with_trays [n] s).
  assert (Hserve : forall b, wlp V (serve utf16 err_Error key_String service_String n c hv)
    (with_cag b s1) (fun o t => cag t = b /\ finished s o t)).
  { intros b. eapply wp_mono; [by apply serve_ok|]. intros o t [Hcg Hf]. split; [done|].
    unfold finished in *. cbn in Hf. by rewrite Ht. }
  destruct c; [apply (Hserve false)..|].
  eapply wp_defer; [apply (Hserve true)|]. intros o t [Hcg Hf]. prog. split; [done|]. answer z.
  split; [done|]. exact Hf.
Qed.

(** (C22) The life of the program.  As a relay it does nothing else.  Otherwise,
    when [main] returns, the tray icon is gone, and either no application was
    started or all seven were, each once, and the context was cancelled, after
    the icon was closed and before it waited for them; a CAPI agent that was
    created is closed on every path, a panic included; the connection that
    probes for a host is closed, the clipboard is closed, no memory is lost, and
    the privilege for the installation is off.  It only panics when the public
    keys are clicked before the agent was stored. *)
Theorem main_lifecycle s :
  runs_privileged RunWithPrivilege ->
  trays s = [] -> started s = [] -> cancelled s = false -> privileged (inst s) = false ->
  opened (clip (mui s)) = false -> cag s = false ->
  wlp V (main filepath_Join utf16 err_Error key_String service_String RunWithPrivilege) s (fun o t =>
    match margs s with
    | _ :: "relay"%string :: rest =>
        o = Returns tt /\
        t = MainState (margs s) (rest :: relays s) (mui s) (conns s) (inst s) (trays s)
              (started s) (cancelled s) (cag s)
    | _ => cag t = false /\ finished s o t
    end).
Proof.
  intros HR Ht Hs Hc Hp Ho Hg. unfold main. apply wp_bind. cbn [wpx call]. split; [done|].
  intros args t [-> ->].
  assert (Hagent : wlp V (opts <- call FlagParse ;;
      on_ui (translate UDesktop SetProcessSystemDpiAware) ;;
      initDebugLog filepath_Join ;;
      if installHVService opts then translate MInst (installService err_Error service_String RunWithPrivilege)
      else agent_main utf16 err_Error key_String service_String opts) s
      (fun o t => cag t = false /\ finished s o t)).
  { apply wp_bind. cbn [wpx call]. split; [done|]. answer opts.
    eapply wp_seq; [apply wp_total, (ui_same _ _ (fun _ => True))|].
    { eapply wp_mono; [apply dpi_ok|]. by intros [r|msg] t; prog. }
    intros x t [-> _]. eapply wp_seq; [apply wp_total, initDebugLog_ok|]. intros y ? ->.
    destruct (installHVService opts); [|by apply agent_main_ok].
    eapply wp_mono; [apply wp_total, (wp_translate Total inst_env V MInst inst
      (fun t => t = with_inst (inst t) s)); [|by destruct s|by apply installService_ok]|].
    - intros X e t Hk Hm. split; [done|]. intros z u (v & Hv & ->). split; [done|]. by rewrite Hk.
    - intros [r|msg] t; prog; [|by intros []]. intros [Hpt ->]. unfold finished. cbn in *. auto 10. }
  destruct (margs s) as [|a [|b rest]] eqn:Em; [exact Hagent..|].
  repeat (match goal with |- context [match ?x with _ => _ end] => is_var x; destruct x end;
    try exact Hagent).
  prog. split; [done|]. answer x. destruct x. by rewrite Em.
Qed.
End lifecycle.

(** ** Instances *)

Definition demo_main : main_state :=
  MainState ["keybridge.exe"%string] [] (UiState [] (ClipState 0 false ∅ ∅ None) (ProbeState [] [] []) false [])
    [] (InstState [] false) [] [] false false.

Definition demo_utf16 (s : string) : list Z := map byte_val (bytes_of s).

Definition demo_RunWithPrivilege (fn : prog InstE (option error)) : prog InstE (option error) :=
  err <- call EnterPrivilege ;;
  match err with
  | Some e => Ret (Some e)
  | None => defer (call LeavePrivilege) fn
  end.

Lemma demo_runs_privileged : runs_privileged demo_RunWithPrivilege.
Proof.
  intros fn s Hp Hfn. unfold demo_RunWithPrivilege. apply wp_bind. cbn [wpx call].
  split; [done|]. intros [e|] t Ht; hnf in Ht; subst t; [by prog|].
  eapply wp_defer; [exact Hfn|]. intros [err|msg] t; prog; [|done]. intros _.
  split; [done|]. by answer x.
Qed.

Lemma main_lifecycle_witness :
  wlp main_env (main (fun a b => a +:+ "\" +:+ b) demo_utf16 (fun _ => "error"%string) key_Format "guid"
    demo_RunWithPrivilege) demo_main (fun o t => cag t = false /\ finished demo_main o t).
Proof.
  apply (main_lifecycle (fun a b => a +:+ "\" +:+ b) demo_utf16 (fun _ => "error"%string)
    key_Format "guid" demo_RunWithPrivilege demo_main);
    [exact demo_runs_privileged|reflexivity..].
Defined.
