(* ===== verification/Applications.v ===== *)
(** The applications of main.go as values of one interface, and the goroutine
    that main starts for each: what every [Run] promises to main, whatever its
    transport. *)
From S2P Require Import Prelude Effects Desktop Signers CapiAgent App Cygwin XShell Wsl Pageant.
From S2P Require Import Pipe Wsl2 ProcessNotify VSock Menus MainProg.
Local Open Scope Z_scope.

(** ** app/pubkey.go: [Run] *)

Inductive PubKeyE : Type -> Type :=
| CtxAgent : PubKeyE (option Z)
    (** [ctx.Value(CtxKeyAgent).(agent.Agent)] *)
| SetAg (ag : Z) : PubKeyE unit.
    (** [s.ag = ag] *)

Definition PubKeyView_Run : prog PubKeyE (option error) :=
  ag <- call CtxAgent ;;
  match ag with
  | None => Ret (Some (ErrorString "PubKeyView: no agent in context"))
  | Some ag => call (SetAg ag) ;; Ret None
  end.

(** ** app/app.go: the interface Application *)
Record Application : Type := {
  app_E : Type -> Type;   (** the calls of its [Run] *)
  AppId : Z;
  app_Run : prog app_E (option error);
  app_Menu : Menu -> prog UiE Menu;
}.

Section applications.
Context (filepath_Join : string -> string -> string) (VolumeName Sprintf : string -> string).
Context (UnmarshalInit : list byte -> (Z * Z * list byte) + error) (MarshalRep : Z -> list byte).
Context (utf16 : string -> list Z) (err_Error : error -> string) (key_String : agent_Key -> string).
Context (service_String : string).

Definition PubKeyView : Application :=
  {| AppId := APP_PUBKEY; app_Run := PubKeyView_Run;
     app_Menu := PubKeyView_Menu utf16 err_Error key_String |}.
Definition WSL : Application :=
  {| AppId := APP_WSL; app_Run := Wsl.Run filepath_Join VolumeName Sprintf;
     app_Menu := WSL_Menu utf16 |}.
Definition VSock : Application :=
  {| AppId := APP_HYPERV; app_Run := VSock.Run service_String;
     app_Menu := VSock_Menu utf16 err_Error service_String |}.
Definition Cygwin : Application :=
  {| AppId := APP_CYGWIN; app_Run := Cygwin.Run filepath_Join; app_Menu := Cygwin_Menu utf16 |}.
Definition NamedPipe : Application :=
  {| AppId := APP_WINSSH; app_Run := Pipe.Run; app_Menu := NamedPipe_Menu utf16 |}.
Definition Pageant : Application :=
  {| AppId := APP_PAGEANT; app_Run := Pageant.Run; app_Menu := Pageant_Menu |}.
Definition XShell : Application :=
  {| AppId := APP_XSHELL; app_Run := XShell.Run UnmarshalInit MarshalRep;
     app_Menu := XShell_Menu |}.

(** main.go: [applications] *)
Definition applications : list Application :=
  [PubKeyView; WSL; VSock; Cygwin; NamedPipe; Pageant; XShell].

(** The goroutine of main: [Run], a dialog for its error, [wg.Done()]. *)
Definition app_goroutine (a : Application) : prog (sumE (app_E a) MainE) unit :=
  err <- translate left_call (app_Run a) ;;
  match err with
  | Some e =>
      translate right_call
        (message (AppId_String (AppId a) +:+ " Error:") (err_Error e) MB_ICONWARNING) ;;
      call (InR MWgDone)
  | None => call (InR MWgDone)
  end.

(** ** What an application promises

    Started with no connection of its own, [Run] leaves none when it returns:
    every connection it accepted was closed or handed to a handler.  If it
    waits for its handlers, they have all finished when it returns without an
    error.  The environment [V] says which connections may be handed over, and
    [view] finds the connections in its state. *)
Class Service (a : Application) {St : Type} (V : env (app_E a) St) (view : St -> app_state)
    (waits : bool) : Prop :=
  service_ok : forall s,
    owned (view s) = [] -> 0 <= waiting (view s) ->
    wlp V (app_Run a) s (fun o u =>
      match o with
      | Returns err => owned (view u) = [] /\
          (waits = true -> err = None -> waiting (view u) = 0)
      | Panics _ => True
      end).
End applications.

(** *** The seven instances *)
Section instances.
Context (filepath_Join : string -> string -> string) (VolumeName Sprintf : string -> string).
Context (UnmarshalInit : list byte -> (Z * Z * list byte) + error) (MarshalRep : Z -> list byte).
Context (utf16 : string -> list Z) (err_Error : error -> string) (key_String : agent_Key -> string).
Context (service_String : string) (w : tcp_world) (hv : bool).

(** Only the agent of the context is stored, and no connection is accepted. *)
Definition pubkey_env (in_ctx : option Z) : env PubKeyE (app_state * option Z) :=
  {| may X e s := match e with SetAg a => in_ctx = Some a | _ => True end;
     does X e s :=
       match e in PubKeyE X return X -> app_state * option Z -> Prop with
       | CtxAgent => fun r t => r = in_ctx /\ t = s
       | SetAg a => fun _ t => t = (s.1, Some a)
       end |}.

#[export] Instance PubKeyView_service (in_ctx : option Z) :
  Service (PubKeyView utf16 err_Error key_String) (pubkey_env in_ctx) fst false.
Proof.
  intros s Ho Hw. unfold PubKeyView_Run. prog. split; [done|]. intros [a|] t [Hag ->]; prog;
    [|by split]. split; [done|]. intros [] ? ->. by split.
Qed.

#[export] Instance WSL_service :
  Service (WSL filepath_Join VolumeName Sprintf utf16)
    (app_env (checked w) (other_user w) w) id true.
Proof.
  intros s Ho Hw. eapply wp_mono; [by apply Wsl_Run_ok|]. intros [err|msg] u; [|done].
  intros (Hu & _ & [[He _]|[Hn _]]); (split; [done|]); intros _; [done|].
  intros He. by apply Hn.
Qed.

#[export] Instance VSock_service :
  Service (VSock utf16 err_Error service_String) (vsock_env w hv) vapp false.
Proof.
  intros s Ho Hw. eapply wp_mono; [by apply Run_vsock|]. intros [err|msg] u; [|done].
  intros (Hu & _). by split.
Qed.

#[export] Instance Cygwin_service :
  Service (Cygwin filepath_Join utf16) (app_env cookie_shown (fun _ _ => True) w) id true.
Proof.
  intros s Ho Hw. eapply wp_mono; [by apply Cygwin_Run_ok|]. intros [err|msg] u; [|done].
  intros (Hu & _ & _ & _ & Hn). split; [done|]. intros _ He. by apply Hn.
Qed.

#[export] Instance NamedPipe_service :
  Service (NamedPipe utf16) (app_env (fun _ _ => True) (fun _ _ => False) w) id true.
Proof.
  intros s Ho Hw. eapply wp_mono; [by apply Run_serves_pipe|]. intros [err|msg] u; [|done].
  intros (Hu & _ & [[He _]|(_ & Hn & _)]); (split; [exact Hu|]); intros _ Hn'; [done|exact Hn].
Qed.

#[export] Instance Pageant_service :
  Service Pageant (app_env (fun _ _ => True) (fun _ _ => False) w) id true.
Proof.
  intros s Ho Hw. eapply wp_mono; [by apply Pageant_Run_ok|]. intros [[e|]|msg] u; [| |done].
  - by intros ->.
  - by intros (_ & _ & Hu & Hn & _).
Qed.

#[export] Instance XShell_service :
  Service (XShell UnmarshalInit MarshalRep)
    (app_env (cookie_presented UnmarshalInit) (fun _ _ => True) w) id true.
Proof.
  intros s Ho Hw. eapply wp_mono; [by apply (XShell_Run_ok UnmarshalInit (fun _ => None))|]. intros [err|msg] u; [|done].
  intros (Hu & [[He _]|[Hn _]]); (split; [exact Hu|]); intros _ Hn'; [done|exact Hn].
Qed.
End instances.

(** ** What main may rely on *)

(** What a goroutine may use of main: dialogs, and the count of the wait
    group. *)
Definition goroutine_env : env MainE (list Desktop.shown * nat) :=
  {| may X e s :=
       match e with
       | MUi _ (UDesktop _ _) => True
       | MWgDone => True
       | _ => False
       end;
     does X e s :=
       match e in MainE X return X -> list Desktop.shown * nat -> Prop with
       | MUi _ u =>
           match u in UiE X return X -> list Desktop.shown * nat -> Prop with
           | UDesktop _ d => fun x t => exists l, does desktop_env d s.1 x l /\ t = (l, s.2)
           | _ => fun _ _ => False
           end
       | MWgDone => fun _ t => t = (s.1, S s.2)
       | _ => fun _ _ => False
       end |}.

Lemma message_shown title text style s :
  (x00 ∉ bytes_of title) ->
  wp goroutine_env (message title text style) s (returns (fun _ t =>
    t = ((if decide (x00 ∈ bytes_of text) then s.1 else s.1 ++ [Dialog text]), s.2))).
Proof.
  intros Htitle. unfold message, on_ui. apply wp_bind. eapply wp_mono.
  - apply (wp_translate Total (Env UiE (list Desktop.shown * nat)
      (fun X e s => match e with UDesktop _ _ => True | _ => False end)
      (fun X e s => match e in UiE X return X -> list Desktop.shown * nat -> Prop with
                    | UDesktop _ d => fun x t => exists l, does desktop_env d s.1 x l /\ t = (l, s.2)
                    | _ => fun _ _ => False end)) goroutine_env MUi id (fun _ => True));
      [|done|].
    + intros X e t _ Hm. by destruct e.
    + apply (wp_translate Total desktop_env _ UDesktop fst (fun t => t.2 = s.2)); [|done|].
      * intros X e t Ht _. split; [done|]. intros x u (l & Hl & ->). done.
      * apply MessageBox_exact.
  - intros [r|msg] t [[Hr Ht] _]; [|done]. destruct t as [l n], s as [l0 n0]. cbn in *. subst n.
    destruct (decide (x00 ∈ bytes_of text)).
    + rewrite decide_True in Hr by auto. by destruct Hr as [_ ->].
    + rewrite decide_False in Hr by tauto. by subst l.
Qed.

(** The names of the applications can be shown. *)
Lemma AppId_String_shown id : x00 ∉ bytes_of (AppId_String id +:+ " Error:").
Proof.
  rewrite bytes_of_app, not_elem_of_app. split; [|by apply (bool_decide_unpack _); vm_compute].
  unfold AppId_String, lookup_name. destruct (find _ _) as [x|] eqn:Hf.
  - apply find_some in Hf as [Hin _]. revert x Hin. apply List.Forall_forall.
    apply (bool_decide_unpack _). by vm_compute.
  - by apply (bool_decide_unpack _); vm_compute.
Qed.

(** The dialog for the result of [Run]: its error, if it can be shown. *)
Definition reported (err_Error : error -> string) (err : option error)
    (shown : list Desktop.shown) : list Desktop.shown :=
  match err with
  | None => shown
  | Some e => if decide (x00 ∈ bytes_of (err_Error e)) then shown
              else shown ++ [Dialog (err_Error e)]
  end.

Section goroutine.
Context (err_Error : error -> string) (a : Application) {St : Type}.
Context (Va : env (app_E a) St) (view : St -> app_state) (waits : bool) `{!Service a Va view waits}.
Local Abbreviation V := (sum_env Va goroutine_env).

(** (C24) The goroutine of any application, against nothing but the interface.
    It does what [Run] does, in one of the executions of [Run], and what follows
    is determined by how that execution ended.  If [Run] returned, no accepted
    connection is left over, and no handler is running if it returned no error
    and is an application that waits for its handlers; exactly one dialog
    shows the error it returned (none, if the text has a NUL byte), and none is
    shown if it returned no error; and main's wait group was told exactly once.
    If [Run] panicked, so does the goroutine, nothing is shown, and main is never
    told. *)
Theorem app_goroutine_spec s shown n :
  owned (view s) = [] -> 0 <= waiting (view s) ->
  wlp V (app_goroutine err_Error a) (s, (shown, n)) (fun o u =>
    exists r, exec Va (app_Run a) s r u.1 /\
    match r with
    | Returns err => o = Returns tt /\ owned (view u.1) = [] /\
        (waits = true -> err = None -> waiting (view u.1) = 0) /\
        u.2 = (reported err_Error err shown, S n)
    | Panics msg => o = Panics msg /\ u.2 = (shown, n)
    end).
Proof.
  intros Ho Hw. unfold app_goroutine. apply wp_bind.
  eapply wp_mono; [by apply wp_left, wlp_exec, service_ok|].
  intros [err|msg] [u g] [[Hu Hex] Hg0]; cbn [fst snd] in Hu, Hex, Hg0; subst g;
    [|by exists (Panics msg)].
  destruct Hu as [Hu Hwait].
  assert (Hend : forall u2, u2 = (reported err_Error err shown, n) ->
    wlp V (call (InR MWgDone)) (u, u2) (fun o u => exists r, exec Va (app_Run a) s r u.1 /\
      match r with
      | Returns err => o = Returns tt /\ owned (view u.1) = [] /\
          (waits = true -> err = None -> waiting (view u.1) = 0) /\
          u.2 = (reported err_Error err shown, S n)
      | Panics msg => o = Panics msg /\ u.2 = (shown, n)
      end)).
  { intros ? ->. prog. split; [done|]. intros [] [u' g'] [Hg Hu']. cbn in Hg, Hu'. subst u' g'.
    by exists (Returns err). }
  destruct err as [e|]; [|by apply Hend].
  apply wp_bind. eapply wp_mono; [apply wp_right, wp_total, message_shown, AppId_String_shown|].
  intros [x|msg] [u' g'] [Hg Hu']; cbn [fst snd] in *; subst u'; [|done]. by apply Hend.
Qed.
End goroutine.

(** (C23) Every application main starts keeps the promise of the interface, in
    the environment that says whom it may serve: XShell and Cygwin only who
    presented their cookie, WSL over TCP only after its owner check, and the
    named pipe and Pageant refuse nobody, WSL only another user's process.  Their
    ids, which are the keys of the menu, are distinct, and
    their entries are registered in the order of the list. *)
Theorem applications_are_services filepath_Join VolumeName Sprintf UnmarshalInit MarshalRep utf16
    err_Error key_String service_String (w : tcp_world) (hv : bool) (in_ctx : option Z) :
  let anybody := fun (_ : app_state) (_ : Z) => True in
  let nobody := fun (_ : app_state) (_ : Z) => False in
  let apps := applications filepath_Join VolumeName Sprintf UnmarshalInit MarshalRep utf16
                err_Error key_String service_String in
  Service (PubKeyView utf16 err_Error key_String) (pubkey_env in_ctx) fst false /\
  Service (WSL filepath_Join VolumeName Sprintf utf16) (app_env (checked w) (other_user w) w) id true /\
  Service (VSock utf16 err_Error service_String) (vsock_env w hv) vapp false /\
  Service (Cygwin filepath_Join utf16) (app_env cookie_shown anybody w) id true /\
  Service (NamedPipe utf16) (app_env anybody nobody w) id true /\
  Service Pageant (app_env anybody nobody w) id true /\
  Service (XShell UnmarshalInit MarshalRep)
    (app_env (cookie_presented UnmarshalInit) anybody w) id true /\
  NoDup (map AppId apps) /\
  map app_Menu apps = application_menus utf16 err_Error key_String service_String.
Proof.
  split_and!; [exact _..| |done].
  cbn [map AppId applications]. apply (bool_decide_unpack _). by vm_compute.
Qed.

Lemma app_goroutine_spec_witness :
  let V := app_env (fun _ _ => True) (fun _ _ => False) demo_world in
  wlp (sum_env V goroutine_env)
    (app_goroutine (fun _ => "error"%string) (NamedPipe (fun _ => []))) (demo_app, ([], O)) (fun o u =>
    exists r, exec V Pipe.Run demo_app r u.1 /\
    match r with
    | Returns err => o = Returns tt /\ owned u.1 = [] /\
        (true = true -> err = None -> waiting u.1 = 0) /\
        u.2 = (reported (fun _ => "error"%string) err [], 1%nat)
    | Panics msg => o = Panics msg /\ u.2 = ([], O)
    end).
Proof.
  apply (app_goroutine_spec (fun _ => "error"%string) (NamedPipe (fun _ => []))
           (app_env (fun _ _ => True) (fun _ _ => False) demo_world) id true demo_app [] O).
  - reflexivity.
  - cbn. lia.
Defined.
